(* ===== verification/_CoqProject ===== *)
-Q . S2P
Prelude.v
Text.v
Ids.v
F64.v
Json.v
Glob.v
Policy.v
Lexer.v
Parser.v
ParserSpec.v
ParserPrint.v
PolicySpec.v
PolicyTools.v
Canonical.v
Time.v
Clock.v
Errors.v
Keys.v
Remit.v
RemitSpec.v
RemitToken.v
Payloads.v
PayloadLaws.v
Events.v
Fold.v
RunJson.v
FoldSpec.v
Template.v
Schema.v
Bundle.v
BundleSpec.v
Store.v
Kernel.v
Reads.v
Scenario.v
Hoare.v
History.v
StoreInv.v
KernelInv.v
Replay.v
LeaseSpec.v
StepSpec.v
ActionSpec.v
StartSpec.v
RevokeSpec.v
Paging.v
Progress.v
Supply.v
Turns.v
Desks.v
DeskSteps.v
Waking.v
GivingUp.v
NoStuck.v
Finality.v
Unwind.v
Reverse.v
Metrics.v
KeyFiles.v
Opening.v
Config.v
Server.v
ServerSpec.v
Cli.v
EndToEnd.v
Process.v
Render.v
