(* ===== verification/Prelude.v ===== *)
(** * Kernos: a verification development

    Kernos is an agent kernel: it runs workflows of signed bundles for workers that lease
    steps over HTTP, keeps one hash-linked event log for each run, and lets an action through
    only under the policies of a remit or the approval of a human.  This library models the
    Rust crates [kernos-policy], [kernos-core] and [kernos] under [src/crates] and proves what
    makes them correct.

    ** The program and how its parts interact

    A request reaches the [HTTP server], which authenticates it, routes it and runs one
    operation of the [Kernel].  An operation opens a transaction on the [Store], loads the
    materialised state of a run, appends events to its log ([append_raw]), applies each to the
    state ([Fold]), and rewrites the rows of the run from it ([persist]).  What it may do is
    decided by [Remit] (a signed, only narrowing capability) and by [Policy] (rules over the
    context of an action); what it runs comes from a [Bundle], whose inputs are checked by
    [Schema] and whose templates are resolved by [Template].  [Replay] recomputes hashes, state
    and decisions from the log.  The [command line] is a client of the server.

    ** The files

    Foundations
    - [Prelude]: results and their notation, lists, machine bounds, tactics, hint databases.
    - [Text], [F64], [Json]: Rust strings, binary64, [serde_json::Value] and derived codecs.
    - [Ids] ([ids.rs]), [Time] ([time.rs]), [Clock] ([clock.rs]), [Errors] ([error.rs]),
      [Canonical] ([canonical.rs]).

    Policies ([kernos-policy])
    - [Glob] ([glob.rs]); [Policy] ([ast.rs], [value.rs], [eval.rs]); [Lexer] ([lexer.rs],
      [duration.rs], [error.rs]); [Parser] ([parser.rs]); [PolicyTools] ([directory.rs],
      [corpus.rs]).
    - [ParserSpec]: parsing is total; [ParserPrint]: printed policies parse back;
      [PolicySpec]: the decision procedure implements a declarative semantics.

    Authority
    - [Keys] and [KeyFiles] ([keys.rs], the trusted keys of [kernel.rs]); [Remit]
      ([remit.rs]), with [RemitSpec] (delegation only narrows) and [RemitToken] (tokens).

    The log
    - [Payloads], [Events] ([events.rs]), [PayloadLaws] (payloads survive the log); [Fold] and
      [RunJson] ([fold.rs]), with [FoldSpec] (the state machine stays coherent).

    Workflows
    - [Template] ([template.rs]), [Schema] ([schema.rs]), [Bundle] ([bundle.rs]) and
      [BundleSpec] (what validation promises).

    The kernel
    - [Store] ([store.rs]): a record with one field for each table, one definition for each
      query, and the monad [M] of operations.  [Kernel] ([kernel.rs]): every operation that
      writes.  [Reads]: every operation that only reads.  [Replay] ([replay.rs]).  [Opening]:
      [Kernel::open] and the migrations.  [Metrics] ([metrics.rs]).
    - [Scenario]: one run through the kernel on concrete functions; its stores are where the
      theorems are applied.
    - [Hoare]: triples for [M] and the class [Evolves] of relations every step keeps.
      [History], [StoreInv], [KernelInv]: the log is append-only, and rows equal folds.
      [LeaseSpec], [StepSpec], [ActionSpec], [StartSpec], [RevokeSpec]: one file for each
      group of operations.  [Paging]: cursors lose nothing.  [Progress]: nothing gets stuck.
      [Supply]: a worker that asks for work gets it.
    - [Turns]: an abstract machine of one run, whose steps take turns under leases and
      approvals, and its invariant [live].  [Desks] reads a run of the store as a state of that
      machine, [DeskSteps] follows each operation on it, [Waking] shows when resuming works and
      [GivingUp] when abandoning does, and [NoStuck] concludes: the kernel refines the machine,
      and so no run is stuck.
      [Finality]: a completed step stays completed, and a run is completed exactly when its
      steps are.  [Reverse]: what abandoning a run schedules.  [Unwind] has the scenarios that
      show why runs that are being given up are left out.

    The outside ([kernos])
    - [Config] ([config.rs]), [Server] (the handlers of [server.rs]) with [ServerSpec], [Cli]
      ([client.rs], [cli.rs]), [Render] (what [cli.rs] prints), [EndToEnd] (client and server
      together), [Process] ([start], the sweepers and [shutdown] of [server.rs] as the steps of
      a machine that may crash and be started again).

    ** What the theorems show

    - Consistency: [KernelInv.reachable_consistent], by triples for every operation from the
      empty store; [LeaseSpec.requests_only_append]; [FoldSpec.fold_coherent]; and replay
      confirms it ([Replay.replay_confirms]).
    - Authority: an action needs a policy or a human; an approval is decided once, by an
      approver; a remit starts one run and a child never holds more than its parent; tokens
      are sound and round trip; policy decisions refine [spec_decision].
    - Leases: only runnable steps are handed out, only the live holder reports, once; retries
      are bounded; a completed step is never handed out again, and a run is completed exactly
      when its steps are ([Finality]); abandoning revokes, and unwinds in
      reverse ([Reverse.abandon_unwinds_in_reverse]).
    - Progress: on a store the kernel wrote a worker gets work whenever a step may run, the
      holder of a step is never refused, and the sweepers finish.  Every request moves every run
      by steps of the machine of turns ([NoStuck.requests_follow_turns]), so a run always has a
      next move and may always be given up ([NoStuck.no_run_is_stuck]), a lost worker is recovered after any sequence of
      requests, crashes and restarts ([Process.lost_workers_recovered]); abandoning a run again
      whose unwind failed does get it stuck, and so do two compensations that are given one
      name ([Unwind.unwinds_get_stuck]).
    - Integrity: canonical JSON is injective, so equal last hashes mean equal logs or a
      collision of the hash; payloads and policies read back.
    - The outside: a request does what its one kernel operation does, and only for the bearer
      of the token; a failed request leaves no trace but the two that must be recorded; the
      command line prints the whole log; a restart keeps the key; key files and the key cache
      mean what they say; an interrupted migration is repaired, but for one gap.

    ** Conventions, bounds and fuel

    A Rust integer is a [Z] with its range where the code can leave it (saturating, checked
    and cast operations are written out); [f64] is the Standard Library's [spec_float] at
    binary64.  A [Result] is [result], a panic-free early return is its bind.  The random
    bytes, the clock and the jitter of an operation are in [Call]; the configuration, key and
    directory in [Kernel].  [Mutex]es serialise operations, so an interleaving of requests is
    a sequence of them ([reachable]).

    Fuel: the lexer takes the number of characters and the parser the number of tokens, and
    both are shown to be enough ([lex_terminates], [ParserSpec.parse_total]); the paging loop
    of the command line takes one more than the events left and is shown to finish with that
    ([EndToEnd.cli_prints_log]); [migrate] takes the four statements there are
    ([migrate_enough]).  Other recursion is structural.

    [small s] bounds the number of events in a store by [i64::MAX], which is where the
    sequence numbers of SQLite end; [room n s] leaves space for [n] more.  [short s] bounds it by
    [2 ^ 32], so that the index of a step, a [u32], fits.  In [Process] a crash falls between
    operations, because each operation is one transaction of the database.

    ** What is a parameter

    Code outside the repository enters as a class, with what the code relies on in a second
    class or in a hypothesis: [FloatFormat], [Sha256], [JsonPrint], [JsonPretty], [JsonText]
    (serde_json and sha2), [Crypto] and [KeyBytes] (ed25519, base64, PEM), [Regex],
    [UnicodeTables] and [F64Display] (the Rust library's tables and float text), [Http] (the
    router, query and body extractors of axum), [Wire] and [Sentences] (human sentences and
    the framework's own rejections).  Every theorem that assumes something of them is applied
    to concrete functions in its witness.

    ** Not modelled

    The human sentences of errors and all log lines; duplicate keys in the JSON of a request;
    poisoned locks and panics; argument parsing (clap); the sockets, the timers and the delivery
    of signals of [serve], which decide only when a step of [Process] happens; SQLite
    beyond the tables, constraints and statements used; bumps of counters inside kernel
    operations; the Go gateway and the SDKs, which are other programs on the same API. *)

From stdpp Require Export base list strings option numbers.
From Stdlib Require Export ZArith NArith Lia Bool.

#[global] Open Scope Z_scope.
#[global] Open Scope list_scope.

#[global] Arguments String.append !_ _ / : simpl nomatch.

(** ** Results

    Rust's [Result<A, E>], with the [?] operator as a notation. *)

Inductive result (E A : Type) : Type :=
| Ok (a : A)
| Err (e : E).
Arguments Ok {E A} a.
Arguments Err {E A} e.

Declare Scope kernos_scope.
Delimit Scope kernos_scope with kernos.
#[global] Open Scope kernos_scope.

Definition rbind {E A B : Type} (f : A -> result E B) (c : result E A) : result E B :=
  match c with
  | Ok a => f a
  | Err e => Err e
  end.

Notation "'let?' x ':=' c 'in' k" := (rbind (fun x => k) c)
  (at level 10, x pattern, c at level 100, k at level 200) : kernos_scope.

Definition rmap {E A B : Type} (f : A -> B) (c : result E A) : result E B :=
  rbind (fun a => Ok (f a)) c.

(** [Option::ok_or] and [Result::ok]. *)
Definition ok_or {E A : Type} (e : E) (o : option A) : result E A :=
  match o with Some a => Ok a | None => Err e end.

Definition is_ok {E A : Type} (r : result E A) : bool :=
  match r with Ok _ => true | Err _ => false end.

Lemma rbind_ok {E A B} (f : A -> result E B) c b :
  rbind f c = Ok b -> exists a, c = Ok a /\ f a = Ok b.
Proof. destruct c; simpl; [eauto | discriminate]. Qed.

Lemma rbind_intro {E A B} (f : A -> result E B) c a b :
  c = Ok a -> f a = Ok b -> rbind f c = Ok b.
Proof. by intros ->. Qed.

Lemma ok_or_ok {E A} (e : E) (o : option A) a : ok_or e o = Ok a <-> o = Some a.
Proof. destruct o; simpl; split; congruence. Qed.

(** Running a fallible action on every element, stopping at the first error,
    as a [for] loop with [?] in its body does. *)
Fixpoint rfor {E A : Type} (l : list A) (f : A -> result E unit) : result E unit :=
  match l with
  | [] => Ok tt
  | x :: l => let? _ := f x in rfor l f
  end.

Lemma rfor_ok {E A} (l : list A) (f : A -> result E unit) :
  rfor l f = Ok tt <-> Forall (fun x => f x = Ok tt) l.
Proof.
  induction l as [|x l IH]; simpl; [split; [constructor | done]|].
  destruct (f x) as [[]|e] eqn:Hx; simpl.
  - rewrite IH. split; [by constructor | by inversion 1].
  - split; [done | inversion 1; congruence].
Qed.

(** Mapping a fallible function, stopping at the first error
    ([collect::<Result<Vec<_>, _>>]). *)
Fixpoint rmapM {E A B : Type} (f : A -> result E B) (l : list A) : result E (list B) :=
  match l with
  | [] => Ok []
  | x :: l => let? y := f x in let? ys := rmapM f l in Ok (y :: ys)
  end.

Fixpoint omapM {A B : Type} (f : A -> option B) (l : list A) : option (list B) :=
  match l with
  | [] => Some []
  | x :: l => match f x with
              | Some y => match omapM f l with Some ys => Some (y :: ys) | None => None end
              | None => None
              end
  end.

Lemma omapM_map {A B C} (f : B -> option C) (g : A -> B) (h : A -> C) l :
  (forall a, f (g a) = Some (h a)) -> omapM f (map g l) = Some (map h l).
Proof. intros H. induction l as [|x l IH]; simpl; [done|]. by rewrite H, IH. Qed.

(** ** Machine integers

    A [u32], [u64] or [i64] is a [Z]; the definitions write the wrap-around, the
    saturation or the cast the code performs. *)

Definition u32_max : Z := 2 ^ 32 - 1.
Definition u64_max : Z := 2 ^ 64 - 1.
Definition i64_max : Z := 2 ^ 63 - 1.
Definition i64_min : Z := - 2 ^ 63.

Definition is_u32 (z : Z) : bool := (0 <=? z) && (z <=? u32_max).
Definition is_u64 (z : Z) : bool := (0 <=? z) && (z <=? u64_max).
Definition is_i64 (z : Z) : bool := (i64_min <=? z) && (z <=? i64_max).

(** [u64 + u64] and [u32 + u32] in the release profile (no overflow checks). *)
Definition u64_add (a b : Z) : Z := (a + b) mod 2 ^ 64.
Definition u32_add (a b : Z) : Z := (a + b) mod 2 ^ 32.

(** [u64 as i64]: the low 64 bits, reinterpreted. *)
Definition u64_as_i64 (z : Z) : Z := if z <? 2 ^ 63 then z else z - 2 ^ 64.

(** Two's complement wrap of an [i64] result. *)
Definition i64_wrap (z : Z) : Z := (z + 2 ^ 63) mod 2 ^ 64 - 2 ^ 63.
Definition i64_saturating_add (a b : Z) : Z := Z.max i64_min (Z.min i64_max (a + b)).
Definition u64_saturating_mul (a b : Z) : Z := Z.min u64_max (a * b).

Lemma is_u64_spec z : is_u64 z = true <-> 0 <= z <= u64_max.
Proof. unfold is_u64. rewrite andb_true_iff, !Z.leb_le. tauto. Qed.

Lemma is_u32_spec z : is_u32 z = true <-> 0 <= z <= u32_max.
Proof. unfold is_u32. rewrite andb_true_iff, !Z.leb_le. tauto. Qed.

Lemma is_i64_spec z : is_i64 z = true <-> i64_min <= z <= i64_max.
Proof. unfold is_i64. rewrite andb_true_iff, !Z.leb_le. tauto. Qed.

Lemma u64_as_i64_small z : 0 <= z <= i64_max -> u64_as_i64 z = z.
Proof. unfold u64_as_i64, i64_max. intros. destruct (Z.ltb_spec z (2 ^ 63)); lia. Qed.

Lemma i64_wrap_small z : i64_min <= z <= i64_max -> i64_wrap z = z.
Proof.
  unfold i64_wrap, i64_min, i64_max. intros. rewrite Z.mod_small by lia. lia.
Qed.

Lemma u64_add_small a b : 0 <= a -> 0 <= b -> a + b <= u64_max -> u64_add a b = a + b.
Proof. unfold u64_add, u64_max. intros. rewrite Z.mod_small; lia. Qed.

Lemma u64_add_range a b : 0 <= u64_add a b <= u64_max.
Proof.
  unfold u64_add, u64_max.
  pose proof (Z.mod_pos_bound (a + b) (2 ^ 64) ltac:(lia)). lia.
Qed.

(** ** Lists *)

(** [iter().find(p)] and the in-place update of [iter_mut().find(p)]. *)
Fixpoint find_first {A} (p : A -> bool) (l : list A) : option A :=
  match l with
  | [] => None
  | x :: l => if p x then Some x else find_first p l
  end.

Fixpoint update_first {A} (p : A -> bool) (f : A -> A) (l : list A) : list A :=
  match l with
  | [] => []
  | x :: l => if p x then f x :: l else x :: update_first p f l
  end.

(** A SQL [UPDATE ... WHERE p]: every matching row changes. *)
Definition update_all {A} (p : A -> bool) (f : A -> A) (l : list A) : list A :=
  map (fun x => if p x then f x else x) l.

(** [iter().any] and [iter().all]. *)
Definition any {A} (p : A -> bool) (l : list A) : bool := existsb p l.
Definition all {A} (p : A -> bool) (l : list A) : bool := forallb p l.

Lemma find_first_some {A} (p : A -> bool) l x :
  find_first p l = Some x -> In x l /\ p x = true.
Proof.
  induction l as [|y l IH]; simpl; [done|].
  destruct (p y) eqn:E; [intros [= ->]; auto|]. intros H. destruct (IH H). auto.
Qed.

Lemma find_first_none {A} (p : A -> bool) l :
  find_first p l = None <-> Forall (fun x => p x = false) l.
Proof.
  induction l as [|y l IH]; simpl; [split; [constructor|done]|].
  destruct (p y) eqn:E.
  - split; [done | inversion 1; congruence].
  - rewrite IH. split; [by constructor | by inversion 1].
Qed.

(** The found element is the first one: everything before it fails [p]. *)
Lemma find_first_split {A} (p : A -> bool) l x :
  find_first p l = Some x <->
  exists l1 l2, l = l1 ++ x :: l2 /\ p x = true /\ Forall (fun y => p y = false) l1.
Proof.
  split.
  - induction l as [|y l IH]; simpl; [done|].
    destruct (p y) eqn:E.
    + intros [= ->]. exists [], l. auto.
    + intros H. destruct (IH H) as (l1 & l2 & -> & Hx & Hl).
      exists (y :: l1), l2. auto.
  - intros (l1 & l2 & -> & Hx & Hl). induction Hl as [|y l1 Hy _ IH]; simpl.
    + by rewrite Hx.
    + by rewrite Hy.
Qed.

Lemma find_first_app {A} (p : A -> bool) l1 l2 :
  find_first p (l1 ++ l2) = match find_first p l1 with Some x => Some x | None => find_first p l2 end.
Proof. induction l1 as [|x l1 IH]; simpl; [done|]. by destruct (p x). Qed.

Lemma find_first_ext {A} (p q : A -> bool) l :
  (forall x, In x l -> p x = q x) -> find_first p l = find_first q l.
Proof.
  induction l as [|x l IH]; simpl; intros H; [done|].
  rewrite (H x) by auto. destruct (q x); [done|]. apply IH. auto.
Qed.

Lemma length_update_first {A} (p : A -> bool) f l :
  length (update_first p f l) = length l.
Proof. induction l as [|x l IH]; simpl; [done|]. destruct (p x); simpl; auto. Qed.

Lemma update_first_none {A} (p : A -> bool) f l :
  find_first p l = None -> update_first p f l = l.
Proof.
  induction l as [|x l IH]; simpl; [done|]. destruct (p x); [done|].
  intros. by rewrite IH.
Qed.

(** Updating the first match through a function that keeps a projection keeps the
    whole projected list. *)
Lemma map_update_first {A B} (g : A -> B) (p : A -> bool) f l :
  (forall x, g (f x) = g x) -> map g (update_first p f l) = map g l.
Proof.
  intros H. induction l as [|x l IH]; simpl; [done|].
  destruct (p x); simpl; by rewrite ?H, ?IH.
Qed.

Lemma map_update_all {A B} (g : A -> B) (p : A -> bool) f l :
  (forall x, g (f x) = g x) -> map g (update_all p f l) = map g l.
Proof.
  intros H. unfold update_all. rewrite map_map. apply map_ext. intros x.
  by destruct (p x).
Qed.

(** ** Automation *)

Create HintDb kernos discriminated.

#[export] Hint Resolve length_update_first : kernos.

(** Case analysis on the head [match] or [if] of a hypothesis or the goal, with the
    equation kept and absurd branches discarded. *)
Ltac destr_match H :=
  match type of H with
  | context [match ?x with _ => _ end] => let E := fresh "E" in destruct x eqn:E
  end; try discriminate H.

Ltac break_match :=
  match goal with
  | |- context [match ?x with _ => _ end] =>
      match x with
      | context [match _ with _ => _ end] => fail 1
      | _ => let E := fresh "E" in destruct x eqn:E
      end
  end.

(** Turns boolean equations into propositions. *)
Ltac bool_prop :=
  repeat match goal with
  | H : _ && _ = true |- _ => apply andb_true_iff in H as [? ?]
  | H : _ || _ = false |- _ => apply orb_false_iff in H as [? ?]
  | H : _ || _ = true |- _ => apply orb_true_iff in H
  | H : negb _ = true |- _ => apply negb_true_iff in H
  | H : negb _ = false |- _ => apply negb_false_iff in H
  | H : (_ =? _)%Z = true |- _ => apply Z.eqb_eq in H
  | H : (_ =? _)%Z = false |- _ => apply Z.eqb_neq in H
  | H : (_ <=? _)%Z = true |- _ => apply Z.leb_le in H
  | H : (_ <=? _)%Z = false |- _ => apply Z.leb_gt in H
  | H : (_ <? _)%Z = true |- _ => apply Z.ltb_lt in H
  | H : (_ <? _)%Z = false |- _ => apply Z.ltb_ge in H
  | H : bool_decide _ = true |- _ => apply bool_decide_eq_true in H
  | H : bool_decide _ = false |- _ => apply bool_decide_eq_false in H
  end.

(** Unfolds a chain of [let?] in a hypothesis that says it returned [Ok]. *)
Ltac inv_ok :=
  repeat match goal with
  | H : rbind _ _ = Ok _ |- _ =>
      let a := fresh "a" in let Ha := fresh "Ha" in
      apply rbind_ok in H as (a & Ha & H)
  | H : ok_or _ _ = Ok _ |- _ => apply ok_or_ok in H
  | H : Ok _ = Ok _ |- _ => injection H as H; subst
  | H : Err _ = Ok _ |- _ => discriminate H
  end.

Lemma any_true {A} (p : A -> bool) l : any p l = true <-> exists x, In x l /\ p x = true.
Proof. apply existsb_exists. Qed.

(** Elements of a list whose images do not repeat are determined by their image. *)
Lemma nodup_map_inj {A B} (f : A -> B) l x y :
  List.NoDup (map f l) -> In x l -> In y l -> f x = f y -> x = y.
Proof.
  induction l as [|z l IH]; [done|]. cbn. intros [Hz Hnd]%List.NoDup_cons_iff Hx Hy E.
  destruct Hx as [->|Hx], Hy as [->|Hy]; [done | | |by apply IH]; exfalso; apply Hz.
  - rewrite E. by apply in_map.
  - rewrite <- E. by apply in_map.
Qed.
