(* ===== verification/Text.v ===== *)
(** * Rust strings

    A Rust [str] is a Rocq [string] holding its UTF-8 bytes; [chars] splits it into
    its characters, each again a string of one to four bytes.  This file models what
    the sources use of [core::str]: prefixes, suffixes, splitting, trimming, decimal
    printing and parsing. *)

From S2P Require Import Prelude.
From Stdlib Require Import Ascii DecimalString DecimalN.

Local Open Scope string_scope.
Local Open Scope list_scope.
Local Open Scope Z_scope.

(** ** Bytes and characters *)

Definition byte_of (a : ascii) : Z := Z.of_N (N_of_ascii a).

Definition is_ascii_digit (a : ascii) : bool := (48 <=? byte_of a) && (byte_of a <=? 57).
Definition is_ascii_lowercase (a : ascii) : bool := (97 <=? byte_of a) && (byte_of a <=? 122).
Definition is_ascii_uppercase (a : ascii) : bool := (65 <=? byte_of a) && (byte_of a <=? 90).

Fixpoint string_forall (p : ascii -> bool) (s : string) : bool :=
  match s with
  | EmptyString => true
  | String a s => p a && string_forall p s
  end.

Fixpoint string_exists (p : ascii -> bool) (s : string) : bool :=
  match s with
  | EmptyString => false
  | String a s => p a || string_exists p s
  end.

Definition is_empty (s : string) : bool :=
  match s with EmptyString => true | _ => false end.

Definition contains_byte (c : ascii) (s : string) : bool := string_exists (Ascii.eqb c) s.

(** The number of continuation bytes that follow a UTF-8 lead byte. *)
Definition utf8_extra (a : ascii) : nat :=
  let b := byte_of a in
  if b <? 192 then 0%nat else if b <? 224 then 1%nat else if b <? 240 then 2%nat else 3%nat.

Fixpoint chars_from (cur : string) (pending : nat) (s : string) : list string :=
  match s with
  | EmptyString => if is_empty cur then [] else [cur]
  | String a s =>
      match pending with
      | O => match utf8_extra a with
             | O => String a "" :: chars_from "" 0 s
             | k => chars_from (String a "") k s
             end
      | S O => (cur +:+ String a "") :: chars_from "" 0 s
      | S p => chars_from (cur +:+ String a "") p s
      end
  end.

(** [str::chars]. *)
Definition chars (s : string) : list string := chars_from "" 0 s.

(** [char as u32] of a character of [chars]. *)
Definition char_code (c : string) : Z :=
  match c with
  | String a EmptyString => byte_of a
  | String a (String b EmptyString) =>
      (byte_of a mod 32) * 64 + byte_of b mod 64
  | String a (String b (String d EmptyString)) =>
      (byte_of a mod 16) * 4096 + (byte_of b mod 64) * 64 + byte_of d mod 64
  | String a (String b (String d (String e EmptyString))) =>
      (byte_of a mod 8) * 262144 + (byte_of b mod 64) * 4096 + (byte_of d mod 64) * 64
      + byte_of e mod 64
  | _ => -1
  end.

(** [char::is_whitespace]: the Unicode [White_Space] property. *)
Definition is_whitespace (c : string) : bool :=
  let z := char_code c in
  ((9 <=? z) && (z <=? 13)) || (z =? 32) || (z =? 133) || (z =? 160) || (z =? 5760)
  || ((8192 <=? z) && (z <=? 8202)) || (z =? 8232) || (z =? 8233) || (z =? 8239)
  || (z =? 8287) || (z =? 12288).

Fixpoint drop_while {A} (p : A -> bool) (l : list A) : list A :=
  match l with
  | [] => []
  | x :: l' => if p x then drop_while p l' else l
  end.

(** [str::trim]. *)
Definition trim (s : string) : string :=
  String.concat "" (rev (drop_while is_whitespace (rev (drop_while is_whitespace (chars s))))).

(** [str::chars().count()]. *)
Definition char_count (s : string) : Z := Z.of_nat (length (chars s)).

(** ** Prefixes and suffixes *)

Fixpoint strip_prefix (p s : string) : option string :=
  match p, s with
  | EmptyString, _ => Some s
  | String a p, String b s => if Ascii.eqb a b then strip_prefix p s else None
  | String _ _, EmptyString => None
  end.

Definition starts_with (s p : string) : bool :=
  match strip_prefix p s with Some _ => true | None => false end.

(** [str::strip_suffix] of an ASCII character. *)
Fixpoint strip_suffix_char (c : ascii) (s : string) : option string :=
  match s with
  | EmptyString => None
  | String a EmptyString => if Ascii.eqb a c then Some "" else None
  | String a s => match strip_suffix_char c s with
                  | Some r => Some (String a r)
                  | None => None
                  end
  end.

Lemma strip_prefix_spec p s r : strip_prefix p s = Some r <-> s = p +:+ r.
Proof.
  revert s. induction p as [|a p IH]; intros s; simpl; [split; congruence|].
  destruct s as [|b s]; [split; discriminate|].
  destruct (Ascii.eqb_spec a b) as [->|Hne]; [rewrite IH; split; congruence | split; congruence].
Qed.

Lemma starts_with_spec s p : starts_with s p = true <-> exists r, s = p +:+ r.
Proof.
  unfold starts_with. destruct (strip_prefix p s) as [r|] eqn:E.
  - apply strip_prefix_spec in E. split; [eauto | done].
  - split; [done|]. intros [r ->]. by rewrite (proj2 (strip_prefix_spec p _ r)) in E.
Qed.

Lemma string_app_assoc (a b c : string) : (a +:+ b) +:+ c = a +:+ b +:+ c.
Proof. induction a; simpl; congruence. Qed.

Lemma string_app_nil_r (a : string) : a +:+ "" = a.
Proof. induction a; simpl; congruence. Qed.

Lemma strip_suffix_char_spec c s r :
  strip_suffix_char c s = Some r <-> s = r +:+ String c "".
Proof.
  revert r. induction s as [|a s IH]; intros r; [destruct r; split; discriminate|].
  destruct s as [|b s]; cbn [strip_suffix_char].
  - destruct (Ascii.eqb_spec a c) as [->|Hne].
    + split; [intros [= <-]; done|]. destruct r as [|x [|y r]]; simpl; congruence.
    + split; [done|]. destruct r as [|x [|y r]]; simpl; congruence.
  - change (match s with
            | "" => if (b =? c)%char then Some "" else None
            | String _ _ => match strip_suffix_char c s with
                            | Some r0 => Some (String b r0) | None => None end
            end) with (strip_suffix_char c (String b s)).
    destruct (strip_suffix_char c (String b s)) as [t|].
    + assert (String b s = t +:+ String c "") as Ht by (by apply IH).
      split; [intros [= <-]; simpl; by rewrite <- Ht|].
      destruct r as [|x r]; simpl; [congruence|].
      intros [= -> H]. apply IH in H as [= ->]. done.
    + split; [done|]. destruct r as [|x r]; simpl; [congruence|].
      intros [= -> H]. by apply IH in H.
Qed.

Lemma starts_with_app p q r : starts_with q p = true -> starts_with (q +:+ r) p = true.
Proof.
  rewrite !starts_with_spec. intros [t ->]. exists (t +:+ r). by rewrite string_app_assoc.
Qed.

Lemma starts_with_refl s : starts_with s s = true.
Proof. apply starts_with_spec. exists "". by rewrite string_app_nil_r. Qed.

Lemma starts_with_trans a b c :
  starts_with a b = true -> starts_with b c = true -> starts_with a c = true.
Proof. rewrite (starts_with_spec a b). intros [r ->] H. by apply starts_with_app. Qed.

(** ** Splitting and joining *)

(** [str::split(c)] for an ASCII [c]: always at least one piece. *)
Fixpoint split_on (c : ascii) (s : string) : list string :=
  match s with
  | EmptyString => [""]
  | String a s =>
      if Ascii.eqb a c then "" :: split_on c s
      else match split_on c s with
           | [] => [String a ""]
           | p :: ps => String a p :: ps
           end
  end.

(** [slice.join(sep)]. *)
Definition join (sep : string) (l : list string) : string := String.concat sep l.

(** [str::rsplit_once] of a byte. *)
Fixpoint rsplit_once (c : ascii) (s : string) : option (string * string) :=
  match s with
  | EmptyString => None
  | String a s' =>
      match rsplit_once c s' with
      | Some (b, t) => Some (String a b, t)
      | None => if Ascii.eqb a c then Some (EmptyString, s') else None
      end
  end.

(** [str::contains] of a text. *)
Fixpoint contains_str (p s : string) : bool :=
  starts_with s p || match s with EmptyString => false | String _ s' => contains_str p s' end.

(** [str::split_once(c)]. *)
Fixpoint split_once (c : ascii) (s : string) : option (string * string) :=
  match s with
  | EmptyString => None
  | String a s =>
      if Ascii.eqb a c then Some ("", s)
      else match split_once c s with
           | Some (l, r) => Some (String a l, r)
           | None => None
           end
  end.

Lemma split_on_nonempty c s : split_on c s <> [].
Proof. destruct s as [|a s]; simpl; [done|]. destruct (Ascii.eqb a c); [done|]. by destruct (split_on c s). Qed.

(** Splitting at a byte the parts do not contain. *)
Lemma split_on_app c x y : contains_byte c x = false -> split_on c (x +:+ String c y) = x :: split_on c y.
Proof.
  unfold contains_byte. induction x as [|a x IH]; cbn; [by rewrite Ascii.eqb_refl|].
  intros [Ha Hx]%orb_false_iff. rewrite Ascii.eqb_sym, Ha, IH by done. done.
Qed.

Lemma split_on_one c x : contains_byte c x = false -> split_on c x = [x].
Proof.
  unfold contains_byte. induction x as [|a x IH]; cbn; [done|].
  intros [Ha Hx]%orb_false_iff. rewrite Ascii.eqb_sym, Ha, IH by done. done.
Qed.

Lemma split_join c l : l <> [] -> Forall (fun x => contains_byte c x = false) l -> split_on c (join (String c "") l) = l.
Proof.
  intros Hne Hf. induction Hf as [|x l Hx Hf IH]; [done|]. destruct l as [|y l]; [by apply split_on_one|].
  change (join (String c "") (x :: y :: l)) with (x +:+ String c (join (String c "") (y :: l))).
  rewrite split_on_app by done. by rewrite IH.
Qed.

Lemma split_once_app c x y : contains_byte c x = false -> split_once c (x +:+ String c y) = Some (x, y).
Proof.
  unfold contains_byte. induction x as [|a x IH]; cbn; [by rewrite Ascii.eqb_refl|].
  intros [Ha Hx]%orb_false_iff. rewrite Ascii.eqb_sym, Ha, IH by done. done.
Qed.

Lemma join_split c s : join (String c "") (split_on c s) = s.
Proof.
  induction s as [|a s IH]; [done|]. simpl.
  destruct (Ascii.eqb_spec a c) as [->|Hne].
  - unfold join in *. simpl. destruct (split_on c s) eqn:E; [by apply split_on_nonempty in E|].
    simpl in *. by rewrite IH.
  - destruct (split_on c s) as [|p [|q ps]] eqn:E; [by apply split_on_nonempty in E| |];
      unfold join in *; simpl in *; by rewrite IH.
Qed.

(** ** Decimal numbers *)

(** [format!("{n}")] of an unsigned integer, and of a signed one. *)
Definition dec_N (n : N) : string := NilZero.string_of_uint (N.to_uint n).

Definition dec (z : Z) : string :=
  match z with
  | Z0 => "0"
  | Zpos p => dec_N (Npos p)
  | Zneg p => String "-" (dec_N (Npos p))
  end.

(** The value of a string of ASCII digits, [None] when empty or not all digits. *)
Definition digits_value (s : string) : option Z :=
  match s with
  | EmptyString => None
  | _ => match NilEmpty.uint_of_string s with
         | Some d => Some (Z.of_N (N.of_uint d))
         | None => None
         end
  end.

(** [str::parse::<u64>] (and [usize] on a 64-bit target): an optional [+], digits, no
    overflow. *)
Definition parse_u64 (s : string) : option Z :=
  let body := match s with String "+" r => r | _ => s end in
  match digits_value body with
  | Some z => if z <=? u64_max then Some z else None
  | None => None
  end.

Lemma dec_N_nonempty n : dec_N n <> "".
Proof.
  unfold dec_N, NilZero.string_of_uint. destruct (N.to_uint n) eqn:E; simpl; done.
Qed.

Lemma digits_value_dec_N n : digits_value (dec_N n) = Some (Z.of_N n).
Proof.
  unfold digits_value. destruct (dec_N n) as [|a s] eqn:E; [by apply dec_N_nonempty in E|].
  rewrite <- E. unfold dec_N. destruct (N.to_uint n) as [|d|d|d|d|d|d|d|d|d|d] eqn:Hd;
    try (unfold NilZero.string_of_uint; rewrite NilEmpty.usu, <- Hd, Unsigned.of_to; done).
  exfalso. assert (n = 0%N) as -> by (rewrite <- (Unsigned.of_to n), Hd; done).
  discriminate Hd.
Qed.

Lemma dec_nonneg z : 0 <= z -> dec z = dec_N (Z.to_N z).
Proof. destruct z; simpl; [done | done | lia]. Qed.

Lemma digits_value_dec z : 0 <= z -> digits_value (dec z) = Some z.
Proof. intros. rewrite dec_nonneg, digits_value_dec_N by done. f_equal. lia. Qed.

(** The decimal printer is injective. *)
Lemma dec_inj a b : 0 <= a -> 0 <= b -> dec a = dec b -> a = b.
Proof.
  intros Ha Hb H. apply digits_value_dec in Ha, Hb. congruence.
Qed.

Lemma dec_N_digits n : string_forall is_ascii_digit (dec_N n) = true.
Proof.
  unfold dec_N, NilZero.string_of_uint. destruct (N.to_uint n) as [|d|d|d|d|d|d|d|d|d|d];
    simpl; try done; induction d; simpl; auto.
Qed.

Lemma dec_digits z : 0 <= z -> string_forall is_ascii_digit (dec z) = true.
Proof. intros. rewrite dec_nonneg by done. apply dec_N_digits. Qed.

Lemma parse_u64_dec z : 0 <= z <= u64_max -> parse_u64 (dec z) = Some z.
Proof.
  intros Hz. unfold parse_u64.
  assert (string_forall is_ascii_digit (dec z) = true) as Hd by (apply dec_digits; lia).
  assert (match dec z with String "+" r => r | _ => dec z end = dec z) as ->.
  { destruct (dec z) as [|[[] [] [] [] [] [] [] []] s]; try done; simpl in Hd; discriminate. }
  rewrite digits_value_dec by lia. by destruct (Z.leb_spec z u64_max); [|lia].
Qed.

Lemma string_forall_impl (p q : ascii -> bool) s :
  (forall a, p a = true -> q a = true) -> string_forall p s = true -> string_forall q s = true.
Proof. intros Hpq. induction s; simpl; [done|]. intros H. bool_prop. by rewrite Hpq, IHs. Qed.

Lemma string_forall_app p a b :
  string_forall p (a +:+ b) = string_forall p a && string_forall p b.
Proof. induction a as [|c a IH]; simpl; [done|]. by rewrite IH, andb_assoc. Qed.

Lemma string_exists_app p a b :
  string_exists p (a +:+ b) = string_exists p a || string_exists p b.
Proof. induction a as [|c a IH]; simpl; [done|]. by rewrite IH, orb_assoc. Qed.

(** ** Self-delimiting codes

    Escaped string literals are written byte by byte in a code no word of which starts
    another; such a literal determines its content whatever follows it. *)

Definition all_chars : list ascii := map ascii_of_nat (seq 0 256).

Lemma in_all_chars a : In a all_chars.
Proof.
  unfold all_chars. apply in_map_iff. exists (nat_of_ascii a).
  split; [apply ascii_nat_embedding|]. apply in_seq. pose proof (nat_ascii_bounded a). lia.
Qed.

(** A per-byte code none of whose words starts another, nor with a quote. *)
Definition byte_code_ok (code : ascii -> string) : bool :=
  forallb (fun a =>
    negb (is_empty (code a)) && negb (starts_with (code a) (String "034" "")) &&
    forallb (fun b => Ascii.eqb a b || negb (starts_with (code a) (code b))) all_chars) all_chars.

Lemma app_eq_prefix (a b x y : string) :
  a +:+ x = b +:+ y -> starts_with a b = true \/ starts_with b a = true.
Proof.
  revert b. induction a as [|c a IH]; intros b H; [right; by apply starts_with_spec; exists b|].
  destruct b as [|d b]; [by left|]. simpl in H. injection H as -> H.
  rewrite !starts_with_spec. destruct (IH b H) as [Hs|Hs]; apply starts_with_spec in Hs as [r ->];
    [left | right]; by exists r.
Qed.

Lemma string_app_inj (p x y : string) : p +:+ x = p +:+ y -> x = y.
Proof. induction p; simpl; [done|]. intros [=]; auto. Qed.

Fixpoint encode_body (code : ascii -> string) (s : string) : string :=
  match s with
  | EmptyString => String "034" ""
  | String a s => code a +:+ encode_body code s
  end.

Section ByteCode.
Variable code : ascii -> string.
Hypothesis code_ok : byte_code_ok code = true.

Lemma code_prefix a b : starts_with (code a) (code b) = true -> a = b.
Proof.
  intros H. pose proof code_ok as C. unfold byte_code_ok in C.
  rewrite forallb_forall in C. specialize (C a (in_all_chars a)).
  apply andb_true_iff in C as [_ C]. rewrite forallb_forall in C.
  specialize (C b (in_all_chars b)). apply orb_true_iff in C as [E|E]; [by apply Ascii.eqb_eq|].
  by rewrite H in E.
Qed.

Lemma code_not_quote a x y : code a +:+ x = String "034" y -> False.
Proof.
  pose proof code_ok as C. unfold byte_code_ok in C.
  rewrite forallb_forall in C. specialize (C a (in_all_chars a)).
  apply andb_true_iff in C as [C _]. apply andb_true_iff in C as [C1 C2].
  destruct (code a) as [|c r]; [done|]. simpl. intros [= -> _].
  unfold starts_with in C2. simpl in C2. done.
Qed.

Lemma encode_body_inj s t x y :
  encode_body code s +:+ x = encode_body code t +:+ y -> s = t /\ x = y.
Proof.
  revert t. induction s as [|a s IH]; intros [|b t]; simpl; rewrite ?string_app_assoc.
  - by intros [= ->].
  - intros H. symmetry in H. by apply code_not_quote in H.
  - intros H. by apply code_not_quote in H.
  - intros H. assert (a = b) as ->.
    { destruct (app_eq_prefix _ _ _ _ H) as [E|E]; [|symmetry]; by apply code_prefix. }
    apply string_app_inj in H. destruct (IH _ H) as [-> ->]. done.
Qed.
End ByteCode.

Create Rewrite HintDb kernos_text.
#[export] Hint Rewrite string_app_assoc string_app_nil_r : kernos_text.
#[export] Hint Resolve starts_with_refl starts_with_app dec_N_digits dec_digits : kernos.

Lemma string_compare_refl s : String.compare s s = Eq.
Proof.
  induction s as [|a s IH]; simpl; [done|].
  unfold Ascii.compare. by rewrite N.compare_refl.
Qed.
