(* ===== verification/Ids.v ===== *)
(** * Identifiers ([kernos-core/src/ids.rs])

    A typed identifier is a prefix and a ULID: 48 bits of milliseconds and 80 random bits
    in 26 lowercase Crockford base32 digits.  The random bytes are an argument.  The
    encoding orders as its value does, so identifiers sort by creation time. *)

From S2P Require Import Prelude Text.
From Stdlib Require Import Ascii.

Local Open Scope string_scope.
Local Open Scope list_scope.
Local Open Scope Z_scope.

Definition ALPHABET : string := "0123456789abcdefghjkmnpqrstvwxyz".

Definition alphabet_at (i : Z) : ascii :=
  match String.get (Z.to_nat i) ALPHABET with Some a => a | None => "0"%char end.

(** The 128-bit value: the timestamp shifted above the ten random bytes, most significant
    first. *)
Fixpoint or_bytes (value : Z) (i : Z) (random : list Z) : Z :=
  match random with
  | [] => value
  | byte :: random => or_bytes (Z.lor value (Z.shiftl byte (8 * (9 - i)))) (i + 1) random
  end.

Definition ulid_value (now_ms : Z) (random : list Z) : Z :=
  let timestamp := Z.land (Z.max now_ms 0) (2 ^ 48 - 1) in
  or_bytes (Z.shiftl timestamp 80) 0 random.

(** The [n] low base32 digits of [value], most significant first. *)
Fixpoint base32 (n : nat) (value : Z) : string :=
  match n with
  | O => ""
  | S i => String (alphabet_at (Z.land (Z.shiftr value (Z.of_nat i * 5)) 31)) (base32 i value)
  end.

Definition ulid (now_ms : Z) (random : list Z) : string := base32 26 (ulid_value now_ms random).

Definition new_id (prefix : string) (now_ms : Z) (random : list Z) : string :=
  prefix +:+ "_" +:+ ulid now_ms random.

Definition is_id (prefix text : string) : bool :=
  match (match strip_prefix prefix text with
         | Some rest => strip_prefix "_" rest
         | None => None
         end) with
  | Some body => (String.length body =? 26)%nat && string_forall (fun b => contains_byte b ALPHABET) body
  | None => false
  end.

(** ** The digits *)

Definition digits32 : list Z := map Z.of_nat (seq 0 32).

Lemma in_digits32 d : 0 <= d < 32 -> In d digits32.
Proof.
  intros. unfold digits32. rewrite <- (Z2Nat.id d) by lia. apply in_map, in_seq. lia.
Qed.

Lemma alphabet_compare d e :
  0 <= d < 32 -> 0 <= e < 32 -> Ascii.compare (alphabet_at d) (alphabet_at e) = (d ?= e).
Proof.
  intros Hd He.
  assert (forallb (fun d => forallb (fun e =>
    match Ascii.compare (alphabet_at d) (alphabet_at e), (d ?= e) with
    | Datatypes.Eq, Datatypes.Eq | Datatypes.Lt, Datatypes.Lt | Datatypes.Gt, Datatypes.Gt => true
    | _, _ => false end) digits32) digits32 = true) as H by (vm_compute; reflexivity).
  rewrite forallb_forall in H. specialize (H d (in_digits32 d Hd)).
  rewrite forallb_forall in H. specialize (H e (in_digits32 e He)).
  by destruct (Ascii.compare _ _), (d ?= e).
Qed.

Lemma alphabet_contains d : 0 <= d < 32 -> contains_byte (alphabet_at d) ALPHABET = true.
Proof.
  intros Hd.
  assert (forallb (fun d => contains_byte (alphabet_at d) ALPHABET) digits32 = true) as H
    by (vm_compute; reflexivity).
  rewrite forallb_forall in H. auto using in_digits32.
Qed.

Lemma digit_eq v i : Z.land (Z.shiftr v (Z.of_nat i * 5)) 31 = (v / 2 ^ (Z.of_nat i * 5)) mod 32.
Proof. change 31 with (Z.ones 5). rewrite Z.land_ones, Z.shiftr_div_pow2 by lia. done. Qed.

Lemma digit_range v i : 0 <= Z.land (Z.shiftr v (Z.of_nat i * 5)) 31 < 32.
Proof. rewrite digit_eq. apply Z.mod_pos_bound. lia. Qed.

(** The low [5 (i + 1)] bits are the digit [i] above the low [5 i] bits. *)
Lemma mod_split v i :
  v mod 2 ^ (Z.of_nat (S i) * 5) =
  2 ^ (Z.of_nat i * 5) * ((v / 2 ^ (Z.of_nat i * 5)) mod 32) + v mod 2 ^ (Z.of_nat i * 5).
Proof.
  replace (Z.of_nat (S i) * 5) with (Z.of_nat i * 5 + 5) by lia.
  rewrite Z.pow_add_r by lia. change (2 ^ 5) with 32.
  rewrite Z.rem_mul_r by lia. lia.
Qed.

Lemma lex_compare b d e x y :
  0 <= x < b -> 0 <= y < b ->
  (b * d + x ?= b * e + y) = match d ?= e with Datatypes.Eq => x ?= y | c => c end.
Proof.
  intros Hx Hy. destruct (Z.compare_spec d e) as [->|H|H].
  - destruct (Z.compare_spec x y); [subst; apply Z.compare_refl | apply Z.compare_lt_iff; lia
      | apply Z.compare_gt_iff; lia].
  - apply Z.compare_lt_iff. nia.
  - apply Z.compare_gt_iff. nia.
Qed.

(** Fixed-width base32 compares, byte by byte, as the number does. *)
Lemma base32_compare n v w :
  String.compare (base32 n v) (base32 n w) =
  (v mod 2 ^ (Z.of_nat n * 5) ?= w mod 2 ^ (Z.of_nat n * 5)).
Proof.
  induction n as [|i IH]; cbn [base32].
  - simpl. by rewrite !Z.mod_1_r.
  - cbn [String.compare]. rewrite alphabet_compare by apply digit_range.
    rewrite IH, !mod_split, !digit_eq.
    pose proof (Z.pow_pos_nonneg 2 (Z.of_nat i * 5) ltac:(lia) ltac:(lia)).
    rewrite lex_compare; [done | apply Z.mod_pos_bound; lia | apply Z.mod_pos_bound; lia].
Qed.

Lemma base32_length n v : String.length (base32 n v) = n.
Proof. induction n as [|n IH]; simpl; [done | by rewrite IH]. Qed.

Lemma base32_alphabet n v : string_forall (fun b => contains_byte b ALPHABET) (base32 n v) = true.
Proof.
  induction n as [|n IH]; cbn [base32 string_forall]; [done|].
  rewrite alphabet_contains by apply digit_range. done.
Qed.

(** ** The value *)

Definition is_byte (b : Z) : Prop := 0 <= b < 256.

Lemma lor_disjoint a b k : 0 <= b < 2 ^ k -> 0 <= k -> Z.lor (a * 2 ^ k) b = a * 2 ^ k + b.
Proof.
  intros Hb Hk. rewrite <- Z.shiftl_mul_pow2 by done.
  assert (Z.land (Z.shiftl a k) b = 0) as Hl; [|pose proof (Z.add_lor_land (Z.shiftl a k) b); lia].
  apply Z.bits_inj'. intros n Hn. rewrite Z.land_spec, Z.bits_0.
  destruct (Z.ltb_spec n k).
  - rewrite Z.shiftl_spec_low by lia. done.
  - rewrite <- (Z.mod_small b (2 ^ k)) by lia. rewrite Z.mod_pow2_bits_high by lia.
    apply andb_false_r.
Qed.

(** The number the random bytes spell, most significant first. *)
Fixpoint be_value (bytes : list Z) : Z :=
  match bytes with
  | [] => 0
  | b :: bytes => b * 2 ^ (8 * Z.of_nat (length bytes)) + be_value bytes
  end.

Lemma be_value_range bytes : Forall is_byte bytes -> 0 <= be_value bytes < 2 ^ (8 * Z.of_nat (length bytes)).
Proof.
  unfold is_byte. induction 1 as [|b bytes Hb _ IH]; simpl be_value; simpl length; [lia|].
  replace (8 * Z.of_nat (S (length bytes))) with (8 * Z.of_nat (length bytes) + 8) by lia.
  rewrite Z.pow_add_r by lia. nia.
Qed.

Lemma be_value_inj a b :
  Forall is_byte a -> Forall is_byte b -> length a = length b -> be_value a = be_value b -> a = b.
Proof.
  intros Ha. revert b. induction Ha as [|x a Hx Ha IH]; intros [|y b] Hb Hl; try done.
  inversion Hb as [|? ? Hy Hb']; subst. injection Hl as Hl. simpl. rewrite <- Hl. intros He.
  pose proof (be_value_range a Ha). pose proof (be_value_range b Hb') as Hr. rewrite <- Hl in Hr.
  pose proof (Z.pow_pos_nonneg 2 (8 * Z.of_nat (length a)) ltac:(lia) ltac:(lia)).
  assert (x = y) as -> by nia. f_equal. apply IH; auto. lia.
Qed.

Lemma or_bytes_value hi random :
  Forall is_byte random -> (length random <= 10)%nat ->
  or_bytes (hi * 2 ^ (8 * Z.of_nat (length random))) (10 - Z.of_nat (length random)) random =
  hi * 2 ^ (8 * Z.of_nat (length random)) + be_value random.
Proof.
  intros H. revert hi. induction H as [|b random Hb Hr IH]; intros hi Hl; simpl length in *.
  - simpl. lia.
  - cbn [or_bytes be_value]. set (n := Z.of_nat (length random)) in *.
    replace (Z.of_nat (S (length random))) with (n + 1) by lia.
    replace (8 * (9 - (10 - (n + 1)))) with (8 * n) by lia.
    replace (8 * (n + 1)) with (8 * n + 8) by lia.
    assert (b * 2 ^ (8 * n) < 2 ^ (8 * n + 8)) as Hlt.
    { rewrite Z.pow_add_r by lia. unfold is_byte in Hb. nia. }
    rewrite (Z.shiftl_mul_pow2 b) by lia.
    rewrite lor_disjoint by (unfold is_byte in Hb; nia).
    rewrite Z.pow_add_r by lia. change (2 ^ 8) with 256.
    replace (hi * (2 ^ (8 * n) * 256) + b * 2 ^ (8 * n)) with ((hi * 256 + b) * 2 ^ (8 * n)) by ring.
    replace (10 - (n + 1) + 1) with (10 - n) by lia.
    rewrite IH by lia. ring.
Qed.

(** The ten bytes [fill_bytes] writes. *)
Definition random_ok (random : list Z) : Prop := length random = 10%nat /\ Forall is_byte random.

Lemma ulid_value_eq t random :
  0 <= t < 2 ^ 48 -> random_ok random -> ulid_value t random = t * 2 ^ 80 + be_value random.
Proof.
  intros Ht [Hl Hr]. unfold ulid_value. rewrite Z.max_l by lia.
  change (2 ^ 48 - 1) with (Z.ones 48). rewrite Z.land_ones, Z.mod_small by lia.
  rewrite Z.shiftl_mul_pow2 by lia.
  pose proof (or_bytes_value t random Hr ltac:(lia)) as H. rewrite Hl in H. exact H.
Qed.

Lemma ulid_compare t1 r1 t2 r2 :
  0 <= t1 < 2 ^ 48 -> 0 <= t2 < 2 ^ 48 -> random_ok r1 -> random_ok r2 ->
  String.compare (ulid t1 r1) (ulid t2 r2) =
  match t1 ?= t2 with Datatypes.Eq => be_value r1 ?= be_value r2 | c => c end.
Proof.
  intros H1 H2 R1 R2. unfold ulid.
  rewrite base32_compare, !ulid_value_eq by done. destruct R1 as [L1 R1], R2 as [L2 R2].
  pose proof (be_value_range r1 R1) as B1. pose proof (be_value_range r2 R2) as B2.
  rewrite L1 in B1. rewrite L2 in B2. change (8 * Z.of_nat 10) with 80 in *.
  change (Z.of_nat 26 * 5) with 130.
  rewrite !Z.mod_small by lia. rewrite <- (lex_compare (2 ^ 80)) by lia. f_equal; ring.
Qed.

Lemma strip_prefix_app p s : strip_prefix p (p +:+ s) = Some s.
Proof. by apply strip_prefix_spec. Qed.

(** A generated identifier is well formed for its prefix, and identifiers order as
    their creation times do: a later millisecond always sorts later. *)
Theorem ids_sort_by_time prefix t1 r1 t2 r2 :
  0 <= t1 < 2 ^ 48 -> 0 <= t2 < 2 ^ 48 -> random_ok r1 -> random_ok r2 ->
  is_id prefix (new_id prefix t1 r1) = true /\
  (t1 < t2 -> String.compare (ulid t1 r1) (ulid t2 r2) = Datatypes.Lt) /\
  (ulid t1 r1 = ulid t2 r2 -> t1 = t2 /\ r1 = r2).
Proof.
  intros H1 H2 R1 R2. split; [|split].
  - unfold is_id, new_id, ulid. rewrite strip_prefix_app. cbn [strip_prefix String.append].
    rewrite Ascii.eqb_refl, base32_length, base32_alphabet. done.
  - intros Hlt. rewrite ulid_compare by done. by apply Z.compare_lt_iff in Hlt as ->.
  - intros He. pose proof (ulid_compare t1 r1 t2 r2 H1 H2 R1 R2) as Hc.
    rewrite He in Hc. rewrite string_compare_refl in Hc.
    destruct (Z.compare_spec t1 t2); try done. split; [done|].
    destruct R1 as [L1 R1], R2 as [L2 R2]. symmetry in Hc. apply Z.compare_eq in Hc.
    apply be_value_inj; auto. congruence.
Qed.

Lemma ids_sort_by_time_witness :
  String.compare (ulid 1000 (repeat 255 10)) (ulid 2000000 (repeat 0 10)) = Datatypes.Lt.
Proof.
  assert (random_ok (repeat 255 10)) as R1
    by (split; [done | cbn [repeat]; repeat (constructor; [unfold is_byte; lia|]); constructor]).
  assert (random_ok (repeat 0 10)) as R2
    by (split; [done | cbn [repeat]; repeat (constructor; [unfold is_byte; lia|]); constructor]).
  exact (proj1 (proj2 (ids_sort_by_time "run" 1000 (repeat 255 10) 2000000 (repeat 0 10)
    ltac:(lia) ltac:(lia) R1 R2)) ltac:(lia)).
Defined.
