(* ===== verification/F64.v ===== *)
(** * IEEE 754 binary64

    Rust's [f64] as the Standard Library's executable [spec_float] at precision 53 and
    maximal exponent 1024: the operations of the code are the rounded operations of
    that format, with its NaN, infinities and signed zeros. *)

From S2P Require Import Prelude Text.
From Stdlib Require Import SpecFloat Ascii.

Local Open Scope string_scope.
Local Open Scope list_scope.
Local Open Scope Z_scope.

Definition f64 : Type := spec_float.

Definition f64_prec : Z := 53.
Definition f64_emax : Z := 1024.

Definition f64_zero : f64 := S754_zero false.

(** Conversions. [n as f64] rounds to nearest even. *)
Definition f64_of_Z (n : Z) : f64 := binary_normalize f64_prec f64_emax n 0 false.

(** Comparisons: [==], [<], [>], [>=] and [partial_cmp]; every one is false, or [None],
    on NaN. *)
Definition f64_eqb (a b : f64) : bool := SFeqb a b.
Definition f64_cmp (a b : f64) : option comparison := SFcompare a b.
Definition f64_ltb (a b : f64) : bool := SFltb a b.
Definition f64_gtb (a b : f64) : bool := SFltb b a.
Definition f64_geb (a b : f64) : bool := SFleb b a.

Definition f64_add (a b : f64) : f64 := SFadd f64_prec f64_emax a b.
Definition f64_sub (a b : f64) : f64 := SFsub f64_prec f64_emax a b.
Definition f64_mul (a b : f64) : f64 := SFmul f64_prec f64_emax a b.
Definition f64_div (a b : f64) : f64 := SFdiv f64_prec f64_emax a b.
Definition f64_neg (a : f64) : f64 := SFopp a.

Definition f64_is_finite (a : f64) : bool :=
  match a with S754_zero _ | S754_finite _ _ _ => true | _ => false end.

Definition f64_is_nan (a : f64) : bool :=
  match a with S754_nan => true | _ => false end.

(** [f64::floor] followed by the saturating cast [as u64]. *)
Definition f64_floor_u64 (a : f64) : Z :=
  match a with
  | S754_zero _ | S754_nan => 0
  | S754_infinity s => if s then 0 else u64_max
  | S754_finite true _ _ => 0
  | S754_finite false m e => Z.min u64_max (Z.shiftl (Zpos m) e)
  end.

(** [f.fract() == 0.0]. *)
Definition f64_is_integer (a : f64) : bool :=
  match a with
  | S754_zero _ => true
  | S754_finite _ m e => (0 <=? e) || (Zpos m mod 2 ^ (- e) =? 0)
  | _ => false
  end.

(** The float nearest to [m / 10 ^ k], computed from the exact quotient. *)
Definition f64_of_ratio (m : Z) (k : Z) : f64 :=
  match m with
  | Zpos _ =>
      let '(q, e, l) := SFdiv_core_binary f64_prec f64_emax m 0 (10 ^ k) 0 in
      binary_round_aux f64_prec f64_emax false q e l
  | _ => f64_zero
  end.

(** [str::parse::<f64>] on text made of ASCII digits and dots only. *)
Definition parse_f64_digits (s : string) : option f64 :=
  match split_on "." s with
  | [i] => match digits_value i with Some m => Some (f64_of_ratio m 0) | None => None end
  | [i; f] =>
      match digits_value (i +:+ f) with
      | Some m => Some (f64_of_ratio m (Z.of_nat (String.length f)))
      | None => None
      end
  | _ => None
  end.

Example f64_add_ex :
  f64_add (f64_of_ratio 1 1) (f64_of_ratio 2 1) = S754_finite false 5404319552844596 (-54).
Proof. vm_compute. reflexivity. Qed.

Example f64_parse_ex : parse_f64_digits "2.5" = Some (f64_of_ratio 25 1).
Proof. reflexivity. Qed.

Lemma f64_cmp_antisym a b :
  f64_cmp b a = option_map CompOpp (f64_cmp a b).
Proof.
  unfold f64_cmp, SFcompare.
  destruct a as [[]|[]| |[] ma ea], b as [[]|[]| |[] mb eb]; simpl; try done;
    rewrite (Z.compare_antisym ea eb); destruct (ea ?= eb); simpl; try done;
    fold (Pos.compare mb ma) (Pos.compare ma mb);
    rewrite (Pos.compare_antisym ma mb); destruct (ma ?= mb)%positive; done.
Qed.

Lemma f64_eqb_sym a b : f64_eqb a b = f64_eqb b a.
Proof.
  unfold f64_eqb, SFeqb. fold (f64_cmp a b) (f64_cmp b a). rewrite (f64_cmp_antisym a b).
  by destruct (f64_cmp a b) as [[]|].
Qed.

Lemma f64_eqb_refl a : f64_is_nan a = false -> f64_eqb a a = true.
Proof.
  unfold f64_eqb, SFeqb, SFcompare. destruct a as [[]|[]| |[] m e]; simpl; try done; intros _;
    rewrite Z.compare_refl; fold (Pos.compare m m); by rewrite Pos.compare_refl.
Qed.

(** [<=] on finite non-NaN floats, as the negation of [>], is transitive. *)
Definition f64_leb (a b : f64) : bool := SFleb a b.

Lemma f64_not_gtb_leb a b :
  f64_is_nan a = false -> f64_is_nan b = false -> f64_gtb a b = false -> f64_leb a b = true.
Proof.
  unfold f64_gtb, f64_leb, SFltb, SFleb. fold (f64_cmp a b) (f64_cmp b a).
  intros Ha Hb. rewrite (f64_cmp_antisym a b).
  destruct (f64_cmp a b) as [[]|] eqn:E; simpl; try done. intros _.
  destruct a as [[]|[]| |[] ma ea], b as [[]|[]| |[] mb eb]; simpl in *; try done;
    unfold f64_cmp, SFcompare in E; destruct (ea ?= eb); done.
Qed.

Lemma lex_le_trans (e1 e2 e3 : Z) (m1 m2 m3 : positive) :
  (e1 < e2 \/ e1 = e2 /\ (m1 <= m2)%positive) -> (e2 < e3 \/ e2 = e3 /\ (m2 <= m3)%positive) ->
  e1 < e3 \/ e1 = e3 /\ (m1 <= m3)%positive.
Proof. lia. Qed.

Lemma f64_leb_finite s m1 e1 m2 e2 :
  f64_leb (S754_finite s m1 e1) (S754_finite s m2 e2) = true <->
  if s then e2 < e1 \/ e2 = e1 /\ (m2 <= m1)%positive
  else e1 < e2 \/ e1 = e2 /\ (m1 <= m2)%positive.
Proof.
  unfold f64_leb, SFleb, SFcompare. fold (Pos.compare m1 m2).
  destruct s; destruct (Z.compare_spec e1 e2); try (split; [discriminate|lia]); try (split; [lia|done]);
    destruct (Pos.compare_spec m1 m2); simpl; (split; [try discriminate | try done]); lia.
Qed.

Lemma f64_leb_trans a b c : f64_leb a b = true -> f64_leb b c = true -> f64_leb a c = true.
Proof.
  destruct a as [|[]| |[] ma ea], b as [|[]| |[] mb eb], c as [|[]| |[] mc ec]; try done;
    rewrite !f64_leb_finite; intros H1 H2; eauto using lex_le_trans.
Qed.

Lemma f64_leb_refl a : f64_is_nan a = false -> f64_leb a a = true.
Proof. destruct a as [|[]| |[] m e]; try done; intros _; apply f64_leb_finite; lia. Qed.
