(* ===== verification/Json.v ===== *)
(** * JSON values

    [serde_json::Value] as the kernel builds, reads and compares it.  An object is the
    [BTreeMap] of serde_json's default [Map]: an association list whose keys strictly
    increase in byte order.  The second half models what [#[derive(Serialize)]] and
    [#[derive(Deserialize)]] do for the structs of the crates. *)

From S2P Require Import Prelude Text F64.
From Stdlib Require Import SpecFloat Ascii.

Local Open Scope string_scope.
Local Open Scope list_scope.
Local Open Scope Z_scope.

(** [serde_json::Number]: a [u64], a negative [i64], or a finite [f64]. *)
Inductive number : Type :=
| PosInt (n : Z)
| NegInt (n : Z)
| Float (f : f64).

#[warnings="-register-all"]
Inductive json : Type :=
| JNull
| JBool (b : bool)
| JNum (n : number)
| JStr (s : string)
| JArr (items : list json)
| JObj (fields : list (string * json)).

(** An induction principle that reaches into arrays and objects. *)
Section JsonInd.
Variable P : json -> Prop.
Hypothesis HNull : P JNull.
Hypothesis HBool : forall b, P (JBool b).
Hypothesis HNum : forall n, P (JNum n).
Hypothesis HStr : forall s, P (JStr s).
Hypothesis HArr : forall l, Forall P l -> P (JArr l).
Hypothesis HObj : forall m, Forall (fun kv => P kv.2) m -> P (JObj m).

Fixpoint json_ind' (j : json) : P j :=
  match j with
  | JNull => HNull
  | JBool b => HBool b
  | JNum n => HNum n
  | JStr s => HStr s
  | JArr l => HArr l ((fix go l : Forall P l :=
      match l with [] => Forall_nil P | x :: l => Forall_cons P x l (json_ind' x) (go l) end) l)
  | JObj m => HObj m ((fix go m : Forall (fun kv => P kv.2) m :=
      match m with
      | [] => Forall_nil _
      | kv :: m => Forall_cons (fun kv => P kv.2) kv m (json_ind' kv.2) (go m)
      end) m)
  end.
End JsonInd.

(** ** Maps *)

(** [Map::get] and [Map::insert]. *)
Fixpoint map_get {A} (k : string) (m : list (string * A)) : option A :=
  match m with
  | [] => None
  | (k', v) :: m => if String.eqb k k' then Some v else map_get k m
  end.

Fixpoint map_insert {A} (k : string) (v : A) (m : list (string * A)) : list (string * A) :=
  match m with
  | [] => [(k, v)]
  | (k', v') :: m' =>
      match String.compare k k' with
      | Lt => (k, v) :: m
      | Eq => (k, v) :: m'
      | Gt => (k', v') :: map_insert k v m'
      end
  end.

Definition map_contains {A} (k : string) (m : list (string * A)) : bool :=
  match map_get k m with Some _ => true | None => false end.

(** [json!({k: v, ...})] and a serialised struct: fields inserted one by one. *)
Definition mk_map {A} (l : list (string * A)) : list (string * A) :=
  fold_left (fun m kv => map_insert kv.1 kv.2 m) l [].

Definition obj (l : list (string * json)) : json := JObj (mk_map l).

(** ** Accessors *)

(** [Value::get(key)], [as_str], [as_bool], [as_u64], [as_f64], ... *)
Definition jget (k : string) (j : json) : option json :=
  match j with JObj m => map_get k m | _ => None end.

Definition as_str (j : json) : option string := match j with JStr s => Some s | _ => None end.
Definition as_bool (j : json) : option bool := match j with JBool b => Some b | _ => None end.
Definition as_array (j : json) : option (list json) := match j with JArr l => Some l | _ => None end.
Definition as_object (j : json) : option (list (string * json)) :=
  match j with JObj m => Some m | _ => None end.
Definition as_u64 (j : json) : option Z := match j with JNum (PosInt n) => Some n | _ => None end.

Definition number_as_f64 (n : number) : f64 :=
  match n with
  | PosInt z => f64_of_Z z
  | NegInt z => f64_of_Z z
  | Float f => f
  end.
Definition as_f64 (j : json) : option f64 :=
  match j with JNum n => Some (number_as_f64 n) | _ => None end.

Definition is_string (j : json) : bool := match j with JStr _ => true | _ => false end.
Definition is_object (j : json) : bool := match j with JObj _ => true | _ => false end.

(** [value.get(key).and_then(Value::as_str)]. *)
Definition jget_str (k : string) (j : json) : option string :=
  match jget k j with Some v => as_str v | None => None end.

(** [PartialEq]: numbers of different variants differ, floats compare as IEEE. *)
Definition number_eqb (a b : number) : bool :=
  match a, b with
  | PosInt x, PosInt y => x =? y
  | NegInt x, NegInt y => x =? y
  | Float x, Float y => f64_eqb x y
  | _, _ => false
  end.

Fixpoint json_eqb (a b : json) {struct a} : bool :=
  match a, b with
  | JNull, JNull => true
  | JBool x, JBool y => Bool.eqb x y
  | JNum x, JNum y => number_eqb x y
  | JStr x, JStr y => String.eqb x y
  | JArr x, JArr y =>
      (fix go x y := match x, y with
        | [], [] => true
        | a :: x, b :: y => json_eqb a b && go x y
        | _, _ => false end) x y
  | JObj x, JObj y =>
      (fix go x y := match x, y with
        | [], [] => true
        | (k, a) :: x, (k', b) :: y => String.eqb k k' && json_eqb a b && go x y
        | _, _ => false end) x y
  | _, _ => false
  end.

(** [Value::from] of a [u64], an [i64] and an [f64] (a non-finite float becomes null). *)
Definition json_u64 (z : Z) : json := JNum (PosInt z).
Definition json_i64 (z : Z) : json := JNum (if 0 <=? z then PosInt z else NegInt z).
Definition json_f64 (f : f64) : json := if f64_is_finite f then JNum (Float f) else JNull.

(** ** Well-formed values: what a [Value] can be in memory *)

Definition key_lt (a b : string) : bool :=
  match String.compare a b with Lt => true | _ => false end.

Fixpoint keys_sorted {A} (m : list (string * A)) : bool :=
  match m with
  | [] => true
  | (k, _) :: m' =>
      match m' with
      | [] => true
      | (k', _) :: _ => key_lt k k' && keys_sorted m'
      end
  end.

Definition number_wf (n : number) : bool :=
  match n with
  | PosInt z => is_u64 z
  | NegInt z => (i64_min <=? z) && (z <? 0)
  | Float f => f64_is_finite f
  end.

Fixpoint json_wf (j : json) : bool :=
  match j with
  | JNum n => number_wf n
  | JArr l => forallb json_wf l
  | JObj m => keys_sorted m && forallb (fun kv => json_wf kv.2) m
  | _ => true
  end.

(** ** Deserialisation *)

Definition de_string (j : json) : option string := as_str j.
Definition de_bool (j : json) : option bool := as_bool j.
Definition de_value (j : json) : option json := Some j.
Definition de_u64 (j : json) : option Z := as_u64 j.
Definition de_u32 (j : json) : option Z :=
  match j with JNum (PosInt n) => if n <=? u32_max then Some n else None | _ => None end.
Definition de_i64 (j : json) : option Z :=
  match j with
  | JNum (PosInt n) => if n <=? i64_max then Some n else None
  | JNum (NegInt n) => Some n
  | _ => None
  end.
Definition de_f64 (j : json) : option f64 := as_f64 j.
Definition de_option {A} (d : json -> option A) (j : json) : option (option A) :=
  match j with
  | JNull => Some None
  | _ => match d j with Some a => Some (Some a) | None => None end
  end.
Definition de_list {A} (d : json -> option A) (j : json) : option (list A) :=
  match j with JArr l => omapM d l | _ => None end.

(** The name of a unit variant of a derived enum: a string, or an object with that one
    key and a null value. *)
Definition de_unit_variant (j : json) : option string :=
  match j with
  | JStr s => Some s
  | JObj [(s, JNull)] => Some s
  | _ => None
  end.

(** The fields a derived struct deserialiser reads: an object by name (unknown keys are
    ignored), or an array by position, in which case a missing [Option] is an error too. *)
Record fields := { from_seq : bool; field_map : list (string * json) }.

Definition struct_fields (names : list string) (j : json) : option fields :=
  match j with
  | JObj m => Some {| from_seq := false; field_map := m |}
  | JArr l => if (length l <=? length names)%nat
              then Some {| from_seq := true; field_map := zip names l |} else None
  | _ => None
  end.

(** A plain field, an [Option] field, and a field under [#[serde(default)]]. *)
Definition req {A} (d : json -> option A) (k : string) (fs : fields) : option A :=
  match map_get k (field_map fs) with Some v => d v | None => None end.
Definition opt {A} (d : json -> option A) (k : string) (fs : fields) : option (option A) :=
  match map_get k (field_map fs) with
  | Some v => de_option d v
  | None => if from_seq fs then None else Some None
  end.
Definition dflt {A} (d : json -> option A) (k : string) (a : A) (fs : fields) : option A :=
  match map_get k (field_map fs) with Some v => d v | None => Some a end.

(** ** Serialisation helpers *)

Definition ser_option {A} (s : A -> json) (o : option A) : json :=
  match o with Some a => s a | None => JNull end.

(** A field under [skip_serializing_if = "Option::is_none"]. *)
Definition skip_none {A} (k : string) (s : A -> json) (o : option A) : list (string * json) :=
  match o with Some a => [(k, s a)] | None => [] end.

Definition ser_strings (l : list string) : json := JArr (map JStr l).

(** ** Lemmas *)

Lemma map_get_insert {A} k k' (v : A) m :
  map_get k (map_insert k' v m) = if String.eqb k k' then Some v else map_get k m.
Proof.
  induction m as [|[k2 v2] m IH]; simpl; [done|].
  destruct (String.compare k' k2) eqn:E; simpl.
  - apply String.compare_eq_iff in E as ->. by destruct (String.eqb k k2).
  - by destruct (String.eqb k k').
  - rewrite IH. destruct (String.eqb_spec k k2) as [->|]; [|done].
    destruct (String.eqb_spec k2 k') as [->|]; [|done].
    by rewrite string_compare_refl in E.
Qed.

Lemma de_string_JStr s : de_string (JStr s) = Some s.
Proof. done. Qed.

Lemma de_list_strings l : de_list de_string (ser_strings l) = Some l.
Proof.
  unfold de_list, ser_strings. rewrite (omapM_map _ _ id) by done. by rewrite map_id.
Qed.

Lemma de_u32_u64 z : 0 <= z <= u32_max -> de_u32 (json_u64 z) = Some z.
Proof. intros. unfold de_u32, json_u64. by destruct (Z.leb_spec z u32_max); [|lia]. Qed.

Lemma de_i64_i64 z : i64_min <= z <= i64_max -> de_i64 (json_i64 z) = Some z.
Proof.
  intros. unfold de_i64, json_i64. destruct (Z.leb_spec 0 z); [|done].
  by destruct (Z.leb_spec z i64_max); [|lia].
Qed.

Lemma de_f64_f64 f : f64_is_finite f = true -> de_f64 (json_f64 f) = Some f.
Proof. intros H. unfold de_f64, json_f64. by rewrite H. Qed.

Lemma de_option_ser {A} (d : json -> option A) (s : A -> json) (o : option A) :
  (forall a, o = Some a -> s a <> JNull /\ d (s a) = Some a) ->
  de_option d (ser_option s o) = Some o.
Proof.
  destruct o as [a|]; intros H; [|done]. destruct (H a eq_refl) as [Hn Hd].
  unfold de_option, ser_option. rewrite Hd. by destruct (s a).
Qed.

#[export] Hint Resolve de_string_JStr de_list_strings de_u32_u64 de_i64_i64 de_f64_f64 : kernos.

(** ** Codecs

    Reading a field back from an object built field by field. *)

(** The last entry for a key: what the built map holds. *)
Fixpoint get_last {A} (k : string) (l : list (string * A)) : option A :=
  match l with
  | [] => None
  | (k', v) :: l =>
      match get_last k l with
      | Some v' => Some v'
      | None => if String.eqb k k' then Some v else None
      end
  end.

Lemma map_get_fold {A} k (l m : list (string * A)) :
  map_get k (fold_left (fun m kv => map_insert kv.1 kv.2 m) l m) =
  match get_last k l with Some v => Some v | None => map_get k m end.
Proof.
  revert m. induction l as [|[k' v] l IH]; intros m; simpl; [done|].
  rewrite IH, map_get_insert. destruct (get_last k l); [done|]. by destruct (String.eqb k k').
Qed.

Lemma map_get_mk_map {A} k (l : list (string * A)) : map_get k (mk_map l) = get_last k l.
Proof. unfold mk_map. rewrite map_get_fold. simpl. by destruct (get_last k l). Qed.

Lemma get_last_app {A} k (l1 l2 : list (string * A)) :
  get_last k (l1 ++ l2) = match get_last k l2 with Some v => Some v | None => get_last k l1 end.
Proof.
  induction l1 as [|[k' v] l1 IH]; simpl; [by destruct (get_last k l2)|].
  rewrite IH. by destruct (get_last k l2).
Qed.

Lemma get_last_skip {A} k k' (s : A -> json) o :
  get_last k (skip_none k' s o) = if String.eqb k k' then option_map s o else None.
Proof. destruct o; simpl; by destruct (String.eqb k k'). Qed.

Lemma option_eta {A} (o : option A) : match o with Some v => Some v | None => None end = o.
Proof. by destruct o. Qed.

Lemma bind_some {A B} (e : option A) (f : A -> option B) v r :
  e = Some v -> f v = r -> e ≫= f = r.
Proof. by intros ->. Qed.

(** A skipped [Option] field under [#[serde(default)]]. *)
Lemma dflt_skip {A} (d : json -> option A) (s : A -> json) (o : option A) :
  (forall a, o = Some a -> s a <> JNull /\ d (s a) = Some a) ->
  match option_map s o with Some v => de_option d v | None => Some None end = Some o.
Proof.
  destruct o as [a|]; simpl; intros H; [|done]. destruct (H a eq_refl) as [Hn Hd].
  unfold de_option. rewrite Hd. by destruct (s a).
Qed.

Lemma de_option_JStr o : de_option de_string (ser_option JStr o) = Some o.
Proof. by destruct o. Qed.

Lemma de_value_id v : de_value v = Some v.
Proof. done. Qed.

Lemma de_u64_u64 z : de_u64 (json_u64 z) = Some z.
Proof. done. Qed.

Lemma de_bool_bool b : de_bool (JBool b) = Some b.
Proof. done. Qed.

Lemma json_f64_not_null f : f64_is_finite f = true -> json_f64 f <> JNull.
Proof. unfold json_f64. by intros ->. Qed.

Lemma json_u64_not_null z : json_u64 z <> JNull.
Proof. done. Qed.

Lemma JStr_not_null s : JStr s <> JNull.
Proof. done. Qed.

Create HintDb codec discriminated.
#[export] Hint Resolve json_f64_not_null json_u64_not_null JStr_not_null de_string_JStr de_list_strings de_u32_u64 de_i64_i64 de_f64_f64
  de_option_JStr de_value_id de_u64_u64 de_bool_bool : codec.

(** Reads the fields of a serialised struct one by one. *)
Ltac codec_field :=
  unfold req, opt, dflt; cbn [field_map from_seq];
  rewrite ?map_get_mk_map, ?get_last_app, ?get_last_skip;
  cbv [get_last String.eqb Ascii.eqb Bool.eqb]; rewrite ?option_eta;
  first [solve [eauto with codec] | reflexivity
        | apply dflt_skip; assumption | apply de_option_ser; assumption
        | apply dflt_skip; intros ? ?; solve [split; [first [discriminate | eauto with codec] | eauto with codec]]
        | apply de_option_ser; intros ? ?; solve [split; [first [discriminate | eauto with codec] | eauto with codec]]].

Ltac codec :=
  unfold obj; cbn [struct_fields];
  eapply bind_some; [reflexivity|];
  repeat (eapply bind_some; [codec_field|]).
