(* ===== verification/Glob.v ===== *)
(** * Path globs ([kernos-policy/src/glob.rs])

    [glob_match] decides whether a path matches a glob such as [infra/**].  The
    reference semantics is the inductive relation [path_matches]; the matcher is shown
    equivalent to it, and the usual reading of the three pattern forms follows. *)

From S2P Require Import Prelude Text.
From Stdlib Require Import Ascii.

Local Open Scope string_scope.
Local Open Scope list_scope.
Local Open Scope Z_scope.

(** The suffixes [&text[skip..]] for [skip] in [0..=len]. *)
Fixpoint str_suffixes (s : string) : list string :=
  s :: match s with EmptyString => [] | String _ s' => str_suffixes s' end.

Fixpoint suffixes {A} (l : list A) : list (list A) :=
  l :: match l with [] => [] | _ :: l' => suffixes l' end.

(** Matches one segment: [*] is any run of bytes. *)
Fixpoint segment_match (pattern text : string) : bool :=
  match pattern with
  | EmptyString => is_empty text
  | String "*" rest => any (segment_match rest) (str_suffixes text)
  | String byte rest =>
      match text with
      | String t text_rest => Ascii.eqb t byte && segment_match rest text_rest
      | EmptyString => false
      end
  end.

(** Matches segment lists: [**] is any run of whole segments. *)
Fixpoint match_segments (pattern path : list string) : bool :=
  match pattern with
  | [] => match path with [] => true | _ => false end
  | first :: rest =>
      if String.eqb first "**" then any (match_segments rest) (suffixes path)
      else match path with
           | [] => false
           | segment :: path_rest => segment_match first segment && match_segments rest path_rest
           end
  end.

(** [split('/').filter(|s| !s.is_empty())]. *)
Definition path_segments (s : string) : list string :=
  List.filter (fun p => negb (is_empty p)) (split_on "/" s).

Definition glob_match (pattern path : string) : bool :=
  match_segments (path_segments pattern) (path_segments path).

(** ** Reference semantics *)

Inductive segment_matches : string -> string -> Prop :=
| SMEnd : segment_matches "" ""
| SMStar rest skipped text :
    segment_matches rest text -> segment_matches (String "*" rest) (skipped +:+ text)
| SMByte b rest text :
    b <> "*"%char -> segment_matches rest text ->
    segment_matches (String b rest) (String b text).

Inductive path_matches : list string -> list string -> Prop :=
| PMEnd : path_matches [] []
| PMGlobstar rest skipped path :
    path_matches rest path -> path_matches ("**" :: rest) (skipped ++ path)
| PMSegment first rest segment path :
    first <> "**" -> segment_matches first segment -> path_matches rest path ->
    path_matches (first :: rest) (segment :: path).

Lemma in_str_suffixes s t : In t (str_suffixes s) <-> exists p, s = p +:+ t.
Proof.
  induction s as [|a s IH]; simpl.
  - split; [intros [<-|[]]; by exists "" | intros [[|] H]; [by left | discriminate]].
  - rewrite IH. split.
    + intros [<-|[p ->]]; [by exists "" | by exists (String a p)].
    + intros [[|b p] H]; [by left | injection H as -> ->; right; by exists p].
Qed.

Lemma in_suffixes {A} (l t : list A) : In t (suffixes l) <-> exists p, l = p ++ t.
Proof.
  induction l as [|a l IH]; simpl.
  - split; [intros [<-|[]]; by exists [] | intros [[|] H]; [by left | discriminate]].
  - rewrite IH. split.
    + intros [<-|[p ->]]; [by exists [] | by exists (a :: p)].
    + intros [[|b p] H]; [by left | injection H as -> ->; right; by exists p].
Qed.

(** Unfolding equations that hide the byte-level pattern match on ["*"]. *)
Lemma segment_match_star rest text :
  segment_match (String "*" rest) text = any (segment_match rest) (str_suffixes text).
Proof. done. Qed.

Lemma segment_match_byte b rest text :
  b <> "*"%char ->
  segment_match (String b rest) text =
  match text with
  | String t text_rest => Ascii.eqb t b && segment_match rest text_rest
  | EmptyString => false
  end.
Proof. destruct b as [[] [] [] [] [] [] [] []]; done. Qed.

Lemma segment_match_spec pattern text :
  segment_match pattern text = true <-> segment_matches pattern text.
Proof.
  revert text. induction pattern as [|b rest IH]; intros text.
  - destruct text; simpl; split; try done; [constructor | inversion 1].
  - destruct (Ascii.eqb_spec b "*") as [->|Hb].
    + rewrite segment_match_star, any_true. split.
      * intros (t & Hin & Ht). apply in_str_suffixes in Hin as [p ->].
        constructor. by apply IH.
      * inversion 1 as [|? p t Ht|]; subst; [|done].
        exists t. rewrite in_str_suffixes, IH. eauto.
    + rewrite segment_match_byte by done. destruct text as [|t text].
      * split; [done | inversion 1; done].
      * rewrite andb_true_iff, IH. split.
        -- intros [->%Ascii.eqb_eq Ht]. by constructor.
        -- inversion 1; subst; [done|]. by rewrite Ascii.eqb_refl.
Qed.

Lemma match_segments_spec pattern path :
  match_segments pattern path = true <-> path_matches pattern path.
Proof.
  revert path. induction pattern as [|first rest IH]; intros path; cbn [match_segments].
  - destruct path; split; try done; [constructor | inversion 1].
  - destruct (String.eqb_spec first "**") as [->|Hne].
    + rewrite any_true. split.
      * intros (t & Hin & Ht). apply in_suffixes in Hin as [p ->].
        constructor. by apply IH.
      * inversion 1 as [|? p t Ht|]; subst; [|done].
        exists t. rewrite in_suffixes, IH. eauto.
    + destruct path as [|segment path]; [split; [done | inversion 1; done]|].
      rewrite andb_true_iff, segment_match_spec, IH. split.
      * intros [? ?]. by constructor.
      * inversion 1; subst; done.
Qed.

(** A pattern with no star matches a segment exactly when they are equal. *)
Lemma segment_match_literal pattern text :
  contains_byte "*" pattern = false ->
  segment_match pattern text = String.eqb pattern text.
Proof.
  unfold contains_byte.
  revert text. induction pattern as [|b rest IH]; intros text Hs; [by destruct text|].
  simpl in Hs. apply orb_false_iff in Hs as [Hb Hs].
  rewrite segment_match_byte by (intros ->; discriminate Hb).
  destruct text as [|t text]; [done|]. rewrite IH by done. simpl.
  by rewrite Ascii.eqb_sym.
Qed.

Lemma match_segments_literal pattern path :
  Forall (fun s => contains_byte "*" s = false) pattern ->
  match_segments pattern path = true <-> pattern = path.
Proof.
  intros H. revert path. induction H as [|s rest Hs _ IH]; intros path; simpl.
  - destruct path; split; done.
  - destruct (String.eqb_spec s "**") as [->|Hne]; [discriminate Hs|].
    destruct path as [|t path]; [split; done|].
    rewrite andb_true_iff, segment_match_literal, String.eqb_eq, IH by done.
    split; [intros [-> ->]; done | by intros [= -> ->]].
Qed.

(** ** Properties *)

(** C37: the matcher agrees with the reference semantics on every pattern and path, so
    [*] never crosses a segment boundary and [**] matches zero or more whole segments. *)
Theorem glob_match_correct (pattern path : string) :
  glob_match pattern path = true <->
  path_matches (path_segments pattern) (path_segments path).
Proof. apply match_segments_spec. Qed.
