(* ===== verification/Policy.v ===== *)
(** * The policy language: syntax, values and evaluation

    [kernos-policy/src/ast.rs], [value.rs] and [eval.rs]: the abstract syntax of a parsed
    policy, the runtime values of its expressions, and the decision procedure that the
    kernel runs on every proposed action.  The reference semantics of a policy set is
    [spec_decision], which reads the rules of all policies as one concatenated list;
    [evaluate] is the code's single scan with its two remembered positions and early
    return. *)

From S2P Require Import Prelude Text F64 Json Glob.
From Stdlib Require Import Ascii.

Local Open Scope string_scope.
Local Open Scope list_scope.
Local Open Scope Z_scope.

(** ** Abstract syntax ([ast.rs]) *)

Inductive RuleKind := Deny | Allow | RequireApproval.

Inductive ApproverExpr :=
| AE_Role (role : string)
| AE_User (user : string)
| AE_Path (path : list string).

Inductive EscalateExpr :=
| EE_ReportingLine
| EE_Role (role : string)
| EE_User (user : string)
| EE_Path (path : list string).

Inductive BinaryOp :=
| OpOr | OpAnd | OpEq | OpNe | OpLt | OpLe | OpGt | OpGe | OpIn | OpAdd | OpSub.

#[warnings="-register-all"]
Inductive Expr :=
| ENumber (n : f64)
| EStr (s : string)
| EBool (b : bool)
| ENull
| EList (items : list Expr)
| EPath (path : list string)
| ECall (path : list string) (args : list Expr)
| ENeg (inner : Expr)
| ENot (inner : Expr)
| EBinary (op : BinaryOp) (lhs rhs : Expr).

Record ApprovalClause := {
  ac_approver : ApproverExpr;
  ac_sla_seconds : option Z;
  ac_escalate_to : option EscalateExpr }.

Record Rule := {
  rule_kind : RuleKind;
  rule_condition : Expr;
  rule_approval : option ApprovalClause }.

Record Policy := { policy_name : option string; policy_rules : list Rule }.

(** ** Values ([value.rs]) *)

#[warnings="-register-all"]
Inductive value :=
| VNull
| VBool (b : bool)
| VNumber (n : f64)
| VStr (s : string)
| VList (items : list value)
| VObject (m : list (string * json)).

Definition truthy (v : value) : bool :=
  match v with
  | VNull => false
  | VBool b => b
  | VNumber n => negb (f64_eqb n f64_zero)
  | VStr s => negb (is_empty s)
  | VList items => match items with [] => false | _ => true end
  | VObject _ => true
  end.

Definition value_as_str (v : value) : option string :=
  match v with VStr s => Some s | _ => None end.

Fixpoint from_json (j : json) : value :=
  match j with
  | JNull => VNull
  | JBool b => VBool b
  | JNum n => VNumber (number_as_f64 n)
  | JStr s => VStr s
  | JArr items => VList (map from_json items)
  | JObj m => VObject m
  end.

Fixpoint to_json (v : value) : json :=
  match v with
  | VNull => JNull
  | VBool b => JBool b
  | VNumber n => json_f64 n
  | VStr s => JStr s
  | VList items => JArr (map to_json items)
  | VObject m => JObj m
  end.

(** The derived [PartialEq]. *)
Fixpoint value_eqb (a b : value) {struct a} : bool :=
  match a, b with
  | VNull, VNull => true
  | VBool x, VBool y => Bool.eqb x y
  | VNumber x, VNumber y => f64_eqb x y
  | VStr x, VStr y => String.eqb x y
  | VList x, VList y =>
      (fix go x y := match x, y with
        | [], [] => true
        | a :: x, b :: y => value_eqb a b && go x y
        | _, _ => false end) x y
  | VObject x, VObject y => json_eqb (JObj x) (JObj y)
  | _, _ => false
  end.

(** A dotted path in a JSON context; a numeric segment indexes a list. *)
Fixpoint lookup (context : json) (path : list string) : option json :=
  match path with
  | [] => Some context
  | segment :: rest =>
      match context with
      | JObj m => match map_get segment m with Some j => lookup j rest | None => None end
      | JArr items =>
          match parse_u64 segment with
          | Some i => match items !! Z.to_nat i with Some j => lookup j rest | None => None end
          | None => None
          end
      | _ => None
      end
  end.

(** ** Decisions ([eval.rs]) *)

Record LoadedPolicy := { lp_name : string; lp_version : string; lp_policy : Policy }.

Inductive DecisionKind := DAllow | DApprovalRequired | DDeny.

Definition decision_as_str (d : DecisionKind) : string :=
  match d with
  | DAllow => "allow"
  | DApprovalRequired => "approval_required"
  | DDeny => "deny"
  end.

Inductive ApproverType := TRole | TUser.

Record Approver := { ap_kind : ApproverType; ap_value : string; ap_fallback : bool }.

Definition approver_role (v : string) : Approver :=
  {| ap_kind := TRole; ap_value := v; ap_fallback := false |}.
Definition approver_user (v : string) : Approver :=
  {| ap_kind := TUser; ap_value := v; ap_fallback := false |}.
Definition admin_fallback : Approver :=
  {| ap_kind := TRole; ap_value := "admin"; ap_fallback := true |}.

(** Whether an actor with this id and role may decide for this approver. *)
Definition accepts (a : Approver) (actor_id actor_role : string) : bool :=
  match ap_kind a with
  | TRole => String.eqb (ap_value a) actor_role
  | TUser => String.eqb (ap_value a) actor_id
  end.

Definition to_query_string (a : Approver) : string :=
  match ap_kind a with
  | TRole => "role:" +:+ ap_value a
  | TUser => "user:" +:+ ap_value a
  end.

Inductive EscalateTo := ReportingLine | ToApprover (a : Approver).

Record Decision := {
  decision : DecisionKind;
  d_rule : string;
  d_policy : option string;
  d_policy_version : option string;
  d_approver : option Approver;
  d_sla_seconds : option Z;
  d_escalate_to : option EscalateTo }.

Definition DEFAULT_SLA_SECONDS : Z := 86400.

Definition rule_id (p : LoadedPolicy) (index : nat) : string :=
  lp_name p +:+ "@" +:+ lp_version p +:+ "#" +:+ dec (Z.of_nat index).

(** A path must evaluate to a non-empty string user id; otherwise [role("admin")]. *)
Definition resolve_approver (e : ApproverExpr) (context : json) : Approver :=
  match e with
  | AE_Role role => approver_role role
  | AE_User user => approver_user user
  | AE_Path segments =>
      match lookup context segments with
      | Some (JStr user) => if is_empty user then admin_fallback else approver_user user
      | _ => admin_fallback
      end
  end.

Definition resolve_escalate (e : EscalateExpr) (context : json) : EscalateTo :=
  match e with
  | EE_ReportingLine => ReportingLine
  | EE_Role role => ToApprover (approver_role role)
  | EE_User user => ToApprover (approver_user user)
  | EE_Path segments => ToApprover (resolve_approver (AE_Path segments) context)
  end.

Definition manager_approver (context : json) : Approver :=
  resolve_approver (AE_Path ["run"; "requested_by"; "manager"]) context.

Definition default_decision (context : json) : Decision :=
  let autonomy := match lookup context ["run"; "remit"; "autonomy"] with
                  | Some (JStr s) => s | _ => "" end in
  let writes := match lookup context ["action"; "writes_to_system_of_record"] with
                | Some (JBool b) => b | _ => false end in
  if String.eqb autonomy "autonomous" || negb writes then
    {| decision := DAllow; d_rule := "default"; d_policy := None; d_policy_version := None;
       d_approver := None; d_sla_seconds := None; d_escalate_to := None |}
  else
    {| decision := DApprovalRequired; d_rule := "default"; d_policy := None;
       d_policy_version := None; d_approver := Some (manager_approver context);
       d_sla_seconds := Some DEFAULT_SLA_SECONDS; d_escalate_to := Some ReportingLine |}.

(** ** Expressions *)

Definition eval_binary (op : BinaryOp) (l r : value) : value :=
  match op with
  | OpEq => VBool (value_eqb l r)
  | OpNe => VBool (negb (value_eqb l r))
  | OpLt | OpLe | OpGt | OpGe =>
      let ordering := match l, r with
                      | VNumber a, VNumber b => f64_cmp a b
                      | VStr a, VStr b => Some (String.compare a b)
                      | _, _ => None
                      end in
      VBool match ordering with
            | None => false
            | Some o => match op with
                        | OpLt => match o with Lt => true | _ => false end
                        | OpLe => match o with Gt => false | _ => true end
                        | OpGt => match o with Gt => true | _ => false end
                        | _ => match o with Lt => false | _ => true end
                        end
            end
  | OpIn => match r with
           | VList items => VBool (any (fun item => value_eqb item l) items)
           | _ => VBool false
           end
  | OpAdd => match l, r with VNumber a, VNumber b => VNumber (f64_add a b) | _, _ => VNull end
  | OpSub => match l, r with VNumber a, VNumber b => VNumber (f64_sub a b) | _, _ => VNull end
  | OpAnd | OpOr => VNull
  end.

(** A call, given the value of its first argument. *)
Definition eval_call (callee : list string) (arg : value) (context : json) : value :=
  match value_as_str arg with
  | None => VBool false
  | Some needle =>
      let joined := join "." callee in
      let list_path :=
        if String.eqb joined "action.touches_path" then Some ["action"; "paths"]
        else if String.eqb joined "action.touches_data_class" then Some ["action"; "data_classes"]
        else if String.eqb joined "run.remit.grants" then Some ["run"; "remit"; "grants"]
        else None in
      match list_path with
      | None => VNull
      | Some p =>
          match lookup context p with
          | Some (JArr items) =>
              VBool (any (fun item =>
                match as_str item with
                | None => false
                | Some item =>
                    if String.eqb joined "action.touches_path" then glob_match needle item
                    else String.eqb item needle
                end) items)
          | _ => VBool false
          end
      end
  end.

Fixpoint eval_expr (e : Expr) (context : json) : value :=
  match e with
  | ENumber n => VNumber n
  | EStr s => VStr s
  | EBool b => VBool b
  | ENull => VNull
  | EList items => VList (map (fun e => eval_expr e context) items)
  | EPath segments => match lookup context segments with
                      | Some j => from_json j | None => VNull end
  | ECall path args =>
      let arg := match args with [] => VNull | a :: _ => eval_expr a context end in
      eval_call path arg context
  | ENeg inner => match eval_expr inner context with
                  | VNumber n => VNumber (f64_neg n) | _ => VNull end
  | ENot inner => VBool (negb (truthy (eval_expr inner context)))
  | EBinary op lhs rhs =>
      match op with
      | OpAnd => if negb (truthy (eval_expr lhs context)) then VBool false
               else VBool (truthy (eval_expr rhs context))
      | OpOr => if truthy (eval_expr lhs context) then VBool true
              else VBool (truthy (eval_expr rhs context))
      | _ => eval_binary op (eval_expr lhs context) (eval_expr rhs context)
      end
  end.

(** ** The decision procedure *)

Definition deny_decision (loaded : LoadedPolicy) (rule_index : nat) : Decision :=
  {| decision := DDeny; d_rule := rule_id loaded rule_index; d_policy := Some (lp_name loaded);
     d_policy_version := Some (lp_version loaded); d_approver := None; d_sla_seconds := None;
     d_escalate_to := None |}.

Definition allow_decision (loaded : LoadedPolicy) (rule_index : nat) : Decision :=
  {| decision := DAllow; d_rule := rule_id loaded rule_index; d_policy := Some (lp_name loaded);
     d_policy_version := Some (lp_version loaded); d_approver := None; d_sla_seconds := None;
     d_escalate_to := None |}.

Definition approval_decision (loaded : LoadedPolicy) (rule_index : nat) (rule : Rule)
    (context : json) : Decision :=
  let '(approver, sla, escalate) :=
    match rule_approval rule with
    | Some clause =>
        (resolve_approver (ac_approver clause) context,
         default DEFAULT_SLA_SECONDS (ac_sla_seconds clause),
         match ac_escalate_to clause with
         | Some e => resolve_escalate e context
         | None => ReportingLine
         end)
    | None => (manager_approver context, DEFAULT_SLA_SECONDS, ReportingLine)
    end in
  {| decision := DApprovalRequired; d_rule := rule_id loaded rule_index;
     d_policy := Some (lp_name loaded); d_policy_version := Some (lp_version loaded);
     d_approver := Some approver; d_sla_seconds := Some sla; d_escalate_to := Some escalate |}.

(** The two positions the scan remembers. *)
Record scan := { first_approval : option (nat * nat); first_allow : option (nat * nat) }.

(** The inner loop, over the rules of one policy: [inl] is the early return of a deny. *)
Fixpoint scan_rules (loaded : LoadedPolicy) (policy_index rule_index : nat)
    (rules : list Rule) (context : json) (st : scan) : Decision + scan :=
  match rules with
  | [] => inr st
  | rule :: rest =>
      if negb (truthy (eval_expr (rule_condition rule) context)) then
        scan_rules loaded policy_index (S rule_index) rest context st
      else
        match rule_kind rule with
        | Deny => inl (deny_decision loaded rule_index)
        | RequireApproval =>
            scan_rules loaded policy_index (S rule_index) rest context
              match first_approval st with
              | None => {| first_approval := Some (policy_index, rule_index);
                           first_allow := first_allow st |}
              | Some _ => st
              end
        | Allow =>
            scan_rules loaded policy_index (S rule_index) rest context
              match first_allow st with
              | None => {| first_approval := first_approval st;
                           first_allow := Some (policy_index, rule_index) |}
              | Some _ => st
              end
        end
  end.

(** The outer loop, over the policies. *)
Fixpoint scan_policies (policy_index : nat) (policies : list LoadedPolicy) (context : json)
    (st : scan) : Decision + scan :=
  match policies with
  | [] => inr st
  | loaded :: rest =>
      match scan_rules loaded policy_index 0 (policy_rules (lp_policy loaded)) context st with
      | inl d => inl d
      | inr st => scan_policies (S policy_index) rest context st
      end
  end.

(** [policies[policy_index]] with its [rules[rule_index]]. *)
Definition rule_at (policies : list LoadedPolicy) (pos : nat * nat) : option (LoadedPolicy * Rule) :=
  match policies !! pos.1 with
  | None => None
  | Some loaded =>
      match policy_rules (lp_policy loaded) !! pos.2 with
      | Some rule => Some (loaded, rule)
      | None => None
      end
  end.

Definition evaluate (policies : list LoadedPolicy) (context : json) : Decision :=
  match scan_policies 0 policies context {| first_approval := None; first_allow := None |} with
  | inl d => d
  | inr st =>
      match first_approval st ≫= (fun pos => pair pos <$> rule_at policies pos) with
      | Some (pos, (loaded, rule)) => approval_decision loaded pos.2 rule context
      | None =>
          match first_allow st ≫= (fun pos => pair pos <$> rule_at policies pos) with
          | Some (pos, (loaded, _)) => allow_decision loaded pos.2
          | None => default_decision context
          end
      end
  end.

(** ** Serialisation of approvers, as the events carry them *)

Definition approver_type_str (t : ApproverType) : string :=
  match t with TRole => "role" | TUser => "user" end.

Definition ser_approver (a : Approver) : json :=
  obj ([("type", JStr (approver_type_str (ap_kind a))); ("value", JStr (ap_value a))] ++
       (if ap_fallback a then [("fallback", JBool true)] else [])).

Definition de_approver_type (j : json) : option ApproverType :=
  s ← de_unit_variant j;
  if String.eqb s "role" then Some TRole
  else if String.eqb s "user" then Some TUser else None.

Definition de_approver (j : json) : option Approver :=
  fs ← struct_fields ["type"; "value"; "fallback"] j;
  kind ← req de_approver_type "type" fs;
  v ← req de_string "value" fs;
  fallback ← dflt de_bool "fallback" false fs;
  Some {| ap_kind := kind; ap_value := v; ap_fallback := fallback |}.

(** An untagged enum: the bare string, or the approver object. *)
Definition ser_escalate_to (e : EscalateTo) : json :=
  match e with
  | ReportingLine => JStr "reporting_line"
  | ToApprover a => ser_approver a
  end.

Definition de_escalate_to (j : json) : option EscalateTo :=
  if bool_decide (de_unit_variant j = Some "reporting_line") then Some ReportingLine
  else a ← de_approver j; Some (ToApprover a).
