(* ===== verification/Lexer.v ===== *)
(** * The lexer ([kernos-policy/src/lexer.rs], [duration.rs], [error.rs])

    Policy text to tokens with line and column.  The text is the list of its characters and
    the index [i] is the part still to read.  The main loop takes fuel, one unit for each
    round; [lex_terminates] shows that the number of characters is enough.  The alphabetic
    and numeric classes of characters beyond ASCII are the Unicode tables of the standard
    library and enter as the class [UnicodeTables]. *)

From S2P Require Import Prelude Text F64.
From Stdlib Require Import Ascii SpecFloat.

Local Open Scope string_scope.
Local Open Scope list_scope.
Local Open Scope Z_scope.

(** The position; the human sentence of the error is not modelled. *)
Record ParseError := { pe_line : Z; pe_column : Z }.

Definition parse_error {A} (line column : Z) : result ParseError A :=
  Err {| pe_line := line; pe_column := column |}.

Inductive TokenKind :=
| TIdent (w : string)
| TNumber (n : f64)
| TStr (s : string)
| TDuration (seconds : Z)
| TLParen | TRParen | TLBracket | TRBracket | TComma | TDot | TColon | TArrow
| TEq | TNe | TLt | TLe | TGt | TGe | TPlus | TMinus | TEof.

Record Token := { tk_kind : TokenKind; tk_line : Z; tk_column : Z }.

Definition KEYWORDS : list string :=
  ["policy"; "allow"; "deny"; "require"; "approval"; "when"; "approver"; "sla"; "escalate_to";
   "and"; "or"; "not"; "in"; "true"; "false"; "null"; "role"; "user"; "reporting_line"].

Definition is_keyword (word : string) : bool := any (String.eqb word) KEYWORDS.

(** ** Character classes *)

(** [char::is_alphabetic] and [char::is_numeric] from code point 128 on. *)
Class UnicodeTables := { wide_alphabetic : Z -> bool; wide_numeric : Z -> bool }.

Definition char_is (a : ascii) (c : string) : bool := String.eqb c (String a "").

Definition is_digit_char (c : string) : bool :=
  match c with String a EmptyString => is_ascii_digit a | _ => false end.

Definition is_alphabetic `{UnicodeTables} (c : string) : bool :=
  match c with
  | String a EmptyString => is_ascii_lowercase a || is_ascii_uppercase a
  | _ => wide_alphabetic (char_code c)
  end.

Definition is_alphanumeric `{UnicodeTables} (c : string) : bool :=
  match c with
  | String a EmptyString => is_ascii_lowercase a || is_ascii_uppercase a || is_ascii_digit a
  | _ => wide_alphabetic (char_code c) || wide_numeric (char_code c)
  end.

(** ** Durations *)

(** The text without its last character, and that character. *)
Fixpoint split_last (cs : list string) : option (list string * string) :=
  match cs with
  | [] => None
  | [c] => Some ([], c)
  | c :: cs => match split_last cs with Some (l, u) => Some (c :: l, u) | None => None end
  end.

Definition unit_seconds (u : string) : option Z :=
  if String.eqb u "s" then Some 1
  else if String.eqb u "m" then Some 60
  else if String.eqb u "h" then Some 3600
  else if String.eqb u "d" then Some 86400
  else None.

Definition parse_duration (text : string) : option Z :=
  '(number, u) ← split_last (chars (trim text));
  multiplier ← unit_seconds u;
  if match number with [] => true | _ => false end
     || negb (all (fun c => is_digit_char c || String.eqb c ".") number)
  then None
  else
    value ← parse_f64_digits (String.concat "" number);
    if negb (f64_is_finite value) || f64_ltb value f64_zero then None
    else Some (f64_floor_u64 (f64_mul value (f64_of_Z multiplier))).

(** ** Tokens *)

(** The body of a string after its opening quote: the value, what is left, the column. *)
Fixpoint lex_string (start_line start_column line column : Z) (cs : list string) (value : string)
    : result ParseError (string * list string * Z) :=
  match cs with
  | [] => parse_error start_line start_column
  | ch :: cs =>
      if String.eqb ch (String "010" "") then parse_error start_line start_column
      else
        let column := column + 1 in
        if String.eqb ch (String "034" "") then Ok (value, cs, column)
        else if String.eqb ch "\" then
          match cs with
          | [] => parse_error line column
          | escaped :: cs =>
              let column := column + 1 in
              if String.eqb escaped (String "034" "") then
                lex_string start_line start_column line column cs (value +:+ String "034" "")
              else if String.eqb escaped "\" then
                lex_string start_line start_column line column cs (value +:+ "\")
              else if String.eqb escaped "n" then
                lex_string start_line start_column line column cs (value +:+ String "010" "")
              else if String.eqb escaped "t" then
                lex_string start_line start_column line column cs (value +:+ String "009" "")
              else parse_error line (column - 1)
          end
        else lex_string start_line start_column line column cs (value +:+ ch)
  end.

(** The digits of a number, with one dot when a digit follows it. *)
Fixpoint scan_number (seen_dot : bool) (cs : list string) : list string * list string :=
  match cs with
  | [] => ([], [])
  | c :: rest =>
      if is_digit_char c then let '(t, r) := scan_number seen_dot rest in (c :: t, r)
      else if String.eqb c "." && negb seen_dot then
        match rest with
        | next :: _ => if is_digit_char next
                       then let '(t, r) := scan_number true rest in (c :: t, r) else ([], cs)
        | [] => ([], cs)
        end
      else ([], cs)
  end.

Fixpoint span (p : string -> bool) (cs : list string) : list string * list string :=
  match cs with
  | [] => ([], [])
  | c :: rest => if p c then let '(t, r) := span p rest in (c :: t, r) else ([], cs)
  end.

Definition two_char (c next : string) : option TokenKind :=
  let two := c +:+ next in
  if String.eqb two "->" then Some TArrow
  else if String.eqb two "==" then Some TEq
  else if String.eqb two "!=" then Some TNe
  else if String.eqb two "<=" then Some TLe
  else if String.eqb two ">=" then Some TGe
  else None.

Definition one_char (c : string) : option TokenKind :=
  if String.eqb c "(" then Some TLParen
  else if String.eqb c ")" then Some TRParen
  else if String.eqb c "[" then Some TLBracket
  else if String.eqb c "]" then Some TRBracket
  else if String.eqb c "," then Some TComma
  else if String.eqb c "." then Some TDot
  else if String.eqb c ":" then Some TColon
  else if String.eqb c "<" then Some TLt
  else if String.eqb c ">" then Some TGt
  else if String.eqb c "+" then Some TPlus
  else if String.eqb c "-" then Some TMinus
  else None.

Section Lex.
Context `{UnicodeTables}.

Definition word_char (c : string) : bool := is_alphanumeric c || String.eqb c "_".

(** One token that starts at [c], the rest of the text and the new column. *)
Definition lex_number (line column : Z) (cs : list string)
    : result ParseError (TokenKind * list string * Z) :=
  let '(text, rest) := scan_number false cs in
  let column' := column + Z.of_nat (length text) in
  let malformed := parse_error line column in
  let plain :=
    match rest with
    | c :: _ => if word_char c then malformed
                else let? n := ok_or {| pe_line := line; pe_column := column |}
                                 (parse_f64_digits (String.concat "" text)) in
                     Ok (TNumber n, rest, column')
    | [] => let? n := ok_or {| pe_line := line; pe_column := column |}
                        (parse_f64_digits (String.concat "" text)) in
            Ok (TNumber n, rest, column')
    end in
  match rest with
  | u :: after =>
      if (match unit_seconds u with Some _ => true | None => false end)
         && negb (match after with ch :: _ => word_char ch | [] => false end)
      then
        let? seconds := ok_or {| pe_line := line; pe_column := column |}
                          (parse_duration (String.concat "" text +:+ u)) in
        Ok (TDuration seconds, after, column' + 1)
      else plain
  | [] => plain
  end.

Definition lex_symbol (line column : Z) (c : string) (rest : list string)
    : result ParseError (TokenKind * list string * Z) :=
  match rest with
  | next :: rest' =>
      match two_char c next with
      | Some k => Ok (k, rest', column + 2)
      | None => match one_char c with
                | Some k => Ok (k, rest, column + 1)
                | None => parse_error line column
                end
      end
  | [] => match one_char c with
          | Some k => Ok (k, rest, column + 1)
          | None => parse_error line column
          end
  end.

Definition lex_token (line column : Z) (c : string) (rest : list string)
    : result ParseError (TokenKind * list string * Z) :=
  if String.eqb c (String "034" "") then
    let? (value, rest, column) := lex_string line column line (column + 1) rest "" in
    Ok (TStr value, rest, column)
  else if is_digit_char c then lex_number line column (c :: rest)
  else if is_alphabetic c || String.eqb c "_" then
    let '(word, rest) := span word_char (c :: rest) in
    Ok (TIdent (String.concat "" word), rest, column + Z.of_nat (length word))
  else lex_symbol line column c rest.

(** The main loop; [None] when the fuel runs out. *)
Fixpoint lex_loop (fuel : nat) (line column : Z) (cs : list string) (tokens : list Token)
    : option (result ParseError (list Token)) :=
  match fuel with
  | O => None
  | S fuel =>
      match cs with
      | [] => Some (Ok (tokens ++ [{| tk_kind := TEof; tk_line := line; tk_column := column |}]))
      | c :: rest =>
          if String.eqb c (String "010" "") then lex_loop fuel (line + 1) 1 rest tokens
          else if is_whitespace c then lex_loop fuel line (column + 1) rest tokens
          else if String.eqb c "#" then
            lex_loop fuel line column
              (drop_while (fun ch => negb (String.eqb ch (String "010" ""))) rest) tokens
          else
            match lex_token line column c rest with
            | Err e => Some (Err e)
            | Ok (kind, rest, column') =>
                lex_loop fuel line column' rest
                  (tokens ++ [{| tk_kind := kind; tk_line := line; tk_column := column |}])
            end
      end
  end.

Definition lex (source : string) : result ParseError (list Token) :=
  let cs := chars source in
  match lex_loop (S (length cs)) 1 1 cs [] with
  | Some r => r
  | None => parse_error 0 0
  end.
End Lex.

(** ** Termination and shape of the token list *)

Lemma lex_string_shrinks sl sc l col cs v v' rest col' :
  lex_string sl sc l col cs v = Ok (v', rest, col') ->
  (length rest < length cs)%nat /\ col < col'.
Proof.
  revert col v. induction cs as [cs IH] using (well_founded_ind (well_founded_ltof _ (@length string))).
  unfold ltof in IH. destruct cs as [|ch cs]; intros col v; cbn [lex_string]; [done|].
  destruct (String.eqb ch _); [done|]. destruct (String.eqb ch _).
  { intros [= <- <- <-]. cbn. split; lia. }
  destruct (String.eqb ch "\").
  - destruct cs as [|esc cs]; [done|].
    repeat (destruct (String.eqb esc _);
      [intros [H1 H2]%IH; cbn in *; [split; lia | lia]|]). done.
  - intros [H1 H2]%IH; cbn; [split; lia | lia].
Qed.

Lemma span_length p cs t r : span p cs = (t, r) -> length cs = (length t + length r)%nat.
Proof.
  revert t r. induction cs as [|c cs IH]; intros t r; cbn; [by intros [= <- <-]|].
  destruct (p c).
  - destruct (span p cs) as [t' r'] eqn:E. intros [= <- <-]. cbn. by rewrite (IH _ _ eq_refl).
  - by intros [= <- <-].
Qed.

Lemma scan_number_length b cs t r : scan_number b cs = (t, r) -> length cs = (length t + length r)%nat.
Proof.
  revert b t r. induction cs as [|c cs IH]; intros b t r; cbn [scan_number]; [by intros [= <- <-]|].
  destruct (is_digit_char c).
  - destruct (scan_number b cs) as [t' r'] eqn:E. intros [= <- <-]. cbn. by rewrite (IH _ _ _ E).
  - destruct (String.eqb c "." && negb b); [|by intros [= <- <-]].
    destruct cs as [|n cs]; [by intros [= <- <-]|]. destruct (is_digit_char n); [|by intros [= <- <-]].
    destruct (scan_number true (n :: cs)) as [t' r'] eqn:E. intros [= <- <-].
    pose proof (IH _ _ _ E). cbn [length] in *. lia.
Qed.

Lemma drop_while_length {A} (p : A -> bool) l : (length (drop_while p l) <= length l)%nat.
Proof. induction l as [|x l IH]; cbn; [lia|]. destruct (p x); cbn; lia. Qed.

Section LexSpec.
Context `{UnicodeTables}.

(** Reading a token at [c] leaves less text, a larger column, and never yields [TEof]. *)
Definition token_ok (column : Z) (rest : list string) (k : TokenKind * list string * Z) : Prop :=
  let '(kind, rest', column') := k in
  (length rest' <= length rest)%nat /\ column < column' /\ kind <> TEof.

Lemma lex_symbol_ok l col c rest k : lex_symbol l col c rest = Ok k -> token_ok col rest k.
Proof.
  assert (forall d, one_char c = Some d -> d <> TEof) as H1.
  { intros d. unfold one_char. repeat (destruct (String.eqb c _); [by intros [= <-]|]). done. }
  assert (forall n d, two_char c n = Some d -> d <> TEof) as H2.
  { intros n d. unfold two_char. repeat (destruct (String.eqb (c +:+ n) _); [by intros [= <-]|]). done. }
  unfold lex_symbol. destruct rest as [|n rest].
  - destruct (one_char c) eqn:E; [|done]. intros [= <-]. repeat split; cbn; eauto; lia.
  - destruct (two_char c n) eqn:E; [intros [= <-]; repeat split; cbn; eauto; lia|].
    destruct (one_char c) eqn:E1; [|done]. intros [= <-]. repeat split; cbn; eauto; lia.
Qed.

Lemma lex_number_ok l col c rest k :
  is_digit_char c = true -> lex_number l col (c :: rest) = Ok k -> token_ok col rest k.
Proof.
  intros Hc. unfold lex_number.
  destruct (scan_number false (c :: rest)) as [t r] eqn:E.
  pose proof (scan_number_length _ _ _ _ E) as Hl. cbn [scan_number] in E. rewrite Hc in E.
  destruct (scan_number false rest) as [t' r'] eqn:E'. injection E as <- <-. cbn [length] in *.
  destruct r' as [|u after].
  - intros Hk. inv_ok. repeat split; cbn in *; try lia. done.
  - destruct (_ && _).
    + intros Hk. inv_ok. repeat split; cbn in *; try lia. done.
    + destruct (word_char u); [done|]. intros Hk. inv_ok. repeat split; cbn in *; try lia. done.
Qed.

Lemma lex_token_ok l col c rest k : lex_token l col c rest = Ok k -> token_ok col rest k.
Proof.
  unfold lex_token. destruct (String.eqb c _).
  - destruct (lex_string _ _ _ _ _ _) as [[[v r] col']|] eqn:E; cbn; [|done].
    apply lex_string_shrinks in E as [E1 E2]. intros [= <-]. repeat split; try done; lia.
  - destruct (is_digit_char c) eqn:Ed; [by apply lex_number_ok|].
    destruct (is_alphabetic c || String.eqb c "_") eqn:Ea; [|apply lex_symbol_ok].
    assert (word_char c = true) as Hw.
    { unfold word_char. apply orb_true_iff in Ea as [Ea|Ea]; [|by rewrite Ea, orb_true_r].
      unfold is_alphabetic in Ea. unfold is_alphanumeric.
      destruct c as [|a [|]]; by rewrite ?Ea. }
    cbn [span]. rewrite Hw. destruct (span word_char rest) as [t r] eqn:E.
    apply span_length in E. intros [= <-]. repeat split; cbn; try done; lia.
Qed.

Lemma lex_loop_some fuel line col cs toks :
  (length cs < fuel)%nat -> exists r, lex_loop fuel line col cs toks = Some r.
Proof.
  revert line col cs toks. induction fuel as [|fuel IH]; intros line col cs toks Hf; [lia|].
  cbn [lex_loop]. destruct cs as [|c rest]; [eauto|]. cbn in Hf.
  destruct (String.eqb c _); [apply IH; lia|].
  destruct (is_whitespace c); [apply IH; lia|].
  destruct (String.eqb c "#").
  - apply IH. pose proof (drop_while_length (fun ch => negb (String.eqb ch (String "010" ""))) rest). lia.
  - destruct (lex_token line col c rest) as [[[k r] col']|] eqn:E; [|eauto].
    apply lex_token_ok in E as [E _]. apply IH. lia.
Qed.

(** Positions are compared by line, then column. *)
Definition pos_lt (a b : Z * Z) : Prop := fst a < fst b \/ fst a = fst b /\ snd a < snd b.

Definition tk_pos (t : Token) : Z * Z := (tk_line t, tk_column t).

Definition before (line col : Z) (toks : list Token) : Prop :=
  Forall (fun t => pos_lt (tk_pos t) (line, col) /\ tk_kind t <> TEof) toks.

Fixpoint increasing (toks : list Token) : Prop :=
  match toks with
  | [] => True
  | t :: toks => Forall (fun u => pos_lt (tk_pos t) (tk_pos u)) toks /\ increasing toks
  end.

Lemma before_mono line col line' col' toks :
  before line col toks -> pos_lt (line, col) (line', col') -> before line' col' toks.
Proof.
  intros Hb Hp. eapply List.Forall_impl; [|exact Hb]. cbn. unfold pos_lt in *. cbn in *.
  intros t [Ht Hk]. split; [lia | done].
Qed.

Lemma increasing_snoc toks t :
  increasing toks -> before (tk_line t) (tk_column t) toks -> increasing (toks ++ [t]).
Proof.
  induction toks as [|u toks IH]; cbn; [repeat constructor|].
  intros [Hu Hi] Hb. inversion Hb as [|? ? [Hb1 _] Hb2]; subst. split; [|by apply IH].
  apply Forall_app. split; [done|]. constructor; [exact Hb1 | constructor].
Qed.

(** What a finished token list looks like. *)
Definition tokens_ok (toks : list Token) : Prop :=
  increasing toks /\
  exists body eof, toks = body ++ [eof] /\ tk_kind eof = TEof /\
    Forall (fun t => tk_kind t <> TEof) body.

Lemma lex_loop_ok fuel line col cs toks out :
  lex_loop fuel line col cs toks = Some (Ok out) ->
  increasing toks -> before line col toks -> tokens_ok out.
Proof.
  revert line col cs toks. induction fuel as [|fuel IH]; intros line col cs toks; [done|].
  cbn [lex_loop]. destruct cs as [|c rest].
  - intros [= <-] Hi Hb. split; [by apply increasing_snoc|].
    eexists _, _. split; [reflexivity|]. split; [done|].
    eapply List.Forall_impl; [|exact Hb]. by intros t [_ ?].
  - destruct (String.eqb c _).
    { intros Hl Hi Hb. eapply IH; [exact Hl | done |]. eapply before_mono; [exact Hb|].
      unfold pos_lt. cbn. lia. }
    destruct (is_whitespace c).
    { intros Hl Hi Hb. eapply IH; [exact Hl | done |]. eapply before_mono; [exact Hb|].
      unfold pos_lt. cbn. lia. }
    destruct (String.eqb c "#"); [by apply IH|].
    destruct (lex_token line col c rest) as [[[k r] col']|] eqn:E; [|done].
    apply lex_token_ok in E as (_ & Hc & Hk). intros Hl Hi Hb. eapply IH; [exact Hl| |].
    + by apply increasing_snoc.
    + apply Forall_app. split.
      * eapply before_mono; [exact Hb|]. unfold pos_lt. cbn. lia.
      * constructor; [|constructor]. split; [unfold pos_lt; cbn; lia | done].
Qed.

Lemma lex_ok source toks : lex source = Ok toks -> tokens_ok toks.
Proof.
  unfold lex. destruct (lex_loop _ _ _ _ _) as [[out|]|] eqn:E; try done. intros [= <-].
  eapply lex_loop_ok; [exact E | done | constructor].
Qed.

(** Lexing terminates on every text with the fuel given, and a successful lexing ends
    in exactly one end-of-input token and reports strictly increasing positions. *)
Theorem lex_terminates source :
  (exists r, lex_loop (S (length (chars source))) 1 1 (chars source) [] = Some r /\
             lex source = r) /\
  (forall toks, lex source = Ok toks -> tokens_ok toks).
Proof.
  split; [|apply lex_ok]. unfold lex.
  destruct (lex_loop_some (S (length (chars source))) 1 1 (chars source) []) as [r Hr]; [lia|].
  exists r. by rewrite Hr.
Qed.
End LexSpec.
