(* ===== verification/Parser.v ===== *)
(** * The parser ([kernos-policy/src/parser.rs])

    Recursive descent over the tokens.  The parser's position is the list of tokens from
    the current one on, never empty: the last token is end of input and [advance] stays on
    it.  The grammar's recursion takes fuel, [None] when it runs out; [ParserSpec] shows
    that the number of tokens is always enough. *)

From S2P Require Import Prelude Text F64 Json Glob Policy Lexer.
From Stdlib Require Import Ascii SpecFloat.

Local Open Scope string_scope.
Local Open Scope list_scope.
Local Open Scope Z_scope.

Definition KNOWN_FUNCTIONS : list (list string) :=
  [["action"; "touches_path"]; ["action"; "touches_data_class"]; ["run"; "remit"; "grants"]].

(** ** The parser monad: fuel, errors and the remaining tokens *)

Definition pstate : Type := list Token.
Definition P (A : Type) : Type := pstate -> option (result ParseError (A * pstate)).

Definition pret {A} (a : A) : P A := fun ts => Some (Ok (a, ts)).

Definition pbind {A B} (m : P A) (k : A -> P B) : P B := fun ts =>
  match m ts with
  | None => None
  | Some (Err e) => Some (Err e)
  | Some (Ok (a, ts)) => k a ts
  end.

Notation "'do' x '<-' c ';' k" := (pbind c (fun x => k))
  (at level 100, x pattern, c at level 99, k at level 200, right associativity) : kernos_scope.

Definition out_of_fuel {A} : P A := fun _ => None.

Definition eof_token : Token := {| tk_kind := TEof; tk_line := 1; tk_column := 1 |}.

Definition peek (ts : pstate) : Token := match ts with t :: _ => t | [] => eof_token end.

Definition peek_kind : P TokenKind := fun ts => Some (Ok (tk_kind (peek ts), ts)).
Definition peek_token : P Token := fun ts => Some (Ok (peek ts, ts)).

Definition advance : P Token := fun ts =>
  Some (Ok (peek ts, match ts with t :: (_ :: _) as rest => rest | _ => ts end)).

Definition perror {A} : P A := fun ts =>
  Some (parse_error (tk_line (peek ts)) (tk_column (peek ts))).

Definition error_at {A} (t : Token) : P A := fun _ => Some (parse_error (tk_line t) (tk_column t)).

(** ** Tokens *)

Definition ident_is (word : string) (k : TokenKind) : bool :=
  match k with TIdent w => String.eqb w word | _ => false end.

Definition is_ident (word : string) : P bool := do k <- peek_kind; pret (ident_is word k).

(** [==] on token kinds without payload. *)
Definition kind_eqb (a b : TokenKind) : bool :=
  match a, b with
  | TLParen, TLParen | TRParen, TRParen | TLBracket, TLBracket | TRBracket, TRBracket
  | TComma, TComma | TDot, TDot | TColon, TColon | TArrow, TArrow | TEq, TEq | TNe, TNe
  | TLt, TLt | TLe, TLe | TGt, TGt | TGe, TGe | TPlus, TPlus | TMinus, TMinus | TEof, TEof => true
  | _, _ => false
  end.

Definition expect_keyword (word : string) : P unit :=
  do b <- is_ident word;
  if b then (do _ <- advance; pret tt) else perror.

Definition expect (kind : TokenKind) : P unit :=
  do k <- peek_kind;
  if kind_eqb k kind then (do _ <- advance; pret tt) else perror.

Definition expect_string : P string :=
  do k <- peek_kind;
  match k with
  | TStr s => do _ <- advance; pret s
  | _ => perror
  end.

Definition ident_segment : P string :=
  do k <- peek_kind;
  match k with
  | TIdent w => if negb (is_keyword w) then (do _ <- advance; pret w) else perror
  | _ => perror
  end.

(** [while self.peek().kind == TokenKind::Dot] *)
Fixpoint path_rest (fuel : nat) (segments : list string) : P (list string) :=
  match fuel with
  | O => out_of_fuel
  | S fuel =>
      do k <- peek_kind;
      if kind_eqb k TDot then
        do _ <- advance;
        do s <- ident_segment;
        path_rest fuel (segments ++ [s])
      else pret segments
  end.

Definition path (fuel : nat) : P (list string) :=
  do s <- ident_segment; path_rest fuel [s].

Definition quoted_argument : P string :=
  do _ <- expect TLParen;
  do value <- expect_string;
  do _ <- expect TRParen;
  pret value.

(** ** Expressions *)

Definition is_known (path : list string) : bool :=
  any (fun f => (length f =? length path)%nat && all (fun ab => String.eqb ab.1 ab.2) (zip f path))
    KNOWN_FUNCTIONS.

(** [loop { items.push(expr()?); if comma { advance } else { break } }] *)
Fixpoint expr_list (fuel : nat) (expr : P Expr) (items : list Expr) : P (list Expr) :=
  match fuel with
  | O => out_of_fuel
  | S fuel =>
      do e <- expr;
      do k <- peek_kind;
      if kind_eqb k TComma then (do _ <- advance; expr_list fuel expr (items ++ [e]))
      else pret (items ++ [e])
  end.

(** The items up to the closing token [close]. *)
Definition items_until (fuel : nat) (expr : P Expr) (close : TokenKind) : P (list Expr) :=
  do k <- peek_kind;
  do items <- (if negb (kind_eqb k close) then expr_list fuel expr [] else pret []);
  do _ <- expect close;
  pret items.

Definition primary (fuel : nat) (expr : P Expr) : P Expr :=
  do token <- peek_token;
  match tk_kind token with
  | TNumber n => do _ <- advance; pret (ENumber n)
  | TStr s => do _ <- advance; pret (EStr s)
  | TLParen =>
      do _ <- advance;
      do inner <- expr;
      do _ <- expect TRParen;
      pret inner
  | TLBracket =>
      do _ <- advance;
      do items <- items_until fuel expr TRBracket;
      pret (EList items)
  | TIdent w =>
      if String.eqb w "true" then (do _ <- advance; pret (EBool true))
      else if String.eqb w "false" then (do _ <- advance; pret (EBool false))
      else if String.eqb w "null" then (do _ <- advance; pret ENull)
      else
        do p <- path fuel;
        do k <- peek_kind;
        if kind_eqb k TLParen then
          if negb (is_known p) then error_at token
          else
            do _ <- advance;
            do args <- items_until fuel expr TRParen;
            pret (ECall p args)
        else pret (EPath p)
  | _ => perror
  end.

Fixpoint unary (fuel : nat) (expr : P Expr) : P Expr :=
  match fuel with
  | O => out_of_fuel
  | S n =>
      do k <- peek_kind;
      if kind_eqb k TMinus then
        do _ <- advance;
        do inner <- unary n expr;
        pret (ENeg inner)
      else primary n expr
  end.

(** A left-associative chain of one precedence level. *)
Fixpoint chain (fuel : nat) (op_of : TokenKind -> option BinaryOp) (operand : P Expr) (lhs : Expr)
    : P Expr :=
  match fuel with
  | O => out_of_fuel
  | S n =>
      do k <- peek_kind;
      match op_of k with
      | Some op =>
          do _ <- advance;
          do rhs <- operand;
          chain n op_of operand (EBinary op lhs rhs)
      | None => pret lhs
      end
  end.

Definition sum_op (k : TokenKind) : option BinaryOp :=
  match k with TPlus => Some OpAdd | TMinus => Some OpSub | _ => None end.
Definition cmp_op (k : TokenKind) : option BinaryOp :=
  match k with
  | TEq => Some OpEq | TNe => Some OpNe | TLt => Some OpLt | TLe => Some OpLe
  | TGt => Some OpGt | TGe => Some OpGe
  | TIdent w => if String.eqb w "in" then Some OpIn else None
  | _ => None
  end.
Definition and_op (k : TokenKind) : option BinaryOp :=
  if ident_is "and" k then Some OpAnd else None.
Definition or_op (k : TokenKind) : option BinaryOp :=
  if ident_is "or" k then Some OpOr else None.

Definition sum (fuel : nat) (expr : P Expr) : P Expr :=
  do lhs <- unary fuel expr;
  chain fuel sum_op (unary fuel expr) lhs.

Definition cmp (fuel : nat) (expr : P Expr) : P Expr :=
  do lhs <- sum fuel expr;
  do k <- peek_kind;
  match cmp_op k with
  | Some op =>
      do _ <- advance;
      do rhs <- sum fuel expr;
      pret (EBinary op lhs rhs)
  | None => pret lhs
  end.

Fixpoint not_ (fuel : nat) (depth : nat) (expr : P Expr) : P Expr :=
  match depth with
  | O => out_of_fuel
  | S n =>
      do b <- is_ident "not";
      if b then
        do _ <- advance;
        do inner <- not_ fuel n expr;
        pret (ENot inner)
      else cmp fuel expr
  end.

Definition and_ (fuel : nat) (expr : P Expr) : P Expr :=
  do lhs <- not_ fuel fuel expr;
  chain fuel and_op (not_ fuel fuel expr) lhs.

Definition or_ (fuel : nat) (expr : P Expr) : P Expr :=
  do lhs <- and_ fuel expr;
  chain fuel or_op (and_ fuel expr) lhs.

(** Each nested expression costs one unit. *)
Fixpoint expr (fuel : nat) : P Expr :=
  match fuel with
  | O => out_of_fuel
  | S n => or_ (S n) (expr n)
  end.

(** ** Rules *)

Definition approver (fuel : nat) : P ApproverExpr :=
  do k <- peek_kind;
  if ident_is "role" k then (do _ <- advance; do r <- quoted_argument; pret (AE_Role r))
  else if ident_is "user" k then (do _ <- advance; do u <- quoted_argument; pret (AE_User u))
  else (do p <- path fuel; pret (AE_Path p)).

Definition escalate (fuel : nat) : P EscalateExpr :=
  do k <- peek_kind;
  if ident_is "reporting_line" k then (do _ <- advance; pret EE_ReportingLine)
  else if ident_is "role" k then (do _ <- advance; do r <- quoted_argument; pret (EE_Role r))
  else if ident_is "user" k then (do _ <- advance; do u <- quoted_argument; pret (EE_User u))
  else (do p <- path fuel; pret (EE_Path p)).

Fixpoint clause_rest (fuel : nat) (sla : option Z) (esc : option EscalateExpr)
    : P (option Z * option EscalateExpr) :=
  match fuel with
  | O => out_of_fuel
  | S n =>
      do k <- peek_kind;
      if kind_eqb k TComma then
        do _ <- advance;
        do k <- peek_kind;
        if ident_is "sla" k then
          if (match sla with Some _ => true | None => false end) then perror
          else
            do _ <- advance;
            do _ <- expect TColon;
            do k <- peek_kind;
            match k with
            | TDuration seconds => do _ <- advance; clause_rest n (Some seconds) esc
            | _ => perror
            end
        else if ident_is "escalate_to" k then
          if (match esc with Some _ => true | None => false end) then perror
          else
            do _ <- advance;
            do _ <- expect TColon;
            do e <- escalate n;
            clause_rest n sla (Some e)
        else perror
      else pret (sla, esc)
  end.

Definition approval_clause (fuel : nat) : P ApprovalClause :=
  do _ <- expect_keyword "approver";
  do _ <- expect TColon;
  do a <- approver fuel;
  do (sla, esc) <- clause_rest fuel None None;
  pret {| ac_approver := a; ac_sla_seconds := sla; ac_escalate_to := esc |}.

Definition rule_kind_eqb (a b : RuleKind) : bool :=
  match a, b with
  | Deny, Deny | Allow, Allow | RequireApproval, RequireApproval => true
  | _, _ => false
  end.

Definition rule_head : P RuleKind :=
  do keyword <- advance;
  if ident_is "deny" (tk_kind keyword) then pret Deny
  else if ident_is "allow" (tk_kind keyword) then pret Allow
  else if ident_is "require" (tk_kind keyword) then
    (do _ <- expect_keyword "approval"; pret RequireApproval)
  else perror.

Definition rule (fuel : nat) : P Rule :=
  do kind <- rule_head;
  do _ <- expect_keyword "when";
  do condition <- expr fuel;
  do k <- peek_kind;
  if kind_eqb k TArrow then
    do arrow <- advance;
    if negb (rule_kind_eqb kind RequireApproval) then error_at arrow
    else
      do clause <- approval_clause fuel;
      pret {| rule_kind := kind; rule_condition := condition; rule_approval := Some clause |}
  else pret {| rule_kind := kind; rule_condition := condition; rule_approval := None |}.

Fixpoint rules (fuel : nat) (acc : list Rule) : P (list Rule) :=
  match fuel with
  | O => out_of_fuel
  | S n =>
      do k <- peek_kind;
      match k with
      | TEof => pret acc
      | TIdent w =>
          if String.eqb w "deny" || String.eqb w "allow" || String.eqb w "require"
          then (do r <- rule n; rules n (acc ++ [r]))
          else perror
      | _ => perror
      end
  end.

Definition policy (fuel : nat) : P Policy :=
  do b <- is_ident "policy";
  do name <- (if b then (do _ <- advance; do s <- expect_string; pret (Some s)) else pret None);
  do rs <- rules fuel [];
  pret {| policy_name := name; policy_rules := rs |}.

(** Enough for every list of tokens: see [parse_tokens_total]. *)
Definition parse_fuel (ts : list Token) : nat := S (length ts).

Definition parse_tokens (ts : list Token) : option (result ParseError Policy) :=
  match policy (parse_fuel ts) ts with
  | Some (Ok (p, _)) => Some (Ok p)
  | Some (Err e) => Some (Err e)
  | None => None
  end.

Definition parse `{UnicodeTables} (source : string) : result ParseError Policy :=
  let? tokens := lex source in
  match parse_tokens tokens with
  | Some r => r
  | None => parse_error 0 0
  end.

(** [kernos_policy::load]; a version is its decimal text. *)
Definition load `{UnicodeTables} (name version source : string) : result ParseError LoadedPolicy :=
  let? policy := parse source in
  Ok {| lp_name := name; lp_version := version; lp_policy := policy |}.
