(* ===== verification/ParserSpec.v ===== *)
(** * The parser is total

    Every parsing function, given more fuel than there are tokens left, returns: it fails
    with a position or consumes at least one token.  So [parse] never runs out of fuel, on
    any text. *)

From S2P Require Import Prelude Text F64 Json Glob Policy Lexer Parser.
From Stdlib Require Import Ascii SpecFloat.

Local Open Scope string_scope.
Local Open Scope list_scope.
Local Open Scope nat_scope.

(** ** Token lists that end in their only end of input *)

Fixpoint wf (ts : pstate) : Prop :=
  match ts with
  | [] => False
  | [t] => tk_kind t = TEof
  | t :: ts => tk_kind t <> TEof /\ wf ts
  end.

Lemma wf_snoc body eof :
  tk_kind eof = TEof -> Forall (fun t => tk_kind t <> TEof) body -> wf (body ++ [eof]).
Proof.
  intros He. induction 1 as [|t body Ht _ IH]; [exact He|].
  cbn [app]. destruct (body ++ [eof]) eqn:E; [by apply app_eq_nil in E as [_ ?]|].
  split; [exact Ht|]. exact IH.
Qed.

Lemma tokens_ok_wf ts : tokens_ok ts -> wf ts.
Proof. intros [_ (body & eof & -> & He & Hb)]. by apply wf_snoc. Qed.

(** ** Progress *)

(** [m] returns on [ts], and on success leaves a well-formed list at least [b] shorter. *)
Definition good {A} (b : nat) (m : P A) (ts : pstate) : Prop :=
  match m ts with
  | None => False
  | Some (Err _) => True
  | Some (Ok (_, ts')) => wf ts' /\ length ts' + b <= length ts
  end.

Lemma good_weaken {A} b b' (m : P A) ts : b' <= b -> good b m ts -> good b' m ts.
Proof.
  unfold good. intros Hb. destruct (m ts) as [[[a ts']|]|]; try done. intros [Hw Hl].
  split; [done | lia].
Qed.

Lemma good_ret {A} (a : A) ts : wf ts -> good 0 (pret a) ts.
Proof. unfold good, pret. intros. split; [done | lia]. Qed.

Lemma good_bind {A B} b1 b2 (m : P A) (k : A -> P B) ts :
  good b1 m ts ->
  (forall a ts', wf ts' -> length ts' + b1 <= length ts -> good b2 (k a) ts') ->
  good (b1 + b2) (pbind m k) ts.
Proof.
  unfold good, pbind. destruct (m ts) as [[[a ts']|]|]; try done.
  intros [Hw Hl] Hk. specialize (Hk a ts' Hw Hl).
  destruct (k a ts') as [[[c ts'']|]|]; try done. destruct Hk as [Hw' Hl']. split; [done | lia].
Qed.

Lemma good_peek {A} b (k : TokenKind -> P A) ts :
  good b (k (tk_kind (peek ts))) ts -> good b (pbind peek_kind k) ts.
Proof. done. Qed.

Lemma good_peek_token {A} b (k : Token -> P A) ts :
  good b (k (peek ts)) ts -> good b (pbind peek_token k) ts.
Proof. done. Qed.

Lemma good_error {A} b ts : good b (@perror A) ts.
Proof. done. Qed.

Lemma good_error_at {A} b t ts : good b (@error_at A t) ts.
Proof. done. Qed.

Lemma good_advance ts : wf ts -> tk_kind (peek ts) <> TEof -> good 1 advance ts.
Proof.
  unfold good, advance. destruct ts as [|t [|t' ts]]; cbn [peek]; try done.
  intros [_ Hw] _. split; [done | cbn; lia].
Qed.

(** Advancing over a token that was recognised. *)
Lemma good_take {A} b (k : Token -> P A) ts :
  wf ts -> tk_kind (peek ts) <> TEof ->
  (forall t ts', wf ts' -> length ts' + 1 <= length ts -> good b (k t) ts') ->
  good (S b) (pbind advance k) ts.
Proof. intros Hw He Hk. apply (good_bind 1 b); [by apply good_advance | done]. Qed.

Lemma good_is_ident {A} b w (k : bool -> P A) ts :
  good b (k (ident_is w (tk_kind (peek ts)))) ts -> good b (pbind (is_ident w) k) ts.
Proof. done. Qed.

Create HintDb parser discriminated.
#[export] Hint Resolve good_ret good_error good_error_at : parser.

Lemma ident_not_eof w k : ident_is w k = true -> k <> TEof.
Proof. by destruct k. Qed.

Lemma kind_not_eof k k' : kind_eqb k k' = true -> k' <> TEof -> k <> TEof.
Proof. by destruct k, k'. Qed.

#[export] Hint Resolve ident_not_eof : parser.

(** One step of a proof: sequence, look at the current token, take it, or finish. *)
Ltac step :=
  first
  [ apply good_peek | apply good_is_ident | apply good_peek_token
  | apply good_take; [assumption | solve [eauto with parser | congruence]|intros ? ? ? ?]
  | match goal with |- good _ (if ?b then _ else _) _ => destruct b eqn:? end
  | solve [eauto with parser] ].

Lemma good_take_any {A} b b' (k : Token -> P A) ts :
  b' <= b -> wf ts -> tk_kind (peek ts) <> TEof ->
  (forall t ts', wf ts' -> length ts' + 1 <= length ts -> good b (k t) ts') ->
  good b' (pbind advance k) ts.
Proof. intros. eapply good_weaken; [|by apply good_take]. lia. Qed.

Lemma good_expect_keyword w ts : wf ts -> good 1 (expect_keyword w) ts.
Proof. intros Hw. unfold expect_keyword. repeat step. Qed.

Lemma good_expect k ts : k <> TEof -> wf ts -> good 1 (expect k) ts.
Proof.
  intros Hk Hw. unfold expect. apply good_peek. destruct (kind_eqb _ k) eqn:E; [|done].
  apply good_take; [done | by eapply kind_not_eof | auto with parser].
Qed.

Lemma good_expect_string ts : wf ts -> good 1 expect_string ts.
Proof.
  intros Hw. unfold expect_string. apply good_peek. destruct (tk_kind (peek ts)) eqn:E; try done.
  repeat step.
Qed.

Lemma good_ident_segment ts : wf ts -> good 1 ident_segment ts.
Proof.
  intros Hw. unfold ident_segment. apply good_peek. destruct (tk_kind (peek ts)) eqn:E; try done.
  repeat step.
Qed.

Lemma good_path_rest fuel segs ts : wf ts -> length ts < fuel -> good 0 (path_rest fuel segs) ts.
Proof.
  revert segs ts. induction fuel as [|fuel IH]; intros segs ts Hw Hf; [lia|]. cbn [path_rest].
  apply good_peek. destruct (kind_eqb _ TDot) eqn:E; [|auto with parser].
  apply (good_take_any 1); [lia | done | by eapply kind_not_eof|]. intros _ ts' Hw' Hl'.
  apply (good_bind 1 0); [by apply good_ident_segment|]. intros s ts'' Hw'' Hl''. apply IH; [done | lia].
Qed.

Lemma good_path fuel ts : wf ts -> length ts <= fuel -> good 1 (path fuel) ts.
Proof.
  intros Hw Hf. unfold path. apply (good_bind 1 0); [by apply good_ident_segment|].
  intros s ts' Hw' Hl'. apply good_path_rest; [done | lia].
Qed.

Lemma good_quoted ts : wf ts -> good 1 quoted_argument ts.
Proof.
  intros Hw. unfold quoted_argument. apply (good_weaken 3); [lia|].
  apply (good_bind 1 2); [by apply good_expect|]. intros _ ts1 H1 _.
  apply (good_bind 1 1); [by apply good_expect_string|]. intros v ts2 H2 _.
  apply (good_bind 1 0); [by apply good_expect|]. auto with parser.
Qed.

(** ** Expressions *)

Section Expressions.
Variable sub : P Expr.
Variable N : nat.
(** The recursive parser works on every list shorter than [N]. *)
Hypothesis good_sub : forall ts, wf ts -> length ts < N -> good 1 sub ts.

Lemma good_expr_list fuel items ts :
  wf ts -> length ts < fuel -> length ts < N -> good 1 (expr_list fuel sub items) ts.
Proof.
  revert items ts. induction fuel as [|fuel IH]; intros items ts Hw Hf HN; [lia|].
  cbn [expr_list]. apply (good_bind 1 0); [by apply good_sub|]. intros e ts1 H1 L1.
  apply good_peek. destruct (kind_eqb _ TComma) eqn:E; [|auto with parser].
  apply (good_take_any 1); [lia | done | by eapply kind_not_eof|]. intros _ ts2 H2 L2.
  apply IH; [done | lia | lia].
Qed.

Lemma good_items fuel close ts :
  close <> TEof -> wf ts -> length ts < fuel -> length ts < N ->
  good 1 (items_until fuel sub close) ts.
Proof.
  intros Hc Hw Hf HN. unfold items_until. apply good_peek. apply (good_bind 0 1).
  - destruct (negb _); [|auto with parser].
    eapply good_weaken; [|by apply good_expr_list]. lia.
  - intros items ts1 H1 L1. apply (good_bind 1 0); [by apply good_expect | auto with parser].
Qed.

Lemma good_primary fuel ts :
  wf ts -> length ts <= fuel -> length ts <= N -> good 1 (primary fuel sub) ts.
Proof.
  intros Hw Hf HN. unfold primary. apply good_peek_token.
  destruct (tk_kind (peek ts)) eqn:E; try apply good_error.
  - repeat match goal with |- good _ (if ?b then _ else _) _ =>
      destruct b; [apply good_take; [done | congruence | auto with parser]|] end.
    apply (good_bind 1 0); [by apply good_path|]. intros p ts1 H1 L1.
    apply good_peek. destruct (kind_eqb _ TLParen) eqn:E1; [|auto with parser].
    destruct (negb _); [done|].
    apply (good_take_any 1); [lia | done | by eapply kind_not_eof|]. intros _ ts2 H2 L2.
    apply (good_bind 1 0); [apply good_items; [done | done | lia | lia] | auto with parser].
  - apply good_take; [done | congruence | auto with parser].
  - apply good_take; [done | congruence | auto with parser].
  - apply (good_take_any 2); [lia | done | congruence|]. intros _ ts1 H1 L1.
    apply (good_bind 1 1); [apply good_sub; [done | lia]|]. intros e ts2 H2 L2.
    apply (good_bind 1 0); [by apply good_expect | auto with parser].
  - apply (good_take_any 1); [lia | done | congruence|]. intros _ ts1 H1 L1.
    apply (good_bind 1 0); [apply good_items; [done | done | lia | lia] | auto with parser].
Qed.

Lemma good_unary fuel ts :
  wf ts -> length ts < fuel -> length ts <= N -> good 1 (unary fuel sub) ts.
Proof.
  revert ts. induction fuel as [|fuel IH]; intros ts Hw Hf HN; [lia|]. cbn [unary].
  apply good_peek. destruct (kind_eqb _ TMinus) eqn:E; [|apply good_primary; [done | lia | lia]].
  apply (good_take_any 1); [lia | done | by eapply kind_not_eof|]. intros _ ts1 H1 L1.
  apply (good_bind 1 0); [apply IH; [done | lia | lia] | auto with parser].
Qed.

Lemma good_chain fuel op_of (operand : P Expr) lhs ts :
  op_of TEof = None ->
  (forall ts, wf ts -> length ts <= N -> good 1 operand ts) ->
  wf ts -> length ts < fuel -> length ts <= N -> good 0 (chain fuel op_of operand lhs) ts.
Proof.
  intros Hop Ho. revert lhs ts. induction fuel as [|fuel IH]; intros lhs ts Hw Hf HN; [lia|].
  cbn [chain]. apply good_peek. destruct (op_of (tk_kind (peek ts))) eqn:E; [|auto with parser].
  apply (good_take_any 1); [lia | done | congruence|]. intros _ ts1 H1 L1.
  apply (good_bind 1 0); [apply Ho; [done | lia]|]. intros rhs ts2 H2 L2.
  apply IH; [done | lia | lia].
Qed.

(** From here on the fuel exceeds [N]. *)
Variable fuel : nat.
Hypothesis fuel_ok : N < fuel.

Lemma good_level op_of (operand : P Expr) ts :
  op_of TEof = None -> (forall ts, wf ts -> length ts <= N -> good 1 operand ts) ->
  wf ts -> length ts <= N -> good 1 (do lhs <- operand; chain fuel op_of operand lhs) ts.
Proof.
  intros Hop Ho Hw HN. apply (good_bind 1 0); [by apply Ho|]. intros lhs ts1 H1 L1.
  apply good_chain; [done | done | done | lia | lia].
Qed.

Lemma good_sum ts : wf ts -> length ts <= N -> good 1 (sum fuel sub) ts.
Proof.
  intros Hw HN. apply good_level; try done. intros. apply good_unary; [done | lia | lia].
Qed.

Lemma good_cmp ts : wf ts -> length ts <= N -> good 1 (cmp fuel sub) ts.
Proof.
  intros Hw HN. unfold cmp. apply (good_bind 1 0); [by apply good_sum|]. intros lhs ts1 H1 L1.
  apply good_peek. destruct (cmp_op _) eqn:E; [|auto with parser].
  apply (good_take_any 1); [lia | done | by intros Hk; rewrite Hk in E|]. intros _ ts2 H2 L2.
  apply (good_bind 1 0); [apply good_sum; [done | lia] | auto with parser].
Qed.

Lemma good_not depth ts :
  wf ts -> length ts < depth -> length ts <= N -> good 1 (not_ fuel depth sub) ts.
Proof.
  revert ts. induction depth as [|depth IH]; intros ts Hw Hd HN; [lia|]. cbn [not_].
  apply good_is_ident. destruct (ident_is "not" _) eqn:E; [|by apply good_cmp].
  apply (good_take_any 1); [lia | done | eauto with parser|]. intros _ ts1 H1 L1.
  apply (good_bind 1 0); [apply IH; [done | lia | lia] | auto with parser].
Qed.

Lemma good_and ts : wf ts -> length ts <= N -> good 1 (and_ fuel sub) ts.
Proof. intros Hw HN. apply good_level; try done. intros. apply good_not; [done | lia | lia]. Qed.

Lemma good_or ts : wf ts -> length ts <= N -> good 1 (or_ fuel sub) ts.
Proof. intros Hw HN. apply good_level; try done. intros. by apply good_and. Qed.
End Expressions.

Lemma good_expr fuel ts : wf ts -> length ts < fuel -> good 1 (expr fuel) ts.
Proof.
  revert ts. induction fuel as [|n IH]; intros ts Hw Hf; [lia|]. cbn [expr].
  apply (good_or (expr n) n); [done | lia | done | lia].
Qed.

(** ** Rules *)

Lemma good_approver fuel ts : wf ts -> length ts <= fuel -> good 1 (approver fuel) ts.
Proof.
  intros Hw Hf. unfold approver. apply good_peek.
  repeat match goal with |- good _ (if ident_is ?w ?k then _ else _) _ =>
    destruct (ident_is w k) eqn:?;
    [apply (good_take_any 1); [lia | done | eauto with parser|]; intros _ ts1 H1 L1;
     apply (good_bind 1 0); [by apply good_quoted | auto with parser]|] end.
  apply (good_bind 1 0); [by apply good_path | auto with parser].
Qed.

Lemma good_escalate fuel ts : wf ts -> length ts <= fuel -> good 1 (escalate fuel) ts.
Proof.
  intros Hw Hf. unfold escalate. apply good_peek.
  destruct (ident_is "reporting_line" _) eqn:?; [apply good_take; eauto with parser|].
  repeat match goal with |- good _ (if ident_is ?w ?k then _ else _) _ =>
    destruct (ident_is w k) eqn:?;
    [apply (good_take_any 1); [lia | done | eauto with parser|]; intros _ ts1 H1 L1;
     apply (good_bind 1 0); [by apply good_quoted | auto with parser]|] end.
  apply (good_bind 1 0); [by apply good_path | auto with parser].
Qed.

Lemma good_clause_rest fuel sla esc ts :
  wf ts -> length ts < fuel -> good 0 (clause_rest fuel sla esc) ts.
Proof.
  revert sla esc ts. induction fuel as [|n IH]; intros sla esc ts Hw Hf; [lia|]. cbn [clause_rest].
  apply good_peek. destruct (kind_eqb _ TComma) eqn:E; [|auto with parser].
  apply (good_take_any 0); [lia | done | by eapply kind_not_eof|]. intros _ ts1 H1 L1.
  apply good_peek. destruct (ident_is "sla" _) eqn:Es; [|destruct (ident_is "escalate_to" _) eqn:Ee; [|done]].
  - destruct sla; [done|].
    apply (good_take_any 1); [lia | done | eauto with parser|]. intros _ ts2 H2 L2.
    apply (good_bind 1 0); [by apply good_expect|]. intros _ ts3 H3 L3.
    apply good_peek. destruct (tk_kind (peek ts3)) eqn:Ek; try done.
    apply (good_take_any 0); [lia | done | congruence|]. intros _ ts4 H4 L4. apply IH; [done | lia].
  - destruct esc; [done|].
    apply (good_take_any 2); [lia | done | eauto with parser|]. intros _ ts2 H2 L2.
    apply (good_bind 1 1); [by apply good_expect|]. intros _ ts3 H3 L3.
    apply (good_bind 1 0); [apply good_escalate; [done | lia]|]. intros e ts4 H4 L4.
    apply IH; [done | lia].
Qed.

Lemma good_clause fuel ts : wf ts -> length ts < fuel -> good 1 (approval_clause fuel) ts.
Proof.
  intros Hw Hf. unfold approval_clause. apply (good_weaken 3); [lia|].
  apply (good_bind 1 2); [by apply good_expect_keyword|]. intros _ ts1 H1 L1.
  apply (good_bind 1 1); [by apply good_expect|]. intros _ ts2 H2 L2.
  apply (good_bind 1 0); [apply good_approver; [done | lia]|]. intros a ts3 H3 L3.
  apply (good_bind 0 0); [apply good_clause_rest; [done | lia]|]. intros [] ts4 H4 L4.
  auto with parser.
Qed.

Lemma good_rule_head ts : wf ts -> tk_kind (peek ts) <> TEof -> good 1 rule_head ts.
Proof.
  intros Hw He. unfold rule_head. apply good_take; [done | done|]. intros t ts1 H1 L1.
  destruct (ident_is "deny" _); [auto with parser|].
  destruct (ident_is "allow" _); [auto with parser|].
  destruct (ident_is "require" _); [|done].
  apply (good_weaken 1); [lia|].
  apply (good_bind 1 0); [by apply good_expect_keyword | auto with parser].
Qed.

Lemma good_rule fuel ts :
  wf ts -> tk_kind (peek ts) <> TEof -> length ts <= fuel -> good 1 (rule fuel) ts.
Proof.
  intros Hw He Hf. unfold rule. apply (good_weaken 3); [lia|].
  apply (good_bind 1 2); [by apply good_rule_head|]. intros kind ts1 H1 L1.
  apply (good_bind 1 1); [by apply good_expect_keyword|]. intros _ ts2 H2 L2.
  apply (good_bind 1 0); [apply good_expr; [done | lia]|]. intros c ts3 H3 L3.
  apply good_peek. destruct (kind_eqb _ TArrow) eqn:E; [|auto with parser].
  apply (good_take_any 1); [lia | done | by eapply kind_not_eof|]. intros t ts4 H4 L4.
  destruct (negb _); [done|].
  apply (good_bind 1 0); [apply good_clause; [done | lia] | auto with parser].
Qed.

Lemma good_rules fuel acc ts : wf ts -> length ts < fuel -> good 0 (rules fuel acc) ts.
Proof.
  revert acc ts. induction fuel as [|n IH]; intros acc ts Hw Hf; [lia|]. cbn [rules].
  apply good_peek. destruct (tk_kind (peek ts)) eqn:E; try done; [|auto with parser].
  destruct (_ || _); [|done]. apply (good_weaken 1); [lia|].
  apply (good_bind 1 0); [apply good_rule; [done | congruence | lia]|].
  intros r ts1 H1 L1. apply IH; [done | lia].
Qed.

Lemma good_policy fuel ts : wf ts -> length ts < fuel -> good 0 (policy fuel) ts.
Proof.
  intros Hw Hf. unfold policy. apply good_is_ident. apply (good_bind 0 0).
  - destruct (ident_is "policy" _) eqn:E; [|auto with parser].
    apply (good_take_any 1); [lia | done | eauto with parser|]. intros _ ts1 H1 L1.
    apply (good_bind 1 0); [by apply good_expect_string | auto with parser].
  - intros name ts1 H1 L1. apply (good_bind 0 0); [apply good_rules; [done | lia] | auto with parser].
Qed.

Lemma parse_tokens_some ts : wf ts -> exists r, parse_tokens ts = Some r.
Proof.
  intros Hw. unfold parse_tokens, parse_fuel.
  pose proof (good_policy (S (length ts)) ts Hw ltac:(lia)) as H. unfold good in H.
  destruct (policy _ _) as [[[p ts']|e]|]; eauto. done.
Qed.

(** C36: parsing is total: on every text that lexes, the parser returns a policy or an
    error with the fuel [parse] gives it. *)
Theorem parse_total `{UnicodeTables} source toks :
  lex source = Ok toks -> exists r, parse_tokens toks = Some r /\ parse source = r.
Proof.
  intros Hl. destruct (parse_tokens_some toks) as [r Hr].
  { apply tokens_ok_wf. by eapply lex_ok. }
  exists r. split; [done|]. unfold parse. by rewrite Hl; cbn; rewrite Hr.
Qed.

(** No character beyond ASCII is a letter or a digit. *)
Definition ascii_tables : UnicodeTables :=
  {| wide_alphabetic := fun _ => false; wide_numeric := fun _ => false |}.

Lemma parse_total_witness : exists r,
  parse_tokens (match lex (H := ascii_tables) "allow when true" with Ok ts => ts | Err _ => [] end)
    = Some r
  /\ parse (H := ascii_tables) "allow when true" = r.
Proof.
  apply (parse_total (H := ascii_tables)). vm_compute. reflexivity.
Defined.
