(* ===== verification/ParserPrint.v ===== *)
(** * Printing and parsing back

    [print_policy] spells a policy as tokens, with operators in parentheses.  Parsing those
    tokens, wherever they stand in the text, gives the policy back: the parser neither
    drops, reorders nor confuses any construct of the language. *)

From S2P Require Import Prelude Text F64 Json Glob Policy Lexer Parser ParserSpec.
From Stdlib Require Import Ascii SpecFloat.

Local Open Scope string_scope.
Local Open Scope list_scope.
Local Open Scope nat_scope.

(** ** The printer *)

Fixpoint sep {A} (s : A) (l : list (list A)) : list A :=
  match l with
  | [] => []
  | [x] => x
  | x :: l => x ++ s :: sep s l
  end.

Definition print_path (p : list string) : list TokenKind := sep TDot (map (fun s => [TIdent s]) p).

Definition print_op (op : BinaryOp) : TokenKind :=
  match op with
  | OpOr => TIdent "or" | OpAnd => TIdent "and" | OpIn => TIdent "in"
  | OpEq => TEq | OpNe => TNe | OpLt => TLt | OpLe => TLe | OpGt => TGt | OpGe => TGe
  | OpAdd => TPlus | OpSub => TMinus
  end.

Fixpoint print (e : Expr) : list TokenKind :=
  match e with
  | ENumber n => [TNumber n]
  | EStr s => [TStr s]
  | EBool true => [TIdent "true"]
  | EBool false => [TIdent "false"]
  | ENull => [TIdent "null"]
  | EList items => TLBracket :: sep TComma (map print items) ++ [TRBracket]
  | EPath p => print_path p
  | ECall p args => print_path p ++ TLParen :: sep TComma (map print args) ++ [TRParen]
  | ENeg e => TLParen :: TMinus :: print e ++ [TRParen]
  | ENot e => TLParen :: TIdent "not" :: print e ++ [TRParen]
  | EBinary op a b => TLParen :: print a ++ print_op op :: print b ++ [TRParen]
  end.

(** What an expression the grammar can produce looks like. *)
Definition path_ok (p : list string) : bool :=
  match p with [] => false | _ => all (fun s => negb (is_keyword s)) p end.

Fixpoint printable (e : Expr) : bool :=
  match e with
  | EList items => forallb printable items
  | EPath p => path_ok p
  | ECall p args => path_ok p && is_known p && forallb printable args
  | ENeg e | ENot e => printable e
  | EBinary _ a b => printable a && printable b
  | _ => true
  end.

(** ** Reading *)

(** [m], at tokens of kinds [ks], yields [a] and leaves tokens of kinds [ks']. *)
Definition reads {A} (m : P A) (ts : pstate) (a : A) (ks' : list TokenKind) : Prop :=
  exists ts', m ts = Some (Ok (a, ts')) /\ map tk_kind ts' = ks'.

Lemma reads_ret {A} (a : A) ts ks : map tk_kind ts = ks -> reads (pret a) ts a ks.
Proof. intros H. by exists ts. Qed.

Lemma reads_bind {A B} (m : P A) (k : A -> P B) ts a b ks1 ks2 :
  reads m ts a ks1 -> (forall ts1, map tk_kind ts1 = ks1 -> reads (k a) ts1 b ks2) ->
  reads (pbind m k) ts b ks2.
Proof.
  intros (ts1 & H1 & K1) Hk. destruct (Hk ts1 K1) as (ts2 & H2 & K2).
  exists ts2. split; [|done]. unfold pbind. by rewrite H1.
Qed.

Lemma peek_of ts k ks : map tk_kind ts = k :: ks -> tk_kind (peek ts) = k.
Proof. destruct ts; [discriminate|]. cbn. congruence. Qed.

Lemma reads_peek {A} (f : TokenKind -> P A) ts k ks b ks' :
  map tk_kind ts = k :: ks -> reads (f k) ts b ks' -> reads (pbind peek_kind f) ts b ks'.
Proof. intros H Hf. rewrite <- (peek_of _ _ _ H) in Hf. done. Qed.

Lemma reads_is_ident {A} w (f : bool -> P A) ts k ks b ks' :
  map tk_kind ts = k :: ks -> reads (f (ident_is w k)) ts b ks' ->
  reads (pbind (is_ident w) f) ts b ks'.
Proof. intros H Hf. rewrite <- (peek_of _ _ _ H) in Hf. done. Qed.

(** Taking the current token when another one follows. *)
Lemma reads_take {A} (f : Token -> P A) ts k k' ks b ks' :
  map tk_kind ts = k :: k' :: ks ->
  (forall t ts', tk_kind t = k -> map tk_kind ts' = k' :: ks -> reads (f t) ts' b ks') ->
  reads (pbind advance f) ts b ks'.
Proof.
  destruct ts as [|t [|t' ts]]; try discriminate. cbn [map]. intros [= Hk Hk' Hks] Hf.
  apply (Hf t (t' :: ts)); [done | cbn; congruence].
Qed.

Lemma reads_expect k ts k' ks :
  kind_eqb k k = true -> map tk_kind ts = k :: k' :: ks -> reads (expect k) ts tt (k' :: ks).
Proof.
  intros Hk H. unfold expect. eapply reads_peek; [exact H|]. rewrite Hk.
  eapply reads_take; [exact H|]. intros. by apply reads_ret.
Qed.

Lemma reads_keyword w ts k' ks :
  map tk_kind ts = TIdent w :: k' :: ks -> reads (expect_keyword w) ts tt (k' :: ks).
Proof.
  intros H. unfold expect_keyword. eapply reads_is_ident; [exact H|]. cbn. rewrite String.eqb_refl.
  eapply reads_take; [exact H|]. intros. by apply reads_ret.
Qed.

Lemma reads_string s ts k' ks :
  map tk_kind ts = TStr s :: k' :: ks -> reads expect_string ts s (k' :: ks).
Proof.
  intros H. unfold expect_string. eapply reads_peek; [exact H|]. cbn.
  eapply reads_take; [exact H|]. intros. by apply reads_ret.
Qed.

Lemma reads_segment s ts k' ks :
  is_keyword s = false -> map tk_kind ts = TIdent s :: k' :: ks ->
  reads ident_segment ts s (k' :: ks).
Proof.
  intros Hs H. unfold ident_segment. eapply reads_peek; [exact H|]. cbn beta iota. rewrite Hs. cbn [negb].
  eapply reads_take; [exact H|]. intros. by apply reads_ret.
Qed.

Lemma reads_quoted s ts k ks :
  map tk_kind ts = TLParen :: TStr s :: TRParen :: k :: ks -> reads quoted_argument ts s (k :: ks).
Proof.
  intros H. unfold quoted_argument. eapply reads_bind; [by eapply reads_expect|]. intros ts1 H1.
  eapply reads_bind; [by eapply reads_string|]. intros ts2 H2.
  eapply reads_bind; [by eapply reads_expect|]. intros. by apply reads_ret.
Qed.

(** ** Paths *)

Lemma reads_path_rest p fuel segs ts k ks :
  forallb (fun s => negb (is_keyword s)) p = true -> k <> TDot ->
  map tk_kind ts = flat_map (fun s => [TDot; TIdent s]) p ++ k :: ks -> length p < fuel ->
  reads (path_rest fuel segs) ts (segs ++ p) (k :: ks).
Proof.
  revert fuel segs ts. induction p as [|s p IH]; intros fuel segs ts Hp Hk H Hf;
    (destruct fuel as [|fuel]; [cbn in Hf; lia|]); cbn [path_rest].
  - eapply reads_peek; [exact H|]. assert (kind_eqb k TDot = false) as -> by by destruct k.
    rewrite app_nil_r. by apply reads_ret.
  - cbn in Hp. apply andb_true_iff in Hp as [Hs Hp]. apply negb_true_iff in Hs. cbn in Hf.
    cbn [flat_map app] in H. eapply reads_peek; [exact H|]. cbn.
    eapply reads_take; [exact H|]. intros _ ts1 _ H1.
    assert (exists k' ks', flat_map (fun s => [TDot; TIdent s]) p ++ k :: ks = k' :: ks') as (k' & ks' & E)
      by (destruct p; cbn; eauto).
    eapply reads_bind; [eapply reads_segment; [exact Hs | by rewrite H1, E]|]. intros ts2 H2.
    replace (segs ++ s :: p) with ((segs ++ [s]) ++ p) by by rewrite <- app_assoc.
    apply IH; [done | done | by rewrite H2, E | lia].
Qed.

Lemma sep_cons {A} (s : A) x y l : sep s (x :: y :: l) = x ++ s :: sep s (y :: l).
Proof. done. Qed.

Lemma print_path_cons s p :
  print_path (s :: p) = TIdent s :: flat_map (fun s => [TDot; TIdent s]) p.
Proof.
  revert s. induction p as [|s' p IH]; intros s; [done|]. unfold print_path in *. cbn [map flat_map].
  rewrite sep_cons. cbn [app]. do 2 f_equal. apply IH.
Qed.

Lemma reads_path p fuel ts k ks :
  path_ok p = true -> k <> TDot -> map tk_kind ts = print_path p ++ k :: ks -> length p <= fuel ->
  reads (path fuel) ts p (k :: ks).
Proof.
  destruct p as [|s p]; [done|]. rewrite print_path_cons. cbn [path_ok all forallb].
  intros [Hs Hp]%andb_true_iff Hk H Hf. apply negb_true_iff in Hs. cbn in Hf. unfold path.
  assert (exists k' ks', flat_map (fun s => [TDot; TIdent s]) p ++ k :: ks = k' :: ks') as (k' & ks' & E)
    by (destruct p; cbn; eauto).
  eapply reads_bind.
  - eapply reads_segment; [exact Hs|]. rewrite H. cbn [app]. by rewrite E.
  - intros ts1 H1. apply (reads_path_rest p fuel [s]); [done | done | by rewrite H1, E | lia].
Qed.

(** ** Expressions *)

(** The first token of a printed expression, and the tokens that may follow one. *)
Definition head_ok (h : TokenKind) : Prop :=
  kind_eqb h TMinus = false /\ ident_is "not" h = false /\
  kind_eqb h TRBracket = false /\ kind_eqb h TRParen = false.

Definition follow (k : TokenKind) : Prop := k <> TDot /\ k <> TLParen.

Definition closed (k : TokenKind) : Prop :=
  follow k /\ sum_op k = None /\ cmp_op k = None /\ and_op k = None /\ or_op k = None.

Lemma print_head e : printable e = true -> exists h t, print e = h :: t /\ head_ok h.
Proof.
  assert (forall s p, path_ok (s :: p) = true -> head_ok (TIdent s)) as Hp.
  { intros s p [Hs _]%andb_true_iff. apply negb_true_iff in Hs. repeat split; try done. cbn.
    destruct (String.eqb_spec s "not") as [->|]; [discriminate Hs | done]. }
  destruct e as [n|s|[]| |items|p|p args|e|e|op a b]; cbn [print printable]; intros H;
    try (eexists _, _; split; [reflexivity | done]).
  - destruct p as [|s p]; [done|]. rewrite print_path_cons. eexists _, _. split; [reflexivity | eauto].
  - destruct p as [|s p]; [done|]. rewrite print_path_cons. bool_prop.
    eexists _, _. split; [reflexivity | eauto].
Qed.

Section Levels.
Variable sub : P Expr.

Lemma up_unary n ts h t e ks :
  map tk_kind ts = h :: t -> kind_eqb h TMinus = false ->
  reads (primary n sub) ts e ks -> reads (unary (S n) sub) ts e ks.
Proof. intros H Hh Hr. cbn [unary]. eapply reads_peek; [exact H|]. by rewrite Hh. Qed.

(** An operand alone is a chain of that level. *)
Lemma up_chain n op_of operand ts e k ks :
  reads operand ts e (k :: ks) -> op_of k = None ->
  reads (do lhs <- operand; chain (S n) op_of operand lhs) ts e (k :: ks).
Proof.
  intros Hr Hk. eapply reads_bind; [exact Hr|]. intros ts1 H1. cbn [chain].
  eapply reads_peek; [exact H1|]. rewrite Hk. by apply reads_ret.
Qed.

(** Two operands around an operator of the level. *)
Lemma up_chain2 n op_of operand ts a b op k' k'' ks' k ks :
  reads operand ts a (k' :: k'' :: ks') -> op_of k' = Some op ->
  (forall ts1, map tk_kind ts1 = k'' :: ks' -> reads operand ts1 b (k :: ks)) -> op_of k = None ->
  reads (do lhs <- operand; chain (S (S n)) op_of operand lhs) ts (EBinary op a b) (k :: ks).
Proof.
  intros Ha Hop Hb Hk. eapply reads_bind; [exact Ha|]. intros ts1 H1. cbn [chain].
  eapply reads_peek; [exact H1|]. rewrite Hop. eapply reads_take; [exact H1|]. intros _ ts2 _ H2.
  eapply reads_bind; [by apply Hb|]. intros ts3 H3.
  eapply reads_peek; [exact H3|]. rewrite Hk. by apply reads_ret.
Qed.

Lemma up_cmp n ts e k ks :
  reads (sum n sub) ts e (k :: ks) -> cmp_op k = None -> reads (cmp n sub) ts e (k :: ks).
Proof.
  intros Hr Hk. unfold cmp. eapply reads_bind; [exact Hr|]. intros ts1 H1.
  eapply reads_peek; [exact H1|]. rewrite Hk. by apply reads_ret.
Qed.

Lemma up_cmp2 n ts a b op k' k'' ks' k ks :
  reads (sum n sub) ts a (k' :: k'' :: ks') -> cmp_op k' = Some op ->
  (forall ts1, map tk_kind ts1 = k'' :: ks' -> reads (sum n sub) ts1 b (k :: ks)) ->
  reads (cmp n sub) ts (EBinary op a b) (k :: ks).
Proof.
  intros Ha Hop Hb. unfold cmp. eapply reads_bind; [exact Ha|]. intros ts1 H1.
  eapply reads_peek; [exact H1|]. rewrite Hop. eapply reads_take; [exact H1|]. intros _ ts2 _ H2.
  eapply reads_bind; [by apply Hb|]. intros ts3 H3. by apply reads_ret.
Qed.

Lemma up_not n d ts h t e ks :
  map tk_kind ts = h :: t -> ident_is "not" h = false ->
  reads (cmp n sub) ts e ks -> reads (not_ n (S d) sub) ts e ks.
Proof. intros H Hh Hr. cbn [not_]. eapply reads_is_ident; [exact H|]. by rewrite Hh. Qed.

(** From one level to the whole expression, when a closing token follows. *)
Lemma up_from_cmp n ts h t e k ks :
  map tk_kind ts = h :: t -> ident_is "not" h = false -> closed k ->
  reads (cmp (S n) sub) ts e (k :: ks) -> reads (or_ (S n) sub) ts e (k :: ks).
Proof.
  intros H Hh (_ & _ & _ & Ha & Ho) Hr. apply up_chain; [|done]. apply up_chain; [|done].
  by eapply up_not.
Qed.

Lemma up_from_unary n ts h t e k ks :
  map tk_kind ts = h :: t -> ident_is "not" h = false -> closed k ->
  reads (unary (S n) sub) ts e (k :: ks) -> reads (or_ (S n) sub) ts e (k :: ks).
Proof.
  intros H Hh Hc Hr. eapply up_from_cmp; [exact H | done | done|].
  destruct Hc as (_ & Hs & Hcm & _). apply up_cmp; [|done]. by apply up_chain.
Qed.
End Levels.

(** The items of a list or a call. *)
Lemma reads_expr_list (sub : P Expr) close items e acc fuel ts k ks :
  close = TRBracket \/ close = TRParen ->
  (forall x, In x (e :: items) -> forall ts k ks, map tk_kind ts = print x ++ k :: ks ->
     k = TComma \/ k = close -> reads sub ts x (k :: ks)) ->
  (forall x, In x (e :: items) -> exists h t, print x = h :: t) ->
  map tk_kind ts = sep TComma (map print (e :: items)) ++ close :: k :: ks ->
  length items < fuel ->
  reads (expr_list fuel sub acc) ts (acc ++ e :: items) (close :: k :: ks).
Proof.
  intros Hclose. revert e acc fuel ts. induction items as [|e' items IH];
    intros e acc fuel ts Hsub Hne H Hf; (destruct fuel as [|fuel]; [cbn in Hf; lia|]); cbn [expr_list].
  - cbn in H. eapply reads_bind; [eapply Hsub; [by left | exact H | by right]|]. intros ts1 H1.
    eapply reads_peek; [exact H1|].
    assert (kind_eqb close TComma = false) as -> by by destruct Hclose as [-> | ->].
    by apply reads_ret.
  - cbn [map] in H. rewrite sep_cons, <- app_assoc in H. cbn [app] in H.
    destruct (Hne e' ltac:(by right; left)) as (h & t & Eh).
    assert (exists t', sep TComma (print e' :: map print items) ++ close :: k :: ks = h :: t') as [t' Et].
    { destruct items; [cbn|cbn [map]; rewrite sep_cons]; rewrite Eh; cbn; eauto. }
    eapply reads_bind; [eapply Hsub; [by left | exact H | by left]|]. intros ts1 H1.
    eapply reads_peek; [exact H1|]. cbn. rewrite Et in H1. eapply reads_take; [exact H1|].
    intros _ ts2 _ H2. replace (acc ++ e :: e' :: items) with ((acc ++ [e]) ++ e' :: items)
      by by rewrite <- app_assoc.
    cbn in Hf. apply IH; [| |by rewrite H2, <- Et | lia].
    + intros x Hx. apply Hsub. by right.
    + intros x Hx. apply Hne. by right.
Qed.

Lemma reads_items (sub : P Expr) close items fuel ts k ks :
  close = TRBracket \/ close = TRParen ->
  (forall x, In x items -> forall ts k ks, map tk_kind ts = print x ++ k :: ks ->
     k = TComma \/ k = close -> reads sub ts x (k :: ks)) ->
  (forall x, In x items -> exists h t, print x = h :: t /\ head_ok h) ->
  map tk_kind ts = sep TComma (map print items) ++ close :: k :: ks ->
  length items <= fuel ->
  reads (items_until fuel sub close) ts items (k :: ks).
Proof.
  intros Hclose Hsub Hh H Hf. unfold items_until.
  assert (kind_eqb close close = true) as Hcc by by destruct Hclose as [-> | ->].
  destruct items as [|e items].
  - cbn in H. eapply reads_peek; [exact H|]. rewrite Hcc. cbn.
    eapply reads_bind; [by apply reads_ret|]. intros ts1 H1.
    eapply reads_bind; [by eapply reads_expect|]. intros. by apply reads_ret.
  - destruct (Hh e ltac:(by left)) as (h & t & Eh & (_ & _ & Hb & Hp)).
    assert (exists t', map tk_kind ts = h :: t') as [t' Et].
    { rewrite H. destruct items; [cbn|cbn [map]; rewrite sep_cons]; rewrite Eh; cbn; eauto. }
    eapply reads_peek; [exact Et|].
    assert (kind_eqb h close = false) as -> by by destruct Hclose as [-> | ->].
    cbn [negb]. eapply reads_bind.
    + eapply (reads_expr_list sub close items e []); [done | done | | exact H | cbn in Hf; lia].
      intros x Hx. destruct (Hh x Hx) as (h' & t2 & E' & _). eauto.
    + intros ts1 H1. eapply reads_bind; [by eapply reads_expect|]. intros. by apply reads_ret.
Qed.

Lemma kinds_cons (ts : pstate) x h t rest :
  map tk_kind ts = x ++ rest -> x = h :: t -> map tk_kind ts = h :: t ++ rest.
Proof. by intros H ->. Qed.

Lemma sep_length {A} (s : A) l x : In x l -> length x <= length (sep s l).
Proof.
  induction l as [|y [|z l] IH]; [done | intros [->|[]]; cbn; lia |].
  intros [->|Hx]; rewrite sep_cons, length_app; [lia|]. cbn [length]. specialize (IH Hx). lia.
Qed.

Lemma sep_count {A} (s : A) l : (forall x, In x l -> 1 <= length x) -> length l <= length (sep s l).
Proof.
  induction l as [|y [|z l] IH]; intros H; [cbn; lia | cbn; specialize (H y (or_introl eq_refl)); lia |].
  rewrite sep_cons, length_app. cbn [length]. specialize (IH (fun x Hx => H x (or_intror Hx))).
  cbn [length] in IH. specialize (H y (or_introl eq_refl)). lia.
Qed.

Lemma print_path_length p : length p <= length (print_path p).
Proof.
  unfold print_path. transitivity (length (map (fun s : string => [TIdent s]) p)).
  - by rewrite length_map.
  - apply sep_count. intros x [y [<- _]]%in_map_iff. cbn. lia.
Qed.

(** [e] is read at the primary level with the fuel its own length gives. *)
Definition at_primary (e : Expr) : Prop := forall ts f n k ks,
  map tk_kind ts = print e ++ k :: ks -> follow k ->
  length (print e) <= f -> length (print e) <= n ->
  reads (primary f (expr n)) ts e (k :: ks).

Section Operand.
Context (e : Expr) (Hp : printable e = true) (He : at_primary e).

Lemma reads_unary ts m k ks :
  map tk_kind ts = print e ++ k :: ks -> follow k -> length (print e) < S m ->
  forall m', length (print e) <= m' -> reads (unary (S m) (expr m')) ts e (k :: ks).
Proof.
  intros H Hk Hm m' Hm'. destruct (print_head e Hp) as (h & t & Eh & (Hh & _)).
  eapply up_unary; [exact (kinds_cons _ _ _ _ _ H Eh) | done|]. apply He; [done | done | lia | lia].
Qed.

Lemma reads_sum ts m k ks :
  map tk_kind ts = print e ++ k :: ks -> follow k -> sum_op k = None -> length (print e) < S m ->
  reads (sum (S m) (expr m)) ts e (k :: ks).
Proof. intros. apply up_chain; [|done]. apply reads_unary; [done | done | lia | lia]. Qed.

Lemma reads_cmp ts m k ks :
  map tk_kind ts = print e ++ k :: ks -> follow k -> sum_op k = None -> cmp_op k = None ->
  length (print e) < S m -> reads (cmp (S m) (expr m)) ts e (k :: ks).
Proof. intros. apply up_cmp; [|done]. by apply reads_sum. Qed.

Lemma reads_not ts m d k ks :
  map tk_kind ts = print e ++ k :: ks -> follow k -> sum_op k = None -> cmp_op k = None ->
  length (print e) < S m -> reads (not_ (S m) (S d) (expr m)) ts e (k :: ks).
Proof.
  intros H Hk Hs Hc Hm. destruct (print_head e Hp) as (h & t & Eh & (_ & Hh & _)).
  eapply up_not; [exact (kinds_cons _ _ _ _ _ H Eh) | done|]. by apply reads_cmp.
Qed.

Lemma reads_and ts m k ks :
  map tk_kind ts = print e ++ k :: ks -> follow k -> sum_op k = None -> cmp_op k = None ->
  and_op k = None -> length (print e) < S m -> reads (and_ (S m) (expr m)) ts e (k :: ks).
Proof. intros. apply up_chain; [|done]. by apply reads_not. Qed.

Lemma reads_expr ts n k ks :
  map tk_kind ts = print e ++ k :: ks -> closed k -> length (print e) < n ->
  reads (expr n) ts e (k :: ks).
Proof.
  intros H (Hk & Hs & Hc & Ha & Ho) Hn. destruct n as [|m]; [lia|]. cbn [expr].
  apply up_chain; [|done]. by apply reads_and.
Qed.
End Operand.

Lemma closed_rparen : closed TRParen.
Proof. repeat split; done. Qed.
Lemma closed_rbracket : closed TRBracket.
Proof. repeat split; done. Qed.
Lemma closed_comma : closed TComma.
Proof. repeat split; done. Qed.
Lemma follow_op op : follow (print_op op).
Proof. by destruct op. Qed.

Lemma expr_S n : expr (S n) = or_ (S n) (expr n).
Proof. done. Qed.
Lemma unary_S n sub : unary (S n) sub =
  (do k <- peek_kind;
   if kind_eqb k TMinus then (do _ <- advance; do inner <- unary n sub; pret (ENeg inner))
   else primary n sub).
Proof. done. Qed.
Lemma not_S f n sub : not_ f (S n) sub =
  (do b <- is_ident "not";
   if b then (do _ <- advance; do inner <- not_ f n sub; pret (ENot inner)) else cmp f sub).
Proof. done. Qed.

(** A parenthesised operation, read by [expr] up to its closing parenthesis. *)
Section Inner.
Context (a b : Expr) (Pa : printable a = true) (Pb : printable b = true)
  (Ha : at_primary a) (Hb : at_primary b).

Lemma reads_neg ts n ks :
  map tk_kind ts = TMinus :: print a ++ TRParen :: ks -> length (print a) + 2 <= n ->
  reads (expr n) ts (ENeg a) (TRParen :: ks).
Proof.
  intros H Hn. destruct n as [|[|m]]; [lia | lia |]. rewrite expr_S.
  eapply up_from_unary; [exact H | done | exact closed_rparen|]. rewrite unary_S.
  eapply reads_peek; [exact H|]. cbn [kind_eqb].
  destruct (print_head a Pa) as (h & t & Eh & _).
  rewrite Eh in H. cbn [app] in H. eapply reads_take; [exact H|]. intros _ ts1 _ H1.
  eapply reads_bind; [|intros; by apply reads_ret].
  apply reads_unary; [done | done | by rewrite Eh | by split | lia | lia].
Qed.

Lemma reads_negation ts n ks :
  map tk_kind ts = TIdent "not" :: print a ++ TRParen :: ks -> length (print a) + 2 <= n ->
  reads (expr n) ts (ENot a) (TRParen :: ks).
Proof.
  intros H Hn. destruct n as [|[|m]]; [lia | lia |]. rewrite expr_S.
  apply up_chain; [|done]. apply up_chain; [|done]. rewrite not_S.
  eapply reads_is_ident; [exact H|].
  destruct (print_head a Pa) as (h & t & Eh & _).
  rewrite Eh in H. cbn [app] in H. eapply reads_take; [exact H|]. intros _ ts1 _ H1.
  eapply reads_bind; [|intros; by apply reads_ret].
  apply (reads_not a Pa Ha ts1 (S m) m); [by rewrite Eh | by split | done | done | lia].
Qed.

Lemma reads_binary op ts n ks :
  map tk_kind ts = print a ++ print_op op :: print b ++ TRParen :: ks ->
  length (print a) + length (print b) + 2 <= n ->
  reads (expr n) ts (EBinary op a b) (TRParen :: ks).
Proof.
  intros H Hn. destruct n as [|[|m]]; [lia | lia |].
  destruct (print_head a Pa) as (h & t & Eh & (_ & Hh & _)).
  pose proof (kinds_cons _ _ _ _ _ H Eh) as Hhd.
  destruct (print_head b Pb) as (h' & t' & Eh' & _).
  pose proof H as H'. rewrite Eh' in H'. cbn [app] in H'.
  assert (forall ts1, map tk_kind ts1 = h' :: t' ++ TRParen :: ks ->
            map tk_kind ts1 = print b ++ TRParen :: ks) as Hb' by (intros ts1 ->; by rewrite Eh').
  pose proof (follow_op op) as Hf. pose proof closed_rparen as Hcl.
  rewrite expr_S.
  destruct op.
  { eapply up_chain2;
      [ apply reads_and; [done | done | exact H' | done | done | done | done | lia] | reflexivity | | done].
    intros ts1 E1%Hb'. apply reads_and; [done | done | done | apply Hcl | done | done | done | lia]. }
  { apply up_chain; [|done]. eapply up_chain2;
      [ apply reads_not; [done | done | exact H' | done | done | done | lia] | reflexivity | | done].
    intros ts1 E1%Hb'. apply reads_not; [done | done | done | apply Hcl | done | done | lia]. }
  all: eapply up_from_cmp; [exact Hhd | exact Hh | exact Hcl |].
  1-7: eapply up_cmp2;
    [ apply reads_sum; [done | done | exact H' | done | done | lia]
    | reflexivity
    | intros ts1 E1%Hb'; apply reads_sum; [done | done | done | apply Hcl | done | lia] ].
  all: apply up_cmp; [|done]; eapply up_chain2;
    [ apply reads_unary; [done | done | exact H' | done | lia | lia]
    | reflexivity
    | intros ts1 E1%Hb'; apply reads_unary; [done | done | done | apply Hcl | lia | lia]
    | done ].
Qed.
End Inner.

Lemma reads_token {A} (f : Token -> P A) ts k ks b ks' :
  map tk_kind ts = k :: ks -> (forall t, tk_kind t = k -> reads (f t) ts b ks') ->
  reads (pbind peek_token f) ts b ks'.
Proof. intros H Hf. exact (Hf _ (peek_of _ _ _ H)). Qed.

Lemma reads_parens (sub : P Expr) f ts e k0 k1 ks k :
  map tk_kind ts = TLParen :: k0 :: k1 ->
  (forall ts1, map tk_kind ts1 = k0 :: k1 -> reads sub ts1 e (TRParen :: k :: ks)) ->
  reads (primary f sub) ts e (k :: ks).
Proof.
  intros H Hs. unfold primary. eapply reads_token; [exact H|]. intros t ->.
  eapply reads_take; [exact H|]. intros _ ts1 _ H1. eapply reads_bind; [by apply Hs|].
  intros ts2 H2. eapply reads_bind; [by eapply reads_expect|]. intros. by apply reads_ret.
Qed.

Lemma reads_word f sub ts s p k ks :
  path_ok (s :: p) = true -> k <> TDot -> map tk_kind ts = print_path (s :: p) ++ k :: ks ->
  length (s :: p) <= f ->
  forall e ks',
  (forall t ts1, map tk_kind ts1 = k :: ks ->
     reads (if kind_eqb k TLParen
            then if negb (is_known (s :: p)) then error_at t
                 else do _ <- advance; do args <- items_until f sub TRParen; pret (ECall (s :: p) args)
            else pret (EPath (s :: p))) ts1 e ks') ->
  reads (primary f sub) ts e ks'.
Proof.
  intros Hp Hk H Hf e ks' Hr. pose proof H as H'. rewrite print_path_cons in H'. cbn [app] in H'.
  unfold primary. eapply reads_token; [exact H'|]. intros t ->.
  assert (is_keyword s = false) as Hs
    by (cbn in Hp; apply andb_true_iff in Hp as [Hs _]; by apply negb_true_iff).
  assert (String.eqb s "true" = false /\ String.eqb s "false" = false /\ String.eqb s "null" = false)
    as (-> & -> & ->).
  { repeat split; apply String.eqb_neq; intros ->; discriminate Hs. }
  eapply reads_bind; [by eapply reads_path|]. intros ts1 H1. eapply reads_peek; [exact H1|]. by apply Hr.
Qed.

(** ** Every printable expression is read back *)

Lemma closed_item close k :
  close = TRBracket \/ close = TRParen -> k = TComma \/ k = close -> closed k.
Proof. intros [-> | ->] [-> | ->]; repeat split; done. Qed.

(** The items of a list or a call, each shorter than the fuel. *)
Lemma reads_printed_items close items f n ts k ks :
  close = TRBracket \/ close = TRParen ->
  forallb printable items = true -> Forall at_primary items ->
  map tk_kind ts = sep TComma (map print items) ++ close :: k :: ks ->
  length (sep TComma (map print items)) <= f -> length (sep TComma (map print items)) < n ->
  reads (items_until f (expr n) close) ts items (k :: ks).
Proof.
  intros Hc Hp Ha H Hf Hn. rewrite forallb_forall in Hp. rewrite List.Forall_forall in Ha.
  eapply reads_items; [exact Hc | | | exact H |].
  - intros x Hx ts1 k1 ks1 H1 Hk1. apply reads_expr; [auto | auto | done | by eapply closed_item|].
    pose proof (sep_length TComma (map print items) (print x) (in_map _ _ _ Hx)). lia.
  - intros x Hx. apply print_head. auto.
  - transitivity (length (map print items)); [by rewrite length_map|].
    etransitivity; [apply (sep_count TComma) | exact Hf].
    intros x [y [<- Hy]]%in_map_iff. destruct (print_head y (Hp _ Hy)) as (h & t & -> & _). cbn. lia.
Qed.

Definition items_shorter (items : list Expr) (L : nat) : Prop :=
  forall x, In x items -> length (print x) < L.

Lemma items_shorter_sep items L :
  length (sep TComma (map print items)) < L -> items_shorter items L.
Proof.
  intros H x Hx. pose proof (sep_length TComma (map print items) (print x) (in_map _ _ _ Hx)). lia.
Qed.

Lemma sep_head close items k ks : exists h t,
  sep TComma (map print items) ++ close :: k :: ks = h :: t.
Proof. destruct (sep TComma (map print items)); cbn; eauto. Qed.

Lemma at_primary_list items :
  forallb printable items = true -> Forall at_primary items -> at_primary (EList items).
Proof.
  intros Hp Ha ts f n k ks H Hk Hf Hn. cbn [print] in *. cbn [app] in H.
  rewrite <- app_assoc in H. cbn [app] in H. rewrite length_cons, length_app in *.
  unfold primary. eapply reads_token; [exact H|]. intros t ->.
  destruct (sep_head TRBracket items k ks) as (h & t' & Eh).
  rewrite Eh in H. eapply reads_take; [exact H|]. intros _ ts1 _ H1. rewrite <- Eh in H1.
  eapply reads_bind; [|intros; by apply reads_ret].
  apply reads_printed_items; [by left | done | done | done | lia | lia].
Qed.

Lemma at_primary_call p args :
  path_ok p = true -> is_known p = true ->
  forallb printable args = true -> Forall at_primary args -> at_primary (ECall p args).
Proof.
  intros Hp Hkn Hpa Ha ts f n k ks H Hk Hf Hn. cbn [print] in *. destruct p as [|s p]; [done|].
  rewrite <- app_assoc in H. cbn [app] in H. rewrite <- app_assoc in H. cbn [app] in H.
  rewrite length_app, length_cons, length_app in *. pose proof (print_path_length (s :: p)).
  eapply reads_word; [exact Hp | | exact H | lia |]; [done|].
  intros t ts1 H1. cbn [kind_eqb]. rewrite Hkn. cbn [negb].
  destruct (sep_head TRParen args k ks) as (h & t' & Eh).
  rewrite Eh in H1. eapply reads_take; [exact H1|]. intros _ ts2 _ H2. rewrite <- Eh in H2.
  eapply reads_bind; [|intros; by apply reads_ret].
  apply reads_printed_items; [by right | done | done | done | lia | lia].
Qed.

Lemma at_primary_binary op a b :
  printable a = true -> printable b = true -> at_primary a -> at_primary b ->
  at_primary (EBinary op a b).
Proof.
  intros Pa Pb Ha Hb ts f n k ks H Hk Hf Hn. cbn [print] in *.
  rewrite !length_cons, !length_app, length_cons, length_app in *. cbn [length] in *.
  cbn [app] in H. rewrite <- !app_assoc in H. cbn [app] in H. rewrite <- app_assoc in H. cbn [app] in H.
  destruct (print_head a Pa) as (h & t & Eh & _).
  pose proof H as H'. rewrite Eh in H'. cbn [app] in H'.
  eapply reads_parens; [exact H'|]. intros ts1 H1.
  apply reads_binary; [done | done | done | done | by rewrite Eh | lia].
Qed.

Lemma at_primary_prefix a e k0 :
  printable a = true -> at_primary a ->
  (e = ENeg a /\ k0 = TMinus \/ e = ENot a /\ k0 = TIdent "not") -> at_primary e.
Proof.
  intros Pa Ha He ts f n k ks H Hk Hf Hn.
  assert (print e = TLParen :: k0 :: print a ++ [TRParen]) as E by by destruct He as [[-> ->]|[-> ->]].
  rewrite E in *. rewrite !length_cons, length_app in *. cbn [length] in *.
  cbn [app] in H. rewrite <- app_assoc in H. cbn [app] in H.
  eapply reads_parens; [exact H|]. intros ts1 H1.
  destruct He as [[-> ->]|[-> ->]]; [apply reads_neg | apply reads_negation]; done || lia.
Qed.

Lemma at_primary_all e : printable e = true -> at_primary e.
Proof.
  remember (length (print e)) as L eqn:EL.
  revert e EL. induction L as [L IH] using lt_wf_ind. intros e -> Hp.
  assert (forall l, items_shorter l (length (print e)) -> forallb printable l = true ->
            Forall at_primary l) as Hsub.
  { intros l Hl Hl'. rewrite List.Forall_forall. rewrite forallb_forall in Hl'. intros x Hx.
    eapply IH; [by apply Hl | done | auto]. }
  destruct e as [x|s|[]| |items|p|p args|a|a|op a b]; cbn [print printable] in *.
  1-5: intros ts f n k ks H Hk Hf Hn; unfold primary; eapply reads_token; [exact H|]; intros t ->;
    eapply reads_take; [exact H|]; intros; by apply reads_ret.
  - apply at_primary_list; [done|]. apply Hsub; [|done]. apply items_shorter_sep.
    rewrite length_cons, length_app. lia.
  - intros ts f n k ks H [Hd Hk] Hf Hn. destruct p as [|s p]; [done|].
    eapply reads_word; [exact Hp | exact Hd | exact H | etransitivity; [apply print_path_length | done]|].
    intros t ts1 H1. assert (kind_eqb k TLParen = false) as -> by by destruct k.
    by apply reads_ret.
  - apply andb_true_iff in Hp as [[Hp Hkn]%andb_true_iff Ha].
    apply at_primary_call; [done | done | done|]. apply Hsub; [|done]. apply items_shorter_sep.
    rewrite length_app, length_cons, length_app. lia.
  - eapply (at_primary_prefix a); [done | | eauto]. eapply IH; [|done|done].
    rewrite !length_cons, length_app. lia.
  - eapply (at_primary_prefix a); [done | | eauto]. eapply IH; [|done|done].
    rewrite !length_cons, length_app. lia.
  - apply andb_true_iff in Hp as [Pa Pb]. rewrite length_cons, !length_app, length_cons, length_app in IH.
    apply at_primary_binary; [done | done | |]; (eapply IH; [|done|done]); lia.
Qed.

(** ** Rules and policies *)

Definition print_target (w s : string) : list TokenKind := [TIdent w; TLParen; TStr s; TRParen].

Definition print_approver (a : ApproverExpr) : list TokenKind :=
  match a with
  | AE_Role r => print_target "role" r
  | AE_User u => print_target "user" u
  | AE_Path p => print_path p
  end.

Definition print_escalate (e : EscalateExpr) : list TokenKind :=
  match e with
  | EE_ReportingLine => [TIdent "reporting_line"]
  | EE_Role r => print_target "role" r
  | EE_User u => print_target "user" u
  | EE_Path p => print_path p
  end.

Definition print_clause (c : ApprovalClause) : list TokenKind :=
  TIdent "approver" :: TColon :: print_approver (ac_approver c)
  ++ match ac_sla_seconds c with
     | Some z => [TComma; TIdent "sla"; TColon; TDuration z] | None => [] end
  ++ match ac_escalate_to c with
     | Some e => TComma :: TIdent "escalate_to" :: TColon :: print_escalate e | None => [] end.

Definition print_head_of (k : RuleKind) : list TokenKind :=
  match k with
  | Deny => [TIdent "deny"] | Allow => [TIdent "allow"]
  | RequireApproval => [TIdent "require"; TIdent "approval"]
  end.

Definition print_rule (r : Rule) : list TokenKind :=
  print_head_of (rule_kind r) ++ TIdent "when" :: print (rule_condition r)
  ++ match rule_approval r with Some c => TArrow :: print_clause c | None => [] end.

Definition print_policy (p : Policy) : list TokenKind :=
  match policy_name p with Some s => [TIdent "policy"; TStr s] | None => [] end
  ++ flat_map print_rule (policy_rules p) ++ [TEof].

(** A path that is not read as one of the words with a meaning of its own in its place. *)
Definition target_path (words : list string) (p : list string) : bool :=
  path_ok p && match p with s :: _ => negb (any (String.eqb s) words) | [] => false end.

Definition approver_ok (a : ApproverExpr) : bool :=
  match a with AE_Path p => target_path ["role"; "user"] p | _ => true end.
Definition escalate_ok (e : EscalateExpr) : bool :=
  match e with EE_Path p => target_path ["reporting_line"; "role"; "user"] p | _ => true end.
Definition clause_ok (c : ApprovalClause) : bool :=
  approver_ok (ac_approver c)
  && match ac_escalate_to c with Some e => escalate_ok e | None => true end.
Definition rule_ok (r : Rule) : bool :=
  printable (rule_condition r)
  && match rule_approval r with
     | Some c => rule_kind_eqb (rule_kind r) RequireApproval && clause_ok c | None => true end.
Definition policy_ok (p : Policy) : bool := forallb rule_ok (policy_rules p).

(** The tokens after a rule. *)
Definition boundary (k : TokenKind) : Prop :=
  k = TEof \/ k = TIdent "deny" \/ k = TIdent "allow" \/ k = TIdent "require".

Lemma boundary_closed k : boundary k -> closed k.
Proof. intros [-> | [-> | [-> | ->]]]; repeat split; done. Qed.

Lemma reads_target w s ts k ks {A} (f : string -> A) :
  map tk_kind ts = print_target w s ++ k :: ks ->
  reads (do _ <- advance; do r <- quoted_argument; pret (f r)) ts (f s) (k :: ks).
Proof.
  intros H. cbn in H. eapply reads_take; [exact H|]. intros _ ts1 _ H1.
  eapply reads_bind; [by eapply reads_quoted|]. intros. by apply reads_ret.
Qed.

Lemma target_path_inv words p :
  target_path words p = true ->
  exists s p', p = s :: p' /\ path_ok p = true /\ forall w, In w words -> ident_is w (TIdent s) = false.
Proof.
  unfold target_path. intros [Hp Hw]%andb_true_iff. destruct p as [|s p']; [done|].
  exists s, p'. split_and!; [done | done|]. intros w Hin. apply negb_true_iff in Hw.
  unfold any in Hw. cbn. destruct (String.eqb_spec s w) as [->|]; [|done].
  exfalso. apply not_true_iff_false in Hw. apply Hw. apply existsb_exists. exists w.
  split; [done | apply String.eqb_refl].
Qed.

Lemma reads_approver a fuel ts k ks :
  approver_ok a = true -> k <> TDot -> map tk_kind ts = print_approver a ++ k :: ks ->
  length (print_approver a) <= fuel -> reads (approver fuel) ts a (k :: ks).
Proof.
  intros Ha Hk H Hf. unfold approver. destruct a as [r|u|p]; cbn [print_approver approver_ok] in *.
  1-2: eapply reads_peek; [exact H|]; by eapply reads_target.
  destruct (target_path_inv _ _ Ha) as (s & p' & -> & Hp & Hw).
  pose proof H as H'. rewrite print_path_cons in H'. eapply reads_peek; [exact H'|].
  rewrite !Hw by (cbn; auto). pose proof (print_path_length (s :: p')).
  eapply reads_bind; [eapply reads_path; [done | done | exact H | lia]|]. intros. by apply reads_ret.
Qed.

Lemma reads_escalate e fuel ts k ks :
  escalate_ok e = true -> k <> TDot -> map tk_kind ts = print_escalate e ++ k :: ks ->
  length (print_escalate e) <= fuel -> reads (escalate fuel) ts e (k :: ks).
Proof.
  intros Ha Hk H Hf. unfold escalate. destruct e as [|r|u|p]; cbn [print_escalate escalate_ok] in *.
  - eapply reads_peek; [exact H|]. cbn [ident_is]. rewrite String.eqb_refl.
    eapply reads_take; [exact H|]. intros. by apply reads_ret.
  - eapply reads_peek; [exact H|]. by eapply reads_target.
  - eapply reads_peek; [exact H|]. by eapply reads_target.
  - destruct (target_path_inv _ _ Ha) as (s & p' & -> & Hp & Hw).
    pose proof H as H'. rewrite print_path_cons in H'. eapply reads_peek; [exact H'|].
    rewrite !Hw by (cbn; auto). pose proof (print_path_length (s :: p')).
    eapply reads_bind; [eapply reads_path; [done | done | exact H | lia]|]. intros. by apply reads_ret.
Qed.

(** [clause_rest], one step for each shape of the input. *)
Lemma reads_rest_end n sla esc ts k ks :
  boundary k -> map tk_kind ts = k :: ks -> reads (clause_rest (S n) sla esc) ts (sla, esc) (k :: ks).
Proof.
  intros Hk H. cbn [clause_rest]. eapply reads_peek; [exact H|].
  assert (kind_eqb k TComma = false) as -> by by destruct Hk as [-> | [-> | [-> | ->]]].
  by apply reads_ret.
Qed.

Lemma reads_rest_escalate n sla e ts k ks :
  escalate_ok e = true -> boundary k -> length (print_escalate e) <= S n ->
  map tk_kind ts = TComma :: TIdent "escalate_to" :: TColon :: print_escalate e ++ k :: ks ->
  reads (clause_rest (S (S n)) sla None) ts (sla, Some e) (k :: ks).
Proof.
  intros He Hk Hn H. remember (S n) as m eqn:Em. cbn [clause_rest]. eapply reads_peek; [exact H|].
  cbn [kind_eqb]. eapply reads_take; [exact H|]. intros _ ts1 _ H1.
  eapply reads_peek; [exact H1|]. cbn.
  assert (exists h t, print_escalate e ++ k :: ks = h :: t) as (h & t & Eh)
    by (destruct (print_escalate e); cbn; eauto).
  eapply reads_take; [exact H1|]. intros _ ts2 _ H2. rewrite Eh in H2.
  eapply reads_bind; [by eapply reads_expect|]. intros ts3 H3. rewrite <- Eh in H3.
  eapply reads_bind.
  - eapply reads_escalate; [done | | exact H3 | lia]. apply (boundary_closed k Hk).
  - intros ts4 H4. subst m. by apply reads_rest_end.
Qed.

Lemma reads_rest_sla n z esc out ts k0 k1 ks :
  map tk_kind ts = TComma :: TIdent "sla" :: TColon :: TDuration z :: k0 :: k1 ->
  (forall ts1, map tk_kind ts1 = k0 :: k1 -> reads (clause_rest n (Some z) esc) ts1 out ks) ->
  reads (clause_rest (S n) None esc) ts out ks.
Proof.
  intros H Hr. cbn [clause_rest]. eapply reads_peek; [exact H|].
  cbn [kind_eqb]. eapply reads_take; [exact H|]. intros _ ts1 _ H1.
  eapply reads_peek; [exact H1|]. cbn. eapply reads_take; [exact H1|]. intros _ ts2 _ H2.
  eapply reads_bind; [by eapply reads_expect|]. intros ts3 H3.
  eapply reads_peek; [exact H3|]. eapply reads_take; [exact H3|]. intros _ ts4 _ H4. by apply Hr.
Qed.

Definition print_rest (sla : option Z) (esc : option EscalateExpr) : list TokenKind :=
  match sla with Some z => [TComma; TIdent "sla"; TColon; TDuration z] | None => [] end
  ++ match esc with
     | Some e => TComma :: TIdent "escalate_to" :: TColon :: print_escalate e | None => [] end.

Lemma reads_rest sla esc n ts k ks :
  match esc with Some e => escalate_ok e | None => true end = true -> boundary k ->
  map tk_kind ts = print_rest sla esc ++ k :: ks -> length (print_rest sla esc) < n ->
  reads (clause_rest n None None) ts (sla, esc) (k :: ks).
Proof.
  intros He Hk H Hn. unfold print_rest in *. rewrite length_app, <- app_assoc in *.
  destruct sla as [z|], esc as [e|]; cbn [app length] in *.
  - destruct n as [|[|[|n]]]; try lia. eapply reads_rest_sla; [exact H|]. intros ts1 H1.
    apply reads_rest_escalate; [done | done | lia | exact H1].
  - destruct n as [|[|n]]; try lia. eapply reads_rest_sla; [exact H|]. intros ts1 H1.
    by apply reads_rest_end.
  - destruct n as [|[|n]]; try lia. apply reads_rest_escalate; [done | done | lia | exact H].
  - destruct n as [|n]; [lia|]. by apply reads_rest_end.
Qed.

Lemma print_approver_head a : approver_ok a = true -> exists h t, print_approver a = h :: t.
Proof.
  destruct a as [r|u|p]; cbn; [eauto | eauto |]. intros H.
  destruct (target_path_inv _ _ H) as (s & p' & -> & _). rewrite print_path_cons. eauto.
Qed.

Lemma reads_clause c n ts k ks :
  clause_ok c = true -> boundary k -> map tk_kind ts = print_clause c ++ k :: ks ->
  length (print_clause c) <= n -> reads (approval_clause n) ts c (k :: ks).
Proof.
  destruct c as [a sla esc]. unfold clause_ok, print_clause, approval_clause.
  cbn [ac_approver ac_sla_seconds ac_escalate_to]. fold (print_rest sla esc).
  intros [Ha He]%andb_true_iff Hk H Hn. rewrite !length_cons, length_app in Hn.
  cbn [app] in H. rewrite <- app_assoc in H. destruct (print_approver_head a Ha) as (h & t & Eh).
  eapply reads_bind; [by eapply reads_keyword|]. intros ts1 H1. rewrite Eh in H1.
  eapply reads_bind; [by eapply reads_expect|]. intros ts2 H2.
  assert (map tk_kind ts2 = print_approver a ++ print_rest sla esc ++ k :: ks) as H2' by by rewrite H2, Eh.
  assert (exists k' ks', print_rest sla esc ++ k :: ks = k' :: ks' /\ k' <> TDot) as (k' & ks' & E & Hd).
  { pose proof (boundary_closed k Hk) as ((Hd & _) & _).
    destruct sla, esc; cbn; eexists _, _; (split; [reflexivity|]); done. }
  eapply reads_bind; [eapply reads_approver; [done | exact Hd | by rewrite H2', E | lia]|]. intros ts3 H3.
  rewrite <- E in H3. eapply reads_bind; [eapply reads_rest; [exact He | exact Hk | exact H3 | lia]|].
  intros ts4 H4. by apply reads_ret.
Qed.

Lemma reads_rule_head kd ts k ks :
  map tk_kind ts = print_head_of kd ++ k :: ks -> reads rule_head ts kd (k :: ks).
Proof.
  intros H. unfold rule_head. destruct kd; cbn in H.
  1-2: eapply reads_take; [exact H|]; intros t ts1 -> H1; by apply reads_ret.
  eapply reads_take; [exact H|]. intros t ts1 -> H1. cbn.
  eapply reads_bind; [by eapply reads_keyword|]. intros. by apply reads_ret.
Qed.

Lemma closed_arrow : closed TArrow.
Proof. repeat split; done. Qed.

Lemma reads_rule r n ts k ks :
  rule_ok r = true -> boundary k -> map tk_kind ts = print_rule r ++ k :: ks ->
  length (print_rule r) <= n -> reads (rule n) ts r (k :: ks).
Proof.
  destruct r as [kd c appr]. unfold rule_ok, print_rule, rule.
  cbn [rule_kind rule_condition rule_approval]. intros [Hc Happ]%andb_true_iff Hk H Hn.
  rewrite length_app, length_cons, length_app in Hn.
  assert (1 <= length (print_head_of kd)) as Hkd by (destruct kd; cbn; lia).
  rewrite <- app_assoc in H. cbn [app] in H. rewrite <- app_assoc in H.
  destruct (print_head c Hc) as (h & t & Eh & _).
  eapply reads_bind; [by eapply reads_rule_head|]. intros ts1 H1. rewrite Eh in H1. cbn [app] in H1.
  eapply reads_bind; [by eapply reads_keyword|]. intros ts2 H2.
  assert (forall rest, h :: t ++ rest = print c ++ rest) as E by (intros; by rewrite Eh).
  rewrite E in H2. destruct appr as [cl|]; cbn [app length] in *.
  - apply andb_true_iff in Happ as [HR Hcl].
    eapply reads_bind; [eapply (reads_expr c Hc (at_primary_all c Hc));
      [exact H2 | exact closed_arrow | lia]|]. intros ts3 H3.
    eapply reads_peek; [exact H3|]. cbn [kind_eqb]. unfold print_clause in H3. cbn [app] in H3.
    eapply reads_take; [exact H3|]. intros arrow ts4 _ H4. rewrite HR. cbn [negb].
    eapply reads_bind; [eapply (reads_clause cl); [done | exact Hk | exact H4 | lia]|].
    intros. by apply reads_ret.
  - eapply reads_bind; [eapply (reads_expr c Hc (at_primary_all c Hc));
      [exact H2 | by apply boundary_closed | lia]|]. intros ts3 H3.
    eapply reads_peek; [exact H3|].
    assert (kind_eqb k TArrow = false) as -> by by destruct Hk as [-> | [-> | [-> | ->]]].
    by apply reads_ret.
Qed.

Lemma print_rule_head r : exists w t, print_rule r = TIdent w :: t /\ boundary (TIdent w).
Proof.
  destruct r as [[] c a]; eexists _, _; (split; [reflexivity|]); unfold boundary; auto.
Qed.

Lemma print_rules_head rs : exists k t,
  flat_map print_rule rs ++ [TEof] = k :: t /\ boundary k.
Proof.
  destruct rs as [|r rs]; cbn; [unfold boundary; eauto 6|].
  destruct (print_rule_head r) as (w & t & -> & Hb). cbn. eauto.
Qed.

Lemma reads_rules rs acc n ts :
  forallb rule_ok rs = true -> map tk_kind ts = flat_map print_rule rs ++ [TEof] ->
  length (flat_map print_rule rs) < n -> reads (rules n acc) ts (acc ++ rs) [TEof].
Proof.
  revert acc n ts. induction rs as [|r rs IH]; intros acc n ts Hok H Hn;
    (destruct n as [|n]; [lia|]); cbn [rules].
  - eapply reads_peek; [exact H|]. rewrite app_nil_r. by apply reads_ret.
  - cbn [forallb flat_map] in *. apply andb_true_iff in Hok as [Hr Hrs].
    rewrite length_app in Hn. rewrite <- app_assoc in H.
    destruct (print_rule_head r) as (w & t & Et & Hb). pose proof H as H'. rewrite Et in H'.
    eapply reads_peek; [exact H'|]. cbn beta iota.
    assert (String.eqb w "deny" || String.eqb w "allow" || String.eqb w "require" = true) as ->
      by (destruct Hb as [Hb | [Hb | [Hb | Hb]]]; [done | | |]; by injection Hb as ->).
    destruct (print_rules_head rs) as (k & t' & Ek & Hk). rewrite Ek in H.
    eapply reads_bind; [eapply (reads_rule r); [done | exact Hk | exact H | lia]|]. intros ts1 H1.
    replace (acc ++ r :: rs) with ((acc ++ [r]) ++ rs) by by rewrite <- app_assoc.
    rewrite Et in Hn. cbn in Hn. apply IH; [done | by rewrite Ek | lia].
Qed.

Lemma reads_policy p n ts :
  policy_ok p = true -> map tk_kind ts = print_policy p -> length (print_policy p) <= n ->
  reads (policy n) ts p [TEof].
Proof.
  destruct p as [name rs]. unfold policy_ok, print_policy, policy. cbn [policy_name policy_rules].
  intros Hok H Hn. rewrite !length_app in Hn. cbn in Hn.
  destruct (print_rules_head rs) as (k & t & Ek & Hb). destruct name as [s|]; cbn [app] in H.
  - eapply reads_is_ident; [exact H|]. cbn [ident_is]. rewrite String.eqb_refl.
    rewrite Ek in H. eapply reads_bind.
    + eapply reads_take; [exact H|]. intros _ ts1 _ H1.
      eapply reads_bind; [by eapply reads_string|]. intros. by apply reads_ret.
    + intros ts1 H1. rewrite <- Ek in H1.
      eapply reads_bind; [eapply (reads_rules rs []); [done | exact H1 | cbn in Hn; lia]|].
      intros. by apply reads_ret.
  - pose proof H as H'. rewrite Ek in H'. eapply reads_is_ident; [exact H'|].
    assert (ident_is "policy" k = false) as -> by by destruct Hb as [-> | [-> | [-> | ->]]].
    eapply reads_bind; [by apply reads_ret|]. intros ts1 H1. rewrite <- Ek in H1.
    eapply reads_bind; [eapply (reads_rules rs []); [done | exact H1 | cbn in Hn; lia]|].
    intros. by apply reads_ret.
Qed.

(** C35: every policy the grammar can express is read back from its printed tokens, whatever
    their positions in the text: parsing loses, reorders and confuses nothing. *)
Theorem parse_print p ts :
  policy_ok p = true -> map tk_kind ts = print_policy p -> parse_tokens ts = Some (Ok p).
Proof.
  intros Hok H. unfold parse_tokens, parse_fuel.
  destruct (reads_policy p (S (length ts)) ts Hok H) as (ts' & -> & _); [|done].
  rewrite <- H, length_map. lia.
Qed.

(** A policy with every kind of rule and clause. *)
Definition sample_policy : Policy :=
  {| policy_name := Some "payments";
     policy_rules :=
       [ {| rule_kind := Deny;
            rule_condition := EBinary OpOr (ENot (EPath ["run"; "approved"]))
              (EBinary OpIn (EPath ["action"; "tool"]) (EList [EStr "wire"; EStr "swap"]));
            rule_approval := None |};
         {| rule_kind := RequireApproval;
            rule_condition := EBinary OpGe (EBinary OpSub (EPath ["action"; "amount"])
              (ENeg (ENumber (S754_zero false)))) (ENumber (S754_zero false));
            rule_approval := Some {| ac_approver := AE_Role "cfo"; ac_sla_seconds := Some 3600%Z;
                                     ac_escalate_to := Some EE_ReportingLine |} |};
         {| rule_kind := Allow; rule_condition := EBool true; rule_approval := None |} ] |}.

Definition at_origin (k : TokenKind) : Token := {| tk_kind := k; tk_line := 1%Z; tk_column := 1%Z |}.

Lemma parse_print_witness :
  parse_tokens (map at_origin (print_policy sample_policy)) = Some (Ok sample_policy).
Proof. apply (parse_print sample_policy); [vm_compute; reflexivity | vm_compute; reflexivity]. Defined.
