(* ===== verification/PolicySpec.v ===== *)
(** * What a policy set decides

    The reference semantics [spec_decision] of a policy set and the theorems about
    [Policy.evaluate]: it implements that semantics, deny wins, every decision is
    well-formed, and how decisions move when policies are added. *)

From S2P Require Import Prelude Text F64 Json Glob Policy.
From Stdlib Require Import Ascii.

Local Open Scope string_scope.
Local Open Scope list_scope.
Local Open Scope Z_scope.

#[global] Instance RuleKind_eq_dec : EqDecision RuleKind.
Proof. solve_decision. Defined.
#[global] Instance DecisionKind_eq_dec : EqDecision DecisionKind.
Proof. solve_decision. Defined.
#[global] Instance ApproverType_eq_dec : EqDecision ApproverType.
Proof. solve_decision. Defined.
#[global] Instance Approver_eq_dec : EqDecision Approver.
Proof. solve_decision. Defined.
#[global] Instance EscalateTo_eq_dec : EqDecision EscalateTo.
Proof. solve_decision. Defined.

(** ** Reference semantics *)

(** A rule of a policy set with the policy it belongs to and its position. *)
Record entry := { e_pos : nat * nat; e_loaded : LoadedPolicy; e_rule : Rule }.

Fixpoint rule_entries (loaded : LoadedPolicy) (pi ri : nat) (rules : list Rule) : list entry :=
  match rules with
  | [] => []
  | r :: rest => {| e_pos := (pi, ri); e_loaded := loaded; e_rule := r |}
                 :: rule_entries loaded pi (S ri) rest
  end.

(** The rules of all policies, concatenated in order. *)
Fixpoint all_rules (pi : nat) (policies : list LoadedPolicy) : list entry :=
  match policies with
  | [] => []
  | p :: rest => rule_entries p pi 0 (policy_rules (lp_policy p)) ++ all_rules (S pi) rest
  end.

(** The rule applies: its condition is truthy in the context and it has this kind. *)
Definition applies (kind : RuleKind) (context : json) (e : entry) : bool :=
  truthy (eval_expr (rule_condition (e_rule e)) context)
  && bool_decide (rule_kind (e_rule e) = kind).

Definition first_of (kind : RuleKind) (context : json) (l : list entry) : option entry :=
  find_first (applies kind context) l.

(** Deny wins, then the first approval rule, then allow, then the default rule. *)
Definition spec_decision (l : list entry) (context : json) : Decision :=
  match first_of Deny context l with
  | Some e => deny_decision (e_loaded e) (e_pos e).2
  | None =>
      match first_of RequireApproval context l with
      | Some e => approval_decision (e_loaded e) (e_pos e).2 (e_rule e) context
      | None =>
          match first_of Allow context l with
          | Some e => allow_decision (e_loaded e) (e_pos e).2
          | None => default_decision context
          end
      end
  end.

(** ** The scan computes the first rules *)

Definition scan_result (l : list entry) (context : json) (st : scan) : Decision + scan :=
  match first_of Deny context l with
  | Some e => inl (deny_decision (e_loaded e) (e_pos e).2)
  | None =>
      inr {| first_approval := match first_approval st with
                               | Some p => Some p
                               | None => e_pos <$> first_of RequireApproval context l end;
             first_allow := match first_allow st with
                            | Some p => Some p
                            | None => e_pos <$> first_of Allow context l end |}
  end.

Lemma scan_result_nil context st : scan_result [] context st = inr st.
Proof. by destruct st as [[] []]. Qed.

Lemma scan_result_app l1 l2 context st :
  scan_result (l1 ++ l2) context st =
  match scan_result l1 context st with
  | inl d => inl d
  | inr st => scan_result l2 context st
  end.
Proof.
  unfold scan_result, first_of. rewrite !find_first_app.
  destruct (find_first (applies Deny context) l1); [done|].
  destruct (find_first (applies Deny context) l2); [done|]. simpl.
  destruct st as [[] []]; simpl; [done| | |];
    destruct (find_first (applies RequireApproval context) l1),
      (find_first (applies Allow context) l1); done.
Qed.

Lemma scan_result_cons e l context st :
  scan_result (e :: l) context st =
  match scan_result [e] context st with
  | inl d => inl d
  | inr st => scan_result l context st
  end.
Proof. apply (scan_result_app [e]). Qed.

Lemma scan_rules_result loaded pi ri rules context st :
  scan_rules loaded pi ri rules context st = scan_result (rule_entries loaded pi ri rules) context st.
Proof.
  revert ri st. induction rules as [|r rest IH]; intros ri st;
    cbn [scan_rules rule_entries]; [by rewrite scan_result_nil|].
  rewrite scan_result_cons. unfold scan_result at 1, first_of, find_first, applies. simpl.
  destruct (truthy (eval_expr (rule_condition r) context)); simpl.
  - destruct (rule_kind r); simpl; [done| |]; rewrite IH; by destruct st as [[] []].
  - rewrite IH. by destruct st as [[] []].
Qed.

Lemma scan_policies_result pi policies context st :
  scan_policies pi policies context st = scan_result (all_rules pi policies) context st.
Proof.
  revert pi st. induction policies as [|p rest IH]; intros pi st; simpl;
    [by rewrite scan_result_nil|].
  rewrite scan_rules_result, scan_result_app.
  destruct (scan_result _ context st); [done|]. apply IH.
Qed.

Lemma in_rule_entries loaded pi ri rules e :
  In e (rule_entries loaded pi ri rules) ->
  (e_pos e).1 = pi /\ e_loaded e = loaded /\ exists k, (e_pos e).2 = (ri + k)%nat /\
  rules !! k = Some (e_rule e).
Proof.
  revert ri. induction rules as [|r rest IH]; simpl; intros ri; [done|].
  intros [<-|Hin]; simpl.
  - split; [done|]. split; [done|]. exists 0%nat. split; [lia | done].
  - destruct (IH _ Hin) as (? & ? & k & ? & ?). split; [done|]. split; [done|].
    exists (S k). split; [lia | done].
Qed.

(** A position the scan remembers indexes the policies and rules it came from. *)
Lemma in_all_rules pi policies e :
  In e (all_rules pi policies) ->
  exists k, (e_pos e).1 = (pi + k)%nat /\ policies !! k = Some (e_loaded e) /\
  policy_rules (lp_policy (e_loaded e)) !! (e_pos e).2 = Some (e_rule e).
Proof.
  revert pi. induction policies as [|p rest IH]; simpl; intros pi; [done|].
  rewrite in_app_iff. intros [Hin|Hin].
  - destruct (in_rule_entries _ _ _ _ _ Hin) as (? & -> & k & -> & ?).
    exists 0%nat. split; [lia | done].
  - destruct (IH _ Hin) as (k & ? & ? & ?). exists (S k). split; [lia | done].
Qed.

Lemma rule_at_entry policies e :
  In e (all_rules 0 policies) -> rule_at policies (e_pos e) = Some (e_loaded e, e_rule e).
Proof.
  intros (k & Hk & Hp & Hr)%in_all_rules. unfold rule_at. rewrite Hk. simpl.
  by rewrite Hp, Hr.
Qed.

Lemma first_of_some kind context l e :
  first_of kind context l = Some e ->
  In e l /\ truthy (eval_expr (rule_condition (e_rule e)) context) = true
  /\ rule_kind (e_rule e) = kind.
Proof.
  intros [Hin Ha]%find_first_some. unfold applies in Ha. bool_prop. auto.
Qed.

Lemma evaluate_spec_decision policies context :
  evaluate policies context = spec_decision (all_rules 0 policies) context.
Proof.
  unfold evaluate, spec_decision. rewrite scan_policies_result. unfold scan_result. simpl.
  destruct (first_of Deny context _); [done|].
  destruct (first_of RequireApproval context _) as [e|] eqn:Ea; simpl.
  - apply first_of_some in Ea as (Hin & _). by rewrite (rule_at_entry _ _ Hin).
  - destruct (first_of Allow context _) as [e|] eqn:El; simpl; [|done].
    apply first_of_some in El as (Hin & _). by rewrite (rule_at_entry _ _ Hin).
Qed.

(** ** Severity *)

Definition severity (d : DecisionKind) : Z :=
  match d with DAllow => 0 | DApprovalRequired => 1 | DDeny => 2 end.

Lemma spec_decision_kind l context :
  decision (spec_decision l context) =
  match first_of Deny context l, first_of RequireApproval context l, first_of Allow context l with
  | Some _, _, _ => DDeny
  | None, Some _, _ => DApprovalRequired
  | None, None, Some _ => DAllow
  | None, None, None => decision (default_decision context)
  end.
Proof.
  unfold spec_decision. destruct (first_of Deny context l); [done|].
  destruct (first_of RequireApproval context l) as [e|].
  - unfold approval_decision. by destruct (rule_approval (e_rule e)) as [[]|].
  - by destruct (first_of Allow context l).
Qed.

Lemma first_of_app kind context l1 l2 :
  first_of kind context (l1 ++ l2) =
  match first_of kind context l1 with Some e => Some e | None => first_of kind context l2 end.
Proof. apply find_first_app. Qed.

(** Positions do not influence which kinds of rule match. *)
Lemma first_of_rule_entries_shift kind context loaded pi pi' ri rules :
  is_Some (first_of kind context (rule_entries loaded pi ri rules)) <->
  is_Some (first_of kind context (rule_entries loaded pi' ri rules)).
Proof.
  unfold first_of. revert ri. induction rules as [|r rest IH]; intros ri; [done|].
  cbn [rule_entries find_first].
  unfold applies at 1 3. simpl.
  destruct (truthy _ && _); [|by apply IH]. split; eauto.
Qed.

Lemma first_of_shift kind context pi pi' policies :
  is_Some (first_of kind context (all_rules pi policies)) <->
  is_Some (first_of kind context (all_rules pi' policies)).
Proof.
  revert pi pi'. induction policies as [|p rest IH]; intros pi pi'; [done|]. simpl.
  rewrite !first_of_app.
  pose proof (first_of_rule_entries_shift kind context p pi pi' 0 (policy_rules (lp_policy p))) as Hs.
  destruct (first_of kind context (rule_entries p pi 0 _)) as [e|] eqn:E;
    destruct (first_of kind context (rule_entries p pi' 0 _)) as [e'|] eqn:E'.
  - split; eauto.
  - exfalso. destruct Hs as [Hs _]. destruct (Hs ltac:(eauto)) as [? ?]. done.
  - exfalso. destruct Hs as [_ Hs]. destruct (Hs ltac:(eauto)) as [? ?]. done.
  - apply IH.
Qed.

(** A rule of this kind matches somewhere in the set. *)
Definition some_rule (kind : RuleKind) (policies : list LoadedPolicy) (context : json) : Prop :=
  exists p r, In p policies /\ In r (policy_rules (lp_policy p)) /\ rule_kind r = kind /\
  truthy (eval_expr (rule_condition r) context) = true.

Lemma rule_entries_in loaded pi ri rules r :
  In r rules -> exists e, In e (rule_entries loaded pi ri rules) /\ e_rule e = r.
Proof.
  revert ri. induction rules as [|x rest IH]; simpl; intros ri; [done|].
  intros [->|Hin]; [eexists; split; [by left | done]|].
  destruct (IH (S ri) Hin) as (e & He & ?). exists e. auto.
Qed.

Lemma all_rules_in pi policies p r :
  In p policies -> In r (policy_rules (lp_policy p)) ->
  exists e, In e (all_rules pi policies) /\ e_rule e = r.
Proof.
  revert pi. induction policies as [|q rest IH]; simpl; intros pi; [done|].
  intros [->|Hin] Hr.
  - destruct (rule_entries_in p pi 0 _ r Hr) as (e & He & ?). exists e.
    rewrite in_app_iff. auto.
  - destruct (IH (S pi) Hin Hr) as (e & He & ?). exists e. rewrite in_app_iff. auto.
Qed.

Lemma first_of_some_rule kind pi policies context :
  is_Some (first_of kind context (all_rules pi policies)) <-> some_rule kind policies context.
Proof.
  split.
  - intros [e He]. apply first_of_some in He as (Hin & Ht & Hk).
    apply in_all_rules in Hin as (k & _ & Hp & Hr).
    exists (e_loaded e), (e_rule e). apply list_elem_of_lookup_2, list_elem_of_In in Hp, Hr. auto.
  - intros (p & r & Hp & Hr & Hk & Ht).
    destruct (all_rules_in pi policies p r Hp Hr) as (e & He & Her).
    destruct (first_of kind context (all_rules pi policies)) as [e'|] eqn:E; [eauto|].
    exfalso. unfold first_of in E. rewrite find_first_none in E.
    rewrite List.Forall_forall in E. specialize (E e He).
    unfold applies in E. rewrite Her, Ht, bool_decide_eq_true_2 in E by done. done.
Qed.

Ltac by_first_rules :=
  repeat match goal with
  | H : context [first_of ?k ?c ?l] |- _ => let E := fresh "E" in destruct (first_of k c l) eqn:E
  | |- context [first_of ?k ?c ?l] => let E := fresh "E" in destruct (first_of k c l) eqn:E
  end.

(** ** Properties *)

(** C28: the decision procedure implements the reference semantics of a policy set: one
    scan with two remembered positions and an early return computes exactly what reading
    all rules as one concatenated list decides, rule id, approver, SLA and escalation
    included. *)
Theorem evaluate_refines_spec (policies : list LoadedPolicy) (context : json) :
  evaluate policies context = spec_decision (all_rules 0 policies) context.
Proof. apply evaluate_spec_decision. Qed.

(** The decision kind is determined by which kinds of rule match anywhere in the set:
    a matching deny always wins, wherever it stands; otherwise a matching approval rule
    gates; otherwise a matching allow allows; otherwise the default rule decides. *)
Theorem evaluate_kind (policies : list LoadedPolicy) (context : json) :
  (decision (evaluate policies context) = DDeny <-> some_rule Deny policies context) /\
  (some_rule RequireApproval policies context -> ~ some_rule Deny policies context ->
   decision (evaluate policies context) = DApprovalRequired) /\
  (some_rule Allow policies context -> ~ some_rule Deny policies context ->
   ~ some_rule RequireApproval policies context -> decision (evaluate policies context) = DAllow) /\
  (~ some_rule Deny policies context -> ~ some_rule RequireApproval policies context ->
   ~ some_rule Allow policies context -> evaluate policies context = default_decision context).
Proof.
  rewrite evaluate_spec_decision, spec_decision_kind, <- !(first_of_some_rule _ 0).
  unfold spec_decision.
  destruct (first_of Deny context _); [rewrite !is_Some_alt; naive_solver|].
  destruct (first_of RequireApproval context _), (first_of Allow context _);
    unfold is_Some; repeat split; try naive_solver.
  intros H. exfalso. revert H. unfold default_decision. by destruct (_ || _).
Qed.

(** Every decision is complete: an approval carries its approver, its SLA and its
    escalation target, and no other decision carries any of them. *)
Definition decision_wf (d : Decision) : Prop :=
  match decision d with
  | DApprovalRequired => is_Some (d_approver d) /\ is_Some (d_sla_seconds d) /\ is_Some (d_escalate_to d)
  | _ => d_approver d = None /\ d_sla_seconds d = None /\ d_escalate_to d = None
  end /\ (d_policy d = None <-> d_rule d = "default" /\ d_policy_version d = None).

(** Every decision of every policy set on every context is well-formed, so a gate
    always names an approver, a deadline and an escalation, and only gates do. *)
Theorem evaluate_wf (policies : list LoadedPolicy) (context : json) :
  decision_wf (evaluate policies context).
Proof.
  rewrite evaluate_spec_decision. unfold spec_decision.
  destruct (first_of Deny context _) as [e|]; [by unfold decision_wf; naive_solver|].
  destruct (first_of RequireApproval context _) as [e|].
  - unfold decision_wf, approval_decision. destruct (rule_approval (e_rule e)) as [c|]; naive_solver.
  - destruct (first_of Allow context _) as [e|]; [by unfold decision_wf; naive_solver|].
    unfold decision_wf, default_decision. destruct (_ || _); naive_solver.
Qed.

(** Adding policies never relaxes what a rule decided: a deny stays a deny, and an
    approval required by a rule of the original set stays at least an approval. *)
Theorem evaluate_add_policies (policies more : list LoadedPolicy) (context : json) :
  d_policy (evaluate policies context) <> None ->
  decision (evaluate policies context) <> DAllow ->
  severity (decision (evaluate policies context))
  <= severity (decision (evaluate (policies ++ more) context)).
Proof.
  rewrite !evaluate_spec_decision.
  assert (forall pi, all_rules pi (policies ++ more) =
    all_rules pi policies ++ all_rules (pi + length policies) more) as Happ.
  { induction policies as [|p rest IH]; intros pi; simpl; [by rewrite Nat.add_0_r|].
    rewrite IH, <- app_assoc. do 3 f_equal. lia. }
  rewrite Happ, !spec_decision_kind, !first_of_app. unfold spec_decision.
  destruct (first_of Deny context (all_rules 0 policies)); [done|].
  destruct (first_of RequireApproval context (all_rules 0 policies)); simpl.
  - intros _ _. by destruct (first_of Deny context _).
  - destruct (first_of Allow context (all_rules 0 policies)) as [e|]; simpl; [done|].
    intros H. exfalso. apply H. unfold default_decision. by destruct (_ || _).
Qed.

(** ** A concrete set, used by the witnesses *)

(** The context of a supervised write of 7250 to the ledger. *)
Definition example_context : json :=
  obj [("action", obj [("kind", JStr "payment.issue"); ("amount", JNum (PosInt 7250));
                       ("writes_to_system_of_record", JBool true)]);
       ("run", obj [("remit", obj [("autonomy", JStr "supervised")]);
                    ("requested_by", obj [("id", JStr "u-ana"); ("manager", JStr "u-tom")])])].

(** [require approval when action.amount >= 5000 -> approver: role("finance_admin"), sla: 4h]. *)
Definition example_gate : LoadedPolicy :=
  {| lp_name := "finance-default"; lp_version := "1";
     lp_policy := {| policy_name := Some "finance-default";
       policy_rules := [{| rule_kind := RequireApproval;
         rule_condition := EBinary OpGe (EPath ["action"; "amount"]) (ENumber (f64_of_Z 5000));
         rule_approval := Some {| ac_approver := AE_Role "finance_admin";
                                  ac_sla_seconds := Some 14400; ac_escalate_to := None |} |}] |} |}.

(** [allow when true]. *)
Definition example_allow_all : LoadedPolicy :=
  {| lp_name := "open"; lp_version := "1";
     lp_policy := {| policy_name := None;
       policy_rules := [{| rule_kind := Allow; rule_condition := EBool true;
                           rule_approval := None |}] |} |}.

Lemma evaluate_add_policies_witness :
  d_policy (evaluate [example_gate] example_context) = Some "finance-default" /\
  severity (decision (evaluate [example_gate] example_context))
  <= severity (decision (evaluate ([example_gate] ++ [example_allow_all]) example_context)).
Proof.
  split; [vm_compute; reflexivity|].
  apply (evaluate_add_policies [example_gate] [example_allow_all] example_context);
    vm_compute; discriminate.
Defined.

(** The default rule is not protected by C4: a policy that only adds an allow rule
    turns the approval that the default rule demands for a write under a supervised remit
    into an allow, although derivation treats a larger policy set as narrower. *)
Theorem added_policy_relaxes_default :
  decision (evaluate [] example_context) = DApprovalRequired /\
  decision (evaluate ([] ++ [example_allow_all]) example_context) = DAllow.
Proof. vm_compute. auto. Qed.
