(* ===== verification/PolicyTools.v ===== *)
(** * Escalation directory and corpus testing

    [kernos-policy/src/directory.rs] and [corpus.rs]: who an unanswered approval escalates
    to, and which rows of a corpus a policy change flips. *)

From stdpp Require Import gmap.
From S2P Require Import Prelude Text F64 Json Glob Policy PolicySpec.
From Stdlib Require Import Ascii.

Local Open Scope string_scope.
Local Open Scope list_scope.
Local Open Scope Z_scope.

(** ** The directory *)

Record DirectoryUser := { du_role : option string; du_manager : option string }.

Record Directory := { users : gmap string DirectoryUser }.

Definition directory_empty : Directory := {| users := ∅ |}.

Definition manager_of (d : Directory) (user : string) : option string :=
  match users d !! user with Some u => du_manager u | None => None end.

Definition reporting_line (d : Directory) (current : Approver) : Approver :=
  let manager := match ap_kind current with
                 | TUser => manager_of d (ap_value current)
                 | TRole => None
                 end in
  match manager with
  | Some id => approver_user id
  | None => approver_role "admin"
  end.

Definition resolve_escalation (d : Directory) (target : EscalateTo) (current : Approver) : Approver :=
  match target with
  | ReportingLine => reporting_line d current
  | ToApprover a => a
  end.

(** ** Debug formatting, as [format!("{:?}")] renders the fields of a decision *)

Definition hex_digit (n : N) : ascii :=
  ascii_of_N (if (n <? 10)%N then 48 + n else 87 + n).

(** A byte of a string literal in [Debug] form.  The bytes of non-ASCII characters are
    printed as they are. *)
Definition debug_byte (a : ascii) : string :=
  let n := N_of_ascii a in
  if Ascii.eqb a "034" then String "\" (String "034" "")
  else if Ascii.eqb a "\" then "\\"
  else if Ascii.eqb a "009" then "\t"
  else if Ascii.eqb a "010" then "\n"
  else if Ascii.eqb a "013" then "\r"
  else if Ascii.eqb a "000" then "\0"
  else if ((n <? 16))%N then "\u{" +:+ String (hex_digit n) "}"
  else if ((n <? 32) || (n =? 127))%N then
    "\u{" +:+ String (hex_digit (n / 16)) (String (hex_digit (n mod 16)) "}")
  else String a "".

Fixpoint debug_body (s : string) : string :=
  match s with
  | EmptyString => String "034" ""
  | String a s => debug_byte a +:+ debug_body s
  end.

Definition debug_str (s : string) : string := String "034" (debug_body s).

Definition debug_approver (a : Approver) : string :=
  "Approver { kind: " +:+ (match ap_kind a with TRole => "Role" | TUser => "User" end)
  +:+ ", value: " +:+ debug_str (ap_value a) +:+ ", fallback: "
  +:+ (if ap_fallback a then "true" else "false") +:+ " }".

Definition debug_escalate (e : EscalateTo) : string :=
  match e with
  | ReportingLine => "ReportingLine(ReportingLine)"
  | ToApprover a => "Approver(" +:+ debug_approver a +:+ ")"
  end.

Definition debug_option {A} (f : A -> string) (o : option A) : string :=
  match o with None => "None" | Some a => "Some(" +:+ f a +:+ ")" end.

(** ** Corpus testing *)

Record Flip := { f_index : nat; f_a : DecisionKind; f_b : DecisionKind;
                 f_rule_a : string; f_rule_b : string }.

(** What was decided and, for an approval, the gate it creates. *)
Definition outcome (d : Decision) : DecisionKind * string :=
  let gate := if bool_decide (decision d = DApprovalRequired)
              then debug_option debug_approver (d_approver d) +:+ "|"
                   +:+ debug_option dec (d_sla_seconds d) +:+ "|"
                   +:+ debug_option debug_escalate (d_escalate_to d)
              else "" in
  (decision d, gate).

Definition corpus_flip (policy_a policy_b : list LoadedPolicy) (index : nat) (context : json)
    : option Flip :=
  let a := evaluate policy_a context in
  let b := evaluate policy_b context in
  if bool_decide (outcome a = outcome b) then None
  else Some {| f_index := index; f_a := decision a; f_b := decision b;
               f_rule_a := d_rule a; f_rule_b := d_rule b |}.

Fixpoint test_corpus_from (policy_a policy_b : list LoadedPolicy) (index : nat)
    (corpus : list json) : list Flip :=
  match corpus with
  | [] => []
  | context :: rest =>
      match corpus_flip policy_a policy_b index context with
      | Some f => f :: test_corpus_from policy_a policy_b (S index) rest
      | None => test_corpus_from policy_a policy_b (S index) rest
      end
  end.

Definition test_corpus (policy_a policy_b : list LoadedPolicy) (corpus : list json) : list Flip :=
  test_corpus_from policy_a policy_b 0 corpus.

(** ** The rendered gate determines the gate *)

Lemma debug_byte_ok : byte_code_ok debug_byte = true.
Proof. vm_compute. reflexivity. Qed.

Lemma debug_body_encode s : debug_body s = encode_body debug_byte s.
Proof. induction s; simpl; congruence. Qed.

Lemma debug_body_inj s t x y : debug_body s +:+ x = debug_body t +:+ y -> s = t /\ x = y.
Proof. rewrite !debug_body_encode. apply (encode_body_inj _ debug_byte_ok). Qed.

Lemma String_inj a b s t : String a s = String b t -> a = b /\ s = t.
Proof. by intros [= -> ->]. Qed.

Lemma debug_approver_inj a b x y :
  debug_approver a +:+ x = debug_approver b +:+ y -> a = b /\ x = y.
Proof.
  destruct a as [k v f], b as [k' v' f']. unfold debug_approver, debug_str. cbn [ap_kind ap_value ap_fallback].
  rewrite !string_app_assoc. intros H. apply string_app_inj in H.
  assert (k = k') as -> by (destruct k, k'; simpl in H; try done; discriminate).
  apply string_app_inj in H. apply string_app_inj in H.
  apply (String_inj "034" "034") in H as [_ H]. fold String.append in H.
  apply debug_body_inj in H as [-> H]. apply string_app_inj in H.
  assert (f = f') as -> by (destruct f, f'; simpl in H; try done; discriminate).
  apply string_app_inj in H. apply string_app_inj in H. done.
Qed.

Lemma debug_escalate_inj a b x y :
  debug_escalate a +:+ x = debug_escalate b +:+ y -> a = b /\ x = y.
Proof.
  destruct a as [|a], b as [|b]; unfold debug_escalate.
  - intros H. by apply string_app_inj in H.
  - intros H. simpl in H. discriminate.
  - intros H. simpl in H. discriminate.
  - rewrite !string_app_assoc. intros H. apply string_app_inj in H.
    apply debug_approver_inj in H as [-> H]. by apply string_app_inj in H.
Qed.

Lemma debug_option_inj {A} (ok : A -> Prop) (f : A -> string) o o' x y :
  (forall a b x y, ok a -> ok b -> f a +:+ String ")" x = f b +:+ String ")" y -> a = b /\ x = y) ->
  (forall a, o = Some a -> ok a) -> (forall a, o' = Some a -> ok a) ->
  debug_option f o +:+ x = debug_option f o' +:+ y -> o = o' /\ x = y.
Proof.
  intros Hf Ho Ho'. destruct o as [a|], o' as [b|]; unfold debug_option.
  - rewrite !string_app_assoc. intros H. apply string_app_inj in H.
    destruct (Hf a b x y (Ho a eq_refl) (Ho' b eq_refl) H) as [-> ->]. done.
  - intros H. simpl in H. discriminate.
  - intros H. simpl in H. discriminate.
  - intros H. by apply string_app_inj in H.
Qed.

(** Digit strings that stop at a non-digit are equal. *)
Lemma digits_app_inj s t c x y :
  string_forall is_ascii_digit s = true -> string_forall is_ascii_digit t = true ->
  is_ascii_digit c = false ->
  s +:+ String c x = t +:+ String c y -> s = t /\ x = y.
Proof.
  intros Hs Ht Hc. revert t Ht. induction s as [|a s IH]; intros [|b t] Ht H; simpl in *.
  - by injection H as ->.
  - injection H as <- _. bool_prop. congruence.
  - injection H as -> _. bool_prop. congruence.
  - injection H as -> H. bool_prop. destruct (IH ltac:(done) t ltac:(done) H) as [-> ->]. done.
Qed.

(** The gate of a decision: what the outcome renders. *)
Definition gate (d : Decision) : option Approver * option Z * option EscalateTo :=
  (d_approver d, d_sla_seconds d, d_escalate_to d).

Definition sla_ok (d : Decision) : Prop := forall z, d_sla_seconds d = Some z -> 0 <= z.

Lemma outcome_eq a b :
  sla_ok a -> sla_ok b ->
  outcome a = outcome b <->
  decision a = decision b /\ (decision a = DApprovalRequired -> gate a = gate b).
Proof.
  intros Ha Hb. unfold outcome. split.
  - intros [= Hd Hg]. split; [done|]. intros Hk.
    rewrite !bool_decide_eq_true_2 in Hg by congruence.
    apply (debug_option_inj (fun _ => True)) in Hg as [H1 Hg]; [| |done|done].
    2: { intros ?? ?? _ _ H. apply debug_approver_inj in H as [-> [= ->]]. done. }
    apply (string_app_inj "|") in Hg.
    apply (debug_option_inj (fun z => 0 <= z)) in Hg as [H2 Hg]; [| |done|done].
    2: { intros z z' x y Hz Hz' H. apply (digits_app_inj _ _ ")") in H as [H ->];
           [|by apply dec_digits..|done]. split; [by apply dec_inj | done]. }
    apply (string_app_inj "|") in Hg.
    rewrite <- (string_app_nil_r (debug_option _ _)), <- (string_app_nil_r (debug_option _ (d_escalate_to b))) in Hg.
    apply (debug_option_inj (fun _ => True)) in Hg as [H3 _]; [| |done|done].
    2: { intros ?? ?? _ _ H. apply debug_escalate_inj in H as [-> [= ->]]. done. }
    unfold gate. congruence.
  - intros [Hd Hg]. rewrite <- Hd. f_equal.
    destruct (bool_decide_reflect (decision a = DApprovalRequired)) as [Hk|]; [|done].
    specialize (Hg Hk). unfold gate in Hg. congruence.
Qed.

(** ** Every SLA a decision carries is the one written in the policy *)

Definition slas_ok (p : LoadedPolicy) : Prop :=
  forall r c z, In r (policy_rules (lp_policy p)) -> rule_approval r = Some c ->
  ac_sla_seconds c = Some z -> 0 <= z.

Lemma evaluate_sla_ok policies context :
  Forall slas_ok policies -> sla_ok (evaluate policies context).
Proof.
  intros Hp. rewrite evaluate_spec_decision. unfold spec_decision, sla_ok.
  destruct (first_of Deny context _) as [e|]; [done|].
  destruct (first_of RequireApproval context _) as [e|] eqn:E.
  - apply first_of_some in E as (Hin & _ & _). apply in_all_rules in Hin as (k & _ & Hk & Hr).
    rewrite List.Forall_forall in Hp.
    apply list_elem_of_lookup_2, list_elem_of_In in Hk, Hr. specialize (Hp _ Hk).
    unfold approval_decision. intros z.
    destruct (rule_approval (e_rule e)) as [c|] eqn:Hc; simpl; [|intros [= <-]; done].
    destruct (ac_sla_seconds c) as [s|] eqn:Hs; simpl; intros [= <-]; [|done].
    by apply (Hp (e_rule e) c).
  - destruct (first_of Allow context _) as [e|]; [done|].
    unfold default_decision. by destruct (_ || _); simpl; [|intros z [= <-]].
Qed.

Lemma test_corpus_from_in a b i corpus f :
  In f (test_corpus_from a b i corpus) <->
  exists k context, corpus !! k = Some context /\ corpus_flip a b (i + k) context = Some f.
Proof.
  revert i. induction corpus as [|c rest IH]; intros i; cbn [test_corpus_from].
  - split; [done|]. intros (k & ? & H & _). by rewrite lookup_nil in H.
  - assert (In f (match corpus_flip a b i c with
                  | Some f0 => f0 :: test_corpus_from a b (S i) rest
                  | None => test_corpus_from a b (S i) rest end) <->
            corpus_flip a b i c = Some f \/ In f (test_corpus_from a b (S i) rest)) as ->.
    { destruct (corpus_flip a b i c); simpl; naive_solver. }
    rewrite IH. split.
    + intros [H|(k & ctx & Hk & H)]; [exists 0%nat, c | exists (S k), ctx].
      * by rewrite Nat.add_0_r.
      * by rewrite <- Nat.add_succ_comm.
    + intros ([|k] & ctx & Hk & H); simpl in Hk.
      * injection Hk as ->. left. by rewrite Nat.add_0_r in H.
      * right. exists k, ctx. by rewrite Nat.add_succ_comm.
Qed.

(** ** Properties *)

(** The corpus test reports exactly the rows whose outcome changes: row [index] is
    reported if and only if the decision differs there or, when approval is required on
    both sides, the approver, the SLA or the escalation differs; rule ids never matter. *)
Theorem test_corpus_reports (a b : list LoadedPolicy) (corpus : list json) (index : nat) :
  Forall slas_ok a -> Forall slas_ok b ->
  (exists f, In f (test_corpus a b corpus) /\ f_index f = index) <->
  exists context, corpus !! index = Some context /\
    let da := evaluate a context in let db := evaluate b context in
    ~ (decision da = decision db /\ (decision da = DApprovalRequired -> gate da = gate db)).
Proof.
  intros Ha Hb. unfold test_corpus.
  assert (forall i ctx f, corpus_flip a b i ctx = Some f -> f_index f = i /\
            outcome (evaluate a ctx) <> outcome (evaluate b ctx)) as Hflip.
  { intros i ctx f. unfold corpus_flip.
    destruct (bool_decide_reflect (outcome (evaluate a ctx) = outcome (evaluate b ctx))); [done|].
    by intros [= <-]. }
  split.
  - intros (f & Hin & <-). apply test_corpus_from_in in Hin as (k & ctx & Hk & Hf).
    destruct (Hflip _ _ _ Hf) as [-> Hne]. exists ctx. split; [done|].
    simpl. rewrite <- outcome_eq by (by apply evaluate_sla_ok). done.
  - intros (ctx & Hk & Hne). simpl in Hne.
    rewrite <- outcome_eq in Hne by (by apply evaluate_sla_ok).
    destruct (corpus_flip a b index ctx) as [f|] eqn:Hf.
    + exists f. split; [apply test_corpus_from_in; exists index, ctx; auto | by apply Hflip in Hf as [? _]].
    + unfold corpus_flip in Hf. by rewrite bool_decide_eq_false_2 in Hf.
Qed.

(** Raising a threshold flips only the row between the old and the new one. *)
Definition example_gate_high : LoadedPolicy :=
  {| lp_name := "finance-default"; lp_version := "2";
     lp_policy := {| policy_name := Some "finance-default";
       policy_rules := [{| rule_kind := RequireApproval;
         rule_condition := EBinary OpGe (EPath ["action"; "amount"]) (ENumber (f64_of_Z 10000));
         rule_approval := Some {| ac_approver := AE_Role "finance_admin";
                                  ac_sla_seconds := Some 14400; ac_escalate_to := None |} |}] |} |}.

Definition example_row (amount : Z) : json :=
  obj [("action", obj [("amount", JNum (PosInt amount))])].

Lemma test_corpus_reports_witness :
  (exists f, In f (test_corpus [example_gate] [example_gate_high]
                     [example_row 100; example_row 7250; example_row 20000]) /\ f_index f = 1%nat).
Proof.
  apply (test_corpus_reports [example_gate] [example_gate_high]
           [example_row 100; example_row 7250; example_row 20000] 1).
  - repeat constructor. intros r c z [<-|[]] [= <-] [= <-]. done.
  - repeat constructor. intros r c z [<-|[]] [= <-] [= <-]. done.
  - exists (example_row 7250). split; [reflexivity|].
    vm_compute. intros [H _]. discriminate H.
Defined.

(** An escalation always has somewhere to go and never loops on a role: from any
    approver, resolving [reporting_line] gives the manager the directory names for that
    user or [role("admin")], and [role("admin")] escalates to itself. *)
Theorem reporting_line_total (d : Directory) (current : Approver) :
  (exists m, ap_kind current = TUser /\ manager_of d (ap_value current) = Some m /\
             reporting_line d current = approver_user m) \/
  (reporting_line d current = approver_role "admin" /\
   reporting_line d (reporting_line d current) = approver_role "admin").
Proof.
  unfold reporting_line. destruct (ap_kind current) eqn:Hk; [by right|].
  destruct (manager_of d (ap_value current)) as [m|] eqn:Hm; [left; by exists m | by right].
Qed.
