(* ===== verification/Canonical.v ===== *)
(** * Canonical JSON ([kernos-core/src/canonical.rs])

    The one text form that is hashed and signed: object keys sorted by UTF-16 code units,
    minimal string escapes, no whitespace.  The text of a float is produced by serde_json's
    number formatter and the digest by the sha2 crate; both are parameters.  The theorem
    of the file is that the canonical text determines the value, which is what makes a
    hash over it a commitment to the record. *)

From S2P Require Import Prelude Text F64 Json.
From Stdlib Require Import Ascii SpecFloat Permutation.

Local Open Scope string_scope.
Local Open Scope list_scope.
Local Open Scope Z_scope.

(** ** External code *)

(** [Display] of a finite [f64] number in serde_json: shortest round-trip form. *)
Class FloatFormat := { fmt_f64 : f64 -> string }.

(** SHA-256 of bytes, in lowercase hex. *)
Class Sha256 := { sha256_hex : string -> string }.

Definition is_number_char (a : ascii) : bool :=
  is_ascii_digit a || Ascii.eqb a "-" || Ascii.eqb a "+" || Ascii.eqb a "." || Ascii.eqb a "e".

(** What the formatter documents: a float is printed with number characters only, with a
    fraction or an exponent so that it reads back as a float, and round-trips. *)
Class FloatFormatOk `{FloatFormat} : Prop := {
  fmt_f64_chars f : f64_is_finite f = true -> string_forall is_number_char (fmt_f64 f) = true;
  fmt_f64_marked f : f64_is_finite f = true ->
    contains_byte "." (fmt_f64 f) || contains_byte "e" (fmt_f64 f) = true;
  fmt_f64_inj f g : f64_is_finite f = true -> f64_is_finite g = true ->
    fmt_f64 f = fmt_f64 g -> f = g }.

(** ** The writer *)

Definition hex2 (n : N) : string :=
  let d := fun k : N => ascii_of_N (if (k <? 10)%N then 48 + k else 87 + k) in
  String (d (n / 16)%N) (String (d (n mod 16)%N) "").

(** One byte of a string.  Every escape concerns an ASCII character, so the bytes of other
    characters are copied. *)
Definition escape_byte (a : ascii) : string :=
  if Ascii.eqb a "034" then String "\" (String "034" "")
  else if Ascii.eqb a "\" then "\\"
  else if Ascii.eqb a "010" then "\n"
  else if Ascii.eqb a "013" then "\r"
  else if Ascii.eqb a "009" then "\t"
  else if Ascii.eqb a "008" then "\b"
  else if Ascii.eqb a "012" then "\f"
  else if (N_of_ascii a <? 32)%N then "\u00" +:+ hex2 (N_of_ascii a)
  else String a "".

Fixpoint write_string_body (s : string) : string :=
  match s with
  | EmptyString => String "034" ""
  | String a s => escape_byte a +:+ write_string_body s
  end.

Definition write_string (s : string) : string := String "034" (write_string_body s).

(** [str::encode_utf16]. *)
Definition utf16_units (s : string) : list Z :=
  flat_map (fun c =>
    let z := char_code c in
    if z <? 65536 then [z]
    else [55296 + (z - 65536) / 1024; 56320 + (z - 65536) mod 1024]) (chars s).

Fixpoint units_leb (a b : list Z) : bool :=
  match a, b with
  | [], _ => true
  | _ :: _, [] => false
  | x :: a, y :: b => if x =? y then units_leb a b else x <? y
  end.

(** The stable [sort_by_key] on the keys' UTF-16 units. *)
Fixpoint insert_entry {A} (e : string * A) (l : list (string * A)) : list (string * A) :=
  match l with
  | [] => [e]
  | e' :: l' => if units_leb (utf16_units e.1) (utf16_units e'.1) then e :: l
                else e' :: insert_entry e l'
  end.

Definition sort_entries {A} (l : list (string * A)) : list (string * A) :=
  fold_right insert_entry [] l.

(** The comma-separated items of the two loops. *)
Definition write_seq (texts : list string) : string :=
  match texts with
  | [] => ""
  | t :: ts => t +:+ String.concat "" (map (fun t => String "," t) ts)
  end.

Section Writer.
Context `{FloatFormat}.

Definition fmt_number (n : number) : string :=
  match n with
  | PosInt z => dec z
  | NegInt z => dec z
  | Float f => fmt_f64 f
  end.

Fixpoint write_value (v : json) : string :=
  match v with
  | JNull => "null"
  | JBool true => "true"
  | JBool false => "false"
  | JNum n => fmt_number n
  | JStr s => write_string s
  | JArr items => "[" +:+ write_seq (map write_value items) +:+ "]"
  | JObj m =>
      "{" +:+ write_seq (map (fun kt => write_string kt.1 +:+ ":" +:+ kt.2)
                           (sort_entries (map (fun kv => (kv.1, write_value kv.2)) m))) +:+ "}"
  end.

Definition canonical_json (v : json) : string := write_value v.

(** Strings are their UTF-8 bytes here, so this is the same text. *)
Definition canonical_bytes (v : json) : string := canonical_json v.

Definition hash_value `{Sha256} (v : json) : string := sha256_hex (canonical_bytes v).
End Writer.

(** ** Sorting *)

Lemma insert_entry_perm {A} (e : string * A) l : insert_entry e l ≡ₚ e :: l.
Proof.
  induction l as [|e' l IH]; simpl; [done|].
  destruct (units_leb _ _); [done|]. rewrite IH. apply Permutation_swap.
Qed.

Lemma sort_entries_perm {A} (l : list (string * A)) : sort_entries l ≡ₚ l.
Proof.
  induction l as [|e l IH]; simpl; [done|]. rewrite insert_entry_perm. by rewrite IH.
Qed.

Lemma sort_entries_map {A B} (f : A -> B) (l : list (string * A)) :
  sort_entries (map (fun kv => (kv.1, f kv.2)) l) = map (fun kv => (kv.1, f kv.2)) (sort_entries l).
Proof.
  induction l as [|e l IH]; simpl; [done|]. rewrite IH. clear IH.
  generalize (sort_entries l) as s. induction s as [|e' s IH]; simpl; [done|].
  destruct (units_leb _ _); simpl; by rewrite ?IH.
Qed.

(** ** Key order *)

Lemma key_lt_trans a b c : key_lt a b = true -> key_lt b c = true -> key_lt a c = true.
Proof.
  unfold key_lt. revert b c. induction a as [|x a IH]; intros [|y b] [|z c]; simpl; try done.
  unfold Ascii.compare.
  destruct (N.compare_spec (N_of_ascii x) (N_of_ascii y)) as [Hxy|Hxy|Hxy],
    (N.compare_spec (N_of_ascii y) (N_of_ascii z)) as [Hyz|Hyz|Hyz]; try done;
    destruct (N.compare_spec (N_of_ascii x) (N_of_ascii z)) as [Hxz|Hxz|Hxz]; try done; try lia.
  apply IH.
Qed.

Lemma key_lt_irrefl a : key_lt a a = false.
Proof. unfold key_lt. by rewrite string_compare_refl. Qed.

Lemma keys_sorted_cons {A} k (v : A) m :
  keys_sorted ((k, v) :: m) = true ->
  keys_sorted m = true /\ Forall (fun e => key_lt k e.1 = true) m.
Proof.
  revert k v. induction m as [|[k' v'] m IH]; intros k v; [done|].
  cbn [keys_sorted]. intros H. apply andb_true_iff in H as [Hk Hs]. split; [done|].
  constructor; [done|]. destruct (IH k' v' Hs) as [_ Hm].
  eapply List.Forall_impl; [|exact Hm]. intros e He. by eapply key_lt_trans.
Qed.

(** Two maps with strictly increasing keys and the same entries are equal. *)
Lemma keys_sorted_perm {A} (m1 m2 : list (string * A)) :
  keys_sorted m1 = true -> keys_sorted m2 = true -> m1 ≡ₚ m2 -> m1 = m2.
Proof.
  revert m2. induction m1 as [|[k1 v1] m1 IH]; intros m2 H1 H2 HP.
  - symmetry in HP. by apply Permutation_nil_r in HP.
  - destruct m2 as [|[k2 v2] m2]; [by apply Permutation_nil_r in HP|].
    destruct (keys_sorted_cons _ _ _ H1) as [S1 F1], (keys_sorted_cons _ _ _ H2) as [S2 F2].
    assert ((k1, v1) = (k2, v2)) as [= -> ->].
    { assert (In (k1, v1) ((k2, v2) :: m2)) as [?|I1]
        by (apply (Permutation_in _ HP); by left); [done|].
      assert (In (k2, v2) ((k1, v1) :: m1)) as [?|I2]
        by (apply (Permutation_in _ (symmetry HP)); by left); [done|].
      rewrite List.Forall_forall in F1, F2. specialize (F1 _ I2). specialize (F2 _ I1).
      simpl in *. pose proof (key_lt_trans _ _ _ F1 F2) as F. by rewrite key_lt_irrefl in F. }
    f_equal. apply IH; [done..|]. by apply Permutation_cons_inv in HP.
Qed.

(** ** Reading the text back *)

Lemma escape_byte_ok : byte_code_ok escape_byte = true.
Proof. vm_compute. reflexivity. Qed.

Lemma write_string_body_encode s : write_string_body s = encode_body escape_byte s.
Proof. induction s; simpl; congruence. Qed.

Lemma write_string_inj s t x y : write_string s +:+ x = write_string t +:+ y -> s = t /\ x = y.
Proof.
  unfold write_string. rewrite !write_string_body_encode. simpl. intros [= H].
  by apply (encode_body_inj _ escape_byte_ok) in H.
Qed.

(** The text after a value stops at a separator. *)
Definition stops (x : string) : Prop :=
  match x with
  | EmptyString => True
  | String c _ => c = ","%char \/ c = "]"%char \/ c = "}"%char
  end.

Lemma munch_inj (p : ascii -> bool) s t x y :
  string_forall p s = true -> string_forall p t = true ->
  (forall c r, x = String c r -> p c = false) -> (forall c r, y = String c r -> p c = false) ->
  s +:+ x = t +:+ y -> s = t /\ x = y.
Proof.
  intros Hs Ht Hx Hy. revert t Ht. induction s as [|a s IH]; intros [|b t] Ht H; simpl in *.
  - done.
  - bool_prop. rewrite (Hx b (t +:+ y)) in *; done.
  - bool_prop. symmetry in H. rewrite (Hy a (s +:+ x)) in *; done.
  - injection H as -> H. bool_prop.
    destruct (IH ltac:(done) t ltac:(done) H) as [-> ->]. done.
Qed.

Lemma stops_not_number x c r : stops x -> x = String c r -> is_number_char c = false.
Proof. intros Hs ->. by destruct Hs as [->|[->| ->]]. Qed.

Lemma digit_number_char a : is_ascii_digit a = true -> is_number_char a = true.
Proof. unfold is_number_char. by intros ->. Qed.

Lemma dec_number_chars z : string_forall is_number_char (dec z) = true.
Proof.
  assert (forall n, string_forall is_number_char (dec_N n) = true) as Hn.
  { intros n. eapply string_forall_impl; [apply digit_number_char | apply dec_N_digits]. }
  destruct z; simpl; [done | apply Hn | apply Hn].
Qed.

Lemma string_exists_forall (p q : ascii -> bool) s :
  string_forall q s = true -> (forall a, q a = true -> p a = false) -> string_exists p s = false.
Proof. intros H Hpq. induction s; simpl in *; [done|]. bool_prop. by rewrite Hpq, IHs. Qed.

(** An integer's text has neither a fraction nor an exponent. *)
Lemma dec_unmarked z : contains_byte "." (dec z) || contains_byte "e" (dec z) = false.
Proof.
  unfold contains_byte.
  assert (forall c n, is_ascii_digit c = false ->
    string_exists (Ascii.eqb c) (dec_N n) = false) as Hn.
  { intros c n Hc. eapply string_exists_forall; [apply dec_N_digits|].
    intros a Ha. destruct (Ascii.eqb_spec c a) as [->|]; [congruence | done]. }
  destruct z; cbn [dec]; [done | by rewrite !Hn|]. cbn [string_exists]. by rewrite !Hn.
Qed.

Lemma dec_inj_all a b : dec a = dec b -> a = b.
Proof.
  assert (forall p q, dec_N (Npos p) = dec_N (Npos q) -> p = q) as Hp.
  { intros p q H. pose proof (digits_value_dec_N (Npos p)) as E.
    rewrite H, digits_value_dec_N in E. injection E as E. lia. }
  assert (forall p (s : string), String "-" s <> dec_N p) as Hm.
  { intros p s H. pose proof (dec_N_digits p) as D. rewrite <- H in D. done. }
  destruct a as [|p|p], b as [|q|q]; try done; cbn [dec]; intros H.
  - symmetry in H. apply (dec_inj 0 (Zpos q)); done.
  - apply (dec_inj (Zpos p) 0); done.
  - f_equal. by apply Hp.
  - symmetry in H. by apply Hm in H.
  - by apply Hm in H.
  - injection H as H. f_equal. by apply Hp.
Qed.

Section Injective.
Context `{Fmt : FloatFormat} {FmtOk : FloatFormatOk}.

Lemma fmt_number_chars n :
  number_wf n = true -> string_forall is_number_char (fmt_number n) = true.
Proof.
  destruct n as [z|z|f]; simpl; intros Hn; [apply dec_number_chars..|]. by apply fmt_f64_chars.
Qed.

Lemma fmt_number_inj n m :
  number_wf n = true -> number_wf m = true -> fmt_number n = fmt_number m -> n = m.
Proof.
  assert (forall z f, f64_is_finite f = true -> dec z <> fmt_f64 f) as Hd.
  { intros z f Hf E. pose proof (fmt_f64_marked f Hf) as M. rewrite <- E, dec_unmarked in M. done. }
  destruct n as [z|z|f], m as [z'|z'|f']; simpl; intros Hn Hm E;
    try (by apply Hd in E); try (symmetry in E; by apply Hd in E).
  - by apply dec_inj_all in E as ->.
  - apply dec_inj_all in E as ->. apply is_u64_spec in Hn. bool_prop. lia.
  - apply dec_inj_all in E as ->. apply is_u64_spec in Hm. bool_prop. lia.
  - by apply dec_inj_all in E as ->.
  - by apply fmt_f64_inj in E as ->.
Qed.

Lemma fmt_number_head n :
  number_wf n = true -> exists c r, fmt_number n = String c r /\ is_number_char c = true.
Proof.
  intros Hn. pose proof (fmt_number_chars n Hn) as Hc.
  destruct (fmt_number n) as [|c r] eqn:E; [|simpl in Hc; bool_prop; eauto].
  exfalso. destruct n as [z|z|f]; simpl in *.
  - assert (contains_byte "0" (dec 0) = true) by done.
    destruct z; simpl in E; [done | by apply dec_N_nonempty in E | done].
  - destruct z; simpl in E; [done | by apply dec_N_nonempty in E | done].
  - pose proof (fmt_f64_marked f Hn) as M. by rewrite E in M.
Qed.

(** The first character of a value never closes or separates. *)
Lemma write_value_head v :
  json_wf v = true -> exists c r, write_value v = String c r /\
  c <> "]"%char /\ c <> "}"%char /\ c <> ","%char.
Proof.
  destruct v as [|[]|n|s|l|m]; intros Hv; simpl; try (eexists _, _; split; [reflexivity|]; done).
  destruct (fmt_number_head n Hv) as (c & r & -> & Hc). exists c, r. split; [done|].
  repeat split; intros ->; done.
Qed.

Lemma not_number_head n c s y :
  String c s = write_value (JNum n) +:+ y -> number_wf n = true -> is_number_char c = false -> False.
Proof.
  intros E Hn Hc. destruct (fmt_number_head n Hn) as (c' & r & Hf & Hc').
  cbn [write_value] in E. rewrite Hf in E. simpl in E. injection E as -> _. congruence.
Qed.

Definition reads_back {A} (w : A -> string) (a b : A) : Prop :=
  forall x y, stops x -> stops y -> w a +:+ x = w b +:+ y -> a = b /\ x = y.

Lemma write_tail_inj {A} (w : A -> string) (close : ascii) l l' x y :
  close <> ","%char -> stops (String close "") ->
  (forall a b, In a l -> In b l' -> reads_back w a b) ->
  String.concat "" (map (fun t => String "," t) (map w l)) +:+ String close x =
  String.concat "" (map (fun t => String "," t) (map w l')) +:+ String close y ->
  l = l' /\ x = y.
Proof.
  intros Hc Hcl. assert (forall s (ss : list string), String.concat "" (s :: ss) = s +:+ String.concat "" ss) as Hcat.
  { intros s [|? ?]; simpl; [by rewrite string_app_nil_r | done]. }
  revert l'. induction l as [|a l IH]; intros [|b l'] Hr.
  - simpl. by intros [= ->].
  - cbn [map]. rewrite Hcat. simpl. intros [= E _]. congruence.
  - cbn [map]. rewrite Hcat. simpl. intros [= E _]. congruence.
  - cbn [map]. rewrite !Hcat, !string_app_assoc. simpl. intros [= E].
    apply Hr in E as [-> E]; [|by left|by left| |].
    + apply IH in E as [-> ->]; [done|]. intros ????. apply Hr; by right.
    + destruct l; cbn [map]; rewrite ?Hcat; simpl; [exact Hcl | by left].
    + destruct l'; cbn [map]; rewrite ?Hcat; simpl; [exact Hcl | by left].
Qed.

Lemma write_seq_inj {A} (w : A -> string) (close : ascii) l l' x y :
  close <> ","%char -> stops (String close "") ->
  (forall a b, In a l -> In b l' -> reads_back w a b) ->
  (forall a, In a l \/ In a l' -> exists c r, w a = String c r /\ c <> close) ->
  write_seq (map w l) +:+ String close x = write_seq (map w l') +:+ String close y ->
  l = l' /\ x = y.
Proof.
  intros Hc Hcl Hr Hh. destruct l as [|a l], l' as [|b l']; simpl.
  - by intros [= ->].
  - destruct (Hh b ltac:(right; by left)) as (c & r & -> & Hne). simpl. intros [= E _]. congruence.
  - destruct (Hh a ltac:(left; by left)) as (c & r & -> & Hne). simpl. intros [= E _]. congruence.
  - rewrite !string_app_assoc. intros E. apply Hr in E as [-> E]; [|by left|by left| |].
    + apply (write_tail_inj w close) in E as [-> ->]; [done..|]. intros ????. apply Hr; by right.
    + destruct l as [|? [|? ?]]; simpl; [exact Hcl | by left | by left].
    + destruct l' as [|? [|? ?]]; simpl; [exact Hcl | by left | by left].
Qed.

Definition write_entry (kv : string * json) : string :=
  write_string kv.1 +:+ ":" +:+ write_value kv.2.

Lemma write_obj m :
  write_value (JObj m) = "{" +:+ write_seq (map write_entry (sort_entries m)) +:+ "}".
Proof.
  cbn [write_value]. rewrite sort_entries_map, map_map. done.
Qed.

Lemma reads_back_entry (e e' : string * json) :
  reads_back write_value e.2 e'.2 -> reads_back write_entry e e'.
Proof.
  destruct e as [k v], e' as [k' v']. unfold reads_back, write_entry. simpl. intros Hv x y Hx Hy E.
  rewrite !string_app_assoc in E. apply write_string_inj in E as [-> E]. simpl in E.
  injection E as E. apply Hv in E as [-> ->]; done.
Qed.

Lemma write_value_reads_back a b :
  json_wf a = true -> json_wf b = true -> reads_back write_value a b.
Proof.
  revert b. induction a as [|b|n|s|l IH|m IH] using json_ind'; intros b' Ha Hb x y Hx Hy E.
  - destruct b' as [|[]|n'|s'|l'|m']; try discriminate E; [by injection E as ->|].
    by apply (not_number_head n') in E.
  - destruct b, b' as [|[]|n'|s'|l'|m']; try discriminate E; try (by injection E as ->);
      by apply (not_number_head n') in E.
  - destruct (fmt_number_head n Ha) as (c & r & Hc & Hn).
    destruct b' as [|[]|n'|s'|l'|m']; cbn [write_value] in E;
      try (rewrite Hc in E; simpl in E; injection E as -> _; discriminate Hn).
    apply (munch_inj is_number_char) in E as [E ->].
    + by apply fmt_number_inj in E as ->.
    + by apply fmt_number_chars.
    + by apply fmt_number_chars.
    + intros ? ? Ex. exact (stops_not_number _ _ _ Hx Ex).
    + intros ? ? Ey. exact (stops_not_number _ _ _ Hy Ey).
  - destruct b' as [|[]|n'|s'|l'|m']; try discriminate E; [by apply (not_number_head n') in E|].
    by apply (write_string_inj s s') in E as [-> ->].
  - destruct b' as [|[]|n'|s'|l'|m']; try discriminate E; [by apply (not_number_head n') in E|].
    cbn [write_value json_wf] in *. rewrite !string_app_assoc in E. simpl in E. injection E as E.
    rewrite List.Forall_forall in IH. rewrite forallb_forall in Ha, Hb.
    apply (write_seq_inj write_value "]") in E as [-> ->]; [done | done | simpl; auto | |].
    + intros a b Ia Ib. apply IH; auto.
    + intros a [Ia|Ib]; destruct (write_value_head a) as (c & r & Hc & ? & ? & ?); eauto.
  - destruct b' as [|[]|n'|s'|l'|m']; try discriminate E; [by apply (not_number_head n') in E|].
    rewrite !write_obj, !string_app_assoc in E. simpl in E. injection E as E.
    cbn [json_wf] in *. bool_prop. rewrite List.Forall_forall in IH.
    rewrite forallb_forall in *.
    apply (write_seq_inj write_entry "}") in E as [E ->]; [| done | simpl; auto | |].
    + split; [|done]. f_equal. apply keys_sorted_perm; [done..|].
      rewrite <- (sort_entries_perm m), <- (sort_entries_perm m'). by rewrite E.
    + intros e e' Ie Ie'. apply reads_back_entry.
      apply (Permutation_in _ (sort_entries_perm m)) in Ie.
      apply (Permutation_in _ (sort_entries_perm m')) in Ie'. apply IH; auto.
    + intros e _. eexists _, _. split; [reflexivity | done].
Qed.

(** The canonical text determines the value. *)
Lemma canonical_json_inj a b :
  json_wf a = true -> json_wf b = true -> canonical_json a = canonical_json b -> a = b.
Proof.
  intros Ha Hb E. apply (write_value_reads_back a b Ha Hb "" ""); [done..|].
  unfold canonical_json in E. by rewrite E.
Qed.
End Injective.

(** ** A formatter that satisfies the contract *)

(** Sign, mantissa and binary exponent: enough to show the contract can be met. *)
Definition fmt_mantissa (f : f64) : string :=
  match f with
  | S754_zero s => if s then "-0.0" else "0.0"
  | S754_finite s m e => (if s then "-" else "") +:+ dec (Zpos m) +:+ "e" +:+ dec e
  | _ => "null"
  end.

Definition mantissa_format : FloatFormat := {| fmt_f64 := fmt_mantissa |}.

Lemma contains_byte_app c a b : contains_byte c (a +:+ b) = contains_byte c a || contains_byte c b.
Proof. apply string_exists_app. Qed.

Lemma contains_dot_dec z : contains_byte "." (dec z) = false.
Proof. by pose proof (dec_unmarked z) as [? ?]%orb_false_iff. Qed.

Lemma fmt_mantissa_finite s m e :
  fmt_mantissa (S754_finite s m e) = (if s then "-" else "") +:+ dec (Zpos m) +:+ "e" +:+ dec e.
Proof. done. Qed.

Lemma dec_pos_app_inj m n c d x y :
  c = "e"%char -> d = "e"%char ->
  dec (Zpos m) +:+ String c x = dec (Zpos n) +:+ String d y -> m = n /\ x = y.
Proof.
  intros -> -> E. apply (munch_inj is_ascii_digit) in E as [E [= ->]].
  - apply dec_inj in E as [= ->]; done.
  - by apply dec_digits.
  - by apply dec_digits.
  - by intros ? ? [= <- _].
  - by intros ? ? [= <- _].
Qed.

Lemma dec_pos_not_minus m x y : dec (Zpos m) +:+ x <> String "-" y.
Proof.
  intros E. assert (string_forall is_ascii_digit (dec (Zpos m)) = true) as D by (by apply dec_digits).
  destruct (dec (Zpos m)) as [|c r] eqn:Ed; [by apply (dec_N_nonempty (Npos m)) in Ed|].
  simpl in *. injection E as -> _. done.
Qed.

Lemma fmt_mantissa_inj f g :
  f64_is_finite f = true -> f64_is_finite g = true -> fmt_mantissa f = fmt_mantissa g -> f = g.
Proof.
  assert (forall s m e, contains_byte "." (fmt_mantissa (S754_finite s m e)) = false) as Hdot.
  { intros s m e. rewrite fmt_mantissa_finite, !contains_byte_app, !contains_dot_dec. by destruct s. }
  destruct f as [s|s| |s m e], g as [t|t| |t n k]; try done; intros _ _ E.
  - by destruct s, t.
  - pose proof (Hdot t n k) as H. rewrite <- E in H. by destruct s.
  - pose proof (Hdot s m e) as H. rewrite E in H. by destruct t.
  - rewrite !fmt_mantissa_finite in E. destruct s, t.
    + apply (string_app_inj "-") in E. apply dec_pos_app_inj in E as [-> E]; [|done..].
      by apply dec_inj_all in E as ->.
    + symmetry in E. by apply dec_pos_not_minus in E.
    + by apply dec_pos_not_minus in E.
    + apply dec_pos_app_inj in E as [-> E]; [|done..]. by apply dec_inj_all in E as ->.
Qed.

Lemma mantissa_format_ok : @FloatFormatOk mantissa_format.
Proof.
  split.
  - intros [s|s| |s m e] Hf; try done; [by destruct s|].
    change (string_forall is_number_char (fmt_mantissa (S754_finite s m e)) = true).
    rewrite fmt_mantissa_finite, !string_forall_app, !dec_number_chars. by destruct s.
  - intros [s|s| |s m e] Hf; try done; [by destruct s|].
    change (contains_byte "." (fmt_mantissa (S754_finite s m e)) ||
            contains_byte "e" (fmt_mantissa (S754_finite s m e)) = true).
    rewrite fmt_mantissa_finite, !contains_byte_app. cbn [contains_byte string_exists].
    rewrite !orb_true_r. done.
  - apply fmt_mantissa_inj.
Qed.

(** ** Properties *)

(** C33: the canonical text of a well-formed value determines the value: two values that
    serialise to the same bytes are equal, whatever their nesting, key order or escapes. *)
Theorem canonical_json_injective `{Fmt : FloatFormat} {FmtOk : FloatFormatOk} (a b : json) :
  json_wf a = true -> json_wf b = true -> canonical_json a = canonical_json b -> a = b.
Proof. apply canonical_json_inj. Qed.

Lemma canonical_json_injective_witness :
  obj [("b", JNum (PosInt 1)); ("a", JStr "x")] = obj [("a", JStr "x"); ("b", JNum (PosInt 1))].
Proof.
  apply (@canonical_json_injective mantissa_format mantissa_format_ok); vm_compute; reflexivity.
Defined.
