(* ===== verification/Time.v ===== *)
(** * Timestamps ([kernos-core/src/time.rs])

    Epoch milliseconds rendered as RFC 3339 and read back, with the calendar conversion
    written out.  The arithmetic is on [i64]; the values the kernel handles (years 0 to
    9999) stay far inside its range. *)

From S2P Require Import Prelude Text.
From Stdlib Require Import Ascii.

Local Open Scope string_scope.
Local Open Scope list_scope.
Local Open Scope Z_scope.

(** ** Calendar.  [Z.div] and [Z.modulo] by a positive number are [div_euclid] and
    [rem_euclid]; the plain divisions of the code act on non-negative numbers here. *)

Definition days_from_civil (y m d : Z) : Z :=
  let y := if m <=? 2 then y - 1 else y in
  let era := y / 400 in
  let yoe := y - era * 400 in
  let mp := (m + 9) mod 12 in
  let doy := (153 * mp + 2) / 5 + d - 1 in
  let doe := yoe * 365 + yoe / 4 - yoe / 100 + doy in
  era * 146097 + doe - 719468.

Definition civil_from_days (z : Z) : Z * Z * Z :=
  let z := z + 719468 in
  let era := z / 146097 in
  let doe := z - era * 146097 in
  let yoe := (doe - doe / 1460 + doe / 36524 - doe / 146096) / 365 in
  let y := yoe + era * 400 in
  let doy := doe - (365 * yoe + yoe / 4 - yoe / 100) in
  let mp := (5 * doy + 2) / 153 in
  let d := doy - (153 * mp + 2) / 5 + 1 in
  let m := if mp <? 10 then mp + 3 else mp - 9 in
  (if m <=? 2 then y + 1 else y, m, d).

(** ** Formatting *)

Fixpoint zeros (n : nat) : string :=
  match n with O => "" | S n => String "0" (zeros n) end.

(** [format!("{z:0w}")]: zero padding after the sign, to a total width [w]. *)
Definition pad (w : nat) (z : Z) : string :=
  let body := dec (Z.abs z) in
  if z <? 0 then String "-" (zeros (w - 1 - String.length body) +:+ body)
  else zeros (w - String.length body) +:+ body.

Definition format_ms (ms : Z) : string :=
  let secs := ms / 1000 in
  let millis := ms mod 1000 in
  let days := secs / 86400 in
  let day_secs := secs mod 86400 in
  let '(year, month, day) := civil_from_days days in
  pad 4 year +:+ "-" +:+ pad 2 month +:+ "-" +:+ pad 2 day +:+ "T"
  +:+ pad 2 (day_secs / 3600) +:+ ":" +:+ pad 2 ((day_secs mod 3600) / 60) +:+ ":"
  +:+ pad 2 (day_secs mod 60) +:+ "." +:+ pad 3 millis +:+ "Z".

(** ** Parsing *)

(** [text.get(from..to)] and [bytes[i]]. *)
Definition slice (s : string) (from to : nat) : option string :=
  if (to <=? String.length s)%nat then Some (String.substring from (to - from) s) else None.

Definition byte_at (s : string) (i : nat) : option ascii := String.get i s.

Definition byte_is (s : string) (i : nat) (c : ascii) : bool :=
  match byte_at s i with Some b => Ascii.eqb b c | None => false end.

(** The closure [num]: a slice of ASCII digits, parsed as an [i64]. *)
Definition num (s : string) (from to : nat) : option Z :=
  t ← slice s from to; digits_value t.

Fixpoint digit_run (s : string) : string :=
  match s with
  | String a s => if is_ascii_digit a then String a (digit_run s) else ""
  | EmptyString => ""
  end.

Definition take_chars (n : nat) (s : string) : string := String.substring 0 n s.

(** The fraction after the dot at [pos]: its milliseconds and the position after it. *)
Definition parse_fraction (s : string) (pos : nat) : option (Z * nat) :=
  if byte_is s pos "." then
    let start := S pos in
    let fraction := digit_run (String.substring start (String.length s) s) in
    if is_empty fraction then None
    else
      let padded := take_chars 3 (fraction +:+ zeros (3 - String.length fraction)) in
      millis ← digits_value padded;
      Some (millis, (start + String.length fraction)%nat)
  else Some (0, pos).

(** The zone designator at [pos]: its offset in seconds and the position after it. *)
Definition parse_offset (s : string) (pos : nat) : option (Z * nat) :=
  match byte_at s pos with
  | None => None
  | Some c =>
      if Ascii.eqb c "Z" || Ascii.eqb c "z" then Some (0, S pos)
      else if Ascii.eqb c "+" || Ascii.eqb c "-" then
        oh ← num s (pos + 1) (pos + 3);
        om ← num s (pos + 4) (pos + 6);
        if negb (byte_is s (pos + 3) ":") then None
        else
          let total := oh * 3600 + om * 60 in
          Some (if Ascii.eqb c "+" then total else - total, (pos + 6)%nat)
      else None
  end.

Definition parse_rfc3339 (s : string) : option Z :=
  if (String.length s <? 20)%nat then None else
  year ← num s 0 4;
  month ← num s 5 7;
  day ← num s 8 10;
  if negb (byte_is s 4 "-") || negb (byte_is s 7 "-")
     || (negb (byte_is s 10 "T") && negb (byte_is s 10 "t") && negb (byte_is s 10 " ")) then None
  else
  hour ← num s 11 13;
  minute ← num s 14 16;
  second ← num s 17 19;
  if negb (byte_is s 13 ":") || negb (byte_is s 16 ":") then None else
  '(millis, pos) ← parse_fraction s 19;
  '(offset_secs, pos) ← parse_offset s pos;
  if negb (Nat.eqb pos (String.length s)) then None
  else if negb ((1 <=? month) && (month <=? 12)) || negb ((1 <=? day) && (day <=? 31))
          || (23 <? hour) || (59 <? minute) || (60 <? second) then None
  else
    let days := days_from_civil year month day in
    let secs := days * 86400 + hour * 3600 + minute * 60 + second - offset_secs in
    Some (secs * 1000 + millis).

Example format_ms_ex : format_ms 1788523200000 = "2026-09-04T12:00:00.000Z".
Proof. vm_compute. reflexivity. Qed.
Example parse_ex : parse_rfc3339 "2026-09-04T14:00:00+02:00" = Some 1788523200000.
Proof. vm_compute. reflexivity. Qed.

(** ** The calendar is a bijection *)

Lemma div_bounds a b : 0 < b -> b * (a / b) <= a < b * (a / b) + b.
Proof. intros. pose proof (Z.div_mod a b). pose proof (Z.mod_pos_bound a b). lia. Qed.

(** Inside an era of 146097 days, the year of the era and the day of the year. *)
Lemma era_year doe :
  0 <= doe < 146097 ->
  let yoe := (doe - doe / 1460 + doe / 36524 - doe / 146096) / 365 in
  0 <= yoe <= 399 /\ 0 <= doe - (365 * yoe + yoe / 4 - yoe / 100) <= 365.
Proof.
  intros Hd. cbv zeta.
  pose proof (div_bounds doe 1460 ltac:(lia)) as Ha.
  pose proof (div_bounds doe 36524 ltac:(lia)) as Hc.
  pose proof (div_bounds doe 146096 ltac:(lia)) as He.
  generalize dependent (doe / 1460). intros a Ha.
  generalize dependent (doe / 36524). intros c Hc.
  generalize dependent (doe / 146096). intros e He.
  pose proof (div_bounds (doe - a + c - e) 365 ltac:(lia)) as Hy.
  generalize dependent ((doe - a + c - e) / 365). intros y Hy.
  pose proof (div_bounds y 4 ltac:(lia)) as Hq.
  pose proof (div_bounds y 100 ltac:(lia)) as Hr.
  generalize dependent (y / 4). intros q Hq.
  generalize dependent (y / 100). intros r Hr.
  assert (c = 0 \/ c = 1 \/ c = 2 \/ c = 3 \/ c = 4) as Cs by lia.
  destruct Cs as [->|[->|[->|[->| ->]]]]; split; lia.
Qed.

(** Inside a year that starts in March, the month and the day of the month. *)
Lemma year_month doy :
  0 <= doy <= 365 ->
  let mp := (5 * doy + 2) / 153 in
  0 <= mp <= 11 /\ 1 <= doy - (153 * mp + 2) / 5 + 1 <= 31.
Proof.
  intros Hd. cbv zeta. pose proof (div_bounds (5 * doy + 2) 153 ltac:(lia)) as Hm.
  generalize dependent ((5 * doy + 2) / 153). intros mp Hm.
  pose proof (div_bounds (153 * mp + 2) 5 ltac:(lia)). lia.
Qed.

Lemma civil_days z :
  let '(y, m, d) := civil_from_days z in
  days_from_civil y m d = z /\ 1 <= m <= 12 /\ 1 <= d <= 31.
Proof.
  unfold civil_from_days. cbv zeta.
  pose proof (div_bounds (z + 719468) 146097 ltac:(lia)) as Hera.
  set (era := (z + 719468) / 146097) in *. set (doe := z + 719468 - era * 146097).
  destruct (era_year doe ltac:(lia)) as [Hyoe Hdoy].
  set (yoe := (doe - doe / 1460 + doe / 36524 - doe / 146096) / 365) in *.
  set (doy := doe - (365 * yoe + yoe / 4 - yoe / 100)) in *.
  destruct (year_month doy Hdoy) as [Hmp Hday].
  set (mp := (5 * doy + 2) / 153) in *. clearbody mp.
  assert (doe = yoe * 365 + yoe / 4 - yoe / 100 + doy) as Hdoe by lia.
  assert (z = era * 146097 + doe - 719468) as Hz by lia.
  clearbody era doe yoe doy.
  assert (forall y, y = yoe + era * 400 -> y / 400 = era) as Hdiv.
  { intros y ->. rewrite Z.div_add by lia. rewrite Z.div_small; lia. }
  assert (((if mp <? 10 then mp + 3 else mp - 9) <=? 2) = negb (mp <? 10)) as Hm2
    by (destruct (Z.ltb_spec mp 10); lia).
  split; [|destruct (Z.ltb_spec mp 10); lia].
  unfold days_from_civil. cbv zeta. rewrite Hm2.
  assert (((if mp <? 10 then mp + 3 else mp - 9) + 9) mod 12 = mp) as ->.
  { destruct (Z.ltb_spec mp 10).
    - replace (mp + 3 + 9) with (mp + 1 * 12) by lia. rewrite Z.mod_add by lia. apply Z.mod_small; lia.
    - replace (mp - 9 + 9) with mp by lia. apply Z.mod_small; lia. }
  replace (if negb (mp <? 10) then (if negb (mp <? 10) then yoe + era * 400 + 1 else yoe + era * 400) - 1
           else if negb (mp <? 10) then yoe + era * 400 + 1 else yoe + era * 400)
    with (yoe + era * 400) by (destruct (mp <? 10); simpl; lia).
  rewrite (Hdiv _ eq_refl). replace (yoe + era * 400 - era * 400) with yoe by lia. lia.
Qed.

(** ** Fixed-width fields read back *)

Definition field_ok (w : nat) (z : Z) : bool :=
  Nat.eqb (String.length (pad w z)) w && string_forall is_ascii_digit (pad w z)
  && bool_decide (digits_value (pad w z) = Some z).

Fixpoint fields_ok (w n : nat) (z : Z) : bool :=
  match n with
  | O => true
  | S n => field_ok w z && fields_ok w n (z + 1)
  end.

Lemma fields_ok_spec w n z : fields_ok w n z = true ->
  forall k, z <= k < z + Z.of_nat n -> field_ok w k = true.
Proof.
  revert z. induction n as [|n IH]; intros z H k Hk; [lia|]. simpl in H. bool_prop.
  destruct (Z.eq_dec k z) as [->|]; [done|]. apply (IH (z + 1)); [done | lia].
Qed.

Lemma fields_check :
  fields_ok 2 (Z.to_nat 100) 0 && fields_ok 3 (Z.to_nat 1000) 0
  && fields_ok 4 (Z.to_nat 10000) 0 = true.
Proof. vm_compute. reflexivity. Qed.

Lemma pad_field w z :
  (w = 2%nat /\ 0 <= z < 100) \/ (w = 3%nat /\ 0 <= z < 1000) \/ (w = 4%nat /\ 0 <= z < 10000) ->
  String.length (pad w z) = w /\ string_forall is_ascii_digit (pad w z) = true /\
  digits_value (pad w z) = Some z.
Proof.
  intros Hw. assert (field_ok w z = true) as H.
  { pose proof fields_check as C. apply andb_true_iff in C as [[C2 C3]%andb_true_iff C4].
    destruct Hw as [[-> Hz]|[[-> Hz]|[-> Hz]]];
      [apply (fields_ok_spec _ _ _ C2) | apply (fields_ok_spec _ _ _ C3)
      | apply (fields_ok_spec _ _ _ C4)]; rewrite Z2Nat.id by done; lia. }
  unfold field_ok in H. bool_prop. by rewrite Nat.eqb_eq in *.
Qed.

Lemma pad2 z : 0 <= z < 100 -> exists a b, pad 2 z = String a (String b "") /\
  digits_value (String a (String b "")) = Some z.
Proof.
  intros Hz. destruct (pad_field 2 z ltac:(lia)) as (Hl & _ & Hv).
  destruct (pad 2 z) as [|a [|b [|? ?]]]; try discriminate Hl. eauto.
Qed.

Lemma pad3 z : 0 <= z < 1000 -> exists a b c, pad 3 z = String a (String b (String c "")) /\
  string_forall is_ascii_digit (String a (String b (String c ""))) = true /\
  digits_value (String a (String b (String c ""))) = Some z.
Proof.
  intros Hz. destruct (pad_field 3 z ltac:(lia)) as (Hl & Hd & Hv).
  destruct (pad 3 z) as [|a [|b [|c [|? ?]]]]; try discriminate Hl. eauto 6.
Qed.

Lemma pad4 z : 0 <= z < 10000 -> exists a b c d, pad 4 z = String a (String b (String c (String d ""))) /\
  digits_value (String a (String b (String c (String d "")))) = Some z.
Proof.
  intros Hz. destruct (pad_field 4 z ltac:(lia)) as (Hl & _ & Hv).
  destruct (pad 4 z) as [|a [|b [|c [|d [|? ?]]]]]; try discriminate Hl. eauto 6.
Qed.

(** ** Properties *)

(** The first and the last millisecond of the years 0 to 9999. *)
Definition min_ms : Z := -62167219200000.
Definition max_ms : Z := 253402300799999.

Lemma civil_year_range z :
  min_ms <= z * 86400000 + 86399999 -> z * 86400000 <= max_ms ->
  let '(y, _, _) := civil_from_days z in 0 <= y < 10000.
Proof.
  unfold min_ms, max_ms. intros H1 H2.
  pose proof (civil_days z) as Hc. destruct (civil_from_days z) as [[y m] d] eqn:E.
  destruct Hc as (Hd & Hm & Hday). unfold days_from_civil in Hd. cbv zeta in Hd.
  set (y' := if m <=? 2 then y - 1 else y) in *.
  assert (y' = y - 1 \/ y' = y) as Hy by (unfold y'; destruct (m <=? 2); auto).
  assert (y' = y - 1 <-> m <= 2) as Hym by (unfold y'; destruct (Z.leb_spec m 2); lia).
  clearbody y'.
  pose proof (div_bounds y' 400 ltac:(lia)) as B1.
  set (era := y' / 400) in *. set (yoe := y' - era * 400) in *.
  pose proof (div_bounds yoe 4 ltac:(lia)) as B2. pose proof (div_bounds yoe 100 ltac:(lia)) as B3.
  pose proof (Z.mod_pos_bound (m + 9) 12 ltac:(lia)) as B4.
  pose proof (Z.div_mod (m + 9) 12 ltac:(lia)) as B6.
  pose proof (div_bounds (153 * ((m + 9) mod 12) + 2) 5 ltac:(lia)) as B5.
  lia.
Qed.

(** The calendar conversion is exact for every day number, before and after the epoch:
    converting to a civil date gives a month in 1..12 and a day in 1..31 and converting
    back gives the same day. *)
Theorem civil_round_trip (z : Z) :
  let '(y, m, d) := civil_from_days z in
  days_from_civil y m d = z /\ 1 <= m <= 12 /\ 1 <= d <= 31.
Proof. apply civil_days. Qed.

Lemma parse_format ms : min_ms <= ms <= max_ms -> parse_rfc3339 (format_ms ms) = Some ms.
Proof.
  intros Hms. unfold format_ms.
  pose proof (div_bounds ms 1000 ltac:(lia)) as B1.
  pose proof (Z.mod_pos_bound ms 1000 ltac:(lia)) as B2. pose proof (Z.div_mod ms 1000 ltac:(lia)) as B3.
  set (secs := ms / 1000) in *. set (millis := ms mod 1000) in *.
  pose proof (Z.mod_pos_bound secs 86400 ltac:(lia)) as B4. pose proof (Z.div_mod secs 86400 ltac:(lia)) as B5.
  set (days := secs / 86400) in *. set (ds := secs mod 86400) in *.
  pose proof (civil_days days) as Hc.
  pose proof (civil_year_range days ltac:(unfold min_ms in *; lia) ltac:(unfold max_ms in *; lia)) as Hy.
  destruct (civil_from_days days) as [[y m] d]. destruct Hc as (Hd & Hm & Hday).
  pose proof (Z.mod_pos_bound ds 3600 ltac:(lia)) as C1. pose proof (Z.div_mod ds 3600 ltac:(lia)) as C2.
  pose proof (Z.mod_pos_bound ds 60 ltac:(lia)) as C3.
  pose proof (Z.div_mod (ds mod 3600) 60 ltac:(lia)) as C4.
  pose proof (Z.mod_pos_bound (ds mod 3600) 60 ltac:(lia)) as C5.
  assert ((ds mod 3600) mod 60 = ds mod 60) as C6.
  { rewrite (Z.div_mod ds 3600) at 2 by lia.
    replace (3600 * (ds / 3600) + ds mod 3600) with (ds mod 3600 + 60 * (ds / 3600) * 60) by lia.
    by rewrite Z.mod_add by lia. }
  set (hh := ds / 3600) in *. set (mm := ds mod 3600 / 60) in *. set (ss := ds mod 60) in *.
  assert (0 <= hh < 24) as Hhh by lia. assert (0 <= mm < 60) as Hmm by lia.
  assert (ds = hh * 3600 + mm * 60 + ss) as Hds by lia.
  clearbody hh mm ss millis days ds secs.
  destruct (pad4 y Hy) as (y1 & y2 & y3 & y4 & -> & Ey).
  destruct (pad2 m ltac:(lia)) as (m1 & m2 & -> & Em).
  destruct (pad2 d ltac:(lia)) as (d1 & d2 & -> & Ed).
  destruct (pad2 hh ltac:(lia)) as (h1 & h2 & -> & Eh).
  destruct (pad2 mm ltac:(lia)) as (i1 & i2 & -> & Ei).
  destruct (pad2 ss ltac:(lia)) as (s1 & s2 & -> & Es).
  destruct (pad3 millis ltac:(lia)) as (f1 & f2 & f3 & -> & Df & Ef).
  unfold parse_rfc3339, num, slice, parse_fraction, parse_offset, take_chars, byte_is, byte_at.
  cbn [String.append String.length Nat.ltb Nat.leb Nat.sub String.substring mbind option_bind
       String.get is_empty digit_run andb orb negb].
  rewrite Ey. cbn [mbind option_bind]. rewrite Em. cbn [mbind option_bind]. rewrite Ed.
  cbn -[digits_value days_from_civil Z.mul Z.add Z.leb Z.ltb is_ascii_digit]. rewrite Eh.
  cbn [mbind option_bind]. rewrite Ei. cbn [mbind option_bind]. rewrite Es.
  cbn [string_forall] in Df. bool_prop.
  repeat match goal with H : is_ascii_digit _ = true |- _ => rewrite H; clear H end.
  cbn -[digits_value days_from_civil Z.mul Z.add Z.leb Z.ltb is_ascii_digit].
  change (is_ascii_digit "Z") with false.
  cbn -[digits_value days_from_civil Z.mul Z.add Z.leb Z.ltb is_ascii_digit]. rewrite Ef.
  cbn -[digits_value days_from_civil Z.mul Z.add Z.leb Z.ltb is_ascii_digit].
  rewrite !(proj2 (Z.leb_le _ _)) by lia. rewrite !(proj2 (Z.ltb_ge _ _)) by lia.
  cbn -[days_from_civil Z.mul Z.add]. f_equal. lia.
Qed.

(** A timestamp the kernel writes reads back exactly: for every millisecond of the
    years 0 to 9999, parsing the formatted text gives the number that was formatted. *)
Theorem timestamp_round_trip (ms : Z) :
  min_ms <= ms <= max_ms -> parse_rfc3339 (format_ms ms) = Some ms.
Proof. apply parse_format. Qed.

Lemma timestamp_round_trip_witness :
  parse_rfc3339 (format_ms 951782400123) = Some 951782400123.
Proof. apply (timestamp_round_trip 951782400123). vm_compute. split; discriminate. Defined.
