(* ===== verification/Clock.v ===== *)
(** * Clocks ([kernos-core/src/clock.rs])

    The kernel reads the time through a trait, once or twice in an operation; what it reads
    are [c_now] and [c_later] of a [Call].  The wall clock counts the milliseconds since 1970
    and reads 0 before; the manual clock moves when told to, wrapping as an atomic does. *)

From S2P Require Import Prelude.

Local Open Scope list_scope.
Local Open Scope Z_scope.

Class Clock (C : Type) := now_ms : C -> Z.

(** The system's time, in whole milliseconds since the epoch unless it is before it. *)
Record SystemClock := { sc_since_epoch : option Z }.

Definition system_now_ms (since_epoch : option Z) : Z :=
  match since_epoch with Some ms => i64_wrap ms | None => 0 end.

Definition system_now (clock : SystemClock) : Z := system_now_ms (sc_since_epoch clock).

#[export] Instance system_clock : Clock SystemClock := system_now.

Record ManualClock := { mk_now : Z }.

Definition manual_new (start_ms : Z) : ManualClock := {| mk_now := start_ms |}.
Definition manual_advance (ms : Z) (clock : ManualClock) : ManualClock := {| mk_now := i64_wrap (mk_now clock + ms) |}.
Definition manual_set (ms : Z) (clock : ManualClock) : ManualClock := {| mk_now := ms |}.

Definition manual_now (clock : ManualClock) : Z := mk_now clock.

#[export] Instance manual_clock : Clock ManualClock := manual_now.

(** Until the year 292 million the wall clock is the milliseconds since the epoch. *)
Lemma system_clock_exact ms : 0 <= ms <= i64_max -> now_ms {| sc_since_epoch := Some ms |} = ms.
Proof. intros Hms. unfold now_ms, system_clock, system_now, system_now_ms. cbn. apply i64_wrap_small. unfold i64_min. lia. Qed.

(** A manual clock shows where it was started and everything it was moved since. *)
Lemma manual_clock_exact start moves :
  i64_min <= start -> Forall (Z.le 0) moves -> start + foldr Z.add 0 moves <= i64_max ->
  now_ms (fold_left (fun clock ms => manual_advance ms clock) moves (manual_new start)) = start + foldr Z.add 0 moves.
Proof.
  revert start. induction moves as [|ms moves IH]; intros start Hlo Hpos Hhi; cbn in *; [lia|].
  inversion Hpos as [|? ? Hms Hrest]; subst.
  assert (0 <= foldr Z.add 0 moves) by (clear -Hrest; induction Hrest; cbn; lia).
  assert (manual_advance ms (manual_new start) = manual_new (start + ms)) as ->
    by (unfold manual_advance, manual_new; cbn; by rewrite i64_wrap_small by lia).
  rewrite IH; [lia|lia|done|lia].
Qed.
