(* ===== verification/Errors.v ===== *)
(** * Kernel errors ([kernos-core/src/error.rs])

    A failure carries the HTTP status, the stable code and the structured details the HTTP
    layer returns; the human sentence is not modelled.  Storage, JSON and I/O failures all
    surface as [500 internal]. *)

From S2P Require Import Prelude Json.

Local Open Scope string_scope.
Local Open Scope list_scope.
Local Open Scope Z_scope.

Inductive KernelError : Type :=
| Api (status : Z) (code : string) (details : json)
| Internal.

Definition KernelResult (A : Type) : Type := result KernelError A.

Definition api (status : Z) (code : string) : KernelError := Api status code (obj []).

Definition with_details (e : KernelError) (details : json) : KernelError :=
  match e with
  | Api status code _ => Api status code details
  | other => other
  end.

Definition bad_request (code : string) : KernelError := api 400 code.
Definition forbidden (code : string) : KernelError := api 403 code.
Definition not_found (code : string) : KernelError := api 404 code.
Definition conflict (code : string) : KernelError := api 409 code.
Definition gone (code : string) : KernelError := api 410 code.
Definition unprocessable (code : string) : KernelError := api 422 code.

Definition error_status (e : KernelError) : Z :=
  match e with Api status _ _ => status | Internal => 500 end.
Definition error_code (e : KernelError) : string :=
  match e with Api _ code _ => code | Internal => "internal" end.
Definition error_details (e : KernelError) : json :=
  match e with Api _ _ details => details | Internal => obj [] end.
