(* ===== verification/Keys.v ===== *)
(** * Signing keys ([kernos-core/src/keys.rs])

    Key pairs and public keys with their identifiers, detached signatures in base64url,
    and the decoding of key text in its accepted spellings.  Ed25519 and the base64
    alphabets are external crates: the class [Crypto]; what the code relies on is
    [CryptoOk].  Key files are in [KeyFiles]. *)

From S2P Require Import Prelude Text Json Errors.
From Stdlib Require Import Ascii.

Local Open Scope string_scope.
Local Open Scope list_scope.
Local Open Scope Z_scope.

Class Crypto := {
  SigningKey : Type;
  VerifyingKey : Type;
  verifying_key : SigningKey -> VerifyingKey;
  ed25519_sign : SigningKey -> string -> string;
  ed25519_verify : VerifyingKey -> string -> string -> bool;
  (** [URL_SAFE_NO_PAD] and [STANDARD] *)
  base64_encode : string -> string;
  base64_decode : string -> option string;
  base64_standard_decode : string -> option string }.

Section Keys.
Context `{Crypto}.

Record KeyPair := { kp_key_id : string; kp_signing : SigningKey }.
Record PublicKey := { pk_key_id : string; pk_verifying : VerifyingKey }.

Definition public (k : KeyPair) : PublicKey :=
  {| pk_key_id := kp_key_id k; pk_verifying := verifying_key (kp_signing k) |}.

Definition sign (k : KeyPair) (bytes : string) : string :=
  base64_encode (ed25519_sign (kp_signing k) bytes).

(** [Signature::from_slice] accepts exactly 64 bytes. *)
Definition verify (k : PublicKey) (bytes signature_b64 : string) : bool :=
  match base64_decode signature_b64 with
  | None => false
  | Some sig_bytes =>
      if (String.length sig_bytes =? 64)%nat
      then ed25519_verify (pk_verifying k) bytes sig_bytes
      else false
  end.

Definition encode_key (bytes : string) : string := base64_encode bytes.
End Keys.

(** ** Key text *)

Definition hex_value (a : ascii) : option Z :=
  let b := byte_of a in
  if is_ascii_digit a then Some (b - 48)
  else if (97 <=? b) && (b <=? 102) then Some (b - 87)
  else if (65 <=? b) && (b <=? 70) then Some (b - 55)
  else None.

Definition is_ascii_hexdigit (a : ascii) : bool :=
  match hex_value a with Some _ => true | None => false end.

(** The bytes of an even-length hex string, two digits at a time. *)
Fixpoint hex_bytes (s : string) : option string :=
  match s with
  | EmptyString => Some ""
  | String a (String b s) =>
      x ← hex_value a; y ← hex_value b; rest ← hex_bytes s;
      Some (String (ascii_of_N (Z.to_N (16 * x + y))) rest)
  | String _ EmptyString => None
  end.

Fixpoint trim_end_char (c : ascii) (s : string) : string :=
  match s with
  | EmptyString => ""
  | String a s =>
      match trim_end_char c s with
      | EmptyString => if Ascii.eqb a c then "" else String a ""
      | s' => String a s'
      end
  end.

Definition decode_key `{Crypto} (text : string) : KernelResult string :=
  let text := trim_end_char "=" (trim text) in
  let n := String.length text in
  if ((n =? 64)%nat || (n =? 128)%nat) && string_forall is_ascii_hexdigit text
  then ok_or (bad_request "key_invalid") (hex_bytes text)
  else
    match base64_decode text with
    | Some bytes => Ok bytes
    | None =>
        match base64_standard_decode text with
        | Some bytes => Ok bytes
        | None => Err (bad_request "key_invalid")
        end
    end.

(** ** What the crates promise *)

Definition is_base64url (a : ascii) : bool :=
  is_ascii_digit a || is_ascii_lowercase a || is_ascii_uppercase a
  || Ascii.eqb a "-" || Ascii.eqb a "_".

Class CryptoOk `{Crypto} := {
  verify_signed : forall k m, ed25519_verify (verifying_key k) m (ed25519_sign k m) = true;
  signature_length : forall k m, String.length (ed25519_sign k m) = 64%nat;
  base64_round_trip : forall b, base64_decode (base64_encode b) = Some b;
  base64_alphabet : forall b, string_forall is_base64url (base64_encode b) = true;
  (** four digits for three bytes, rounded up, no padding *)
  base64_length : forall b,
    String.length (base64_encode b) = ((4 * String.length b + 2) / 3)%nat }.

Lemma verify_sign `{CryptoOk} k m : verify (public k) m (sign k m) = true.
Proof.
  unfold verify, sign. rewrite base64_round_trip, signature_length. simpl. apply verify_signed.
Qed.

(** ** Trimming ASCII text *)

(** A byte that is neither white space nor part of a multi-byte character. *)
Definition is_graphic (a : ascii) : bool := (33 <=? byte_of a) && (byte_of a <=? 126).

Fixpoint singletons (s : string) : list string :=
  match s with EmptyString => [] | String a s => String a "" :: singletons s end.

Lemma chars_graphic s : string_forall is_graphic s = true -> chars s = singletons s.
Proof.
  unfold chars. induction s as [|a s IH]; simpl; [done|]. intros [Ha Hs]%andb_true_iff.
  unfold utf8_extra. unfold is_graphic in Ha. bool_prop.
  destruct (Z.ltb_spec (byte_of a) 192); [|lia]. simpl. by rewrite IH.
Qed.

Lemma concat_singletons s : String.concat "" (singletons s) = s.
Proof.
  induction s as [|a s IH]; simpl; [done|].
  destruct (singletons s) as [|x l] eqn:E; [by destruct s | by rewrite IH].
Qed.

Lemma graphic_not_whitespace a : is_graphic a = true -> is_whitespace (String a "") = false.
Proof.
  unfold is_graphic, is_whitespace. simpl. intros H. bool_prop.
  repeat (apply orb_false_iff; split); try apply andb_false_iff; rewrite ?Z.eqb_neq, ?Z.leb_gt; lia.
Qed.

Lemma drop_while_none {A} (p : A -> bool) l :
  Forall (fun x => p x = false) l -> drop_while p l = l.
Proof. by destruct 1 as [|x l Hx _]; simpl; rewrite ?Hx. Qed.

Lemma trim_graphic s : string_forall is_graphic s = true -> trim s = s.
Proof.
  intros Hs. unfold trim. rewrite chars_graphic by done.
  assert (Forall (fun c => is_whitespace c = false) (singletons s)) as HF.
  { clear -Hs. induction s as [|a s IH]; simpl in *; [constructor|].
    apply andb_true_iff in Hs as [Ha Hs]. constructor; auto using graphic_not_whitespace. }
  rewrite (drop_while_none _ (singletons s)) by done.
  rewrite drop_while_none by (apply List.Forall_rev; done).
  rewrite rev_involutive. apply concat_singletons.
Qed.

Lemma base64url_check (q : ascii -> bool) :
  forallb (fun a => negb (is_base64url a) || q a) all_chars = true ->
  forall a, is_base64url a = true -> q a = true.
Proof.
  intros H a Ha. rewrite forallb_forall in H. specialize (H a (in_all_chars a)).
  by rewrite Ha in H.
Qed.

Lemma base64_graphic a : is_base64url a = true -> is_graphic a = true.
Proof. apply base64url_check. vm_compute. reflexivity. Qed.

Lemma trim_end_char_none c s :
  string_forall (fun a => negb (Ascii.eqb a c)) s = true -> trim_end_char c s = s.
Proof.
  induction s as [|a s IH]; simpl; [done|]. intros [Ha Hs]%andb_true_iff.
  rewrite IH by done. apply negb_true_iff in Ha. rewrite Ha. by destruct s.
Qed.

Lemma decode_encode_key `{CryptoOk} bytes :
  String.length bytes = 32%nat -> decode_key (encode_key bytes) = Ok bytes.
Proof.
  intros Hl. unfold decode_key, encode_key. pose proof (base64_alphabet bytes) as Ha.
  rewrite trim_graphic by (eapply string_forall_impl; [apply base64_graphic | done]).
  rewrite trim_end_char_none.
  - rewrite base64_length, Hl. simpl. by rewrite base64_round_trip.
  - eapply string_forall_impl; [|exact Ha]. apply base64url_check. vm_compute. reflexivity.
Qed.

(** ** A concrete instance

    RFC 4648 base64url written out, and a toy signature that pads the key and message to
    64 bytes; it shows that [CryptoOk] can hold. *)
Module Concrete.
Definition digit64 (d : Z) : ascii :=
  match String.get (Z.to_nat d) "ABCDEFGHIJKLMNOPQRSTUVWXYZabcdefghijklmnopqrstuvwxyz0123456789-_" with
  | Some a => a
  | None => "A"%char
  end.

Definition value64 (a : ascii) : option Z :=
  let b := byte_of a in
  if is_ascii_uppercase a then Some (b - 65)
  else if is_ascii_lowercase a then Some (b - 71)
  else if is_ascii_digit a then Some (b + 4)
  else if Ascii.eqb a "-" then Some 62
  else if Ascii.eqb a "_" then Some 63
  else None.

Definition byte (z : Z) : ascii := ascii_of_N (Z.to_N z).

Fixpoint encode (s : string) : string :=
  match s with
  | EmptyString => ""
  | String a EmptyString =>
      let n := byte_of a in String (digit64 (n / 4)) (String (digit64 (n mod 4 * 16)) "")
  | String a (String b EmptyString) =>
      let n := byte_of a * 256 + byte_of b in
      String (digit64 (n / 1024)) (String (digit64 (n / 16 mod 64)) (String (digit64 (n mod 16 * 4)) ""))
  | String a (String b (String c s)) =>
      let n := byte_of a * 65536 + byte_of b * 256 + byte_of c in
      String (digit64 (n / 262144)) (String (digit64 (n / 4096 mod 64))
        (String (digit64 (n / 64 mod 64)) (String (digit64 (n mod 64)) (encode s))))
  end.

Fixpoint decode (s : string) : option string :=
  match s with
  | EmptyString => Some ""
  | String a (String b EmptyString) =>
      x ← value64 a; y ← value64 b; Some (String (byte (x * 4 + y / 16)) "")
  | String a (String b (String c EmptyString)) =>
      x ← value64 a; y ← value64 b; z ← value64 c;
      let n := x * 1024 + y * 16 + z / 4 in
      Some (String (byte (n / 256)) (String (byte (n mod 256)) ""))
  | String a (String b (String c (String d s))) =>
      x ← value64 a; y ← value64 b; z ← value64 c; w ← value64 d; rest ← decode s;
      let n := x * 262144 + y * 4096 + z * 64 + w in
      Some (String (byte (n / 65536)) (String (byte (n / 256 mod 256)) (String (byte (n mod 256)) rest)))
  | _ => None
  end.

Definition digits64 : list Z := map Z.of_nat (seq 0 64).

Lemma digit64_ok d :
  0 <= d < 64 -> value64 (digit64 d) = Some d /\ is_base64url (digit64 d) = true.
Proof.
  intros Hd.
  assert (forallb (fun d => (match value64 (digit64 d) with Some e => d =? e | None => false end)
            && is_base64url (digit64 d)) digits64 = true) as H by (vm_compute; reflexivity).
  rewrite forallb_forall in H. specialize (H d).
  destruct (value64 (digit64 d)); rewrite ?andb_false_l in H;
    (assert (In d digits64) as Hin by
      (unfold digits64; rewrite <- (Z2Nat.id d) by lia; apply in_map, in_seq; lia));
    specialize (H Hin); bool_prop; [subst; done | done].
Qed.

Lemma byte_range a : 0 <= byte_of a < 256.
Proof. unfold byte_of. pose proof (N_ascii_bounded a). lia. Qed.

Lemma byte_byte_of a z : z = byte_of a -> byte z = a.
Proof. intros ->. unfold byte, byte_of. rewrite N2Z.id. apply ascii_N_embedding. Qed.

(** Strings by groups of three bytes. *)
Lemma string_ind3 (P : string -> Prop) :
  P "" -> (forall a, P (String a "")) -> (forall a b, P (String a (String b ""))) ->
  (forall a b c s, P s -> P (String a (String b (String c s)))) -> forall s, P s.
Proof.
  intros H0 H1 H2 H3. fix IH 1.
  intros [|a [|b [|c s]]]; [exact H0 | apply H1 | apply H2 | apply H3, IH].
Qed.

Ltac bytes :=
  repeat match goal with a : ascii |- _ =>
    lazymatch goal with
    | H : 0 <= byte_of a < 256 |- _ => fail
    | _ => pose proof (byte_range a)
    end end.
Ltac digit :=
  match goal with |- context [value64 (digit64 ?d)] =>
    rewrite (proj1 (digit64_ok d ltac:(bytes; Z.div_mod_to_equations; lia)));
    cbn [mbind option_bind]
  end.

Lemma decode_encode s : decode (encode s) = Some s.
Proof.
  induction s as [|a|a b|a b c s IH] using string_ind3; cbn [encode decode]; [done| | |];
    repeat digit; rewrite ?IH; cbn [mbind option_bind]; repeat f_equal; apply byte_byte_of; bytes;
    Z.div_mod_to_equations; lia.
Qed.

Lemma encode_alphabet s : string_forall is_base64url (encode s) = true.
Proof.
  induction s as [|a|a b|a b c s IH] using string_ind3; cbn [encode string_forall]; [done| | |];
    rewrite ?IH; repeat (apply andb_true_iff; split; try done);
    apply digit64_ok; bytes; Z.div_mod_to_equations; lia.
Qed.

Lemma encode_length s : String.length (encode s) = ((4 * String.length s + 2) / 3)%nat.
Proof.
  induction s as [|a|a b|a b c s IH] using string_ind3; cbn [encode String.length]; [done..|].
  rewrite IH. set (n := String.length s).
  replace (4 * S (S (S n)) + 2)%nat with (4 * n + 2 + 4 * 3)%nat by lia.
  rewrite Nat.div_add by lia. lia.
Qed.

(** The first [n] bytes, padded with zero bytes. *)
Fixpoint pad_to (n : nat) (s : string) : string :=
  match n, s with
  | O, _ => ""
  | S n, EmptyString => String "000" (pad_to n "")
  | S n, String a s => String a (pad_to n s)
  end.

Lemma pad_to_length n s : String.length (pad_to n s) = n.
Proof. revert s. induction n as [|n IH]; intros [|a s]; simpl; by rewrite ?IH. Qed.

Definition crypto : Crypto :=
  {| SigningKey := string; VerifyingKey := string; verifying_key := id;
     ed25519_sign := fun k m => pad_to 64 (k +:+ m);
     ed25519_verify := fun k m s => String.eqb s (pad_to 64 (k +:+ m));
     base64_encode := encode; base64_decode := decode; base64_standard_decode := decode |}.

Lemma crypto_ok : @CryptoOk crypto.
Proof.
  constructor; intros.
  - apply String.eqb_refl.
  - exact (pad_to_length 64 _).
  - apply decode_encode.
  - apply encode_alphabet.
  - apply encode_length.
Defined.
End Concrete.

(** The base64url text of a 32-byte key, which is what a key file holds, decodes to
    the same bytes: it can be taken neither for hex nor for padded text. *)
Theorem key_text_round_trip `{CryptoOk} bytes :
  String.length bytes = 32%nat -> decode_key (encode_key bytes) = Ok bytes.
Proof. apply decode_encode_key. Qed.

Lemma key_text_round_trip_witness :
  let bytes := Concrete.pad_to 32 "0123456789abcdef" in
  @decode_key Concrete.crypto (@encode_key Concrete.crypto bytes) = Ok bytes.
Proof.
  exact (@key_text_round_trip Concrete.crypto Concrete.crypto_ok
           (Concrete.pad_to 32 "0123456789abcdef") eq_refl).
Defined.
