(* ===== verification/Remit.v ===== *)
(** * Remits ([kernos-core/src/remit.rs])

    The capability a run carries: its payload, the signed token, the matching of tool and
    scope patterns, and the derivation that may only narrow.  The JSON text parser is an
    external crate: the class [JsonText]. *)

From S2P Require Import Prelude Text F64 Json Canonical Errors Keys.
From Stdlib Require Import Ascii SpecFloat.

Local Open Scope string_scope.
Local Open Scope list_scope.
Local Open Scope Z_scope.

Definition TOKEN_PREFIX : string := "krt1".
Definition DEFAULT_TTL_SECONDS : Z := 86400.

(** ** Autonomy, ordered [observe < propose < supervised < autonomous] *)

Inductive Autonomy := Observe | Propose | Supervised | Autonomous.

#[global] Instance Autonomy_eq_dec : EqDecision Autonomy.
Proof. solve_decision. Defined.

Definition autonomy_rank (a : Autonomy) : Z :=
  match a with Observe => 0 | Propose => 1 | Supervised => 2 | Autonomous => 3 end.

Definition autonomy_as_str (a : Autonomy) : string :=
  match a with
  | Observe => "observe"
  | Propose => "propose"
  | Supervised => "supervised"
  | Autonomous => "autonomous"
  end.

Definition autonomy_parse (s : string) : option Autonomy :=
  if String.eqb s "observe" then Some Observe
  else if String.eqb s "propose" then Some Propose
  else if String.eqb s "supervised" then Some Supervised
  else if String.eqb s "autonomous" then Some Autonomous
  else None.

Record Spend := { sp_tokens : option Z; sp_usd : option f64 }.

Record RemitPayload := {
  rid : string;
  parent : option string;
  run : option string;
  iss : string;
  iat : Z;
  nbf : Z;
  exp : Z;
  tools : list string;
  scopes : list string;
  grants : list string;
  spend : Spend;
  autonomy : Autonomy;
  policy_set : list string;
  requested_by : option json }.

Record IssueRequest := {
  iq_tools : list string;
  iq_scopes : list string;
  iq_grants : list string;
  iq_spend : Spend;
  iq_autonomy : option Autonomy;
  iq_ttl_seconds : option Z;
  iq_policy_set : list string;
  iq_requested_by : option json }.

Record DeriveRequest := {
  dq_tools : option (list string);
  dq_scopes : option (list string);
  dq_grants : option (list string);
  dq_spend : option Spend;
  dq_autonomy : option Autonomy;
  dq_ttl_seconds : option Z;
  dq_policy_set : option (list string) }.

(** The offending field; the human sentence of the error is not modelled. *)
Record WidensError := { we_field : string }.

Inductive TokenError := Malformed | SignatureInvalid | Expired | NotYetValid.

#[global] Instance TokenError_eq_dec : EqDecision TokenError.
Proof. solve_decision. Defined.

Definition token_error_reason (e : TokenError) : string :=
  match e with
  | Malformed => "token_malformed"
  | SignatureInvalid => "signature_invalid"
  | Expired => "remit_expired"
  | NotYetValid => "remit_not_yet_valid"
  end.

(** ** Patterns *)

Definition pattern_matches (pattern id : string) : bool :=
  match strip_suffix_char "*" pattern with
  | Some prefix => starts_with id prefix
  | None => String.eqb pattern id
  end.

Definition pattern_covers (par child : string) : bool :=
  match strip_suffix_char "*" par, strip_suffix_char "*" child with
  | Some parent_prefix, Some child_prefix => starts_with child_prefix parent_prefix
  | Some parent_prefix, None => starts_with child parent_prefix
  | None, Some _ => false
  | None, None => String.eqb par child
  end.

(** ** Derivation *)

Record Narrowed := {
  n_tools : list string;
  n_scopes : list string;
  n_grants : list string;
  n_spend : Spend;
  n_autonomy : Autonomy;
  n_exp : Z;
  n_nbf : Z;
  n_policy_set : list string }.

Definition widen {A} (field : string) : result WidensError A := Err {| we_field := field |}.

(** The pattern lists: each child pattern must be covered by some parent pattern. *)
Definition narrow_patterns (field : string) (par : list string) (request : option (list string))
    : result WidensError (list string) :=
  match request with
  | Some children =>
      let? _ := rfor children (fun child =>
        if negb (any (fun p => pattern_covers p child) par) then widen field else Ok tt) in
      Ok children
  | None => Ok par
  end.

Definition str_in (x : string) (l : list string) : bool := any (String.eqb x) l.

Definition narrow_grants (par : list string) (request : option (list string))
    : result WidensError (list string) :=
  match request with
  | Some grants =>
      let? _ := rfor grants (fun g => if negb (str_in g par) then widen "grants" else Ok tt) in
      Ok grants
  | None => Ok par
  end.

(** One ceiling: the child's may not exceed the parent's; an omitted one inherits it. *)
Definition narrow_limit {A} (field : string) (gtb : A -> A -> bool) (child limit : option A)
    : result WidensError (option A) :=
  match child, limit with
  | Some c, Some l => if gtb c l then widen field else Ok child
  | None, Some l => Ok (Some l)
  | _, None => Ok child
  end.

Definition narrow_spend (par : Spend) (request : option Spend) : result WidensError Spend :=
  match request with
  | Some s =>
      let? tokens := narrow_limit "spend.tokens" Z.gtb (sp_tokens s) (sp_tokens par) in
      let? usd := narrow_limit "spend.usd" f64_gtb (sp_usd s) (sp_usd par) in
      Ok {| sp_tokens := tokens; sp_usd := usd |}
  | None => Ok par
  end.

Definition narrow_autonomy (par : Autonomy) (request : option Autonomy)
    : result WidensError Autonomy :=
  match request with
  | Some level => if autonomy_rank par <? autonomy_rank level then widen "autonomy" else Ok level
  | None => Ok par
  end.

Definition narrow_exp (par_exp now_seconds : Z) (ttl : option Z) : result WidensError Z :=
  match ttl with
  | Some ttl =>
      let e := i64_saturating_add now_seconds (u64_as_i64 ttl) in
      if par_exp <? e then widen "ttl_seconds" else Ok e
  | None => Ok par_exp
  end.

Definition narrow_policy_set (par : list string) (request : option (list string))
    : result WidensError (list string) :=
  match request with
  | Some set =>
      let? _ := rfor par (fun p => if negb (str_in p set) then widen "policy_set" else Ok tt) in
      Ok set
  | None => Ok par
  end.

Definition narrow (par : RemitPayload) (request : DeriveRequest) (now_seconds : Z)
    : result WidensError Narrowed :=
  let? tools := narrow_patterns "tools" (tools par) (dq_tools request) in
  let? scopes := narrow_patterns "scopes" (scopes par) (dq_scopes request) in
  let? grants := narrow_grants (grants par) (dq_grants request) in
  let? spend := narrow_spend (spend par) (dq_spend request) in
  let? autonomy := narrow_autonomy (autonomy par) (dq_autonomy request) in
  let nbf := Z.max now_seconds (nbf par) in
  let? exp := narrow_exp (exp par) now_seconds (dq_ttl_seconds request) in
  let? policy_set := narrow_policy_set (policy_set par) (dq_policy_set request) in
  Ok {| n_tools := tools; n_scopes := scopes; n_grants := grants; n_spend := spend;
        n_autonomy := autonomy; n_exp := exp; n_nbf := nbf; n_policy_set := policy_set |}.

(** ** Serialisation of the payload *)

Definition ser_spend (s : Spend) : json :=
  obj (skip_none "tokens" json_u64 (sp_tokens s) ++ skip_none "usd" json_f64 (sp_usd s)).

Definition de_spend (j : json) : option Spend :=
  fs ← struct_fields ["tokens"; "usd"] j;
  tokens ← dflt (de_option de_u64) "tokens" None fs;
  usd ← dflt (de_option de_f64) "usd" None fs;
  Some {| sp_tokens := tokens; sp_usd := usd |}.

Definition de_autonomy (j : json) : option Autonomy := s ← de_unit_variant j; autonomy_parse s.

Definition ser_payload (p : RemitPayload) : json :=
  obj ([("rid", JStr (rid p))] ++ skip_none "parent" JStr (parent p) ++ skip_none "run" JStr (run p) ++
       [("iss", JStr (iss p)); ("iat", json_i64 (iat p)); ("nbf", json_i64 (nbf p));
        ("exp", json_i64 (exp p)); ("tools", ser_strings (tools p));
        ("scopes", ser_strings (scopes p)); ("grants", ser_strings (grants p));
        ("spend", ser_spend (spend p)); ("autonomy", JStr (autonomy_as_str (autonomy p)));
        ("policy_set", ser_strings (policy_set p))] ++ skip_none "requested_by" id (requested_by p)).

Definition de_payload (j : json) : option RemitPayload :=
  fs ← struct_fields ["rid"; "parent"; "run"; "iss"; "iat"; "nbf"; "exp"; "tools"; "scopes";
                      "grants"; "spend"; "autonomy"; "policy_set"; "requested_by"] j;
  rid ← req de_string "rid" fs;
  parent ← dflt (de_option de_string) "parent" None fs;
  run ← dflt (de_option de_string) "run" None fs;
  iss ← req de_string "iss" fs;
  iat ← req de_i64 "iat" fs;
  nbf ← req de_i64 "nbf" fs;
  exp ← req de_i64 "exp" fs;
  tools ← req (de_list de_string) "tools" fs;
  scopes ← req (de_list de_string) "scopes" fs;
  grants ← req (de_list de_string) "grants" fs;
  spend ← req de_spend "spend" fs;
  autonomy ← req de_autonomy "autonomy" fs;
  policy_set ← req (de_list de_string) "policy_set" fs;
  requested_by ← dflt (de_option de_value) "requested_by" None fs;
  Some {| rid := rid; parent := parent; run := run; iss := iss; iat := iat; nbf := nbf;
          exp := exp; tools := tools; scopes := scopes; grants := grants; spend := spend;
          autonomy := autonomy; policy_set := policy_set; requested_by := requested_by |}.

(** ** Tokens *)

(** [serde_json::from_slice]: the value the text spells, or nothing when it is not JSON. *)
Class JsonText := { parse_json : string -> option json }.

Record DecodedToken := {
  dt_payload : RemitPayload;
  dt_payload_bytes : string;
  dt_signature : string;
  dt_key_id : string }.

Section Token.
Context `{FloatFormat, Crypto, JsonText}.

Definition encode_token (payload : RemitPayload) (key : KeyPair) : string :=
  let bytes := canonical_bytes (ser_payload payload) in
  let signature := sign key bytes in
  TOKEN_PREFIX +:+ "." +:+ base64_encode bytes +:+ "." +:+ signature +:+ "." +:+ kp_key_id key.

Definition decode_token (token : string) : result TokenError DecodedToken :=
  match split_on "." (trim token) with
  | [p0; p1; p2; p3] =>
      if negb (String.eqb p0 TOKEN_PREFIX) then Err Malformed
      else
        let? payload_bytes := ok_or Malformed (base64_decode p1) in
        if negb (match base64_decode p2 with Some _ => true | None => false end) || is_empty p3
        then Err Malformed
        else
          let? payload := ok_or Malformed (j ← parse_json payload_bytes; de_payload j) in
          Ok {| dt_payload := payload; dt_payload_bytes := payload_bytes;
                dt_signature := p2; dt_key_id := p3 |}
  | _ => Err Malformed
  end.

Definition verify_token (token : string) (resolve_key : string -> option PublicKey)
    (now_seconds : Z) : result TokenError RemitPayload :=
  let? decoded := decode_token token in
  let? key := ok_or SignatureInvalid (resolve_key (dt_key_id decoded)) in
  if negb (verify key (dt_payload_bytes decoded) (dt_signature decoded)) then Err SignatureInvalid
  else if now_seconds <? nbf (dt_payload decoded) then Err NotYetValid
  else if exp (dt_payload decoded) <=? now_seconds then Err Expired
  else Ok (dt_payload decoded).
End Token.
