(* ===== verification/RemitSpec.v ===== *)
(** * Delegation only narrows

    [pattern_covers] decides inclusion of pattern languages exactly, [narrow] succeeds
    exactly on the requests that ask for no more than the parent has, and what it returns
    attenuates the parent.  Attenuation is a preorder, so a chain of derivations of any
    length never holds more authority than its root. *)

From stdpp Require Import relations.
From S2P Require Import Prelude Text F64 Json Canonical Remit.
From Stdlib Require Import Ascii SpecFloat.

Local Open Scope string_scope.
Local Open Scope list_scope.
Local Open Scope Z_scope.

(** ** Patterns *)

(** The identifiers a list of patterns authorises. *)
Definition authorises (patterns : list string) (id : string) : Prop :=
  exists p, In p patterns /\ pattern_matches p id = true.

Lemma pattern_matches_wild p r id :
  strip_suffix_char "*" p = Some r -> pattern_matches p id = starts_with id r.
Proof. unfold pattern_matches. by intros ->. Qed.

Lemma pattern_matches_literal p id :
  strip_suffix_char "*" p = None -> pattern_matches p id = String.eqb p id.
Proof. unfold pattern_matches. by intros ->. Qed.

Lemma pattern_covers_sound p c id :
  pattern_covers p c = true -> pattern_matches c id = true -> pattern_matches p id = true.
Proof.
  unfold pattern_covers, pattern_matches.
  destruct (strip_suffix_char "*" p) as [pp|], (strip_suffix_char "*" c) as [cp|]; try done.
  - intros Hp Hc. eauto using starts_with_trans.
  - intros Hp ->%String.eqb_eq. done.
  - intros ->%String.eqb_eq. done.
Qed.

Lemma string_length_app a b : String.length (a +:+ b) = (String.length a + String.length b)%nat.
Proof. induction a as [|c a IH]; simpl; [done | by rewrite IH]. Qed.

Lemma pattern_covers_complete p c :
  (forall id, pattern_matches c id = true -> pattern_matches p id = true) ->
  pattern_covers p c = true.
Proof.
  unfold pattern_covers, pattern_matches. intros H.
  destruct (strip_suffix_char "*" p) as [pp|], (strip_suffix_char "*" c) as [cp|].
  - apply H, starts_with_refl.
  - apply H, String.eqb_refl.
  - pose proof (H cp (starts_with_refl cp)) as H1.
    pose proof (H (cp +:+ "*") (starts_with_app _ _ _ (starts_with_refl cp))) as H2.
    apply String.eqb_eq in H1, H2. exfalso.
    assert (String.length cp = String.length (cp +:+ "*")) as Hl by congruence.
    rewrite string_length_app in Hl. simpl in Hl. lia.
  - apply H, String.eqb_refl.
Qed.

(** [pattern_covers] is exactly inclusion: it answers true if and only if every
    identifier the child pattern can match is matched by the parent pattern. *)
Theorem pattern_covers_exact p c :
  pattern_covers p c = true <->
  (forall id, pattern_matches c id = true -> pattern_matches p id = true).
Proof. split; [eauto using pattern_covers_sound | apply pattern_covers_complete]. Qed.

(** ** Attenuation *)

(** A ceiling is at most another; [None] is unlimited. *)
Definition limit_le {A} (le : A -> A -> Prop) (child par : option A) : Prop :=
  match par with
  | None => True
  | Some l => exists c, child = Some c /\ le c l
  end.

Definition usd_le (a b : f64) : Prop := f64_leb a b = true.

(** The authority fields shared by a remit and a derived one. *)
Record authority := {
  a_tools : list string; a_scopes : list string; a_grants : list string;
  a_spend : Spend; a_autonomy : Autonomy; a_nbf : Z; a_exp : Z; a_policies : list string }.

Definition authority_of (p : RemitPayload) : authority :=
  {| a_tools := tools p; a_scopes := scopes p; a_grants := grants p; a_spend := spend p;
     a_autonomy := autonomy p; a_nbf := nbf p; a_exp := exp p; a_policies := policy_set p |}.

Definition narrowed_authority (n : Narrowed) : authority :=
  {| a_tools := n_tools n; a_scopes := n_scopes n; a_grants := n_grants n;
     a_spend := n_spend n; a_autonomy := n_autonomy n; a_nbf := n_nbf n; a_exp := n_exp n;
     a_policies := n_policy_set n |}.

Record attenuates (child par : authority) : Prop := {
  at_tools : forall id, authorises (a_tools child) id -> authorises (a_tools par) id;
  at_scopes : forall id, authorises (a_scopes child) id -> authorises (a_scopes par) id;
  at_grants : forall g, In g (a_grants child) -> In g (a_grants par);
  at_tokens : limit_le Z.le (sp_tokens (a_spend child)) (sp_tokens (a_spend par));
  at_usd : limit_le usd_le (sp_usd (a_spend child)) (sp_usd (a_spend par));
  at_autonomy : autonomy_rank (a_autonomy child) <= autonomy_rank (a_autonomy par);
  at_nbf : a_nbf par <= a_nbf child;
  at_exp : a_exp child <= a_exp par;
  at_policies : forall p, In p (a_policies par) -> In p (a_policies child) }.

Lemma limit_le_trans {A} (le : A -> A -> Prop) a b c :
  (forall x y z, le x y -> le y z -> le x z) ->
  limit_le le a b -> limit_le le b c -> limit_le le a c.
Proof.
  intros T. unfold limit_le. destruct c as [l|]; [|done].
  intros Hab (y & -> & Hy). destruct Hab as (x & -> & Hx). eauto.
Qed.

#[export] Instance attenuates_transitive : Transitive attenuates.
Proof.
  intros a b c [] []. constructor; eauto using Z.le_trans.
  - eapply limit_le_trans; eauto using Z.le_trans.
  - eapply limit_le_trans; eauto. unfold usd_le. eauto using f64_leb_trans.
Qed.

(** A payload read from JSON never holds a NaN ceiling. *)
Definition spend_no_nan (s : Spend) : Prop :=
  match sp_usd s with Some u => f64_is_nan u = false | None => True end.

Lemma attenuates_refl a : spend_no_nan (a_spend a) -> attenuates a a.
Proof.
  intros H. constructor; auto with lia.
  - destruct (sp_tokens _); simpl; eauto with lia.
  - unfold spend_no_nan in H. destruct (sp_usd _); simpl; eauto.
    eexists; split; [done|]. by apply f64_leb_refl.
Qed.

(** ** What each narrowing step accepts *)

Lemma str_in_spec x l : str_in x l = true <-> In x l.
Proof.
  unfold str_in. rewrite any_true. split.
  - intros (y & Hy & ->%String.eqb_eq). done.
  - intros H. exists x. by rewrite String.eqb_refl.
Qed.

(** A [for] loop that returns an error at the first element failing a test. *)
Lemma rfor_check {A} (p : A -> bool) field (l : list A) :
  rfor l (fun x => if negb (p x) then widen field else Ok tt) = Ok tt <->
  Forall (fun x => p x = true) l.
Proof.
  rewrite rfor_ok. apply Forall_iff. intros x. by destruct (p x).
Qed.

(** The shape the list fields share: check every element, then keep [out0]. *)
Lemma check_then_ok {A B} (p : A -> bool) field (l : list A) (out0 out : B) :
  (let? _ := rfor l (fun x => if negb (p x) then widen field else Ok tt) in Ok out0) = Ok out <->
  out = out0 /\ Forall (fun x => p x = true) l.
Proof.
  pose proof (rfor_check p field l) as H. destruct (rfor _ _) as [[]|e]; simpl.
  - split; [intros [= <-]; split; [done | by apply H] | by intros [-> _]].
  - split; [done|]. intros [_ HF]. by apply H in HF.
Qed.

Lemma check_then_err {A B} (p : A -> bool) field (l : list A) (out0 : B) e :
  (let? _ := rfor l (fun x => if negb (p x) then widen field else Ok tt) in Ok out0) = Err e ->
  we_field e = field.
Proof.
  induction l as [|x l IH]; simpl; [done|]. destruct (p x); simpl; [done|]. by intros [= <-].
Qed.

Lemma narrow_patterns_ok field par request out :
  narrow_patterns field par request = Ok out <->
  out = default par request /\
  (forall l, request = Some l ->
     Forall (fun c => exists p, In p par /\ pattern_covers p c = true) l).
Proof.
  unfold narrow_patterns. destruct request as [l|]; simpl.
  - rewrite check_then_ok. setoid_rewrite any_true. split; intros [-> H]; split; try done; eauto.
    by intros ? [= <-].
  - split; [by intros [= <-] | by intros [-> _]].
Qed.

Lemma narrow_patterns_sound field par request out :
  narrow_patterns field par request = Ok out ->
  forall id, authorises out id -> authorises par id.
Proof.
  intros [-> H]%narrow_patterns_ok id (c & Hc & Hm). destruct request as [l|]; simpl in Hc.
  - specialize (H l eq_refl). rewrite List.Forall_forall in H.
    destruct (H c Hc) as (p & Hp & Hcov). exists p. eauto using pattern_covers_sound.
  - by exists c.
Qed.

Lemma Forall_str_in l1 l2 : Forall (fun x => str_in x l2 = true) l1 <-> incl l1 l2.
Proof. rewrite List.Forall_forall. unfold incl. by setoid_rewrite str_in_spec. Qed.

Lemma narrow_grants_ok par request out :
  narrow_grants par request = Ok out <->
  out = default par request /\ (forall l, request = Some l -> incl l par).
Proof.
  unfold narrow_grants. destruct request as [l|]; simpl.
  - rewrite (check_then_ok (fun g => str_in g par)), Forall_str_in.
    split; intros [-> H]; split; try done; eauto. by intros ? [= <-].
  - split; [by intros [= <-] | by intros [-> _]].
Qed.

Lemma narrow_policy_set_ok par request out :
  narrow_policy_set par request = Ok out <->
  out = default par request /\ (forall l, request = Some l -> incl par l).
Proof.
  unfold narrow_policy_set. destruct request as [l|]; simpl.
  - rewrite (check_then_ok (fun g => str_in g l)), Forall_str_in.
    split; intros [-> H]; split; try done; eauto. by intros ? [= <-].
  - split; [by intros [= <-] | by intros [-> _]].
Qed.

Lemma narrow_limit_ok {A} field (gtb : A -> A -> bool) child limit out :
  narrow_limit field gtb child limit = Ok out <->
  out = match child with Some c => Some c | None => limit end /\
  (forall c l, child = Some c -> limit = Some l -> gtb c l = false).
Proof.
  unfold narrow_limit. destruct child as [c|], limit as [l|]; try (naive_solver congruence).
  destruct (gtb c l) eqn:E; naive_solver congruence.
Qed.

(** A ceiling [narrow] returns is at most the parent's, for a [gtb] that decides [le] on
    the values at hand. *)
Lemma narrow_limit_sound {A} field (gtb : A -> A -> bool) (le : A -> A -> Prop) child limit out :
  (forall l, limit = Some l -> le l l) ->
  (forall c l, child = Some c -> limit = Some l -> gtb c l = false -> le c l) ->
  narrow_limit field gtb child limit = Ok out -> limit_le le out limit.
Proof.
  intros Hrefl Hle [-> H]%narrow_limit_ok. destruct limit as [l|]; [|done].
  destruct child as [c|]; simpl; eauto.
Qed.

Lemma narrow_autonomy_ok par request out :
  narrow_autonomy par request = Ok out <->
  out = default par request /\ autonomy_rank out <= autonomy_rank par.
Proof.
  unfold narrow_autonomy. destruct request as [level|]; simpl.
  - destruct (Z.ltb_spec (autonomy_rank par) (autonomy_rank level)); unfold widen;
      naive_solver (try lia).
  - naive_solver lia.
Qed.

(** The expiry a request asks for. *)
Definition requested_exp (par_exp now : Z) (ttl : option Z) : Z :=
  match ttl with Some t => i64_saturating_add now (u64_as_i64 t) | None => par_exp end.

Lemma narrow_exp_ok par_exp now ttl out :
  narrow_exp par_exp now ttl = Ok out <-> out = requested_exp par_exp now ttl /\ out <= par_exp.
Proof.
  unfold narrow_exp, requested_exp. destruct ttl as [t|].
  - destruct (Z.ltb_spec par_exp (i64_saturating_add now (u64_as_i64 t))); unfold widen;
      naive_solver (try lia).
  - naive_solver lia.
Qed.

(** ** Derivation *)

Definition request_no_nan (r : DeriveRequest) : Prop :=
  match dq_spend r with Some s => spend_no_nan s | None => True end.

Lemma narrow_spend_sound par request out :
  spend_no_nan par -> match request with Some s => spend_no_nan s | None => True end ->
  narrow_spend par request = Ok out ->
  limit_le Z.le (sp_tokens out) (sp_tokens par) /\ limit_le usd_le (sp_usd out) (sp_usd par).
Proof.
  unfold narrow_spend, spend_no_nan. intros Hp Hr H. destruct request as [s|]; inv_ok.
  - split; eapply narrow_limit_sound; eauto using Z.le_refl.
    + intros c l _ _ E. rewrite Z.gtb_ltb in E. bool_prop. lia.
    + intros l E. rewrite E in Hp. by apply f64_leb_refl.
    + intros c l Ec El. rewrite Ec in Hr. rewrite El in Hp. by apply f64_not_gtb_leb.
  - split; [destruct (sp_tokens out); simpl; eauto with lia|].
    destruct (sp_usd out); simpl; eauto. eexists; split; [done|]. by apply f64_leb_refl.
Qed.

Lemma narrow_spend_no_nan par request out :
  spend_no_nan par -> match request with Some s => spend_no_nan s | None => True end ->
  narrow_spend par request = Ok out -> spend_no_nan out.
Proof.
  unfold narrow_spend, spend_no_nan. intros Hp Hr H. destruct request as [s|]; inv_ok; [|done].
  match goal with Hn : narrow_limit "spend.usd" _ _ _ = _ |- _ =>
    apply narrow_limit_ok in Hn as [-> _] end. simpl. by destruct (sp_usd s).
Qed.

Lemma narrow_attenuates par request now n :
  spend_no_nan (spend par) -> request_no_nan request ->
  narrow par request now = Ok n -> attenuates (narrowed_authority n) (authority_of par).
Proof.
  unfold narrow, request_no_nan. intros Hp Hr H. inv_ok.
  repeat match goal with
  | H : narrow_grants _ _ = _ |- _ => apply narrow_grants_ok in H as [-> ?]
  | H : narrow_policy_set _ _ = _ |- _ => apply narrow_policy_set_ok in H as [-> ?]
  | H : narrow_autonomy _ _ = _ |- _ => apply narrow_autonomy_ok in H as [_ ?]
  | H : narrow_exp _ _ _ = _ |- _ => apply narrow_exp_ok in H as [_ ?]
  | H : narrow_spend _ _ = _ |- _ => apply narrow_spend_sound in H as [? ?]; [|done|done]
  end.
  constructor; simpl; eauto using narrow_patterns_sound with lia.
  - destruct (dq_grants request) as [l|]; simpl; [|done].
    by match goal with Hg : forall l, _ -> incl l _ |- _ => apply (Hg l) end.
  - destruct (dq_policy_set request) as [l|]; simpl; [|done].
    by match goal with Hg : forall l, _ -> incl _ l |- _ => apply (Hg l) end.
Qed.

Lemma narrow_no_nan par request now n :
  spend_no_nan (spend par) -> request_no_nan request ->
  narrow par request now = Ok n -> spend_no_nan (n_spend n).
Proof. unfold narrow. intros Hp Hr H. inv_ok. simpl. eauto using narrow_spend_no_nan. Qed.

(** What a request may ask for: every field it gives is within the parent's. *)
Record permitted (par : RemitPayload) (r : DeriveRequest) (now : Z) : Prop := {
  pm_tools : forall l c, dq_tools r = Some l -> In c l ->
    exists p, In p (tools par) /\
      forall id, pattern_matches c id = true -> pattern_matches p id = true;
  pm_scopes : forall l c, dq_scopes r = Some l -> In c l ->
    exists p, In p (scopes par) /\
      forall id, pattern_matches c id = true -> pattern_matches p id = true;
  pm_grants : forall l, dq_grants r = Some l -> incl l (grants par);
  pm_tokens : forall s c l, dq_spend r = Some s -> sp_tokens s = Some c ->
    sp_tokens (spend par) = Some l -> c <= l;
  pm_usd : forall s c l, dq_spend r = Some s -> sp_usd s = Some c ->
    sp_usd (spend par) = Some l -> f64_gtb c l = false;
  pm_autonomy : forall a, dq_autonomy r = Some a -> autonomy_rank a <= autonomy_rank (autonomy par);
  pm_exp : requested_exp (exp par) now (dq_ttl_seconds r) <= exp par;
  pm_policies : forall l, dq_policy_set r = Some l -> incl (policy_set par) l }.

(** The remit a permitted request yields. *)
Definition narrowed_spend (par : Spend) (request : option Spend) : Spend :=
  match request with
  | None => par
  | Some s => {| sp_tokens := match sp_tokens s with Some c => Some c | None => sp_tokens par end;
                 sp_usd := match sp_usd s with Some c => Some c | None => sp_usd par end |}
  end.

Definition narrowed (par : RemitPayload) (r : DeriveRequest) (now : Z) : Narrowed :=
  {| n_tools := default (tools par) (dq_tools r);
     n_scopes := default (scopes par) (dq_scopes r);
     n_grants := default (grants par) (dq_grants r);
     n_spend := narrowed_spend (spend par) (dq_spend r);
     n_autonomy := default (autonomy par) (dq_autonomy r);
     n_exp := requested_exp (exp par) now (dq_ttl_seconds r);
     n_nbf := Z.max now (nbf par);
     n_policy_set := default (policy_set par) (dq_policy_set r) |}.

Lemma narrow_spend_ok par request out :
  narrow_spend par request = Ok out <->
  out = narrowed_spend par request /\
  (forall s c l, request = Some s -> sp_tokens s = Some c -> sp_tokens par = Some l -> c <= l) /\
  (forall s c l, request = Some s -> sp_usd s = Some c -> sp_usd par = Some l -> f64_gtb c l = false).
Proof.
  unfold narrow_spend, narrowed_spend. destruct request as [s|]; [|naive_solver].
  split.
  - intros H. inv_ok.
    repeat match goal with Hn : narrow_limit _ _ _ _ = _ |- _ =>
      apply narrow_limit_ok in Hn as [-> ?] end.
    split; [done|]. split; intros ? c l [= <-] Hc Hl; [|eauto].
    match goal with Hn : forall c l, _ -> _ -> (_ >? _) = false |- _ => specialize (Hn c l Hc Hl) end.
    rewrite Z.gtb_ltb in *. bool_prop. lia.
  - intros (-> & Ht & Hu).
    eapply rbind_intro; [apply narrow_limit_ok; split; [reflexivity|]|].
    + intros c l Hc Hl. specialize (Ht s c l eq_refl Hc Hl). rewrite Z.gtb_ltb.
      apply Z.ltb_ge. lia.
    + eapply rbind_intro; [apply narrow_limit_ok; split; [reflexivity|]; eauto|]. done.
Qed.

Lemma covers_all par l :
  Forall (fun c => exists p, In p par /\ pattern_covers p c = true) l <->
  (forall c, In c l -> exists p, In p par /\
     forall id, pattern_matches c id = true -> pattern_matches p id = true).
Proof.
  rewrite List.Forall_forall. split; intros H c Hc; destruct (H c Hc) as (p & Hp & Hm);
    exists p; split; eauto using pattern_covers_sound, pattern_covers_complete.
Qed.

Lemma narrow_ok_iff_aux par r now n :
  narrow par r now = Ok n <-> permitted par r now /\ n = narrowed par r now.
Proof.
  split.
  - unfold narrow. intros H. inv_ok.
    repeat match goal with
    | H : narrow_patterns _ _ _ = _ |- _ => apply narrow_patterns_ok in H as [-> ?]
    | H : narrow_grants _ _ = _ |- _ => apply narrow_grants_ok in H as [-> ?]
    | H : narrow_policy_set _ _ = _ |- _ => apply narrow_policy_set_ok in H as [-> ?]
    | H : narrow_autonomy _ _ = _ |- _ => apply narrow_autonomy_ok in H as [-> ?]
    | H : narrow_exp _ _ _ = _ |- _ => apply narrow_exp_ok in H as [-> ?]
    | H : narrow_spend _ _ = _ |- _ => apply narrow_spend_ok in H as (-> & ? & ?)
    | H : forall l, _ -> Forall _ l |- _ => setoid_rewrite covers_all in H
    end.
    split; [|done]. constructor; eauto. intros a E. by rewrite E in *.
  - intros [[] ->]. unfold narrow.
    repeat (eapply rbind_intro;
      [first [apply narrow_patterns_ok | apply narrow_grants_ok | apply narrow_spend_ok
             | apply narrow_autonomy_ok | apply narrow_exp_ok | apply narrow_policy_set_ok];
       split; [reflexivity|]|]); try done; try (intros l E; apply covers_all; eauto).
    destruct (dq_autonomy r); simpl; [eauto | lia].
Qed.

(** [narrow] succeeds on exactly the requests whose every given field is within the
    parent's, and then returns the requested field or, where omitted, the parent's. *)
Theorem narrow_ok_iff par r now n :
  narrow par r now = Ok n <-> permitted par r now /\ n = narrowed par r now.
Proof. apply narrow_ok_iff_aux. Qed.

(** ** Chains of derivations *)

(** One derivation: the child carries the narrowed authority of the parent. *)
Definition derives (par child : RemitPayload) : Prop :=
  exists r now n, request_no_nan r /\ narrow par r now = Ok n /\
    authority_of child = narrowed_authority n.

Lemma derives_attenuates par child :
  spend_no_nan (spend par) -> derives par child ->
  attenuates (authority_of child) (authority_of par) /\ spend_no_nan (spend child).
Proof.
  intros Hp (r & now & n & Hr & Hn & Ha). rewrite Ha. split; [eauto using narrow_attenuates|].
  assert (spend child = n_spend n) as -> by (unfold authority_of, narrowed_authority in Ha; congruence).
  eauto using narrow_no_nan.
Qed.

(** C29: a chain of derivations of any length attenuates its root: no descendant matches a
    tool or scope the root does not, holds a grant the root lacks, a higher ceiling or
    autonomy, a longer life, or escapes a policy of the root. *)
Theorem delegation_chain_attenuates root leaf :
  spend_no_nan (spend root) -> rtc derives root leaf ->
  attenuates (authority_of leaf) (authority_of root).
Proof.
  intros Hr H. revert Hr. induction H as [r|r mid leaf Hd _ IH]; intros Hr.
  - by apply attenuates_refl.
  - destruct (derives_attenuates r mid Hr Hd) as [Ha Hm]. etransitivity; [apply IH; exact Hm | exact Ha].
Qed.

(** The remit of the source's unit tests and one derived from it. *)
Definition example_remit : RemitPayload :=
  {| rid := "rem_parent"; parent := None; run := None; iss := "key_x";
     iat := 1000; nbf := 1000; exp := 87400;
     tools := ["ledger.*"; "http.get"];
     scopes := ["sql:table:*"; "http:host:api.halcyon.example"];
     grants := ["pii"];
     spend := {| sp_tokens := Some 200000; sp_usd := Some (f64_of_Z 2) |};
     autonomy := Supervised; policy_set := ["finance-default"]; requested_by := None |}.

Definition example_derive : DeriveRequest :=
  {| dq_tools := Some ["ledger.post_entry"]; dq_scopes := None; dq_grants := Some [];
     dq_spend := Some {| sp_tokens := Some 50000; sp_usd := None |};
     dq_autonomy := Some Propose; dq_ttl_seconds := Some 3600;
     dq_policy_set := Some ["finance-default"; "extra"] |}.

Definition example_child : RemitPayload :=
  {| rid := "rem_child"; parent := Some "rem_parent"; run := None; iss := "key_x";
     iat := 2000; nbf := 2000; exp := 5600;
     tools := ["ledger.post_entry"]; scopes := scopes example_remit; grants := [];
     spend := {| sp_tokens := Some 50000; sp_usd := Some (f64_of_Z 2) |};
     autonomy := Propose; policy_set := ["finance-default"; "extra"]; requested_by := None |}.

Lemma delegation_chain_attenuates_witness :
  spend_no_nan (spend example_remit) /\ rtc derives example_remit example_child /\
  attenuates (authority_of example_child) (authority_of example_remit).
Proof.
  assert (spend_no_nan (spend example_remit)) as Hn by reflexivity.
  assert (rtc derives example_remit example_child) as Hd.
  { apply rtc_once. exists example_derive, 2000, (narrowed example_remit example_derive 2000).
    split; [done|]. split; reflexivity. }
  split; [exact Hn|]. split; [exact Hd|].
  exact (delegation_chain_attenuates example_remit example_child Hn Hd).
Defined.

Example narrow_refuses_wider_tool :
  narrow example_child
    {| dq_tools := Some ["ledger.*"]; dq_scopes := None; dq_grants := None; dq_spend := None;
       dq_autonomy := None; dq_ttl_seconds := None; dq_policy_set := None |} 2500
  = Err {| we_field := "tools" |}.
Proof. reflexivity. Qed.
