(* ===== verification/RemitToken.v ===== *)
(** * Remit tokens

    The signed token: its payload survives the encoding, a token the kernel signed verifies
    within its validity window and is refused with the documented reason outside it, and
    whatever verifies was signed by the key its identifier resolves to. *)

From S2P Require Import Prelude Text F64 Json Canonical Errors Keys Remit RemitSpec.
From Stdlib Require Import Ascii SpecFloat.

Local Open Scope string_scope.
Local Open Scope list_scope.
Local Open Scope Z_scope.

(** ** The payload as JSON *)

Definition i64_ok (z : Z) : Prop := i64_min <= z <= i64_max.

Definition spend_ok (s : Spend) : Prop := forall u, sp_usd s = Some u -> f64_is_finite u = true.

(** What the Rust types and the JSON the payload came from guarantee. *)
Record payload_ok (p : RemitPayload) : Prop := {
  po_iat : i64_ok (iat p);
  po_nbf : i64_ok (nbf p);
  po_exp : i64_ok (exp p);
  po_spend : spend_ok (spend p);
  po_requested_by : requested_by p <> Some JNull }.

Lemma de_ser_spend s : spend_ok s -> de_spend (ser_spend s) = Some s.
Proof. intros H. unfold de_spend, ser_spend, spend_ok in *. codec. by destruct s. Qed.

Lemma autonomy_parse_as_str a : autonomy_parse (autonomy_as_str a) = Some a.
Proof. by destruct a. Qed.

Lemma de_autonomy_ser a : de_autonomy (JStr (autonomy_as_str a)) = Some a.
Proof. by destruct a. Qed.

#[export] Hint Resolve de_ser_spend de_autonomy_ser : codec.

Lemma de_ser_payload p : payload_ok p -> de_payload (ser_payload p) = Some p.
Proof.
  intros []. unfold de_payload, ser_payload, i64_ok in *.
  assert (forall v, requested_by p = Some v -> v <> JNull /\ de_value v = Some v) as Hr
    by (intros v E; split; [intros ->; contradiction | done]).
  codec. by destruct p.
Qed.

(** ** Splitting the token *)

Definition no_byte (c : ascii) (s : string) : bool := string_forall (fun a => negb (Ascii.eqb a c)) s.

Lemma split_on_cons c a rest :
  no_byte c a = true -> split_on c (a +:+ String c rest) = a :: split_on c rest.
Proof.
  induction a as [|x a IH]; simpl; [by rewrite Ascii.eqb_refl|].
  intros [Hx Ha]%andb_true_iff. apply negb_true_iff in Hx. by rewrite Hx, IH.
Qed.

Lemma split_on_single c a : no_byte c a = true -> split_on c a = [a].
Proof.
  induction a as [|x a IH]; simpl; [done|].
  intros [Hx Ha]%andb_true_iff. apply negb_true_iff in Hx. by rewrite Hx, IH.
Qed.

Lemma base64_no_dot a : is_base64url a = true -> negb (Ascii.eqb a ".") = true.
Proof. apply (base64url_check (fun a => negb (Ascii.eqb a "."))). vm_compute. reflexivity. Qed.

Section Tokens.
Context `{FloatFormat, CryptoOk, JsonText}.

(** A key identifier the token format can carry; [new_id] only makes such ones. *)
Record key_id_ok (id : string) : Prop := {
  ki_nonempty : id <> "";
  ki_graphic : string_forall is_graphic id = true;
  ki_no_dot : no_byte "." id = true }.

(** The JSON parser reads back the canonical text of this payload. *)
Definition reads_back (p : RemitPayload) : Prop :=
  parse_json (canonical_bytes (ser_payload p)) = Some (ser_payload p).

Lemma token_graphic p k :
  key_id_ok (kp_key_id k) -> string_forall is_graphic (encode_token p k) = true.
Proof.
  intros []. unfold encode_token, sign. rewrite !string_forall_app, ki_graphic0.
  assert (forall b, string_forall is_graphic (base64_encode b) = true) as Hb.
  { intros b. eapply string_forall_impl; [apply base64_graphic | apply base64_alphabet]. }
  by rewrite !Hb.
Qed.

Lemma token_parts p k :
  key_id_ok (kp_key_id k) ->
  split_on "." (trim (encode_token p k)) =
  [TOKEN_PREFIX; base64_encode (canonical_bytes (ser_payload p));
   sign k (canonical_bytes (ser_payload p)); kp_key_id k].
Proof.
  intros Hk. rewrite trim_graphic by by apply token_graphic. destruct Hk.
  unfold encode_token.
  assert (forall b, no_byte "." (base64_encode b) = true) as Hb.
  { intros b. eapply string_forall_impl; [apply base64_no_dot | apply base64_alphabet]. }
  change ("." +:+ ?x) with (String "." x).
  do 3 (cbn [String.append]; rewrite split_on_cons by (unfold sign; done); f_equal).
  by apply split_on_single.
Qed.

Lemma decode_encode_token p k :
  payload_ok p -> reads_back p -> key_id_ok (kp_key_id k) ->
  decode_token (encode_token p k) =
  Ok {| dt_payload := p; dt_payload_bytes := canonical_bytes (ser_payload p);
        dt_signature := sign k (canonical_bytes (ser_payload p)); dt_key_id := kp_key_id k |}.
Proof.
  intros Hp Hr Hk. unfold decode_token. rewrite token_parts by done. destruct Hk.
  assert (is_empty (kp_key_id k) = false) as He by by destruct (kp_key_id k).
  unfold reads_back in Hr. unfold sign at 1.
  rewrite String.eqb_refl, !base64_round_trip, He. cbn [negb orb ok_or rbind]. rewrite Hr.
  cbn [mbind option_bind].
  by rewrite de_ser_payload.
Qed.

Lemma verify_encoded p k resolve_key now :
  payload_ok p -> reads_back p -> key_id_ok (kp_key_id k) ->
  resolve_key (kp_key_id k) = Some (public k) ->
  verify_token (encode_token p k) resolve_key now =
  if now <? nbf p then Err NotYetValid else if exp p <=? now then Err Expired else Ok p.
Proof.
  intros Hp Hr Hk Hres. unfold verify_token. rewrite decode_encode_token by done.
  cbn [rbind dt_key_id dt_payload_bytes dt_signature dt_payload]. rewrite Hres.
  cbn [ok_or rbind]. by rewrite verify_sign.
Qed.

(** C31: a token the kernel signs verifies, under a resolver that knows the key, to the
    payload it was made from, exactly while [nbf <= now < exp]; before and after it is
    refused as not yet valid and as expired. *)
Theorem token_round_trip p k resolve_key now :
  payload_ok p -> reads_back p -> key_id_ok (kp_key_id k) ->
  resolve_key (kp_key_id k) = Some (public k) ->
  verify_token (encode_token p k) resolve_key now =
  if now <? nbf p then Err NotYetValid else if exp p <=? now then Err Expired else Ok p.
Proof. apply verify_encoded. Qed.

(** C30: whatever verifies carries a signature, valid under the key its identifier
    resolves to, over exactly the bytes the returned payload was read from, and the
    clock is inside the payload's window. *)
Theorem verify_token_sound token resolve_key now p :
  verify_token token resolve_key now = Ok p ->
  exists bytes signature id key,
    split_on "." (trim token) = [TOKEN_PREFIX; bytes; signature; id] /\
    resolve_key id = Some key /\
    (exists raw, base64_decode bytes = Some raw /\ verify key raw signature = true /\
                 parse_json raw ≫= de_payload = Some p) /\
    nbf p <= now < exp p.
Proof.
  unfold verify_token, decode_token. intros Hv.
  apply rbind_ok in Hv as (d & Hd & Hv).
  destruct (split_on "." (trim token)) as [|p0 [|p1 [|p2 [|p3 [|]]]]] eqn:Hs; try discriminate Hd.
  destruct (String.eqb_spec p0 TOKEN_PREFIX) as [->|]; [|discriminate Hd]. simpl in Hd.
  inv_ok. destruct (negb _ || _) in *; [discriminate|]. inv_ok. simpl in *.
  destruct (verify _ _ _) eqn:Hver in Hv; [|discriminate Hv]. simpl in Hv.
  destruct (Z.ltb_spec now (nbf a1)); [discriminate Hv|].
  destruct (Z.leb_spec (exp a1) now); [discriminate Hv|].
  injection Hv as <-. exists p1, p2, p3, a. repeat split; eauto; lia.
Qed.
End Tokens.

(** ** Witnesses: the source's example remit under the concrete crypto *)

Definition example_key : @KeyPair Concrete.crypto :=
  @Build_KeyPair Concrete.crypto "key_x" "secret".

(** A parser that knows the one text. *)
Definition example_json_text : JsonText :=
  {| parse_json := fun text =>
       if String.eqb text (@canonical_bytes mantissa_format (ser_payload example_remit))
       then Some (ser_payload example_remit) else None |}.

Definition example_resolver (id : string) : option (@PublicKey Concrete.crypto) :=
  if String.eqb id "key_x" then Some (@public Concrete.crypto example_key) else None.

Definition example_token : string :=
  @encode_token mantissa_format Concrete.crypto example_remit example_key.

Lemma example_remit_ok : payload_ok example_remit.
Proof.
  constructor; simpl; try (unfold i64_ok, i64_min, i64_max; lia); [|done].
  intros u [= <-]. reflexivity.
Qed.

Lemma example_reads_back : @reads_back mantissa_format example_json_text example_remit.
Proof. unfold reads_back. cbn [parse_json example_json_text]. by rewrite String.eqb_refl. Qed.

Lemma token_round_trip_witness :
  @verify_token Concrete.crypto example_json_text example_token example_resolver 5000 = Ok example_remit.
Proof.
  refine (@token_round_trip mantissa_format Concrete.crypto Concrete.crypto_ok example_json_text
    example_remit example_key example_resolver 5000 example_remit_ok example_reads_back _ eq_refl).
  split; [discriminate | reflexivity | reflexivity].
Defined.

Lemma verify_token_sound_witness :
  exists bytes signature id key,
    split_on "." (trim example_token) = [TOKEN_PREFIX; bytes; signature; id] /\
    example_resolver id = Some key /\
    (exists raw, @base64_decode Concrete.crypto bytes = Some raw /\
                 @verify Concrete.crypto key raw signature = true /\
                 @parse_json example_json_text raw ≫= de_payload = Some example_remit) /\
    nbf example_remit <= 5000 < exp example_remit.
Proof.
  apply (@verify_token_sound Concrete.crypto example_json_text).
  vm_compute. reflexivity.
Defined.
