(* ===== verification/Payloads.v ===== *)
(** * Event kinds and payloads ([kernos-core/src/events.rs])

    The 32 kinds of the event log with their wire names, and the typed payload of each with
    its derived JSON encoding and decoding.  [EventPayload] is the source's trait; [payload]
    is the sum of its implementors. *)

From S2P Require Import Prelude Text F64 Json.
From Stdlib Require Import Ascii SpecFloat.

Local Open Scope string_scope.
Local Open Scope list_scope.
Local Open Scope Z_scope.

(** ** Kinds *)

Module Kind.
Inductive t : Type :=
| RunCreated | StepScheduled | StepLeased | StepLeaseExpired | StepCompleted
| StepFailed | StepRetryScheduled | StepQuarantined | StepEscalated | StepWaitingApproval
| ModelCalled | ModelResponded | ToolCalled | ToolResult | ToolRefused
| ActionProposed | PolicyDecided | ApprovalRequested | ApprovalDecided | ApprovalEscalated
| UsageRecorded | BudgetSoftThreshold | BudgetExceeded | RunParked | RunResumed
| RunAbandoned | CompensationScheduled | CompensationCompleted | CompensationFailed | RunCompleted
| RunFailed | Note.

#[global] Instance eq_dec : EqDecision t.
Proof. solve_decision. Defined.

Definition ALL : list t :=
  [RunCreated; StepScheduled; StepLeased; StepLeaseExpired; StepCompleted;
   StepFailed; StepRetryScheduled; StepQuarantined; StepEscalated; StepWaitingApproval;
   ModelCalled; ModelResponded; ToolCalled; ToolResult; ToolRefused;
   ActionProposed; PolicyDecided; ApprovalRequested; ApprovalDecided; ApprovalEscalated;
   UsageRecorded; BudgetSoftThreshold; BudgetExceeded; RunParked; RunResumed;
   RunAbandoned; CompensationScheduled; CompensationCompleted; CompensationFailed; RunCompleted;
   RunFailed; Note].

Definition as_str (k : t) : string :=
  match k with
  | RunCreated => "run.created"
  | StepScheduled => "step.scheduled"
  | StepLeased => "step.leased"
  | StepLeaseExpired => "step.lease_expired"
  | StepCompleted => "step.completed"
  | StepFailed => "step.failed"
  | StepRetryScheduled => "step.retry_scheduled"
  | StepQuarantined => "step.quarantined"
  | StepEscalated => "step.escalated"
  | StepWaitingApproval => "step.waiting_approval"
  | ModelCalled => "model.called"
  | ModelResponded => "model.responded"
  | ToolCalled => "tool.called"
  | ToolResult => "tool.result"
  | ToolRefused => "tool.refused"
  | ActionProposed => "action.proposed"
  | PolicyDecided => "policy.decided"
  | ApprovalRequested => "approval.requested"
  | ApprovalDecided => "approval.decided"
  | ApprovalEscalated => "approval.escalated"
  | UsageRecorded => "usage.recorded"
  | BudgetSoftThreshold => "budget.soft_threshold"
  | BudgetExceeded => "budget.exceeded"
  | RunParked => "run.parked"
  | RunResumed => "run.resumed"
  | RunAbandoned => "run.abandoned"
  | CompensationScheduled => "compensation.scheduled"
  | CompensationCompleted => "compensation.completed"
  | CompensationFailed => "compensation.failed"
  | RunCompleted => "run.completed"
  | RunFailed => "run.failed"
  | Note => "note"
  end.

Definition parse (name : string) : option t :=
  if String.eqb name "run.created" then Some RunCreated
  else if String.eqb name "step.scheduled" then Some StepScheduled
  else if String.eqb name "step.leased" then Some StepLeased
  else if String.eqb name "step.lease_expired" then Some StepLeaseExpired
  else if String.eqb name "step.completed" then Some StepCompleted
  else if String.eqb name "step.failed" then Some StepFailed
  else if String.eqb name "step.retry_scheduled" then Some StepRetryScheduled
  else if String.eqb name "step.quarantined" then Some StepQuarantined
  else if String.eqb name "step.escalated" then Some StepEscalated
  else if String.eqb name "step.waiting_approval" then Some StepWaitingApproval
  else if String.eqb name "model.called" then Some ModelCalled
  else if String.eqb name "model.responded" then Some ModelResponded
  else if String.eqb name "tool.called" then Some ToolCalled
  else if String.eqb name "tool.result" then Some ToolResult
  else if String.eqb name "tool.refused" then Some ToolRefused
  else if String.eqb name "action.proposed" then Some ActionProposed
  else if String.eqb name "policy.decided" then Some PolicyDecided
  else if String.eqb name "approval.requested" then Some ApprovalRequested
  else if String.eqb name "approval.decided" then Some ApprovalDecided
  else if String.eqb name "approval.escalated" then Some ApprovalEscalated
  else if String.eqb name "usage.recorded" then Some UsageRecorded
  else if String.eqb name "budget.soft_threshold" then Some BudgetSoftThreshold
  else if String.eqb name "budget.exceeded" then Some BudgetExceeded
  else if String.eqb name "run.parked" then Some RunParked
  else if String.eqb name "run.resumed" then Some RunResumed
  else if String.eqb name "run.abandoned" then Some RunAbandoned
  else if String.eqb name "compensation.scheduled" then Some CompensationScheduled
  else if String.eqb name "compensation.completed" then Some CompensationCompleted
  else if String.eqb name "compensation.failed" then Some CompensationFailed
  else if String.eqb name "run.completed" then Some RunCompleted
  else if String.eqb name "run.failed" then Some RunFailed
  else if String.eqb name "note" then Some Note
  else None.

(** The kinds workers and the gateway may append. *)
Definition is_external (k : t) : bool :=
  match k with
  | StepEscalated | ModelCalled | ModelResponded | ToolCalled | ToolResult | ToolRefused | Note => true
  | _ => false
  end.
End Kind.

Abbreviation EventKind := Kind.t.

(** ** Payloads *)

(** The trait: a payload type, its kind and its JSON. *)
Class EventPayload (P : Type) := {
  KIND : EventKind;
  to_value : P -> json;
  from_value : json -> option P }.
Arguments KIND P {_}.

Definition ser_list {A} (s : A -> json) (l : list A) : json := JArr (map s l).

(** The structs payloads share. *)

Record ErrorInfo := { ei_code : string; ei_message : string }.

Definition ser_ErrorInfo (p : ErrorInfo) : json :=
  obj [("code", JStr (ei_code p)); ("message", JStr (ei_message p))].

Definition de_ErrorInfo (j : json) : option ErrorInfo :=
  fs ← struct_fields ["code"; "message"] j;
  code ← req de_string "code" fs;
  message ← req de_string "message" fs;
  Some {| ei_code := code; ei_message := message |}.

Record BudgetSpec := { bg_tokens : option Z; bg_usd : option f64; bg_soft_ratio : f64 }.

Definition ser_BudgetSpec (p : BudgetSpec) : json :=
  obj [("tokens", ser_option json_u64 (bg_tokens p)); ("usd", ser_option json_f64 (bg_usd p));
       ("soft_ratio", json_f64 (bg_soft_ratio p))].

Definition de_BudgetSpec (j : json) : option BudgetSpec :=
  fs ← struct_fields ["tokens"; "usd"; "soft_ratio"] j;
  tokens ← opt de_u64 "tokens" fs;
  usd ← opt de_f64 "usd" fs;
  soft_ratio ← req de_f64 "soft_ratio" fs;
  Some {| bg_tokens := tokens; bg_usd := usd; bg_soft_ratio := soft_ratio |}.

Record TokenUsage := { tu_input_tokens : Z; tu_output_tokens : Z; tu_cache_read_tokens : Z;
  tu_cache_write_tokens : Z }.

Definition ser_TokenUsage (p : TokenUsage) : json :=
  obj [("input_tokens", json_u64 (tu_input_tokens p));
       ("output_tokens", json_u64 (tu_output_tokens p));
       ("cache_read_tokens", json_u64 (tu_cache_read_tokens p));
       ("cache_write_tokens", json_u64 (tu_cache_write_tokens p))].

Definition TokenUsage_default : TokenUsage :=
  {| tu_input_tokens := 0; tu_output_tokens := 0; tu_cache_read_tokens := 0;
     tu_cache_write_tokens := 0 |}.

Definition de_TokenUsage (j : json) : option TokenUsage :=
  fs ← struct_fields ["input_tokens"; "output_tokens"; "cache_read_tokens";
                      "cache_write_tokens"] j;
  input_tokens ← dflt de_u64 "input_tokens" 0 fs;
  output_tokens ← dflt de_u64 "output_tokens" 0 fs;
  cache_read_tokens ← dflt de_u64 "cache_read_tokens" 0 fs;
  cache_write_tokens ← dflt de_u64 "cache_write_tokens" 0 fs;
  Some {| tu_input_tokens := input_tokens; tu_output_tokens := output_tokens;
          tu_cache_read_tokens := cache_read_tokens;
          tu_cache_write_tokens := cache_write_tokens |}.

Record PolicyRef := { pr_name : string; pr_version : Z }.

Definition ser_PolicyRef (p : PolicyRef) : json :=
  obj [("name", JStr (pr_name p)); ("version", json_u64 (pr_version p))].

Definition de_PolicyRef (j : json) : option PolicyRef :=
  fs ← struct_fields ["name"; "version"] j;
  name ← req de_string "name" fs;
  version ← req de_u64 "version" fs;
  Some {| pr_name := name; pr_version := version |}.

Record DecisionActor := { da_id : string; da_role : string }.

Definition ser_DecisionActor (p : DecisionActor) : json :=
  obj [("id", JStr (da_id p)); ("role", JStr (da_role p))].

Definition de_DecisionActor (j : json) : option DecisionActor :=
  fs ← struct_fields ["id"; "role"] j;
  id ← req de_string "id" fs;
  role ← req de_string "role" fs;
  Some {| da_id := id; da_role := role |}.


(** *** [RunCreated] *)

Record RunCreated := { rc_bundle_id : string; rc_bundle_name : string;
  rc_bundle_version : string; rc_workflow : string; rc_input : json; rc_remit_id : string;
  rc_requested_by : json; rc_budget : BudgetSpec; rc_department : option string }.

Definition ser_RunCreated (p : RunCreated) : json :=
  obj ([("bundle_id", JStr (rc_bundle_id p)); ("bundle_name", JStr (rc_bundle_name p));
       ("bundle_version", JStr (rc_bundle_version p)); ("workflow", JStr (rc_workflow p));
       ("input", rc_input p); ("remit_id", JStr (rc_remit_id p));
       ("requested_by", rc_requested_by p); ("budget", ser_BudgetSpec (rc_budget p))] ++
       skip_none "department" JStr (rc_department p)).

Definition de_RunCreated (j : json) : option RunCreated :=
  fs ← struct_fields ["bundle_id"; "bundle_name"; "bundle_version"; "workflow"; "input";
                      "remit_id"; "requested_by"; "budget"; "department"] j;
  bundle_id ← req de_string "bundle_id" fs;
  bundle_name ← req de_string "bundle_name" fs;
  bundle_version ← req de_string "bundle_version" fs;
  workflow ← req de_string "workflow" fs;
  input ← req de_value "input" fs;
  remit_id ← req de_string "remit_id" fs;
  requested_by ← req de_value "requested_by" fs;
  budget ← req de_BudgetSpec "budget" fs;
  department ← dflt (de_option de_string) "department" None fs;
  Some {| rc_bundle_id := bundle_id; rc_bundle_name := bundle_name;
          rc_bundle_version := bundle_version; rc_workflow := workflow; rc_input := input;
          rc_remit_id := remit_id; rc_requested_by := requested_by; rc_budget := budget;
          rc_department := department |}.

#[export] Instance RunCreated_payload : EventPayload RunCreated :=
  {| KIND := Kind.RunCreated; to_value := ser_RunCreated; from_value := de_RunCreated |}.

(** *** [StepScheduled] *)

Record StepScheduled := { ss_step : string; ss_index : Z; ss_kind : string }.

Definition ser_StepScheduled (p : StepScheduled) : json :=
  obj [("step", JStr (ss_step p)); ("index", json_u64 (ss_index p)); ("kind", JStr (ss_kind p))].

Definition de_StepScheduled (j : json) : option StepScheduled :=
  fs ← struct_fields ["step"; "index"; "kind"] j;
  step ← req de_string "step" fs;
  index ← req de_u32 "index" fs;
  kind ← req de_string "kind" fs;
  Some {| ss_step := step; ss_index := index; ss_kind := kind |}.

#[export] Instance StepScheduled_payload : EventPayload StepScheduled :=
  {| KIND := Kind.StepScheduled; to_value := ser_StepScheduled; from_value := de_StepScheduled |}.

(** *** [StepLeased] *)

Record StepLeased := { sl_step : string; sl_lease_id : string; sl_worker_id : string;
  sl_attempt : Z; sl_expires_at : string }.

Definition ser_StepLeased (p : StepLeased) : json :=
  obj [("step", JStr (sl_step p)); ("lease_id", JStr (sl_lease_id p));
       ("worker_id", JStr (sl_worker_id p)); ("attempt", json_u64 (sl_attempt p));
       ("expires_at", JStr (sl_expires_at p))].

Definition de_StepLeased (j : json) : option StepLeased :=
  fs ← struct_fields ["step"; "lease_id"; "worker_id"; "attempt"; "expires_at"] j;
  step ← req de_string "step" fs;
  lease_id ← req de_string "lease_id" fs;
  worker_id ← req de_string "worker_id" fs;
  attempt ← req de_u32 "attempt" fs;
  expires_at ← req de_string "expires_at" fs;
  Some {| sl_step := step; sl_lease_id := lease_id; sl_worker_id := worker_id;
          sl_attempt := attempt; sl_expires_at := expires_at |}.

#[export] Instance StepLeased_payload : EventPayload StepLeased :=
  {| KIND := Kind.StepLeased; to_value := ser_StepLeased; from_value := de_StepLeased |}.

(** *** [StepLeaseExpired] *)

Record StepLeaseExpired := { sle_step : string; sle_lease_id : string; sle_worker_id : string }.

Definition ser_StepLeaseExpired (p : StepLeaseExpired) : json :=
  obj [("step", JStr (sle_step p)); ("lease_id", JStr (sle_lease_id p));
       ("worker_id", JStr (sle_worker_id p))].

Definition de_StepLeaseExpired (j : json) : option StepLeaseExpired :=
  fs ← struct_fields ["step"; "lease_id"; "worker_id"] j;
  step ← req de_string "step" fs;
  lease_id ← req de_string "lease_id" fs;
  worker_id ← req de_string "worker_id" fs;
  Some {| sle_step := step; sle_lease_id := lease_id; sle_worker_id := worker_id |}.

#[export] Instance StepLeaseExpired_payload : EventPayload StepLeaseExpired :=
  {| KIND := Kind.StepLeaseExpired; to_value := ser_StepLeaseExpired; from_value := de_StepLeaseExpired |}.

(** *** [StepCompleted] *)

Record StepCompleted := { sc_step : string; sc_lease_id : string; sc_attempt : Z;
  sc_output : json }.

Definition ser_StepCompleted (p : StepCompleted) : json :=
  obj [("step", JStr (sc_step p)); ("lease_id", JStr (sc_lease_id p));
       ("attempt", json_u64 (sc_attempt p)); ("output", sc_output p)].

Definition de_StepCompleted (j : json) : option StepCompleted :=
  fs ← struct_fields ["step"; "lease_id"; "attempt"; "output"] j;
  step ← req de_string "step" fs;
  lease_id ← req de_string "lease_id" fs;
  attempt ← req de_u32 "attempt" fs;
  output ← req de_value "output" fs;
  Some {| sc_step := step; sc_lease_id := lease_id; sc_attempt := attempt;
          sc_output := output |}.

#[export] Instance StepCompleted_payload : EventPayload StepCompleted :=
  {| KIND := Kind.StepCompleted; to_value := ser_StepCompleted; from_value := de_StepCompleted |}.

(** *** [StepFailed] *)

Record StepFailed := { sf_step : string; sf_lease_id : option string; sf_attempt : Z;
  sf_error : ErrorInfo; sf_deterministic : bool }.

Definition ser_StepFailed (p : StepFailed) : json :=
  obj [("step", JStr (sf_step p)); ("lease_id", ser_option JStr (sf_lease_id p));
       ("attempt", json_u64 (sf_attempt p)); ("error", ser_ErrorInfo (sf_error p));
       ("deterministic", JBool (sf_deterministic p))].

Definition de_StepFailed (j : json) : option StepFailed :=
  fs ← struct_fields ["step"; "lease_id"; "attempt"; "error"; "deterministic"] j;
  step ← req de_string "step" fs;
  lease_id ← opt de_string "lease_id" fs;
  attempt ← req de_u32 "attempt" fs;
  error ← req de_ErrorInfo "error" fs;
  deterministic ← req de_bool "deterministic" fs;
  Some {| sf_step := step; sf_lease_id := lease_id; sf_attempt := attempt; sf_error := error;
          sf_deterministic := deterministic |}.

#[export] Instance StepFailed_payload : EventPayload StepFailed :=
  {| KIND := Kind.StepFailed; to_value := ser_StepFailed; from_value := de_StepFailed |}.

(** *** [StepRetryScheduled] *)

Record StepRetryScheduled := { sr_step : string; sr_attempt : Z; sr_delay_ms : Z }.

Definition ser_StepRetryScheduled (p : StepRetryScheduled) : json :=
  obj [("step", JStr (sr_step p)); ("attempt", json_u64 (sr_attempt p));
       ("delay_ms", json_u64 (sr_delay_ms p))].

Definition de_StepRetryScheduled (j : json) : option StepRetryScheduled :=
  fs ← struct_fields ["step"; "attempt"; "delay_ms"] j;
  step ← req de_string "step" fs;
  attempt ← req de_u32 "attempt" fs;
  delay_ms ← req de_u64 "delay_ms" fs;
  Some {| sr_step := step; sr_attempt := attempt; sr_delay_ms := delay_ms |}.

#[export] Instance StepRetryScheduled_payload : EventPayload StepRetryScheduled :=
  {| KIND := Kind.StepRetryScheduled; to_value := ser_StepRetryScheduled; from_value := de_StepRetryScheduled |}.

(** *** [StepQuarantined] *)

Record StepQuarantined := { sq_step : string; sq_reason : string; sq_attempts : Z }.

Definition ser_StepQuarantined (p : StepQuarantined) : json :=
  obj [("step", JStr (sq_step p)); ("reason", JStr (sq_reason p));
       ("attempts", json_u64 (sq_attempts p))].

Definition de_StepQuarantined (j : json) : option StepQuarantined :=
  fs ← struct_fields ["step"; "reason"; "attempts"] j;
  step ← req de_string "step" fs;
  reason ← req de_string "reason" fs;
  attempts ← req de_u32 "attempts" fs;
  Some {| sq_step := step; sq_reason := reason; sq_attempts := attempts |}.

#[export] Instance StepQuarantined_payload : EventPayload StepQuarantined :=
  {| KIND := Kind.StepQuarantined; to_value := ser_StepQuarantined; from_value := de_StepQuarantined |}.

(** *** [StepEscalated] *)

Record StepEscalated := { se_step : string; se_from_tier : string; se_to_tier : string;
  se_reason : string }.

Definition ser_StepEscalated (p : StepEscalated) : json :=
  obj [("step", JStr (se_step p)); ("from_tier", JStr (se_from_tier p));
       ("to_tier", JStr (se_to_tier p)); ("reason", JStr (se_reason p))].

Definition de_StepEscalated (j : json) : option StepEscalated :=
  fs ← struct_fields ["step"; "from_tier"; "to_tier"; "reason"] j;
  step ← req de_string "step" fs;
  from_tier ← req de_string "from_tier" fs;
  to_tier ← req de_string "to_tier" fs;
  reason ← req de_string "reason" fs;
  Some {| se_step := step; se_from_tier := from_tier; se_to_tier := to_tier;
          se_reason := reason |}.

#[export] Instance StepEscalated_payload : EventPayload StepEscalated :=
  {| KIND := Kind.StepEscalated; to_value := ser_StepEscalated; from_value := de_StepEscalated |}.

(** *** [StepWaitingApproval] *)

Record StepWaitingApproval := { sw_step : string; sw_action_id : string;
  sw_approval_id : string }.

Definition ser_StepWaitingApproval (p : StepWaitingApproval) : json :=
  obj [("step", JStr (sw_step p)); ("action_id", JStr (sw_action_id p));
       ("approval_id", JStr (sw_approval_id p))].

Definition de_StepWaitingApproval (j : json) : option StepWaitingApproval :=
  fs ← struct_fields ["step"; "action_id"; "approval_id"] j;
  step ← req de_string "step" fs;
  action_id ← req de_string "action_id" fs;
  approval_id ← req de_string "approval_id" fs;
  Some {| sw_step := step; sw_action_id := action_id; sw_approval_id := approval_id |}.

#[export] Instance StepWaitingApproval_payload : EventPayload StepWaitingApproval :=
  {| KIND := Kind.StepWaitingApproval; to_value := ser_StepWaitingApproval; from_value := de_StepWaitingApproval |}.

(** *** [ModelCalled] *)

Record ModelCalled := { mc_step : string; mc_model : string; mc_tier : string;
  mc_effort : string; mc_provider : string; mc_prefix_hash : string; mc_input_hash : string;
  mc_max_tokens : Z }.

Definition ser_ModelCalled (p : ModelCalled) : json :=
  obj [("step", JStr (mc_step p)); ("model", JStr (mc_model p)); ("tier", JStr (mc_tier p));
       ("effort", JStr (mc_effort p)); ("provider", JStr (mc_provider p));
       ("prefix_hash", JStr (mc_prefix_hash p)); ("input_hash", JStr (mc_input_hash p));
       ("max_tokens", json_u64 (mc_max_tokens p))].

Definition de_ModelCalled (j : json) : option ModelCalled :=
  fs ← struct_fields ["step"; "model"; "tier"; "effort"; "provider"; "prefix_hash"; "input_hash";
                      "max_tokens"] j;
  step ← req de_string "step" fs;
  model ← dflt de_string "model" "" fs;
  tier ← dflt de_string "tier" "" fs;
  effort ← dflt de_string "effort" "" fs;
  provider ← dflt de_string "provider" "" fs;
  prefix_hash ← dflt de_string "prefix_hash" "" fs;
  input_hash ← dflt de_string "input_hash" "" fs;
  max_tokens ← dflt de_u64 "max_tokens" 0 fs;
  Some {| mc_step := step; mc_model := model; mc_tier := tier; mc_effort := effort;
          mc_provider := provider; mc_prefix_hash := prefix_hash; mc_input_hash := input_hash;
          mc_max_tokens := max_tokens |}.

#[export] Instance ModelCalled_payload : EventPayload ModelCalled :=
  {| KIND := Kind.ModelCalled; to_value := ser_ModelCalled; from_value := de_ModelCalled |}.

(** *** [ModelResponded] *)

Record ModelResponded := { mr_step : string; mr_output : json; mr_usage : TokenUsage;
  mr_cost_usd : f64; mr_stop_reason : string; mr_refusal : bool; mr_latency_ms : Z }.

Definition ser_ModelResponded (p : ModelResponded) : json :=
  obj [("step", JStr (mr_step p)); ("output", mr_output p);
       ("usage", ser_TokenUsage (mr_usage p)); ("cost_usd", json_f64 (mr_cost_usd p));
       ("stop_reason", JStr (mr_stop_reason p)); ("refusal", JBool (mr_refusal p));
       ("latency_ms", json_u64 (mr_latency_ms p))].

Definition de_ModelResponded (j : json) : option ModelResponded :=
  fs ← struct_fields ["step"; "output"; "usage"; "cost_usd"; "stop_reason"; "refusal";
                      "latency_ms"] j;
  step ← req de_string "step" fs;
  output ← dflt de_value "output" JNull fs;
  usage ← dflt de_TokenUsage "usage" TokenUsage_default fs;
  cost_usd ← dflt de_f64 "cost_usd" f64_zero fs;
  stop_reason ← dflt de_string "stop_reason" "" fs;
  refusal ← dflt de_bool "refusal" false fs;
  latency_ms ← dflt de_u64 "latency_ms" 0 fs;
  Some {| mr_step := step; mr_output := output; mr_usage := usage; mr_cost_usd := cost_usd;
          mr_stop_reason := stop_reason; mr_refusal := refusal; mr_latency_ms := latency_ms |}.

#[export] Instance ModelResponded_payload : EventPayload ModelResponded :=
  {| KIND := Kind.ModelResponded; to_value := ser_ModelResponded; from_value := de_ModelResponded |}.

(** *** [ToolCalled] *)

Record ToolCalled := { tc_step : string; tc_tool : string; tc_args : json;
  tc_scope : option string; tc_idempotency_key : option string }.

Definition ser_ToolCalled (p : ToolCalled) : json :=
  obj [("step", JStr (tc_step p)); ("tool", JStr (tc_tool p)); ("args", tc_args p);
       ("scope", ser_option JStr (tc_scope p));
       ("idempotency_key", ser_option JStr (tc_idempotency_key p))].

Definition de_ToolCalled (j : json) : option ToolCalled :=
  fs ← struct_fields ["step"; "tool"; "args"; "scope"; "idempotency_key"] j;
  step ← req de_string "step" fs;
  tool ← req de_string "tool" fs;
  args ← dflt de_value "args" JNull fs;
  scope ← dflt (de_option de_string) "scope" None fs;
  idempotency_key ← dflt (de_option de_string) "idempotency_key" None fs;
  Some {| tc_step := step; tc_tool := tool; tc_args := args; tc_scope := scope;
          tc_idempotency_key := idempotency_key |}.

#[export] Instance ToolCalled_payload : EventPayload ToolCalled :=
  {| KIND := Kind.ToolCalled; to_value := ser_ToolCalled; from_value := de_ToolCalled |}.

(** *** [ToolResult] *)

Record ToolResult := { tr_step : string; tr_tool : string; tr_ok : bool; tr_result : json;
  tr_replayed : bool; tr_latency_ms : Z }.

Definition ser_ToolResult (p : ToolResult) : json :=
  obj [("step", JStr (tr_step p)); ("tool", JStr (tr_tool p)); ("ok", JBool (tr_ok p));
       ("result", tr_result p); ("replayed", JBool (tr_replayed p));
       ("latency_ms", json_u64 (tr_latency_ms p))].

Definition de_ToolResult (j : json) : option ToolResult :=
  fs ← struct_fields ["step"; "tool"; "ok"; "result"; "replayed"; "latency_ms"] j;
  step ← req de_string "step" fs;
  tool ← req de_string "tool" fs;
  ok ← dflt de_bool "ok" false fs;
  result ← dflt de_value "result" JNull fs;
  replayed ← dflt de_bool "replayed" false fs;
  latency_ms ← dflt de_u64 "latency_ms" 0 fs;
  Some {| tr_step := step; tr_tool := tool; tr_ok := ok; tr_result := result;
          tr_replayed := replayed; tr_latency_ms := latency_ms |}.

#[export] Instance ToolResult_payload : EventPayload ToolResult :=
  {| KIND := Kind.ToolResult; to_value := ser_ToolResult; from_value := de_ToolResult |}.

(** *** [ToolRefused] *)

Record ToolRefused := { tf_step : string; tf_tool : string; tf_reason : string;
  tf_remit_id : option string; tf_detail : json }.

Definition ser_ToolRefused (p : ToolRefused) : json :=
  obj [("step", JStr (tf_step p)); ("tool", JStr (tf_tool p)); ("reason", JStr (tf_reason p));
       ("remit_id", ser_option JStr (tf_remit_id p)); ("detail", tf_detail p)].

Definition de_ToolRefused (j : json) : option ToolRefused :=
  fs ← struct_fields ["step"; "tool"; "reason"; "remit_id"; "detail"] j;
  step ← req de_string "step" fs;
  tool ← req de_string "tool" fs;
  reason ← req de_string "reason" fs;
  remit_id ← dflt (de_option de_string) "remit_id" None fs;
  detail ← dflt de_value "detail" JNull fs;
  Some {| tf_step := step; tf_tool := tool; tf_reason := reason; tf_remit_id := remit_id;
          tf_detail := detail |}.

#[export] Instance ToolRefused_payload : EventPayload ToolRefused :=
  {| KIND := Kind.ToolRefused; to_value := ser_ToolRefused; from_value := de_ToolRefused |}.

(** *** [ActionProposed] *)

Record ActionProposed := { ap_action_id : string; ap_step : string; ap_action : json }.

Definition ser_ActionProposed (p : ActionProposed) : json :=
  obj [("action_id", JStr (ap_action_id p)); ("step", JStr (ap_step p));
       ("action", ap_action p)].

Definition de_ActionProposed (j : json) : option ActionProposed :=
  fs ← struct_fields ["action_id"; "step"; "action"] j;
  action_id ← req de_string "action_id" fs;
  step ← req de_string "step" fs;
  action ← req de_value "action" fs;
  Some {| ap_action_id := action_id; ap_step := step; ap_action := action |}.

#[export] Instance ActionProposed_payload : EventPayload ActionProposed :=
  {| KIND := Kind.ActionProposed; to_value := ser_ActionProposed; from_value := de_ActionProposed |}.

(** *** [PolicyDecided] *)

Record PolicyDecided := { pd_action_id : string; pd_decision : string; pd_rule : string;
  pd_policy : option string; pd_policy_version : json; pd_approver : json;
  pd_sla_seconds : option Z; pd_escalate_to : json; pd_policy_set : option (list PolicyRef) }.

Definition ser_PolicyDecided (p : PolicyDecided) : json :=
  obj ([("action_id", JStr (pd_action_id p)); ("decision", JStr (pd_decision p));
       ("rule", JStr (pd_rule p)); ("policy", ser_option JStr (pd_policy p));
       ("policy_version", pd_policy_version p); ("approver", pd_approver p);
       ("sla_seconds", ser_option json_u64 (pd_sla_seconds p));
       ("escalate_to", pd_escalate_to p)] ++
       skip_none "policy_set" (ser_list ser_PolicyRef) (pd_policy_set p)).

Definition de_PolicyDecided (j : json) : option PolicyDecided :=
  fs ← struct_fields ["action_id"; "decision"; "rule"; "policy"; "policy_version"; "approver";
                      "sla_seconds"; "escalate_to"; "policy_set"] j;
  action_id ← req de_string "action_id" fs;
  decision ← req de_string "decision" fs;
  rule ← req de_string "rule" fs;
  policy ← opt de_string "policy" fs;
  policy_version ← req de_value "policy_version" fs;
  approver ← req de_value "approver" fs;
  sla_seconds ← opt de_u64 "sla_seconds" fs;
  escalate_to ← req de_value "escalate_to" fs;
  policy_set ← dflt (de_option (de_list de_PolicyRef)) "policy_set" None fs;
  Some {| pd_action_id := action_id; pd_decision := decision; pd_rule := rule;
          pd_policy := policy; pd_policy_version := policy_version; pd_approver := approver;
          pd_sla_seconds := sla_seconds; pd_escalate_to := escalate_to;
          pd_policy_set := policy_set |}.

#[export] Instance PolicyDecided_payload : EventPayload PolicyDecided :=
  {| KIND := Kind.PolicyDecided; to_value := ser_PolicyDecided; from_value := de_PolicyDecided |}.

(** *** [ApprovalRequested] *)

Record ApprovalRequested := { ar_approval_id : string; ar_action_id : string; ar_approver : json;
  ar_sla_seconds : Z; ar_escalate_to : json; ar_due_at : string }.

Definition ser_ApprovalRequested (p : ApprovalRequested) : json :=
  obj [("approval_id", JStr (ar_approval_id p)); ("action_id", JStr (ar_action_id p));
       ("approver", ar_approver p); ("sla_seconds", json_u64 (ar_sla_seconds p));
       ("escalate_to", ar_escalate_to p); ("due_at", JStr (ar_due_at p))].

Definition de_ApprovalRequested (j : json) : option ApprovalRequested :=
  fs ← struct_fields ["approval_id"; "action_id"; "approver"; "sla_seconds"; "escalate_to";
                      "due_at"] j;
  approval_id ← req de_string "approval_id" fs;
  action_id ← req de_string "action_id" fs;
  approver ← req de_value "approver" fs;
  sla_seconds ← req de_u64 "sla_seconds" fs;
  escalate_to ← req de_value "escalate_to" fs;
  due_at ← req de_string "due_at" fs;
  Some {| ar_approval_id := approval_id; ar_action_id := action_id; ar_approver := approver;
          ar_sla_seconds := sla_seconds; ar_escalate_to := escalate_to; ar_due_at := due_at |}.

#[export] Instance ApprovalRequested_payload : EventPayload ApprovalRequested :=
  {| KIND := Kind.ApprovalRequested; to_value := ser_ApprovalRequested; from_value := de_ApprovalRequested |}.

(** *** [ApprovalDecided] *)

Record ApprovalDecided := { ad_approval_id : string; ad_action_id : string; ad_decision : string;
  ad_actor : DecisionActor; ad_reason : string }.

Definition ser_ApprovalDecided (p : ApprovalDecided) : json :=
  obj [("approval_id", JStr (ad_approval_id p)); ("action_id", JStr (ad_action_id p));
       ("decision", JStr (ad_decision p)); ("actor", ser_DecisionActor (ad_actor p));
       ("reason", JStr (ad_reason p))].

Definition de_ApprovalDecided (j : json) : option ApprovalDecided :=
  fs ← struct_fields ["approval_id"; "action_id"; "decision"; "actor"; "reason"] j;
  approval_id ← req de_string "approval_id" fs;
  action_id ← req de_string "action_id" fs;
  decision ← req de_string "decision" fs;
  actor ← req de_DecisionActor "actor" fs;
  reason ← req de_string "reason" fs;
  Some {| ad_approval_id := approval_id; ad_action_id := action_id; ad_decision := decision;
          ad_actor := actor; ad_reason := reason |}.

#[export] Instance ApprovalDecided_payload : EventPayload ApprovalDecided :=
  {| KIND := Kind.ApprovalDecided; to_value := ser_ApprovalDecided; from_value := de_ApprovalDecided |}.

(** *** [ApprovalEscalated] *)

Record ApprovalEscalated := { ae_approval_id : string; ae_from : json; ae_to : json;
  ae_reason : string; ae_due_at : option string }.

Definition ser_ApprovalEscalated (p : ApprovalEscalated) : json :=
  obj ([("approval_id", JStr (ae_approval_id p)); ("from", ae_from p); ("to", ae_to p);
       ("reason", JStr (ae_reason p))] ++ skip_none "due_at" JStr (ae_due_at p)).

Definition de_ApprovalEscalated (j : json) : option ApprovalEscalated :=
  fs ← struct_fields ["approval_id"; "from"; "to"; "reason"; "due_at"] j;
  approval_id ← req de_string "approval_id" fs;
  from_ ← req de_value "from" fs;
  to_ ← req de_value "to" fs;
  reason ← req de_string "reason" fs;
  due_at ← dflt (de_option de_string) "due_at" None fs;
  Some {| ae_approval_id := approval_id; ae_from := from_; ae_to := to_; ae_reason := reason;
          ae_due_at := due_at |}.

#[export] Instance ApprovalEscalated_payload : EventPayload ApprovalEscalated :=
  {| KIND := Kind.ApprovalEscalated; to_value := ser_ApprovalEscalated; from_value := de_ApprovalEscalated |}.

(** *** [UsageRecorded] *)

Record UsageRecorded := { ur_step : string; ur_tokens : Z; ur_usd : f64;
  ur_cumulative_tokens : Z; ur_cumulative_usd : f64 }.

Definition ser_UsageRecorded (p : UsageRecorded) : json :=
  obj [("step", JStr (ur_step p)); ("tokens", json_u64 (ur_tokens p));
       ("usd", json_f64 (ur_usd p)); ("cumulative_tokens", json_u64 (ur_cumulative_tokens p));
       ("cumulative_usd", json_f64 (ur_cumulative_usd p))].

Definition de_UsageRecorded (j : json) : option UsageRecorded :=
  fs ← struct_fields ["step"; "tokens"; "usd"; "cumulative_tokens"; "cumulative_usd"] j;
  step ← req de_string "step" fs;
  tokens ← req de_u64 "tokens" fs;
  usd ← req de_f64 "usd" fs;
  cumulative_tokens ← req de_u64 "cumulative_tokens" fs;
  cumulative_usd ← req de_f64 "cumulative_usd" fs;
  Some {| ur_step := step; ur_tokens := tokens; ur_usd := usd;
          ur_cumulative_tokens := cumulative_tokens; ur_cumulative_usd := cumulative_usd |}.

#[export] Instance UsageRecorded_payload : EventPayload UsageRecorded :=
  {| KIND := Kind.UsageRecorded; to_value := ser_UsageRecorded; from_value := de_UsageRecorded |}.

(** *** [BudgetSoftThreshold] *)

Record BudgetSoftThreshold := { bs_cumulative_usd : option f64; bs_ceiling_usd : option f64;
  bs_cumulative_tokens : option Z; bs_ceiling_tokens : option Z; bs_ratio : f64 }.

Definition ser_BudgetSoftThreshold (p : BudgetSoftThreshold) : json :=
  obj (skip_none "cumulative_usd" json_f64 (bs_cumulative_usd p) ++
       skip_none "ceiling_usd" json_f64 (bs_ceiling_usd p) ++
       skip_none "cumulative_tokens" json_u64 (bs_cumulative_tokens p) ++
       skip_none "ceiling_tokens" json_u64 (bs_ceiling_tokens p) ++
       [("ratio", json_f64 (bs_ratio p))]).

Definition de_BudgetSoftThreshold (j : json) : option BudgetSoftThreshold :=
  fs ← struct_fields ["cumulative_usd"; "ceiling_usd"; "cumulative_tokens"; "ceiling_tokens";
                      "ratio"] j;
  cumulative_usd ← dflt (de_option de_f64) "cumulative_usd" None fs;
  ceiling_usd ← dflt (de_option de_f64) "ceiling_usd" None fs;
  cumulative_tokens ← dflt (de_option de_u64) "cumulative_tokens" None fs;
  ceiling_tokens ← dflt (de_option de_u64) "ceiling_tokens" None fs;
  ratio ← req de_f64 "ratio" fs;
  Some {| bs_cumulative_usd := cumulative_usd; bs_ceiling_usd := ceiling_usd;
          bs_cumulative_tokens := cumulative_tokens; bs_ceiling_tokens := ceiling_tokens;
          bs_ratio := ratio |}.

#[export] Instance BudgetSoftThreshold_payload : EventPayload BudgetSoftThreshold :=
  {| KIND := Kind.BudgetSoftThreshold; to_value := ser_BudgetSoftThreshold; from_value := de_BudgetSoftThreshold |}.

(** *** [BudgetExceeded] *)

Record BudgetExceeded := { be_cumulative_usd : option f64; be_ceiling_usd : option f64;
  be_cumulative_tokens : option Z; be_ceiling_tokens : option Z }.

Definition ser_BudgetExceeded (p : BudgetExceeded) : json :=
  obj (skip_none "cumulative_usd" json_f64 (be_cumulative_usd p) ++
       skip_none "ceiling_usd" json_f64 (be_ceiling_usd p) ++
       skip_none "cumulative_tokens" json_u64 (be_cumulative_tokens p) ++
       skip_none "ceiling_tokens" json_u64 (be_ceiling_tokens p)).

Definition de_BudgetExceeded (j : json) : option BudgetExceeded :=
  fs ← struct_fields ["cumulative_usd"; "ceiling_usd"; "cumulative_tokens"; "ceiling_tokens"] j;
  cumulative_usd ← dflt (de_option de_f64) "cumulative_usd" None fs;
  ceiling_usd ← dflt (de_option de_f64) "ceiling_usd" None fs;
  cumulative_tokens ← dflt (de_option de_u64) "cumulative_tokens" None fs;
  ceiling_tokens ← dflt (de_option de_u64) "ceiling_tokens" None fs;
  Some {| be_cumulative_usd := cumulative_usd; be_ceiling_usd := ceiling_usd;
          be_cumulative_tokens := cumulative_tokens; be_ceiling_tokens := ceiling_tokens |}.

#[export] Instance BudgetExceeded_payload : EventPayload BudgetExceeded :=
  {| KIND := Kind.BudgetExceeded; to_value := ser_BudgetExceeded; from_value := de_BudgetExceeded |}.

(** *** [RunParked] *)

Record RunParked := { rp_reason : string; rp_detail : string }.

Definition ser_RunParked (p : RunParked) : json :=
  obj [("reason", JStr (rp_reason p)); ("detail", JStr (rp_detail p))].

Definition de_RunParked (j : json) : option RunParked :=
  fs ← struct_fields ["reason"; "detail"] j;
  reason ← req de_string "reason" fs;
  detail ← req de_string "detail" fs;
  Some {| rp_reason := reason; rp_detail := detail |}.

#[export] Instance RunParked_payload : EventPayload RunParked :=
  {| KIND := Kind.RunParked; to_value := ser_RunParked; from_value := de_RunParked |}.

(** *** [RunResumed] *)

Record RunResumed := { rr_reason : string; rr_actor : option json }.

Definition ser_RunResumed (p : RunResumed) : json :=
  obj ([("reason", JStr (rr_reason p))] ++ skip_none "actor" id (rr_actor p)).

Definition de_RunResumed (j : json) : option RunResumed :=
  fs ← struct_fields ["reason"; "actor"] j;
  reason ← req de_string "reason" fs;
  actor ← dflt (de_option de_value) "actor" None fs;
  Some {| rr_reason := reason; rr_actor := actor |}.

#[export] Instance RunResumed_payload : EventPayload RunResumed :=
  {| KIND := Kind.RunResumed; to_value := ser_RunResumed; from_value := de_RunResumed |}.

(** *** [RunAbandoned] *)

Record RunAbandoned := { ra_reason : string; ra_actor : json }.

Definition ser_RunAbandoned (p : RunAbandoned) : json :=
  obj [("reason", JStr (ra_reason p)); ("actor", ra_actor p)].

Definition de_RunAbandoned (j : json) : option RunAbandoned :=
  fs ← struct_fields ["reason"; "actor"] j;
  reason ← req de_string "reason" fs;
  actor ← req de_value "actor" fs;
  Some {| ra_reason := reason; ra_actor := actor |}.

#[export] Instance RunAbandoned_payload : EventPayload RunAbandoned :=
  {| KIND := Kind.RunAbandoned; to_value := ser_RunAbandoned; from_value := de_RunAbandoned |}.

(** *** [CompensationScheduled] *)

Record CompensationScheduled := { cs_step : string; cs_for_step : string; cs_tool : string;
  cs_args : json }.

Definition ser_CompensationScheduled (p : CompensationScheduled) : json :=
  obj [("step", JStr (cs_step p)); ("for_step", JStr (cs_for_step p));
       ("tool", JStr (cs_tool p)); ("args", cs_args p)].

Definition de_CompensationScheduled (j : json) : option CompensationScheduled :=
  fs ← struct_fields ["step"; "for_step"; "tool"; "args"] j;
  step ← req de_string "step" fs;
  for_step ← req de_string "for_step" fs;
  tool ← req de_string "tool" fs;
  args ← req de_value "args" fs;
  Some {| cs_step := step; cs_for_step := for_step; cs_tool := tool; cs_args := args |}.

#[export] Instance CompensationScheduled_payload : EventPayload CompensationScheduled :=
  {| KIND := Kind.CompensationScheduled; to_value := ser_CompensationScheduled; from_value := de_CompensationScheduled |}.

(** *** [CompensationCompleted] *)

Record CompensationCompleted := { cc_step : string; cc_for_step : string; cc_result : json }.

Definition ser_CompensationCompleted (p : CompensationCompleted) : json :=
  obj [("step", JStr (cc_step p)); ("for_step", JStr (cc_for_step p)); ("result", cc_result p)].

Definition de_CompensationCompleted (j : json) : option CompensationCompleted :=
  fs ← struct_fields ["step"; "for_step"; "result"] j;
  step ← req de_string "step" fs;
  for_step ← req de_string "for_step" fs;
  result ← req de_value "result" fs;
  Some {| cc_step := step; cc_for_step := for_step; cc_result := result |}.

#[export] Instance CompensationCompleted_payload : EventPayload CompensationCompleted :=
  {| KIND := Kind.CompensationCompleted; to_value := ser_CompensationCompleted; from_value := de_CompensationCompleted |}.

(** *** [CompensationFailed] *)

Record CompensationFailed := { cf_step : string; cf_for_step : string; cf_error : ErrorInfo }.

Definition ser_CompensationFailed (p : CompensationFailed) : json :=
  obj [("step", JStr (cf_step p)); ("for_step", JStr (cf_for_step p));
       ("error", ser_ErrorInfo (cf_error p))].

Definition de_CompensationFailed (j : json) : option CompensationFailed :=
  fs ← struct_fields ["step"; "for_step"; "error"] j;
  step ← req de_string "step" fs;
  for_step ← req de_string "for_step" fs;
  error ← req de_ErrorInfo "error" fs;
  Some {| cf_step := step; cf_for_step := for_step; cf_error := error |}.

#[export] Instance CompensationFailed_payload : EventPayload CompensationFailed :=
  {| KIND := Kind.CompensationFailed; to_value := ser_CompensationFailed; from_value := de_CompensationFailed |}.

(** *** [RunCompleted] *)

Record RunCompleted := { rco_output : json }.

Definition ser_RunCompleted (p : RunCompleted) : json :=
  obj [("output", rco_output p)].

Definition de_RunCompleted (j : json) : option RunCompleted :=
  fs ← struct_fields ["output"] j;
  output ← req de_value "output" fs;
  Some {| rco_output := output |}.

#[export] Instance RunCompleted_payload : EventPayload RunCompleted :=
  {| KIND := Kind.RunCompleted; to_value := ser_RunCompleted; from_value := de_RunCompleted |}.

(** *** [RunFailed] *)

Record RunFailed := { rf_error : ErrorInfo; rf_needs_human : bool }.

Definition ser_RunFailed (p : RunFailed) : json :=
  obj [("error", ser_ErrorInfo (rf_error p)); ("needs_human", JBool (rf_needs_human p))].

Definition de_RunFailed (j : json) : option RunFailed :=
  fs ← struct_fields ["error"; "needs_human"] j;
  error ← req de_ErrorInfo "error" fs;
  needs_human ← req de_bool "needs_human" fs;
  Some {| rf_error := error; rf_needs_human := needs_human |}.

#[export] Instance RunFailed_payload : EventPayload RunFailed :=
  {| KIND := Kind.RunFailed; to_value := ser_RunFailed; from_value := de_RunFailed |}.

(** *** [Note] *)

Record Note := { no_text : string; no_data : json }.

Definition ser_Note (p : Note) : json :=
  obj [("text", JStr (no_text p)); ("data", no_data p)].

Definition de_Note (j : json) : option Note :=
  fs ← struct_fields ["text"; "data"] j;
  text ← dflt de_string "text" "" fs;
  data ← dflt de_value "data" JNull fs;
  Some {| no_text := text; no_data := data |}.

#[export] Instance Note_payload : EventPayload Note :=
  {| KIND := Kind.Note; to_value := ser_Note; from_value := de_Note |}.

(** ** Every payload *)

Inductive payload : Type :=
| PRunCreated (p : RunCreated)
| PStepScheduled (p : StepScheduled)
| PStepLeased (p : StepLeased)
| PStepLeaseExpired (p : StepLeaseExpired)
| PStepCompleted (p : StepCompleted)
| PStepFailed (p : StepFailed)
| PStepRetryScheduled (p : StepRetryScheduled)
| PStepQuarantined (p : StepQuarantined)
| PStepEscalated (p : StepEscalated)
| PStepWaitingApproval (p : StepWaitingApproval)
| PModelCalled (p : ModelCalled)
| PModelResponded (p : ModelResponded)
| PToolCalled (p : ToolCalled)
| PToolResult (p : ToolResult)
| PToolRefused (p : ToolRefused)
| PActionProposed (p : ActionProposed)
| PPolicyDecided (p : PolicyDecided)
| PApprovalRequested (p : ApprovalRequested)
| PApprovalDecided (p : ApprovalDecided)
| PApprovalEscalated (p : ApprovalEscalated)
| PUsageRecorded (p : UsageRecorded)
| PBudgetSoftThreshold (p : BudgetSoftThreshold)
| PBudgetExceeded (p : BudgetExceeded)
| PRunParked (p : RunParked)
| PRunResumed (p : RunResumed)
| PRunAbandoned (p : RunAbandoned)
| PCompensationScheduled (p : CompensationScheduled)
| PCompensationCompleted (p : CompensationCompleted)
| PCompensationFailed (p : CompensationFailed)
| PRunCompleted (p : RunCompleted)
| PRunFailed (p : RunFailed)
| PNote (p : Note).

Definition payload_kind (p : payload) : EventKind :=
  match p with
  | PRunCreated _ => KIND RunCreated
  | PStepScheduled _ => KIND StepScheduled
  | PStepLeased _ => KIND StepLeased
  | PStepLeaseExpired _ => KIND StepLeaseExpired
  | PStepCompleted _ => KIND StepCompleted
  | PStepFailed _ => KIND StepFailed
  | PStepRetryScheduled _ => KIND StepRetryScheduled
  | PStepQuarantined _ => KIND StepQuarantined
  | PStepEscalated _ => KIND StepEscalated
  | PStepWaitingApproval _ => KIND StepWaitingApproval
  | PModelCalled _ => KIND ModelCalled
  | PModelResponded _ => KIND ModelResponded
  | PToolCalled _ => KIND ToolCalled
  | PToolResult _ => KIND ToolResult
  | PToolRefused _ => KIND ToolRefused
  | PActionProposed _ => KIND ActionProposed
  | PPolicyDecided _ => KIND PolicyDecided
  | PApprovalRequested _ => KIND ApprovalRequested
  | PApprovalDecided _ => KIND ApprovalDecided
  | PApprovalEscalated _ => KIND ApprovalEscalated
  | PUsageRecorded _ => KIND UsageRecorded
  | PBudgetSoftThreshold _ => KIND BudgetSoftThreshold
  | PBudgetExceeded _ => KIND BudgetExceeded
  | PRunParked _ => KIND RunParked
  | PRunResumed _ => KIND RunResumed
  | PRunAbandoned _ => KIND RunAbandoned
  | PCompensationScheduled _ => KIND CompensationScheduled
  | PCompensationCompleted _ => KIND CompensationCompleted
  | PCompensationFailed _ => KIND CompensationFailed
  | PRunCompleted _ => KIND RunCompleted
  | PRunFailed _ => KIND RunFailed
  | PNote _ => KIND Note
  end.

Definition payload_value (p : payload) : json :=
  match p with
  | PRunCreated p => to_value p
  | PStepScheduled p => to_value p
  | PStepLeased p => to_value p
  | PStepLeaseExpired p => to_value p
  | PStepCompleted p => to_value p
  | PStepFailed p => to_value p
  | PStepRetryScheduled p => to_value p
  | PStepQuarantined p => to_value p
  | PStepEscalated p => to_value p
  | PStepWaitingApproval p => to_value p
  | PModelCalled p => to_value p
  | PModelResponded p => to_value p
  | PToolCalled p => to_value p
  | PToolResult p => to_value p
  | PToolRefused p => to_value p
  | PActionProposed p => to_value p
  | PPolicyDecided p => to_value p
  | PApprovalRequested p => to_value p
  | PApprovalDecided p => to_value p
  | PApprovalEscalated p => to_value p
  | PUsageRecorded p => to_value p
  | PBudgetSoftThreshold p => to_value p
  | PBudgetExceeded p => to_value p
  | PRunParked p => to_value p
  | PRunResumed p => to_value p
  | PRunAbandoned p => to_value p
  | PCompensationScheduled p => to_value p
  | PCompensationCompleted p => to_value p
  | PCompensationFailed p => to_value p
  | PRunCompleted p => to_value p
  | PRunFailed p => to_value p
  | PNote p => to_value p
  end.

Definition decode_payload (k : EventKind) (j : json) : option payload :=
  match k with
  | Kind.RunCreated => PRunCreated <$> from_value j
  | Kind.StepScheduled => PStepScheduled <$> from_value j
  | Kind.StepLeased => PStepLeased <$> from_value j
  | Kind.StepLeaseExpired => PStepLeaseExpired <$> from_value j
  | Kind.StepCompleted => PStepCompleted <$> from_value j
  | Kind.StepFailed => PStepFailed <$> from_value j
  | Kind.StepRetryScheduled => PStepRetryScheduled <$> from_value j
  | Kind.StepQuarantined => PStepQuarantined <$> from_value j
  | Kind.StepEscalated => PStepEscalated <$> from_value j
  | Kind.StepWaitingApproval => PStepWaitingApproval <$> from_value j
  | Kind.ModelCalled => PModelCalled <$> from_value j
  | Kind.ModelResponded => PModelResponded <$> from_value j
  | Kind.ToolCalled => PToolCalled <$> from_value j
  | Kind.ToolResult => PToolResult <$> from_value j
  | Kind.ToolRefused => PToolRefused <$> from_value j
  | Kind.ActionProposed => PActionProposed <$> from_value j
  | Kind.PolicyDecided => PPolicyDecided <$> from_value j
  | Kind.ApprovalRequested => PApprovalRequested <$> from_value j
  | Kind.ApprovalDecided => PApprovalDecided <$> from_value j
  | Kind.ApprovalEscalated => PApprovalEscalated <$> from_value j
  | Kind.UsageRecorded => PUsageRecorded <$> from_value j
  | Kind.BudgetSoftThreshold => PBudgetSoftThreshold <$> from_value j
  | Kind.BudgetExceeded => PBudgetExceeded <$> from_value j
  | Kind.RunParked => PRunParked <$> from_value j
  | Kind.RunResumed => PRunResumed <$> from_value j
  | Kind.RunAbandoned => PRunAbandoned <$> from_value j
  | Kind.CompensationScheduled => PCompensationScheduled <$> from_value j
  | Kind.CompensationCompleted => PCompensationCompleted <$> from_value j
  | Kind.CompensationFailed => PCompensationFailed <$> from_value j
  | Kind.RunCompleted => PRunCompleted <$> from_value j
  | Kind.RunFailed => PRunFailed <$> from_value j
  | Kind.Note => PNote <$> from_value j
  end.
