(* ===== verification/PayloadLaws.v ===== *)
(** * Payloads survive the log

    Every typed payload reads back from the JSON it was written as, under the ranges the
    Rust types give its fields; so does a kind from its wire name. *)

From S2P Require Import Prelude Text F64 Json Payloads.
From Stdlib Require Import Ascii SpecFloat.

Local Open Scope string_scope.
Local Open Scope list_scope.
Local Open Scope Z_scope.

Definition u32_ok (z : Z) : Prop := 0 <= z <= u32_max.

Lemma de_u32_ok z : u32_ok z -> de_u32 (json_u64 z) = Some z.
Proof. apply de_u32_u64. Qed.

Lemma not_null_value (o : option json) :
  o <> Some JNull -> forall v, o = Some v -> v <> JNull /\ de_value v = Some v.
Proof. intros H v ->. split; [intros ->; contradiction | done]. Qed.

Lemma de_ser_list {A} (d : json -> option A) (s : A -> json) l :
  (forall a, d (s a) = Some a) -> de_list d (ser_list s l) = Some l.
Proof. intros H. unfold de_list, ser_list. rewrite (omapM_map _ _ id) by done. by rewrite map_id. Qed.

Lemma ser_list_not_null {A} (s : A -> json) l : ser_list s l <> JNull.
Proof. done. Qed.

#[export] Hint Resolve de_u32_ok de_ser_list ser_list_not_null : codec.

Ltac payload_codec := intros; destruct_and?; codec; by match goal with p : _ |- Some _ = Some ?p => destruct p end.

Lemma de_ser_ErrorInfo p : de_ErrorInfo (ser_ErrorInfo p) = Some p.
Proof. unfold de_ErrorInfo, ser_ErrorInfo. payload_codec. Qed.
#[export] Hint Resolve de_ser_ErrorInfo : codec.

Definition BudgetSpec_wf (p : BudgetSpec) : Prop :=
  (forall a, bg_usd p = Some a -> f64_is_finite a = true) /\
  f64_is_finite (bg_soft_ratio p) = true.

Lemma de_ser_BudgetSpec p : BudgetSpec_wf p -> de_BudgetSpec (ser_BudgetSpec p) = Some p.
Proof. unfold BudgetSpec_wf. unfold de_BudgetSpec, ser_BudgetSpec. payload_codec. Qed.
#[export] Hint Resolve de_ser_BudgetSpec : codec.

Lemma de_ser_TokenUsage p : de_TokenUsage (ser_TokenUsage p) = Some p.
Proof. unfold de_TokenUsage, ser_TokenUsage. payload_codec. Qed.
#[export] Hint Resolve de_ser_TokenUsage : codec.

Lemma de_ser_PolicyRef p : de_PolicyRef (ser_PolicyRef p) = Some p.
Proof. unfold de_PolicyRef, ser_PolicyRef. payload_codec. Qed.
#[export] Hint Resolve de_ser_PolicyRef : codec.

Lemma de_ser_DecisionActor p : de_DecisionActor (ser_DecisionActor p) = Some p.
Proof. unfold de_DecisionActor, ser_DecisionActor. payload_codec. Qed.
#[export] Hint Resolve de_ser_DecisionActor : codec.

#[local] Opaque de_ErrorInfo de_BudgetSpec de_TokenUsage de_PolicyRef de_DecisionActor.

Definition RunCreated_wf (p : RunCreated) : Prop :=
  BudgetSpec_wf (rc_budget p).

Lemma de_ser_RunCreated p : RunCreated_wf p -> de_RunCreated (ser_RunCreated p) = Some p.
Proof. unfold RunCreated_wf. unfold de_RunCreated, ser_RunCreated. payload_codec. Qed.
#[export] Hint Resolve de_ser_RunCreated : codec.

Definition StepScheduled_wf (p : StepScheduled) : Prop :=
  u32_ok (ss_index p).

Lemma de_ser_StepScheduled p : StepScheduled_wf p -> de_StepScheduled (ser_StepScheduled p) = Some p.
Proof. unfold StepScheduled_wf. unfold de_StepScheduled, ser_StepScheduled. payload_codec. Qed.
#[export] Hint Resolve de_ser_StepScheduled : codec.

Definition StepLeased_wf (p : StepLeased) : Prop :=
  u32_ok (sl_attempt p).

Lemma de_ser_StepLeased p : StepLeased_wf p -> de_StepLeased (ser_StepLeased p) = Some p.
Proof. unfold StepLeased_wf. unfold de_StepLeased, ser_StepLeased. payload_codec. Qed.
#[export] Hint Resolve de_ser_StepLeased : codec.

Lemma de_ser_StepLeaseExpired p : de_StepLeaseExpired (ser_StepLeaseExpired p) = Some p.
Proof. unfold de_StepLeaseExpired, ser_StepLeaseExpired. payload_codec. Qed.
#[export] Hint Resolve de_ser_StepLeaseExpired : codec.

Definition StepCompleted_wf (p : StepCompleted) : Prop :=
  u32_ok (sc_attempt p).

Lemma de_ser_StepCompleted p : StepCompleted_wf p -> de_StepCompleted (ser_StepCompleted p) = Some p.
Proof. unfold StepCompleted_wf. unfold de_StepCompleted, ser_StepCompleted. payload_codec. Qed.
#[export] Hint Resolve de_ser_StepCompleted : codec.

Definition StepFailed_wf (p : StepFailed) : Prop :=
  u32_ok (sf_attempt p).

Lemma de_ser_StepFailed p : StepFailed_wf p -> de_StepFailed (ser_StepFailed p) = Some p.
Proof. unfold StepFailed_wf. unfold de_StepFailed, ser_StepFailed. payload_codec. Qed.
#[export] Hint Resolve de_ser_StepFailed : codec.

Definition StepRetryScheduled_wf (p : StepRetryScheduled) : Prop :=
  u32_ok (sr_attempt p).

Lemma de_ser_StepRetryScheduled p : StepRetryScheduled_wf p -> de_StepRetryScheduled (ser_StepRetryScheduled p) = Some p.
Proof. unfold StepRetryScheduled_wf. unfold de_StepRetryScheduled, ser_StepRetryScheduled. payload_codec. Qed.
#[export] Hint Resolve de_ser_StepRetryScheduled : codec.

Definition StepQuarantined_wf (p : StepQuarantined) : Prop :=
  u32_ok (sq_attempts p).

Lemma de_ser_StepQuarantined p : StepQuarantined_wf p -> de_StepQuarantined (ser_StepQuarantined p) = Some p.
Proof. unfold StepQuarantined_wf. unfold de_StepQuarantined, ser_StepQuarantined. payload_codec. Qed.
#[export] Hint Resolve de_ser_StepQuarantined : codec.

Lemma de_ser_StepEscalated p : de_StepEscalated (ser_StepEscalated p) = Some p.
Proof. unfold de_StepEscalated, ser_StepEscalated. payload_codec. Qed.
#[export] Hint Resolve de_ser_StepEscalated : codec.

Lemma de_ser_StepWaitingApproval p : de_StepWaitingApproval (ser_StepWaitingApproval p) = Some p.
Proof. unfold de_StepWaitingApproval, ser_StepWaitingApproval. payload_codec. Qed.
#[export] Hint Resolve de_ser_StepWaitingApproval : codec.

Lemma de_ser_ModelCalled p : de_ModelCalled (ser_ModelCalled p) = Some p.
Proof. unfold de_ModelCalled, ser_ModelCalled. payload_codec. Qed.
#[export] Hint Resolve de_ser_ModelCalled : codec.

Definition ModelResponded_wf (p : ModelResponded) : Prop :=
  f64_is_finite (mr_cost_usd p) = true.

Lemma de_ser_ModelResponded p : ModelResponded_wf p -> de_ModelResponded (ser_ModelResponded p) = Some p.
Proof. unfold ModelResponded_wf. unfold de_ModelResponded, ser_ModelResponded. payload_codec. Qed.
#[export] Hint Resolve de_ser_ModelResponded : codec.

Lemma de_ser_ToolCalled p : de_ToolCalled (ser_ToolCalled p) = Some p.
Proof. unfold de_ToolCalled, ser_ToolCalled. payload_codec. Qed.
#[export] Hint Resolve de_ser_ToolCalled : codec.

Lemma de_ser_ToolResult p : de_ToolResult (ser_ToolResult p) = Some p.
Proof. unfold de_ToolResult, ser_ToolResult. payload_codec. Qed.
#[export] Hint Resolve de_ser_ToolResult : codec.

Lemma de_ser_ToolRefused p : de_ToolRefused (ser_ToolRefused p) = Some p.
Proof. unfold de_ToolRefused, ser_ToolRefused. payload_codec. Qed.
#[export] Hint Resolve de_ser_ToolRefused : codec.

Lemma de_ser_ActionProposed p : de_ActionProposed (ser_ActionProposed p) = Some p.
Proof. unfold de_ActionProposed, ser_ActionProposed. payload_codec. Qed.
#[export] Hint Resolve de_ser_ActionProposed : codec.

Lemma de_ser_PolicyDecided p : de_PolicyDecided (ser_PolicyDecided p) = Some p.
Proof. unfold de_PolicyDecided, ser_PolicyDecided. payload_codec. Qed.
#[export] Hint Resolve de_ser_PolicyDecided : codec.

Lemma de_ser_ApprovalRequested p : de_ApprovalRequested (ser_ApprovalRequested p) = Some p.
Proof. unfold de_ApprovalRequested, ser_ApprovalRequested. payload_codec. Qed.
#[export] Hint Resolve de_ser_ApprovalRequested : codec.

Lemma de_ser_ApprovalDecided p : de_ApprovalDecided (ser_ApprovalDecided p) = Some p.
Proof. unfold de_ApprovalDecided, ser_ApprovalDecided. payload_codec. Qed.
#[export] Hint Resolve de_ser_ApprovalDecided : codec.

Lemma de_ser_ApprovalEscalated p : de_ApprovalEscalated (ser_ApprovalEscalated p) = Some p.
Proof. unfold de_ApprovalEscalated, ser_ApprovalEscalated. payload_codec. Qed.
#[export] Hint Resolve de_ser_ApprovalEscalated : codec.

Definition UsageRecorded_wf (p : UsageRecorded) : Prop :=
  f64_is_finite (ur_usd p) = true /\ f64_is_finite (ur_cumulative_usd p) = true.

Lemma de_ser_UsageRecorded p : UsageRecorded_wf p -> de_UsageRecorded (ser_UsageRecorded p) = Some p.
Proof. unfold UsageRecorded_wf. unfold de_UsageRecorded, ser_UsageRecorded. payload_codec. Qed.
#[export] Hint Resolve de_ser_UsageRecorded : codec.

Definition BudgetSoftThreshold_wf (p : BudgetSoftThreshold) : Prop :=
  (forall a, bs_cumulative_usd p = Some a -> f64_is_finite a = true) /\
  (forall a, bs_ceiling_usd p = Some a -> f64_is_finite a = true) /\
  f64_is_finite (bs_ratio p) = true.

Lemma de_ser_BudgetSoftThreshold p : BudgetSoftThreshold_wf p -> de_BudgetSoftThreshold (ser_BudgetSoftThreshold p) = Some p.
Proof. unfold BudgetSoftThreshold_wf. unfold de_BudgetSoftThreshold, ser_BudgetSoftThreshold. payload_codec. Qed.
#[export] Hint Resolve de_ser_BudgetSoftThreshold : codec.

Definition BudgetExceeded_wf (p : BudgetExceeded) : Prop :=
  (forall a, be_cumulative_usd p = Some a -> f64_is_finite a = true) /\
  (forall a, be_ceiling_usd p = Some a -> f64_is_finite a = true).

Lemma de_ser_BudgetExceeded p : BudgetExceeded_wf p -> de_BudgetExceeded (ser_BudgetExceeded p) = Some p.
Proof. unfold BudgetExceeded_wf. unfold de_BudgetExceeded, ser_BudgetExceeded. payload_codec. Qed.
#[export] Hint Resolve de_ser_BudgetExceeded : codec.

Lemma de_ser_RunParked p : de_RunParked (ser_RunParked p) = Some p.
Proof. unfold de_RunParked, ser_RunParked. payload_codec. Qed.
#[export] Hint Resolve de_ser_RunParked : codec.

Definition RunResumed_wf (p : RunResumed) : Prop :=
  rr_actor p <> Some JNull.

Lemma de_ser_RunResumed p : RunResumed_wf p -> de_RunResumed (ser_RunResumed p) = Some p.
Proof. unfold RunResumed_wf. intros H; pose proof (not_null_value _ H). unfold de_RunResumed, ser_RunResumed. payload_codec. Qed.
#[export] Hint Resolve de_ser_RunResumed : codec.

Lemma de_ser_RunAbandoned p : de_RunAbandoned (ser_RunAbandoned p) = Some p.
Proof. unfold de_RunAbandoned, ser_RunAbandoned. payload_codec. Qed.
#[export] Hint Resolve de_ser_RunAbandoned : codec.

Lemma de_ser_CompensationScheduled p : de_CompensationScheduled (ser_CompensationScheduled p) = Some p.
Proof. unfold de_CompensationScheduled, ser_CompensationScheduled. payload_codec. Qed.
#[export] Hint Resolve de_ser_CompensationScheduled : codec.

Lemma de_ser_CompensationCompleted p : de_CompensationCompleted (ser_CompensationCompleted p) = Some p.
Proof. unfold de_CompensationCompleted, ser_CompensationCompleted. payload_codec. Qed.
#[export] Hint Resolve de_ser_CompensationCompleted : codec.

Lemma de_ser_CompensationFailed p : de_CompensationFailed (ser_CompensationFailed p) = Some p.
Proof. unfold de_CompensationFailed, ser_CompensationFailed. payload_codec. Qed.
#[export] Hint Resolve de_ser_CompensationFailed : codec.

Lemma de_ser_RunCompleted p : de_RunCompleted (ser_RunCompleted p) = Some p.
Proof. unfold de_RunCompleted, ser_RunCompleted. payload_codec. Qed.
#[export] Hint Resolve de_ser_RunCompleted : codec.

Lemma de_ser_RunFailed p : de_RunFailed (ser_RunFailed p) = Some p.
Proof. unfold de_RunFailed, ser_RunFailed. payload_codec. Qed.
#[export] Hint Resolve de_ser_RunFailed : codec.

Lemma de_ser_Note p : de_Note (ser_Note p) = Some p.
Proof. unfold de_Note, ser_Note. payload_codec. Qed.
#[export] Hint Resolve de_ser_Note : codec.
Definition payload_wf (p : payload) : Prop :=
  match p with
  | PRunCreated p => RunCreated_wf p
  | PStepScheduled p => StepScheduled_wf p
  | PStepLeased p => StepLeased_wf p
  | PStepLeaseExpired p => True
  | PStepCompleted p => StepCompleted_wf p
  | PStepFailed p => StepFailed_wf p
  | PStepRetryScheduled p => StepRetryScheduled_wf p
  | PStepQuarantined p => StepQuarantined_wf p
  | PStepEscalated p => True
  | PStepWaitingApproval p => True
  | PModelCalled p => True
  | PModelResponded p => ModelResponded_wf p
  | PToolCalled p => True
  | PToolResult p => True
  | PToolRefused p => True
  | PActionProposed p => True
  | PPolicyDecided p => True
  | PApprovalRequested p => True
  | PApprovalDecided p => True
  | PApprovalEscalated p => True
  | PUsageRecorded p => UsageRecorded_wf p
  | PBudgetSoftThreshold p => BudgetSoftThreshold_wf p
  | PBudgetExceeded p => BudgetExceeded_wf p
  | PRunParked p => True
  | PRunResumed p => RunResumed_wf p
  | PRunAbandoned p => True
  | PCompensationScheduled p => True
  | PCompensationCompleted p => True
  | PCompensationFailed p => True
  | PRunCompleted p => True
  | PRunFailed p => True
  | PNote p => True
  end.

Lemma fmap_some {A B} (f : A -> B) (e : option A) a : e = Some a -> f <$> e = Some (f a).
Proof. by intros ->. Qed.

Lemma decode_encode_payload p :
  payload_wf p -> decode_payload (payload_kind p) (payload_value p) = Some p.
Proof.
  destruct p; cbn [payload_wf payload_kind payload_value decode_payload]; intros H;
    apply fmap_some; cbn [to_value from_value]; eauto with codec.
Qed.

Lemma parse_as_str k : Kind.parse (Kind.as_str k) = Some k.
Proof. by destruct k. Qed.


