(* ===== verification/Events.v ===== *)
(** * The event record ([kernos-core/src/events.rs])

    One append-only, hash-chained stream per run.  Each record's hash covers the canonical
    JSON of everything but the schema tag, the previous record's hash included. *)

From S2P Require Import Prelude Text F64 Json Canonical Time Payloads.
From Stdlib Require Import Ascii SpecFloat.

Local Open Scope string_scope.
Local Open Scope list_scope.
Local Open Scope Z_scope.

Definition SCHEMA : string := "kernos.events/1".
Definition ZERO_HASH : string := "0000000000000000000000000000000000000000000000000000000000000000".
Definition MAX_PAYLOAD_BYTES : Z := 256 * 1024.

(** ** Actors *)

Inductive ActorType := AKernel | AWorker | AGateway | APolicy | AUser | ASystem.

Definition actor_type_str (t : ActorType) : string :=
  match t with
  | AKernel => "kernel"
  | AWorker => "worker"
  | AGateway => "gateway"
  | APolicy => "policy"
  | AUser => "user"
  | ASystem => "system"
  end.

Record Actor := { actor_kind : ActorType; actor_id : string }.

Module Act.
Definition kernel : Actor := {| actor_kind := AKernel; actor_id := "kernos" |}.
Definition worker (id : string) : Actor := {| actor_kind := AWorker; actor_id := id |}.
Definition policy (id : string) : Actor := {| actor_kind := APolicy; actor_id := id |}.
Definition user (id : string) : Actor := {| actor_kind := AUser; actor_id := id |}.
Definition system (id : string) : Actor := {| actor_kind := ASystem; actor_id := id |}.
End Act.

Definition ser_actor (a : Actor) : json :=
  obj [("type", JStr (actor_type_str (actor_kind a))); ("id", JStr (actor_id a))].

(** ** Records *)

Record Event := {
  ev_schema : string;
  ev_run_id : string;
  ev_seq : Z;
  ev_ts : string;
  ev_kind : EventKind;
  ev_actor : Actor;
  ev_payload : json;
  ev_prev_hash : string;
  ev_hash : string }.

(** The object the hash covers. *)
Definition hash_object (run_id : string) (seq : Z) (ts : string) (kind : EventKind)
    (actor : Actor) (payload : json) (prev_hash : string) : json :=
  obj [("run_id", JStr run_id); ("seq", json_u64 seq); ("ts", JStr ts);
       ("kind", JStr (Kind.as_str kind)); ("actor", ser_actor actor); ("payload", payload);
       ("prev_hash", JStr prev_hash)].

Section Hashing.
Context `{FloatFormat, Sha256}.

Definition compute_hash (run_id : string) (seq : Z) (ts : string) (kind : EventKind)
    (actor : Actor) (payload : json) (prev_hash : string) : string :=
  sha256_hex (canonical_bytes (hash_object run_id seq ts kind actor payload prev_hash)).

Definition build (run_id : string) (seq : Z) (ts : string) (kind : EventKind)
    (actor : Actor) (payload : json) (prev_hash : string) : Event :=
  {| ev_schema := SCHEMA; ev_run_id := run_id; ev_seq := seq; ev_ts := ts; ev_kind := kind;
     ev_actor := actor; ev_payload := payload; ev_prev_hash := prev_hash;
     ev_hash := compute_hash run_id seq ts kind actor payload prev_hash |}.

Definition expected_hash (e : Event) : string :=
  compute_hash (ev_run_id e) (ev_seq e) (ev_ts e) (ev_kind e) (ev_actor e) (ev_payload e)
    (ev_prev_hash e).

Definition verify_hash (e : Event) : bool := String.eqb (ev_hash e) (expected_hash e).
End Hashing.

Definition ts_ms (e : Event) : option Z := parse_rfc3339 (ev_ts e).

Definition event_step (e : Event) : option string := jget_str "step" (ev_payload e).

Definition typed {P} `{EventPayload P} (e : Event) : option P := from_value (ev_payload e).

(** ** Oversized payloads *)

(** [serde_json]'s compact text, an external printer. *)
Class JsonPrint := { json_text : json -> string }.

Definition map_remove {A} (k : string) (m : list (string * A)) : list (string * A) :=
  List.filter (fun kv => negb (String.eqb kv.1 k)) m.

Definition text_size `{JsonPrint} (v : json) : Z := Z.of_nat (String.length (json_text v)).

Definition truncate_payload `{FloatFormat, Sha256, JsonPrint} (payload : json) : option json :=
  if text_size payload <=? MAX_PAYLOAD_BYTES then Some payload
  else
    match payload with
    | JObj map =>
        field ← find_first (fun f => map_contains f map) ["result"; "output"; "args"; "data"];
        full ← map_get field map;
        let digest := hash_value full in
        let keep := String.concat "" (take (Z.to_nat (MAX_PAYLOAD_BYTES / 2)) (chars (json_text full))) in
        let map := map_insert field (JStr keep) (map_remove field map) in
        let map := map_insert "truncated" (JBool true) map in
        let map := map_insert "sha256" (JStr digest) map in
        if text_size (JObj map) <=? MAX_PAYLOAD_BYTES then Some (JObj map) else None
    | _ => None
    end.

(** ** The hash covers every field *)

Definition actor_type_parse (s : string) : option ActorType :=
  if String.eqb s "kernel" then Some AKernel
  else if String.eqb s "worker" then Some AWorker
  else if String.eqb s "gateway" then Some AGateway
  else if String.eqb s "policy" then Some APolicy
  else if String.eqb s "user" then Some AUser
  else if String.eqb s "system" then Some ASystem
  else None.

Definition de_actor (j : json) : option Actor :=
  fs ← struct_fields ["type"; "id"] j;
  kind ← req (fun v => s ← de_unit_variant v; actor_type_parse s) "type" fs;
  id ← req de_string "id" fs;
  Some {| actor_kind := kind; actor_id := id |}.

Lemma de_ser_actor a : de_actor (ser_actor a) = Some a.
Proof. by destruct a as [[] id]. Qed.

Lemma jget_obj k l : jget k (obj l) = get_last k l.
Proof. apply map_get_mk_map. Qed.

Lemma as_str_inj k k' : Kind.as_str k = Kind.as_str k' -> k = k'.
Proof. by destruct k; destruct k'. Qed.

Lemma ser_actor_inj a b : ser_actor a = ser_actor b -> a = b.
Proof. intros E. apply (f_equal de_actor) in E. rewrite !de_ser_actor in E. congruence. Qed.

Lemma hash_object_inj r s t k a p h r' s' t' k' a' p' h' :
  hash_object r s t k a p h = hash_object r' s' t' k' a' p' h' ->
  r = r' /\ s = s' /\ t = t' /\ k = k' /\ a = a' /\ p = p' /\ h = h'.
Proof.
  unfold hash_object. intros E.
  pose proof (f_equal (jget "run_id") E) as E1. pose proof (f_equal (jget "seq") E) as E2.
  pose proof (f_equal (jget "ts") E) as E3. pose proof (f_equal (jget "kind") E) as E4.
  pose proof (f_equal (jget "actor") E) as E5. pose proof (f_equal (jget "payload") E) as E6.
  pose proof (f_equal (jget "prev_hash") E) as E7. clear E. rewrite !jget_obj in *.
  cbv [get_last String.eqb Ascii.eqb Bool.eqb] in *. unfold json_u64 in *.
  injection E1 as ->. injection E2 as ->. injection E3 as ->. injection E4 as E4%as_str_inj.
  assert (a = a') as -> by (apply ser_actor_inj; congruence). injection E6 as ->. injection E7 as ->. by subst.
Qed.

(** The object is a well-formed JSON value when the record's parts are. *)
Lemma keys_sorted_head {A} k (v : A) m :
  keys_sorted ((k, v) :: m) = true <->
  keys_sorted m = true /\ match m with [] => True | (k', _) :: _ => key_lt k k' = true end.
Proof. destruct m as [|[k' v'] m]; simpl; [done|]. rewrite andb_true_iff. tauto. Qed.

Lemma map_insert_head {A} k (v : A) m k1 :
  match m with [] => True | (k', _) :: _ => key_lt k1 k' = true end -> key_lt k1 k = true ->
  match map_insert k v m with [] => True | (k', _) :: _ => key_lt k1 k' = true end.
Proof. destruct m as [|[k' v'] m]; simpl; [done|]. by destruct (String.compare k k'). Qed.

Lemma map_insert_sorted {A} k (v : A) m : keys_sorted m = true -> keys_sorted (map_insert k v m) = true.
Proof.
  induction m as [|[k' v'] m IH]; [done|]. intros [Hs Hh]%keys_sorted_head. cbn [map_insert].
  destruct (String.compare k k') eqn:E.
  - apply String.compare_eq_iff in E as ->. by apply keys_sorted_head.
  - apply keys_sorted_head. split; [by apply keys_sorted_head|]. unfold key_lt. by rewrite E.
  - apply keys_sorted_head. split; [by apply IH|]. apply map_insert_head; [done|].
    unfold key_lt. rewrite String.compare_antisym, E. done.
Qed.

Lemma map_insert_forall {A} (P : A -> bool) k (v : A) m :
  P v = true -> forallb (fun kv => P kv.2) m = true ->
  forallb (fun kv => P kv.2) (map_insert k v m) = true.
Proof.
  intros Hv. induction m as [|[k' v'] m IH]; simpl; [by rewrite Hv|].
  intros [H1 H2]%andb_true_iff. destruct (String.compare k k'); simpl; by rewrite ?Hv, ?H1, ?H2, ?IH.
Qed.

Lemma obj_wf l : forallb (fun kv => json_wf kv.2) l = true -> json_wf (obj l) = true.
Proof.
  intros Hl. cbn [json_wf obj]. unfold mk_map.
  assert (forall m, keys_sorted m = true -> forallb (fun kv => json_wf kv.2) m = true ->
    keys_sorted (fold_left (fun m kv => map_insert kv.1 kv.2 m) l m) &&
    forallb (fun kv => json_wf kv.2) (fold_left (fun m kv => map_insert kv.1 kv.2 m) l m) = true) as H;
    [|by apply H].
  induction l as [|[k v] l IH]; intros m Hm Hw; simpl; [by rewrite Hm, Hw|].
  simpl in Hl. apply andb_true_iff in Hl as [Hv Hl].
  apply IH; [done | by apply map_insert_sorted | by apply map_insert_forall].
Qed.

Lemma hash_object_wf r s t k a p h :
  is_u64 s = true -> json_wf p = true -> json_wf (hash_object r s t k a p h) = true.
Proof.
  intros Hs Hp. apply obj_wf. cbn -[ser_actor obj]. rewrite Hs, Hp.
  unfold ser_actor. rewrite obj_wf; done.
Qed.

(** ** Chains *)

Definition event_ok (e : Event) : Prop := is_u64 (ev_seq e) = true /\ json_wf (ev_payload e) = true.

Section Chain.
Context `{FloatFormat, Sha256}.

(** The stream links: sequence numbers count up, each record carries the previous hash
    and its own hash is right. *)
Fixpoint chain_ok (seq : Z) (prev : string) (events : list Event) : Prop :=
  match events with
  | [] => True
  | e :: events =>
      ev_seq e = seq /\ ev_prev_hash e = prev /\ ev_hash e = expected_hash e /\
      chain_ok (seq + 1) (ev_hash e) events
  end.

Definition last_hash (prev : string) (events : list Event) : string :=
  fold_left (fun _ e => ev_hash e) events prev.

(** A pair of different inputs with one digest. *)
Definition collision : Prop := exists a b, a <> b /\ sha256_hex a = sha256_hex b.

Lemma chain_ok_app seq prev l1 l2 :
  chain_ok seq prev (l1 ++ l2) <->
  chain_ok seq prev l1 /\ chain_ok (seq + Z.of_nat (length l1)) (last_hash prev l1) l2.
Proof.
  revert seq prev. induction l1 as [|e l1 IH]; intros seq prev; simpl.
  - rewrite Z.add_0_r. tauto.
  - rewrite IH. replace (seq + 1 + Z.of_nat (length l1)) with (seq + Z.of_nat (S (length l1))) by lia.
    unfold last_hash. simpl. tauto.
Qed.

Context {FmtOk : FloatFormatOk}.

(** Equal hashes of two honest records mean equal records, or a collision. *)
Lemma hash_commits e f :
  event_ok e -> event_ok f -> ev_hash e = expected_hash e -> ev_hash f = expected_hash f ->
  ev_schema e = ev_schema f -> ev_hash e = ev_hash f -> e = f \/ collision.
Proof.
  intros [Se Pe] [Sf Pf] He Hf Hs Heq.
  rewrite He, Hf in Heq. unfold expected_hash, compute_hash in Heq.
  match type of Heq with sha256_hex ?a = sha256_hex ?b => destruct (decide (a = b)) as [Hab|Hab] end;
    [|right; by eexists _, _].
  left. apply canonical_json_inj in Hab; [|by apply hash_object_wf..].
  apply hash_object_inj in Hab as (? & ? & ? & ? & ? & ? & ?).
  assert (ev_hash e = ev_hash f) by (rewrite He, Hf; unfold expected_hash; congruence).
  destruct e, f; simpl in *; congruence.
Qed.
Lemma last_hash_snoc prev l e : last_hash prev (l ++ [e]) = ev_hash e.
Proof. unfold last_hash. by rewrite fold_left_app. Qed.

Definition event_committed (e : Event) : Prop := event_ok e /\ ev_schema e = SCHEMA.

Lemma chain_commits_snoc l1 l2 :
  Forall event_committed l1 -> Forall event_committed l2 ->
  length l1 = length l2 -> forall seq prev,
  chain_ok seq prev l1 -> chain_ok seq prev l2 ->
  last_hash prev l1 = last_hash prev l2 -> l1 = l2 \/ collision.
Proof.
  intros F1. revert l2. induction l1 as [|e l1 IH] using rev_ind; intros l2 F2 Hl seq prev C1 C2 Hh.
  - left. by destruct l2.
  - destruct l2 as [|f l2 _] using rev_ind; [rewrite length_app in Hl; simpl in Hl; lia|].
    rewrite !length_app in Hl. simpl in Hl. assert (length l1 = length l2) as Hl' by lia.
    rewrite !last_hash_snoc in Hh.
    apply chain_ok_app in C1 as [C1 (Se & Pe & He & _)], C2 as [C2 (Sf & Pf & Hf & _)].
    apply Forall_app in F1 as [F1 Fe], F2 as [F2 Ff].
    inversion Fe as [|? ? [Oe Ce] _]; inversion Ff as [|? ? [Of Cf] _]; subst.
    destruct (hash_commits e f) as [->|]; [done | done | done | done | congruence | done | | by right].
    destruct (IH F1 l2 F2 Hl' seq prev C1 C2) as [->|]; [congruence | by left | by right].
Qed.
(** The hash covers the sequence number, so the last hash fixes the length too. *)
Lemma chain_commits l1 l2 :
  l1 <> [] -> l2 <> [] -> Forall event_committed l1 -> Forall event_committed l2 ->
  forall prev, chain_ok 1 prev l1 -> chain_ok 1 prev l2 ->
  last_hash prev l1 = last_hash prev l2 -> l1 = l2 \/ collision.
Proof.
  intros N1 N2 F1 F2 prev C1 C2 Hh. assert (length l1 = length l2 \/ collision) as [Hl|]; [|eauto using chain_commits_snoc|by right].
  destruct l1 as [|e l1 _] using rev_ind; [done|]. destruct l2 as [|f l2 _] using rev_ind; [done|].
  rewrite !last_hash_snoc in Hh.
  apply chain_ok_app in C1 as [_ (Se & _ & He & _)], C2 as [_ (Sf & _ & Hf & _)].
  apply Forall_app in F1 as [_ Fe], F2 as [_ Ff].
  inversion Fe as [|? ? [Oe Ce] _]; inversion Ff as [|? ? [Of Cf] _]; subst.
  destruct (hash_commits e f) as [->|]; [done | done | done | done | congruence | done | | by right].
  left. rewrite !length_app. simpl. lia.
Qed.
End Chain.

(** C32: tamper evidence.  Two non-empty streams that both link from the zero hash and end
    in the same hash are the same stream, record by record (nothing altered, dropped,
    added or reordered), unless SHA-256 was made to collide. *)
Theorem chain_tamper_evident `{FloatFormat, Sha256} {FmtOk : FloatFormatOk} l1 l2 :
  l1 <> [] -> l2 <> [] -> Forall event_committed l1 -> Forall event_committed l2 ->
  chain_ok 1 ZERO_HASH l1 -> chain_ok 1 ZERO_HASH l2 ->
  last_hash ZERO_HASH l1 = last_hash ZERO_HASH l2 ->
  l1 = l2 \/ collision.
Proof. intros N1 N2 F1 F2 C1 C2 Hh. eauto using chain_commits. Qed.

(** A digest for the witnesses: the text itself. *)
Definition identity_sha : Sha256 := {| sha256_hex := fun s => s |}.

Definition example_stream : list Event :=
  [@build mantissa_format identity_sha "run_1" 1 "2026-09-04T12:00:00.000Z" Kind.Note Act.kernel
     (obj [("text", JStr "hello")]) ZERO_HASH].

Lemma chain_tamper_evident_witness :
  example_stream = example_stream \/ @collision identity_sha.
Proof.
  assert (example_stream <> []) as N by discriminate.
  assert (Forall event_committed example_stream) as F.
  { constructor; [|constructor]. repeat split. }
  assert (@chain_ok mantissa_format identity_sha 1 ZERO_HASH example_stream) as C.
  { repeat split. }
  exact (@chain_tamper_evident mantissa_format identity_sha mantissa_format_ok
    example_stream example_stream N N F F C C eq_refl).
Defined.
