(* ===== verification/Fold.v ===== *)
(** * The fold ([kernos-core/src/fold.rs])

    [fold]: the pure derivation of run and step state from the event stream.  Every record
    of the state and every arm of [apply] is the source's; a step found by identifier and
    changed in place is [update_step]. *)

From S2P Require Import Prelude Text F64 Json Canonical Time Payloads Events.
From Stdlib Require Import Ascii SpecFloat.

Local Open Scope string_scope.
Local Open Scope list_scope.
Local Open Scope Z_scope.

(** ** State *)

Inductive FoldError :=
| Empty
| FirstNotRunCreated (seq : Z) (kind : EventKind)
| BadPayload (seq : Z) (kind : EventKind).

Inductive RunStatus := RCreated | RRunning | RParked | RCompleted | RFailed | RAbandoned.
Inductive StepStatus :=
  SScheduled | SLeased | SCompleted | SFailed | SQuarantined | SWaitingApproval.

#[global] Instance RunStatus_eq_dec : EqDecision RunStatus.
Proof. solve_decision. Defined.
#[global] Instance StepStatus_eq_dec : EqDecision StepStatus.
Proof. solve_decision. Defined.

Definition run_status_str (s : RunStatus) : string :=
  match s with
  | RCreated => "created" | RRunning => "running" | RParked => "parked"
  | RCompleted => "completed" | RFailed => "failed" | RAbandoned => "abandoned"
  end.

Definition run_status_parse (s : string) : option RunStatus :=
  if String.eqb s "created" then Some RCreated
  else if String.eqb s "running" then Some RRunning
  else if String.eqb s "parked" then Some RParked
  else if String.eqb s "completed" then Some RCompleted
  else if String.eqb s "failed" then Some RFailed
  else if String.eqb s "abandoned" then Some RAbandoned
  else None.

Definition step_status_str (s : StepStatus) : string :=
  match s with
  | SScheduled => "scheduled" | SLeased => "leased" | SCompleted => "completed"
  | SFailed => "failed" | SQuarantined => "quarantined" | SWaitingApproval => "waiting_approval"
  end.

Record BundleRef := { br_id : string; br_name : string; br_version : string }.

Record LeaseInfo := {
  li_lease_id : string;
  li_worker_id : string;
  li_attempt : Z;
  li_expires_at : string }.

Record StepState := {
  st_id : string;
  st_index : Z;
  st_kind : string;
  st_state : StepStatus;
  st_attempts : Z;
  st_lease : option LeaseInfo;
  st_output : option json;
  st_error : option json;
  st_action_id : option string;
  st_approval_id : option string;
  st_not_before : option string }.

Record BudgetState := {
  bu_ceiling_tokens : option Z;
  bu_ceiling_usd : option f64;
  bu_soft_ratio : f64;
  bu_used_tokens : Z;
  bu_used_usd : f64;
  bu_soft_hit : bool;
  bu_exceeded : bool }.

Record PendingApproval := {
  pa_approval_id : string;
  pa_action_id : string;
  pa_approver : json;
  pa_due_at : string }.

Record DecisionRecord := {
  dr_action_id : string;
  dr_decision : string;
  dr_rule : string;
  dr_policy : option string;
  dr_policy_version : json }.

Record CompensationState := { co_for_step : string; co_step : string; co_state : string }.

Record RunState := {
  rs_run_id : string;
  rs_state : RunStatus;
  rs_bundle : BundleRef;
  rs_department : option string;
  rs_workflow : string;
  rs_input : json;
  rs_remit_id : string;
  rs_requested_by : json;
  rs_steps : list StepState;
  rs_budget : BudgetState;
  rs_pending_approval : option PendingApproval;
  rs_decisions : list DecisionRecord;
  rs_compensations : list CompensationState;
  rs_output : option json;
  rs_error : option json;
  rs_needs_human : bool;
  rs_abandoning : bool;
  rs_park_reason : option string;
  rs_last_seq : Z }.

(** Field assignments. *)

Definition set_state (v : RunStatus) (s : RunState) : RunState :=
  {| rs_run_id := rs_run_id s; rs_state := v; rs_bundle := rs_bundle s;
     rs_department := rs_department s; rs_workflow := rs_workflow s; rs_input := rs_input s;
     rs_remit_id := rs_remit_id s; rs_requested_by := rs_requested_by s; rs_steps := rs_steps s;
     rs_budget := rs_budget s; rs_pending_approval := rs_pending_approval s;
     rs_decisions := rs_decisions s; rs_compensations := rs_compensations s;
     rs_output := rs_output s; rs_error := rs_error s; rs_needs_human := rs_needs_human s;
     rs_abandoning := rs_abandoning s; rs_park_reason := rs_park_reason s;
     rs_last_seq := rs_last_seq s |}.

Definition set_steps (v : list StepState) (s : RunState) : RunState :=
  {| rs_run_id := rs_run_id s; rs_state := rs_state s; rs_bundle := rs_bundle s;
     rs_department := rs_department s; rs_workflow := rs_workflow s; rs_input := rs_input s;
     rs_remit_id := rs_remit_id s; rs_requested_by := rs_requested_by s; rs_steps := v;
     rs_budget := rs_budget s; rs_pending_approval := rs_pending_approval s;
     rs_decisions := rs_decisions s; rs_compensations := rs_compensations s;
     rs_output := rs_output s; rs_error := rs_error s; rs_needs_human := rs_needs_human s;
     rs_abandoning := rs_abandoning s; rs_park_reason := rs_park_reason s;
     rs_last_seq := rs_last_seq s |}.

Definition set_budget (v : BudgetState) (s : RunState) : RunState :=
  {| rs_run_id := rs_run_id s; rs_state := rs_state s; rs_bundle := rs_bundle s;
     rs_department := rs_department s; rs_workflow := rs_workflow s; rs_input := rs_input s;
     rs_remit_id := rs_remit_id s; rs_requested_by := rs_requested_by s; rs_steps := rs_steps s;
     rs_budget := v; rs_pending_approval := rs_pending_approval s;
     rs_decisions := rs_decisions s; rs_compensations := rs_compensations s;
     rs_output := rs_output s; rs_error := rs_error s; rs_needs_human := rs_needs_human s;
     rs_abandoning := rs_abandoning s; rs_park_reason := rs_park_reason s;
     rs_last_seq := rs_last_seq s |}.

Definition set_pending_approval (v : option PendingApproval) (s : RunState) : RunState :=
  {| rs_run_id := rs_run_id s; rs_state := rs_state s; rs_bundle := rs_bundle s;
     rs_department := rs_department s; rs_workflow := rs_workflow s; rs_input := rs_input s;
     rs_remit_id := rs_remit_id s; rs_requested_by := rs_requested_by s; rs_steps := rs_steps s;
     rs_budget := rs_budget s; rs_pending_approval := v; rs_decisions := rs_decisions s;
     rs_compensations := rs_compensations s; rs_output := rs_output s; rs_error := rs_error s;
     rs_needs_human := rs_needs_human s; rs_abandoning := rs_abandoning s;
     rs_park_reason := rs_park_reason s; rs_last_seq := rs_last_seq s |}.

Definition set_decisions (v : list DecisionRecord) (s : RunState) : RunState :=
  {| rs_run_id := rs_run_id s; rs_state := rs_state s; rs_bundle := rs_bundle s;
     rs_department := rs_department s; rs_workflow := rs_workflow s; rs_input := rs_input s;
     rs_remit_id := rs_remit_id s; rs_requested_by := rs_requested_by s; rs_steps := rs_steps s;
     rs_budget := rs_budget s; rs_pending_approval := rs_pending_approval s; rs_decisions := v;
     rs_compensations := rs_compensations s; rs_output := rs_output s; rs_error := rs_error s;
     rs_needs_human := rs_needs_human s; rs_abandoning := rs_abandoning s;
     rs_park_reason := rs_park_reason s; rs_last_seq := rs_last_seq s |}.

Definition set_compensations (v : list CompensationState) (s : RunState) : RunState :=
  {| rs_run_id := rs_run_id s; rs_state := rs_state s; rs_bundle := rs_bundle s;
     rs_department := rs_department s; rs_workflow := rs_workflow s; rs_input := rs_input s;
     rs_remit_id := rs_remit_id s; rs_requested_by := rs_requested_by s; rs_steps := rs_steps s;
     rs_budget := rs_budget s; rs_pending_approval := rs_pending_approval s;
     rs_decisions := rs_decisions s; rs_compensations := v; rs_output := rs_output s;
     rs_error := rs_error s; rs_needs_human := rs_needs_human s;
     rs_abandoning := rs_abandoning s; rs_park_reason := rs_park_reason s;
     rs_last_seq := rs_last_seq s |}.

Definition set_output (v : option json) (s : RunState) : RunState :=
  {| rs_run_id := rs_run_id s; rs_state := rs_state s; rs_bundle := rs_bundle s;
     rs_department := rs_department s; rs_workflow := rs_workflow s; rs_input := rs_input s;
     rs_remit_id := rs_remit_id s; rs_requested_by := rs_requested_by s; rs_steps := rs_steps s;
     rs_budget := rs_budget s; rs_pending_approval := rs_pending_approval s;
     rs_decisions := rs_decisions s; rs_compensations := rs_compensations s; rs_output := v;
     rs_error := rs_error s; rs_needs_human := rs_needs_human s;
     rs_abandoning := rs_abandoning s; rs_park_reason := rs_park_reason s;
     rs_last_seq := rs_last_seq s |}.

Definition set_error (v : option json) (s : RunState) : RunState :=
  {| rs_run_id := rs_run_id s; rs_state := rs_state s; rs_bundle := rs_bundle s;
     rs_department := rs_department s; rs_workflow := rs_workflow s; rs_input := rs_input s;
     rs_remit_id := rs_remit_id s; rs_requested_by := rs_requested_by s; rs_steps := rs_steps s;
     rs_budget := rs_budget s; rs_pending_approval := rs_pending_approval s;
     rs_decisions := rs_decisions s; rs_compensations := rs_compensations s;
     rs_output := rs_output s; rs_error := v; rs_needs_human := rs_needs_human s;
     rs_abandoning := rs_abandoning s; rs_park_reason := rs_park_reason s;
     rs_last_seq := rs_last_seq s |}.

Definition set_needs_human (v : bool) (s : RunState) : RunState :=
  {| rs_run_id := rs_run_id s; rs_state := rs_state s; rs_bundle := rs_bundle s;
     rs_department := rs_department s; rs_workflow := rs_workflow s; rs_input := rs_input s;
     rs_remit_id := rs_remit_id s; rs_requested_by := rs_requested_by s; rs_steps := rs_steps s;
     rs_budget := rs_budget s; rs_pending_approval := rs_pending_approval s;
     rs_decisions := rs_decisions s; rs_compensations := rs_compensations s;
     rs_output := rs_output s; rs_error := rs_error s; rs_needs_human := v;
     rs_abandoning := rs_abandoning s; rs_park_reason := rs_park_reason s;
     rs_last_seq := rs_last_seq s |}.

Definition set_abandoning (v : bool) (s : RunState) : RunState :=
  {| rs_run_id := rs_run_id s; rs_state := rs_state s; rs_bundle := rs_bundle s;
     rs_department := rs_department s; rs_workflow := rs_workflow s; rs_input := rs_input s;
     rs_remit_id := rs_remit_id s; rs_requested_by := rs_requested_by s; rs_steps := rs_steps s;
     rs_budget := rs_budget s; rs_pending_approval := rs_pending_approval s;
     rs_decisions := rs_decisions s; rs_compensations := rs_compensations s;
     rs_output := rs_output s; rs_error := rs_error s; rs_needs_human := rs_needs_human s;
     rs_abandoning := v; rs_park_reason := rs_park_reason s; rs_last_seq := rs_last_seq s |}.

Definition set_park_reason (v : option string) (s : RunState) : RunState :=
  {| rs_run_id := rs_run_id s; rs_state := rs_state s; rs_bundle := rs_bundle s;
     rs_department := rs_department s; rs_workflow := rs_workflow s; rs_input := rs_input s;
     rs_remit_id := rs_remit_id s; rs_requested_by := rs_requested_by s; rs_steps := rs_steps s;
     rs_budget := rs_budget s; rs_pending_approval := rs_pending_approval s;
     rs_decisions := rs_decisions s; rs_compensations := rs_compensations s;
     rs_output := rs_output s; rs_error := rs_error s; rs_needs_human := rs_needs_human s;
     rs_abandoning := rs_abandoning s; rs_park_reason := v; rs_last_seq := rs_last_seq s |}.

Definition set_last_seq (v : Z) (s : RunState) : RunState :=
  {| rs_run_id := rs_run_id s; rs_state := rs_state s; rs_bundle := rs_bundle s;
     rs_department := rs_department s; rs_workflow := rs_workflow s; rs_input := rs_input s;
     rs_remit_id := rs_remit_id s; rs_requested_by := rs_requested_by s; rs_steps := rs_steps s;
     rs_budget := rs_budget s; rs_pending_approval := rs_pending_approval s;
     rs_decisions := rs_decisions s; rs_compensations := rs_compensations s;
     rs_output := rs_output s; rs_error := rs_error s; rs_needs_human := rs_needs_human s;
     rs_abandoning := rs_abandoning s; rs_park_reason := rs_park_reason s; rs_last_seq := v |}.

(** ** Queries *)

Definition find_step (id : string) (s : RunState) : option StepState :=
  find_first (fun st => String.eqb (st_id st) id) (rs_steps s).

(** [if let Some(step) = self.step_mut(id) { ... }] *)
Definition update_step (id : string) (f : StepState -> StepState) (s : RunState) : RunState :=
  set_steps (update_first (fun st => String.eqb (st_id st) id) f (rs_steps s)) s.

Definition is_compensation (st : StepState) : bool := String.eqb (st_kind st) "compensation".

Definition workflow_steps (s : RunState) : list StepState :=
  List.filter (fun st => negb (is_compensation st)) (rs_steps s).

Definition compensation_steps (s : RunState) : list StepState :=
  List.filter is_compensation (rs_steps s).

Definition unwind_pending (s : RunState) : bool :=
  any (fun c => String.eqb (co_state c) "scheduled") (rs_compensations s).

Definition is_terminal (s : RunState) : bool :=
  match rs_state s with RCompleted | RFailed | RAbandoned => true | _ => false end.

Definition step_is (st : StepStatus) (s : StepState) : bool := bool_decide (st_state s = st).

Definition next_step (s : RunState) : option StepState :=
  if is_terminal s then None
  else if rs_abandoning s
  then find_first (fun st => negb (step_is SCompleted st)) (compensation_steps s)
  else find_first (fun st => negb (step_is SCompleted st)) (workflow_steps s).

(** ** Events *)

Definition from_created (e : Event) : result FoldError RunState :=
  if negb (bool_decide (ev_kind e = Kind.RunCreated))
  then Err (FirstNotRunCreated (ev_seq e) (ev_kind e))
  else
    let? created := ok_or (BadPayload (ev_seq e) (ev_kind e)) (typed (P := RunCreated) e) in
    Ok {| rs_run_id := ev_run_id e; rs_state := RCreated;
          rs_bundle := {| br_id := rc_bundle_id created; br_name := rc_bundle_name created;
                          br_version := rc_bundle_version created |};
          rs_department := rc_department created; rs_workflow := rc_workflow created;
          rs_input := rc_input created; rs_remit_id := rc_remit_id created;
          rs_requested_by := rc_requested_by created; rs_steps := [];
          rs_budget := {| bu_ceiling_tokens := bg_tokens (rc_budget created);
                          bu_ceiling_usd := bg_usd (rc_budget created);
                          bu_soft_ratio := bg_soft_ratio (rc_budget created);
                          bu_used_tokens := 0; bu_used_usd := f64_zero;
                          bu_soft_hit := false; bu_exceeded := false |};
          rs_pending_approval := None; rs_decisions := []; rs_compensations := [];
          rs_output := None; rs_error := None; rs_needs_human := false;
          rs_abandoning := false; rs_park_reason := None; rs_last_seq := ev_seq e |}.

Definition new_step (p : StepScheduled) : StepState :=
  {| st_id := ss_step p; st_index := ss_index p; st_kind := ss_kind p; st_state := SScheduled;
     st_attempts := 0; st_lease := None; st_output := None; st_error := None;
     st_action_id := None; st_approval_id := None; st_not_before := None |}.

(** The assignments each arm makes to its step. *)
Definition reschedule (st : StepState) : StepState :=
  {| st_id := st_id st; st_index := st_index st; st_kind := st_kind st; st_state := SScheduled;
     st_attempts := 0; st_lease := None; st_output := st_output st; st_error := None;
     st_action_id := st_action_id st; st_approval_id := st_approval_id st;
     st_not_before := None |}.

Definition lease_step (p : StepLeased) (st : StepState) : StepState :=
  {| st_id := st_id st; st_index := st_index st; st_kind := st_kind st; st_state := SLeased;
     st_attempts := sl_attempt p;
     st_lease := Some {| li_lease_id := sl_lease_id p; li_worker_id := sl_worker_id p;
                         li_attempt := sl_attempt p; li_expires_at := sl_expires_at p |};
     st_output := st_output st; st_error := st_error st; st_action_id := st_action_id st;
     st_approval_id := st_approval_id st; st_not_before := None |}.

Definition expire_step (st : StepState) : StepState :=
  {| st_id := st_id st; st_index := st_index st; st_kind := st_kind st; st_state := SScheduled;
     st_attempts := st_attempts st; st_lease := None; st_output := st_output st;
     st_error := st_error st; st_action_id := st_action_id st;
     st_approval_id := st_approval_id st; st_not_before := st_not_before st |}.

Definition complete_step (p : StepCompleted) (st : StepState) : StepState :=
  {| st_id := st_id st; st_index := st_index st; st_kind := st_kind st; st_state := SCompleted;
     st_attempts := st_attempts st; st_lease := None; st_output := Some (sc_output p);
     st_error := None; st_action_id := st_action_id st; st_approval_id := st_approval_id st;
     st_not_before := None |}.

Definition fail_step (p : StepFailed) (st : StepState) : StepState :=
  {| st_id := st_id st; st_index := st_index st; st_kind := st_kind st; st_state := SFailed;
     st_attempts := st_attempts st; st_lease := None; st_output := st_output st;
     st_error := Some (ser_ErrorInfo (sf_error p)); st_action_id := st_action_id st;
     st_approval_id := st_approval_id st; st_not_before := st_not_before st |}.

Definition retry_step (not_before : option string) (st : StepState) : StepState :=
  {| st_id := st_id st; st_index := st_index st; st_kind := st_kind st; st_state := SScheduled;
     st_attempts := st_attempts st; st_lease := None; st_output := st_output st;
     st_error := st_error st; st_action_id := st_action_id st;
     st_approval_id := st_approval_id st; st_not_before := not_before |}.

Definition quarantine_step (st : StepState) : StepState :=
  {| st_id := st_id st; st_index := st_index st; st_kind := st_kind st; st_state := SQuarantined;
     st_attempts := st_attempts st; st_lease := None; st_output := st_output st;
     st_error := st_error st; st_action_id := st_action_id st;
     st_approval_id := st_approval_id st; st_not_before := None |}.

Definition await_approval (p : StepWaitingApproval) (st : StepState) : StepState :=
  {| st_id := st_id st; st_index := st_index st; st_kind := st_kind st;
     st_state := SWaitingApproval; st_attempts := st_attempts st; st_lease := None;
     st_output := st_output st; st_error := st_error st; st_action_id := Some (sw_action_id p);
     st_approval_id := Some (sw_approval_id p); st_not_before := st_not_before st |}.

Definition propose_step (p : ActionProposed) (st : StepState) : StepState :=
  {| st_id := st_id st; st_index := st_index st; st_kind := st_kind st; st_state := st_state st;
     st_attempts := st_attempts st; st_lease := st_lease st; st_output := st_output st;
     st_error := st_error st; st_action_id := Some (ap_action_id p);
     st_approval_id := st_approval_id st; st_not_before := st_not_before st |}.

Definition set_used (tokens : Z) (usd : f64) (b : BudgetState) : BudgetState :=
  {| bu_ceiling_tokens := bu_ceiling_tokens b; bu_ceiling_usd := bu_ceiling_usd b;
     bu_soft_ratio := bu_soft_ratio b; bu_used_tokens := tokens; bu_used_usd := usd;
     bu_soft_hit := bu_soft_hit b; bu_exceeded := bu_exceeded b |}.

Definition set_soft_hit (b : BudgetState) : BudgetState :=
  {| bu_ceiling_tokens := bu_ceiling_tokens b; bu_ceiling_usd := bu_ceiling_usd b;
     bu_soft_ratio := bu_soft_ratio b; bu_used_tokens := bu_used_tokens b;
     bu_used_usd := bu_used_usd b; bu_soft_hit := true; bu_exceeded := bu_exceeded b |}.

Definition set_exceeded (b : BudgetState) : BudgetState :=
  {| bu_ceiling_tokens := bu_ceiling_tokens b; bu_ceiling_usd := bu_ceiling_usd b;
     bu_soft_ratio := bu_soft_ratio b; bu_used_tokens := bu_used_tokens b;
     bu_used_usd := bu_used_usd b; bu_soft_hit := bu_soft_hit b; bu_exceeded := true |}.

Definition set_comp_state (v : string) (c : CompensationState) : CompensationState :=
  {| co_for_step := co_for_step c; co_step := co_step c; co_state := v |}.

(** The first compensation for a step changes state. *)
Definition mark_compensation (for_step v : string) (s : RunState) : RunState :=
  set_compensations
    (update_first (fun c => String.eqb (co_for_step c) for_step) (set_comp_state v)
       (rs_compensations s)) s.

Definition escalate_pending (p : ApprovalEscalated) (a : PendingApproval) : PendingApproval :=
  if String.eqb (pa_approval_id a) (ae_approval_id p)
  then {| pa_approval_id := pa_approval_id a; pa_action_id := pa_action_id a;
          pa_approver := ae_to p;
          pa_due_at := match ae_due_at p with Some due => due | None => pa_due_at a end |}
  else a.

Definition is_status (st : RunStatus) (s : RunState) : bool := bool_decide (rs_state s = st).

(** The effect of one decoded payload, by kind. *)
Definition apply_payload (e : Event) (p : payload) (s : RunState) : option RunState :=
  match p with
  | PRunCreated _ => None
  | PStepScheduled p =>
      let s := match find_step (ss_step p) s with
               | Some _ => update_step (ss_step p) reschedule s
               | None => set_steps (rs_steps s ++ [new_step p]) s
               end in
      Some (if is_status RCreated s then set_state RRunning s else s)
  | PStepLeased p => Some (update_step (sl_step p) (lease_step p) s)
  | PStepLeaseExpired p => Some (update_step (sle_step p) expire_step s)
  | PStepCompleted p => Some (update_step (sc_step p) (complete_step p) s)
  | PStepFailed p => Some (update_step (sf_step p) (fail_step p) s)
  | PStepRetryScheduled p =>
      let not_before :=
        option_map (fun ts => format_ms (i64_wrap (ts + u64_as_i64 (sr_delay_ms p)))) (ts_ms e) in
      Some (update_step (sr_step p) (retry_step not_before) s)
  | PStepQuarantined p => Some (update_step (sq_step p) quarantine_step s)
  | PStepWaitingApproval p => Some (update_step (sw_step p) (await_approval p) s)
  | PActionProposed p => Some (update_step (ap_step p) (propose_step p) s)
  | PPolicyDecided p =>
      Some (set_decisions
        (rs_decisions s ++ [{| dr_action_id := pd_action_id p; dr_decision := pd_decision p;
                               dr_rule := pd_rule p; dr_policy := pd_policy p;
                               dr_policy_version := pd_policy_version p |}]) s)
  | PApprovalRequested p =>
      Some (set_pending_approval
        (Some {| pa_approval_id := ar_approval_id p; pa_action_id := ar_action_id p;
                 pa_approver := ar_approver p; pa_due_at := ar_due_at p |}) s)
  | PApprovalEscalated p =>
      Some (set_pending_approval (option_map (escalate_pending p) (rs_pending_approval s)) s)
  | PApprovalDecided p =>
      Some (match rs_pending_approval s with
            | Some a => if String.eqb (pa_approval_id a) (ad_approval_id p)
                        then set_pending_approval None s else s
            | None => s
            end)
  | PUsageRecorded p =>
      Some (set_budget (set_used (ur_cumulative_tokens p) (ur_cumulative_usd p) (rs_budget s)) s)
  | PBudgetSoftThreshold _ => Some (set_budget (set_soft_hit (rs_budget s)) s)
  | PBudgetExceeded _ => Some (set_budget (set_exceeded (rs_budget s)) s)
  | PRunParked p =>
      let s := set_state RParked s in
      let s := if String.eqb (rp_reason p) "human" then set_needs_human true s else s in
      Some (set_park_reason (Some (rp_reason p)) s)
  | PRunResumed _ =>
      Some (set_needs_human false (set_park_reason None (set_state RRunning s)))
  | PRunAbandoned _ =>
      let s := set_pending_approval None (set_park_reason None (set_abandoning true s)) in
      Some (set_state (if unwind_pending s then RRunning else RAbandoned) s)
  | PCompensationScheduled p =>
      let s := set_compensations
        (rs_compensations s ++ [{| co_for_step := cs_for_step p; co_step := cs_step p;
                                   co_state := "scheduled" |}]) s in
      Some (if rs_abandoning s && is_status RAbandoned s then set_state RRunning s else s)
  | PCompensationCompleted p =>
      let s := mark_compensation (cc_for_step p) "completed" s in
      Some (if rs_abandoning s && is_status RRunning s && negb (unwind_pending s)
            then set_state RAbandoned s else s)
  | PCompensationFailed p => Some (mark_compensation (cf_for_step p) "failed" s)
  | PRunCompleted p =>
      Some (set_park_reason None (set_output (Some (rco_output p)) (set_state RCompleted s)))
  | PRunFailed p =>
      Some (set_park_reason None (set_needs_human (rf_needs_human p)
        (set_error (Some (ser_ErrorInfo (rf_error p))) (set_state RFailed s))))
  | PStepEscalated _ | PModelCalled _ | PModelResponded _ | PToolCalled _ | PToolResult _
  | PToolRefused _ | PNote _ => Some s
  end.

Definition apply (s : RunState) (e : Event) : result FoldError RunState :=
  let s := set_last_seq (ev_seq e) s in
  match ev_kind e with
  | Kind.BudgetSoftThreshold => Ok (set_budget (set_soft_hit (rs_budget s)) s)
  | Kind.BudgetExceeded => Ok (set_budget (set_exceeded (rs_budget s)) s)
  | Kind.StepEscalated | Kind.ModelCalled | Kind.ModelResponded | Kind.ToolCalled
  | Kind.ToolResult | Kind.ToolRefused | Kind.Note => Ok s
  | kind =>
      ok_or (BadPayload (ev_seq e) kind)
        (p ← decode_payload kind (ev_payload e); apply_payload e p s)
  end.

Fixpoint apply_all (s : RunState) (events : list Event) : result FoldError RunState :=
  match events with
  | [] => Ok s
  | e :: events => let? s := apply s e in apply_all s events
  end.

Definition fold (events : list Event) : result FoldError RunState :=
  match events with
  | [] => Err Empty
  | first :: rest => let? s := from_created first in apply_all s rest
  end.
