(* ===== verification/RunJson.v ===== *)
(** * The state a row stores

    The derived JSON of [RunState] ([kernos-core/src/fold.rs]), which the [runs] table keeps
    in [state_json] and every operation reads back.  Reading back is not quite the identity:
    an [Option<Value>] that holds a JSON null comes back as [None], the map [norm_state]. *)

From S2P Require Import Prelude Text F64 Json Canonical Time Payloads PayloadLaws Events Fold.
From Stdlib Require Import Ascii SpecFloat.

Local Open Scope string_scope.
Local Open Scope list_scope.
Local Open Scope Z_scope.

Definition ser_StepStatus (s : StepStatus) : json := JStr (step_status_str s).
Definition ser_RunStatus (s : RunStatus) : json := JStr (run_status_str s).

Definition step_status_parse (s : string) : option StepStatus :=
  if String.eqb s "scheduled" then Some SScheduled
  else if String.eqb s "leased" then Some SLeased
  else if String.eqb s "completed" then Some SCompleted
  else if String.eqb s "failed" then Some SFailed
  else if String.eqb s "quarantined" then Some SQuarantined
  else if String.eqb s "waiting_approval" then Some SWaitingApproval
  else None.

Definition de_StepStatus (j : json) : option StepStatus := s ← de_unit_variant j; step_status_parse s.
Definition de_RunStatus (j : json) : option RunStatus := s ← de_unit_variant j; run_status_parse s.

(** ** Derived encodings *)

Definition ser_BundleRef (p : BundleRef) : json :=
  obj [("id", JStr (br_id p)); ("name", JStr (br_name p)); ("version", JStr (br_version p))].

Definition de_BundleRef (j : json) : option BundleRef :=
  fs ← struct_fields ["id"; "name"; "version"] j;
  id ← req de_string "id" fs;
  name ← req de_string "name" fs;
  version ← req de_string "version" fs;
  Some {| br_id := id; br_name := name; br_version := version |}.

Definition ser_LeaseInfo (p : LeaseInfo) : json :=
  obj [("lease_id", JStr (li_lease_id p)); ("worker_id", JStr (li_worker_id p));
       ("attempt", json_u64 (li_attempt p)); ("expires_at", JStr (li_expires_at p))].

Definition de_LeaseInfo (j : json) : option LeaseInfo :=
  fs ← struct_fields ["lease_id"; "worker_id"; "attempt"; "expires_at"] j;
  lease_id ← req de_string "lease_id" fs;
  worker_id ← req de_string "worker_id" fs;
  attempt ← req de_u32 "attempt" fs;
  expires_at ← req de_string "expires_at" fs;
  Some {| li_lease_id := lease_id; li_worker_id := worker_id; li_attempt := attempt;
          li_expires_at := expires_at |}.

Definition ser_StepState (p : StepState) : json :=
  obj ([("id", JStr (st_id p)); ("index", json_u64 (st_index p)); ("kind", JStr (st_kind p));
       ("state", ser_StepStatus (st_state p)); ("attempts", json_u64 (st_attempts p));
       ("lease", ser_option ser_LeaseInfo (st_lease p)); ("output", ser_option id (st_output p));
       ("error", ser_option id (st_error p)); ("action_id", ser_option JStr (st_action_id p));
       ("approval_id", ser_option JStr (st_approval_id p))] ++
       skip_none "not_before" JStr (st_not_before p)).

Definition de_StepState (j : json) : option StepState :=
  fs ← struct_fields ["id"; "index"; "kind"; "state"; "attempts"; "lease"; "output"; "error";
                      "action_id"; "approval_id"; "not_before"] j;
  id ← req de_string "id" fs;
  index ← req de_u32 "index" fs;
  kind ← req de_string "kind" fs;
  state ← req de_StepStatus "state" fs;
  attempts ← req de_u32 "attempts" fs;
  lease ← opt de_LeaseInfo "lease" fs;
  output ← opt de_value "output" fs;
  error ← opt de_value "error" fs;
  action_id ← opt de_string "action_id" fs;
  approval_id ← opt de_string "approval_id" fs;
  not_before ← dflt (de_option de_string) "not_before" None fs;
  Some {| st_id := id; st_index := index; st_kind := kind; st_state := state;
          st_attempts := attempts; st_lease := lease; st_output := output; st_error := error;
          st_action_id := action_id; st_approval_id := approval_id;
          st_not_before := not_before |}.

Definition ser_BudgetState (p : BudgetState) : json :=
  obj [("ceiling_tokens", ser_option json_u64 (bu_ceiling_tokens p));
       ("ceiling_usd", ser_option json_f64 (bu_ceiling_usd p));
       ("soft_ratio", json_f64 (bu_soft_ratio p)); ("used_tokens", json_u64 (bu_used_tokens p));
       ("used_usd", json_f64 (bu_used_usd p)); ("soft_hit", JBool (bu_soft_hit p));
       ("exceeded", JBool (bu_exceeded p))].

Definition de_BudgetState (j : json) : option BudgetState :=
  fs ← struct_fields ["ceiling_tokens"; "ceiling_usd"; "soft_ratio"; "used_tokens"; "used_usd";
                      "soft_hit"; "exceeded"] j;
  ceiling_tokens ← opt de_u64 "ceiling_tokens" fs;
  ceiling_usd ← opt de_f64 "ceiling_usd" fs;
  soft_ratio ← req de_f64 "soft_ratio" fs;
  used_tokens ← req de_u64 "used_tokens" fs;
  used_usd ← req de_f64 "used_usd" fs;
  soft_hit ← req de_bool "soft_hit" fs;
  exceeded ← req de_bool "exceeded" fs;
  Some {| bu_ceiling_tokens := ceiling_tokens; bu_ceiling_usd := ceiling_usd;
          bu_soft_ratio := soft_ratio; bu_used_tokens := used_tokens; bu_used_usd := used_usd;
          bu_soft_hit := soft_hit; bu_exceeded := exceeded |}.

Definition ser_PendingApproval (p : PendingApproval) : json :=
  obj [("approval_id", JStr (pa_approval_id p)); ("action_id", JStr (pa_action_id p));
       ("approver", pa_approver p); ("due_at", JStr (pa_due_at p))].

Definition de_PendingApproval (j : json) : option PendingApproval :=
  fs ← struct_fields ["approval_id"; "action_id"; "approver"; "due_at"] j;
  approval_id ← req de_string "approval_id" fs;
  action_id ← req de_string "action_id" fs;
  approver ← req de_value "approver" fs;
  due_at ← req de_string "due_at" fs;
  Some {| pa_approval_id := approval_id; pa_action_id := action_id; pa_approver := approver;
          pa_due_at := due_at |}.

Definition ser_DecisionRecord (p : DecisionRecord) : json :=
  obj [("action_id", JStr (dr_action_id p)); ("decision", JStr (dr_decision p));
       ("rule", JStr (dr_rule p)); ("policy", ser_option JStr (dr_policy p));
       ("policy_version", dr_policy_version p)].

Definition de_DecisionRecord (j : json) : option DecisionRecord :=
  fs ← struct_fields ["action_id"; "decision"; "rule"; "policy"; "policy_version"] j;
  action_id ← req de_string "action_id" fs;
  decision ← req de_string "decision" fs;
  rule ← req de_string "rule" fs;
  policy ← opt de_string "policy" fs;
  policy_version ← req de_value "policy_version" fs;
  Some {| dr_action_id := action_id; dr_decision := decision; dr_rule := rule;
          dr_policy := policy; dr_policy_version := policy_version |}.

Definition ser_CompensationState (p : CompensationState) : json :=
  obj [("for_step", JStr (co_for_step p)); ("step", JStr (co_step p));
       ("state", JStr (co_state p))].

Definition de_CompensationState (j : json) : option CompensationState :=
  fs ← struct_fields ["for_step"; "step"; "state"] j;
  for_step ← req de_string "for_step" fs;
  step ← req de_string "step" fs;
  state ← req de_string "state" fs;
  Some {| co_for_step := for_step; co_step := step; co_state := state |}.

Definition ser_RunState (p : RunState) : json :=
  obj [("run_id", JStr (rs_run_id p)); ("state", ser_RunStatus (rs_state p));
       ("bundle", ser_BundleRef (rs_bundle p));
       ("department", ser_option JStr (rs_department p)); ("workflow", JStr (rs_workflow p));
       ("input", rs_input p); ("remit_id", JStr (rs_remit_id p));
       ("requested_by", rs_requested_by p); ("steps", (ser_list ser_StepState) (rs_steps p));
       ("budget", ser_BudgetState (rs_budget p));
       ("pending_approval", ser_option ser_PendingApproval (rs_pending_approval p));
       ("decisions", (ser_list ser_DecisionRecord) (rs_decisions p));
       ("compensations", (ser_list ser_CompensationState) (rs_compensations p));
       ("output", ser_option id (rs_output p)); ("error", ser_option id (rs_error p));
       ("needs_human", JBool (rs_needs_human p)); ("abandoning", JBool (rs_abandoning p));
       ("park_reason", ser_option JStr (rs_park_reason p));
       ("last_seq", json_u64 (rs_last_seq p))].

Definition de_RunState (j : json) : option RunState :=
  fs ← struct_fields ["run_id"; "state"; "bundle"; "department"; "workflow"; "input"; "remit_id";
                      "requested_by"; "steps"; "budget"; "pending_approval"; "decisions";
                      "compensations"; "output"; "error"; "needs_human"; "abandoning";
                      "park_reason"; "last_seq"] j;
  run_id ← req de_string "run_id" fs;
  state ← req de_RunStatus "state" fs;
  bundle ← req de_BundleRef "bundle" fs;
  department ← opt de_string "department" fs;
  workflow ← req de_string "workflow" fs;
  input ← req de_value "input" fs;
  remit_id ← req de_string "remit_id" fs;
  requested_by ← req de_value "requested_by" fs;
  steps ← req (de_list de_StepState) "steps" fs;
  budget ← req de_BudgetState "budget" fs;
  pending_approval ← opt de_PendingApproval "pending_approval" fs;
  decisions ← req (de_list de_DecisionRecord) "decisions" fs;
  compensations ← req (de_list de_CompensationState) "compensations" fs;
  output ← opt de_value "output" fs;
  error ← opt de_value "error" fs;
  needs_human ← req de_bool "needs_human" fs;
  abandoning ← req de_bool "abandoning" fs;
  park_reason ← opt de_string "park_reason" fs;
  last_seq ← req de_u64 "last_seq" fs;
  Some {| rs_run_id := run_id; rs_state := state; rs_bundle := bundle;
          rs_department := department; rs_workflow := workflow; rs_input := input;
          rs_remit_id := remit_id; rs_requested_by := requested_by; rs_steps := steps;
          rs_budget := budget; rs_pending_approval := pending_approval;
          rs_decisions := decisions; rs_compensations := compensations; rs_output := output;
          rs_error := error; rs_needs_human := needs_human; rs_abandoning := abandoning;
          rs_park_reason := park_reason; rs_last_seq := last_seq |}.

(** ** Reading back *)

Definition drop_null (o : option json) : option json :=
  match o with Some JNull => None | _ => o end.

Definition norm_step (p : StepState) : StepState :=
  {| st_id := st_id p; st_index := st_index p; st_kind := st_kind p; st_state := st_state p;
     st_attempts := st_attempts p; st_lease := st_lease p; st_output := drop_null (st_output p);
     st_error := drop_null (st_error p); st_action_id := st_action_id p;
     st_approval_id := st_approval_id p; st_not_before := st_not_before p |}.

Definition norm_state (s : RunState) : RunState :=
  set_steps (map norm_step (rs_steps s))
    (set_output (drop_null (rs_output s)) (set_error (drop_null (rs_error s)) s)).

Definition LeaseInfo_wf (p : LeaseInfo) : Prop := u32_ok (li_attempt p).

Definition StepState_wf (p : StepState) : Prop :=
  u32_ok (st_index p) /\ u32_ok (st_attempts p) /\
  (forall a, st_lease p = Some a -> LeaseInfo_wf a).

Definition BudgetState_wf (p : BudgetState) : Prop :=
  (forall a, bu_ceiling_usd p = Some a -> f64_is_finite a = true) /\
  f64_is_finite (bu_soft_ratio p) = true /\ f64_is_finite (bu_used_usd p) = true.

Definition RunState_wf (p : RunState) : Prop :=
  Forall StepState_wf (rs_steps p) /\ BudgetState_wf (rs_budget p).

Lemma de_option_value o : de_option de_value (ser_option id o) = Some (drop_null o).
Proof. by destruct o as [[]|]. Qed.

Lemma de_ser_StepStatus s : de_StepStatus (ser_StepStatus s) = Some s.
Proof. by destruct s. Qed.

Lemma de_ser_RunStatus s : de_RunStatus (ser_RunStatus s) = Some s.
Proof. by destruct s. Qed.

Lemma obj_not_null l : obj l <> JNull.
Proof. done. Qed.

#[export] Hint Resolve de_option_value de_ser_StepStatus de_ser_RunStatus obj_not_null : codec.

Lemma de_ser_BundleRef p : de_BundleRef (ser_BundleRef p) = Some p.
Proof. unfold de_BundleRef, ser_BundleRef. payload_codec. Qed.

Lemma de_ser_LeaseInfo p : LeaseInfo_wf p -> de_LeaseInfo (ser_LeaseInfo p) = Some p.
Proof. unfold LeaseInfo_wf, de_LeaseInfo, ser_LeaseInfo. payload_codec. Qed.

Lemma de_ser_BudgetState p : BudgetState_wf p -> de_BudgetState (ser_BudgetState p) = Some p.
Proof. unfold BudgetState_wf, de_BudgetState, ser_BudgetState. payload_codec. Qed.

Lemma de_ser_PendingApproval p : de_PendingApproval (ser_PendingApproval p) = Some p.
Proof. unfold de_PendingApproval, ser_PendingApproval. payload_codec. Qed.

Lemma de_ser_DecisionRecord p : de_DecisionRecord (ser_DecisionRecord p) = Some p.
Proof. unfold de_DecisionRecord, ser_DecisionRecord. payload_codec. Qed.

Lemma de_ser_CompensationState p : de_CompensationState (ser_CompensationState p) = Some p.
Proof. unfold de_CompensationState, ser_CompensationState. payload_codec. Qed.

#[export] Hint Resolve de_ser_BundleRef de_ser_LeaseInfo de_ser_BudgetState de_ser_PendingApproval
  de_ser_DecisionRecord de_ser_CompensationState : codec.

#[local] Opaque de_BundleRef de_LeaseInfo de_BudgetState de_PendingApproval de_DecisionRecord
  de_CompensationState de_StepStatus de_RunStatus.

Lemma de_ser_StepState p : StepState_wf p -> de_StepState (ser_StepState p) = Some (norm_step p).
Proof.
  unfold StepState_wf, de_StepState, ser_StepState. intros; destruct_and?.
  assert (forall a, st_lease p = Some a -> ser_LeaseInfo a <> JNull /\
    de_LeaseInfo (ser_LeaseInfo a) = Some a) by (split; [done | eauto with codec]).
  codec. done.
Qed.

Lemma de_ser_steps l :
  Forall StepState_wf l -> de_list de_StepState (ser_list ser_StepState l) = Some (map norm_step l).
Proof.
  unfold de_list, ser_list. induction 1 as [|p l Hp _ IH]; simpl; [done|].
  rewrite de_ser_StepState by done. by rewrite IH.
Qed.

#[export] Hint Resolve de_ser_steps : codec.
#[local] Opaque de_StepState.

Lemma de_ser_RunState p : RunState_wf p -> de_RunState (ser_RunState p) = Some (norm_state p).
Proof.
  unfold RunState_wf, de_RunState, ser_RunState. intros; destruct_and?.
  assert (forall a, rs_pending_approval p = Some a -> ser_PendingApproval a <> JNull /\
    de_PendingApproval (ser_PendingApproval a) = Some a) by (split; [done | eauto with codec]).
  codec. by destruct p.
Qed.
