(* ===== verification/FoldSpec.v ===== *)
(** * What the fold guarantees

    Folding is incremental, so the materialised row can be kept by applying events one at
    a time; every payload the kernel writes is accepted; events of external actors change
    nothing but the sequence number; and the state reached by any stream whatever satisfies
    [state_inv]: identifiers are unique, a step holds a lease exactly while it is leased, a
    run has a park reason exactly while it is parked, and an abandoned run has unwound. *)

From S2P Require Import Prelude Text F64 Json Canonical Time Payloads PayloadLaws Events Fold.
From S2P Require Import RunJson.
From Stdlib Require Import Ascii SpecFloat.

Local Open Scope string_scope.
Local Open Scope list_scope.
Local Open Scope Z_scope.

(** ** Incrementality *)

Lemma apply_all_app s l1 l2 :
  apply_all s (l1 ++ l2) = (let? s' := apply_all s l1 in apply_all s' l2).
Proof.
  revert s. induction l1 as [|e l1 IH]; intros s; simpl; [done|].
  destruct (apply s e); simpl; [apply IH | done].
Qed.

Lemma fold_snoc l e : l <> [] -> fold (l ++ [e]) = (let? s := fold l in apply s e).
Proof.
  destruct l as [|e0 l]; [done|]. intros _. simpl.
  destruct (from_created e0) as [s0|]; simpl; [|done].
  rewrite apply_all_app. destruct (apply_all s0 l) as [s1|]; simpl; [|done].
  by destruct (apply s1 e).
Qed.

(** ** Acceptance *)

(** [apply] is [apply_payload] of the decoded payload. *)
Lemma apply_decoded s e p :
  decode_payload (ev_kind e) (ev_payload e) = Some p ->
  apply s e = ok_or (BadPayload (ev_seq e) (ev_kind e)) (apply_payload e p (set_last_seq (ev_seq e) s)).
Proof.
  unfold apply. intros Hd.
  destruct (ev_kind e) eqn:Hk; rewrite ?Hd; cbn [mbind option_bind]; try done;
    unfold decode_payload, from_value in Hd; cbn in Hd;
    repeat match goal with
    | H : fmap _ ?x = Some _ |- _ => destruct x; [|discriminate H]; injection H as <-
    | H : option_map _ ?x = Some _ |- _ => destruct x; [|discriminate H]; injection H as <-
    end; done.
Qed.

(** The kinds whose effect does not depend on the payload. *)
Definition payload_free (k : EventKind) : bool :=
  match k with
  | Kind.BudgetSoftThreshold | Kind.BudgetExceeded => true
  | _ => Kind.is_external k
  end.

Definition dummy_payload (k : EventKind) : payload :=
  match k with
  | Kind.BudgetSoftThreshold =>
      PBudgetSoftThreshold {| bs_cumulative_usd := None; bs_ceiling_usd := None;
        bs_cumulative_tokens := None; bs_ceiling_tokens := None; bs_ratio := f64_zero |}
  | Kind.BudgetExceeded =>
      PBudgetExceeded {| be_cumulative_usd := None; be_ceiling_usd := None;
        be_cumulative_tokens := None; be_ceiling_tokens := None |}
  | _ => PNote {| no_text := ""; no_data := JNull |}
  end.

Lemma decode_payload_kind k j p : decode_payload k j = Some p -> payload_kind p = k.
Proof.
  destruct k; cbn [decode_payload];
    match goal with |- _ <$> ?x = _ -> _ => destruct x end; cbn; by intros [= <-].
Qed.

(** Every accepted event has the effect of one payload. *)
Lemma apply_inv s e s' :
  apply s e = Ok s' ->
  exists p, apply_payload e p (set_last_seq (ev_seq e) s) = Some s' /\
    (payload_free (ev_kind e) = true /\ p = dummy_payload (ev_kind e) \/
     payload_free (ev_kind e) = false /\ decode_payload (ev_kind e) (ev_payload e) = Some p).
Proof.
  unfold apply. intros H. destruct (payload_free (ev_kind e)) eqn:Hf.
  - exists (dummy_payload (ev_kind e)). split; [|auto].
    destruct (ev_kind e); try discriminate Hf; injection H as <-; reflexivity.
  - destruct (decode_payload (ev_kind e) (ev_payload e)) as [p|] eqn:Hd.
    + exists p. split; [|auto]. rewrite <- (ok_or_ok (BadPayload (ev_seq e) (ev_kind e))).
      rewrite <- (apply_decoded s e p Hd). exact H.
    + destruct (ev_kind e); try discriminate Hf; rewrite Hd in H; discriminate H.
Qed.

(** ** Shape of the state reached by any stream *)

Definition step_inv (st : StepState) : Prop :=
  (st_state st = SLeased <-> st_lease st <> None) /\
  (forall l, st_lease st = Some l -> li_attempt l = st_attempts st) /\
  (st_state st = SCompleted -> st_output st <> None).

Definition steps_inv (steps : list StepState) : Prop :=
  List.NoDup (map st_id steps) /\ Forall step_inv steps.

Definition scheduled_comp (c : CompensationState) : bool := String.eqb (co_state c) "scheduled".

Record status_inv (s : RunState) : Prop := {
  si_parked : rs_state s = RParked <-> rs_park_reason s <> None;
  si_abandoned : rs_state s = RAbandoned -> rs_abandoning s = true /\ unwind_pending s = false;
  si_completed : rs_state s = RCompleted -> rs_output s <> None;
  si_failed : rs_state s = RFailed -> rs_error s <> None }.

Definition state_inv (s : RunState) : Prop := steps_inv (rs_steps s) /\ status_inv s.

Lemma Forall_update_first {A} (P : A -> Prop) (q : A -> bool) f l :
  (forall x, P x -> P (f x)) -> Forall P l -> Forall P (update_first q f l).
Proof.
  intros Hf. induction 1 as [|x l Hx Hl IH]; simpl; [constructor|].
  destruct (q x); constructor; auto.
Qed.

Lemma steps_inv_update q f l :
  (forall st, st_id (f st) = st_id st) -> (forall st, step_inv st -> step_inv (f st)) ->
  steps_inv l -> steps_inv (update_first q f l).
Proof.
  intros Hid Hf [H1 H2]. split; [by rewrite map_update_first | by apply Forall_update_first].
Qed.

Lemma find_step_none id s : find_step id s = None -> ~ In id (map st_id (rs_steps s)).
Proof.
  unfold find_step. intros H%find_first_none Hin.
  apply in_map_iff in Hin as (st & <- & Hin).
  rewrite List.Forall_forall in H. specialize (H st Hin). by rewrite String.eqb_refl in H.
Qed.

Lemma steps_inv_push p s :
  find_step (ss_step p) s = None -> steps_inv (rs_steps s) -> steps_inv (rs_steps s ++ [new_step p]).
Proof.
  intros E [H1 H2]. split.
  - rewrite map_app. apply List.NoDup_app; [done | repeat constructor; simpl; tauto |].
    intros x Hx [<-|[]]. by apply find_step_none in E.
  - apply Forall_app. split; [done|]. constructor; [|constructor]. repeat split; cbn; done.
Qed.

Lemma any_update_first {A} (q p : A -> bool) f l :
  (forall x, p (f x) = false) -> any p l = false -> any p (update_first q f l) = false.
Proof.
  intros Hf. unfold any. induction l as [|x l IH]; simpl; [done|].
  intros [Hx Hl]%orb_false_iff. destruct (q x); simpl; rewrite ?Hf, ?Hx; auto.
Qed.

Lemma mark_unwound id v s :
  v <> "scheduled" -> unwind_pending s = false -> unwind_pending (mark_compensation id v s) = false.
Proof.
  intros Hv. unfold unwind_pending. cbn. apply any_update_first. intros c. cbn.
  by apply String.eqb_neq.
Qed.

Lemma status_inv_mark id v s :
  v <> "scheduled" -> status_inv s -> status_inv (mark_compensation id v s).
Proof.
  intros Hv []. constructor; auto. intros H. destruct (si_abandoned0 H).
  split; [done | by apply mark_unwound].
Qed.

(** Closes [status_inv] goals where the status is a known constructor. *)
Ltac status := constructor; cbn; try done; try (split; done).

Lemma apply_payload_steps e p s s' :
  apply_payload e p s = Some s' -> steps_inv (rs_steps s) -> steps_inv (rs_steps s').
Proof.
  intros H Hs. destruct p; cbn [apply_payload] in H; try discriminate H; injection H as <-;
    try exact Hs;
    try (apply steps_inv_update; [done | | done]; intros st (H1 & H2 & H3); repeat split; cbn;
         try done; try (by intros ? [= <-]); tauto);
    try (repeat match goal with |- context [if ?b then _ else _] => destruct b end; exact Hs).
  destruct (find_step (ss_step p) s) eqn:E; destruct (is_status RCreated _); cbn;
    try (by apply steps_inv_push);
    try (apply steps_inv_update; try done; intros st _; repeat split; cbn; done).
  destruct (rs_pending_approval s); [|exact Hs]. by destruct (String.eqb _ _).
Qed.

(** A run put (back) to work with no park reason. *)
Lemma status_inv_running s : rs_park_reason s = None -> rs_state s = RRunning -> status_inv s.
Proof. intros Hp Hr. constructor; rewrite Hr, ?Hp; done. Qed.

Lemma status_not_parked s : status_inv s -> rs_state s <> RParked -> rs_park_reason s = None.
Proof. intros [Hp _ _ _] Hn. destruct (rs_park_reason s); [|done]. exfalso. by apply Hn, Hp. Qed.

(** Only the fields of the status matter. *)
Lemma status_inv_ext s s' :
  rs_state s' = rs_state s -> rs_park_reason s' = rs_park_reason s ->
  rs_abandoning s' = rs_abandoning s -> rs_compensations s' = rs_compensations s ->
  rs_output s' = rs_output s -> rs_error s' = rs_error s -> status_inv s -> status_inv s'.
Proof.
  intros E1 E2 E3 E4 E5 E6 []. unfold unwind_pending in *.
  constructor; unfold unwind_pending; rewrite ?E1, ?E2, ?E3, ?E4, ?E5, ?E6; auto.
Qed.

Lemma apply_payload_status e p s s' :
  apply_payload e p s = Some s' -> status_inv s -> status_inv s'.
Proof.
  intros H Hs. destruct p; cbn [apply_payload] in H; try discriminate H; injection H as <-;
    try (apply (status_inv_ext s); done).
  all: try (constructor; cbn; done).
  - set (s1 := match find_step (ss_step p) s with
               | Some _ => update_step (ss_step p) reschedule s
               | None => set_steps (rs_steps s ++ [new_step p]) s end).
    assert (status_inv s1) as H1 by (subst s1; destruct (find_step _ _); by apply (status_inv_ext s)).
    destruct (is_status RCreated s1) eqn:E; [|done]. unfold is_status in E. bool_prop.
    apply status_inv_running; [|done]. apply (status_not_parked s1); [done | by rewrite E].
  - destruct (rs_pending_approval s) as [a|]; [|done]. destruct (String.eqb _ _); [|done].
    by apply (status_inv_ext s).
  - constructor; cbn; destruct (String.eqb _ _); try done; by split.
  - match goal with |- context [unwind_pending ?x] => destruct (unwind_pending x) eqn:E end;
      [by apply status_inv_running | by constructor].
  - match goal with |- context [if ?b then _ else _] => destruct b eqn:E end.
    + unfold is_status in E. bool_prop. apply status_inv_running; [|done]. cbn in *.
      apply (status_not_parked s); [done | congruence].
    + destruct Hs as [H1 H2 H3 H4]. constructor; auto. intros Ha. exfalso.
      destruct (H2 Ha) as [Hb _]. rewrite Hb in E. unfold is_status in E. cbn in *.
      by rewrite bool_decide_eq_true_2 in E.
  - assert (status_inv (mark_compensation (cc_for_step p) "completed" s)) as Hm
      by by apply status_inv_mark.
    match goal with |- context [if ?b then _ else _] => destruct b eqn:E end; [|done]. unfold is_status in E. bool_prop.
    constructor; cbn; try done. cbn in *.
    rewrite (status_not_parked s) by (done || congruence). done.
  - by apply status_inv_mark.
Qed.

Lemma apply_state_inv s e s' : apply s e = Ok s' -> state_inv s -> state_inv s'.
Proof.
  intros (p & Hp & _)%apply_inv [H1 H2]. split.
  - by eapply apply_payload_steps.
  - eapply apply_payload_status; [exact Hp|]. by apply (status_inv_ext s).
Qed.

Lemma from_created_inv e s : from_created e = Ok s -> state_inv s.
Proof.
  unfold from_created. destruct (negb _); [discriminate|]. intros H. inv_ok.
  repeat split; cbn; try done; repeat constructor.
Qed.

Lemma apply_all_inv l s s' : apply_all s l = Ok s' -> state_inv s -> state_inv s'.
Proof.
  revert s. induction l as [|e l IH]; intros s H Hs; cbn in H; [by injection H as <-|].
  inv_ok. eauto using apply_state_inv.
Qed.

Lemma fold_inv l s : fold l = Ok s -> state_inv s.
Proof.
  destruct l as [|e l]; [discriminate|]. intros H. cbn in H. inv_ok.
  eauto using apply_all_inv, from_created_inv.
Qed.

(** ** Folding from a state that was read back *)

Lemma norm_step_idem st : norm_step (norm_step st) = norm_step st.
Proof.
  unfold norm_step. cbn. f_equal; [destruct (st_output st) as [[]|] | destruct (st_error st) as [[]|]]; done.
Qed.

Lemma update_first_norm q f l :
  (forall st, q (norm_step st) = q st) ->
  (forall st, norm_step (f (norm_step st)) = norm_step (f st)) ->
  map norm_step (update_first q f (map norm_step l)) = map norm_step (update_first q f l).
Proof.
  intros Hq Hf. induction l as [|st l IH]; cbn; [done|]. rewrite Hq.
  destruct (q st); cbn; rewrite ?Hf, ?IH, ?norm_step_idem; f_equal.
  rewrite map_map. apply map_ext. apply norm_step_idem.
Qed.

Lemma find_first_map {A B} (g : A -> B) (q : B -> bool) l :
  find_first q (map g l) = option_map g (find_first (fun x => q (g x)) l).
Proof. induction l as [|x l IH]; cbn; [done|]. by destruct (q (g x)). Qed.

Lemma drop_null_idem o : drop_null (drop_null o) = drop_null o.
Proof. by destruct o as [[]|]. Qed.

Lemma map_norm_idem l : map norm_step (map norm_step l) = map norm_step l.
Proof. rewrite map_map. apply map_ext, norm_step_idem. Qed.

(** States that agree once written and read back. *)
Record sim (s t : RunState) : Prop := {
  sim_run_id : rs_run_id s = rs_run_id t;
  sim_state : rs_state s = rs_state t;
  sim_bundle : rs_bundle s = rs_bundle t;
  sim_department : rs_department s = rs_department t;
  sim_workflow : rs_workflow s = rs_workflow t;
  sim_input : rs_input s = rs_input t;
  sim_remit_id : rs_remit_id s = rs_remit_id t;
  sim_requested_by : rs_requested_by s = rs_requested_by t;
  sim_steps : map norm_step (rs_steps s) = map norm_step (rs_steps t);
  sim_budget : rs_budget s = rs_budget t;
  sim_pending : rs_pending_approval s = rs_pending_approval t;
  sim_decisions : rs_decisions s = rs_decisions t;
  sim_compensations : rs_compensations s = rs_compensations t;
  sim_output : drop_null (rs_output s) = drop_null (rs_output t);
  sim_error : drop_null (rs_error s) = drop_null (rs_error t);
  sim_needs_human : rs_needs_human s = rs_needs_human t;
  sim_abandoning : rs_abandoning s = rs_abandoning t;
  sim_park_reason : rs_park_reason s = rs_park_reason t;
  sim_last_seq : rs_last_seq s = rs_last_seq t }.

#[export] Instance sim_equivalence : Equivalence sim.
Proof.
  split.
  - intros s. by constructor.
  - intros s t []. by constructor.
  - intros s t u [] []. constructor; congruence.
Qed.

Lemma sim_norm s : sim (norm_state s) s.
Proof. constructor; try done; cbn; auto using map_norm_idem, drop_null_idem. Qed.

Lemma norm_sim s t : sim s t <-> norm_state s = norm_state t.
Proof.
  split.
  - intros []. destruct s, t; cbn in *. subst.
    unfold norm_state, set_steps, set_output, set_error. cbn. by f_equal.
  - intros H. transitivity (norm_state s); [symmetry; apply sim_norm|]. rewrite H. apply sim_norm.
Qed.

(** Assignments respect the relation. *)
Ltac sim_fields := intros s t []; constructor; cbn; done || congruence.

#[export] Instance set_state_sim v : Proper (sim ==> sim) (set_state v).
Proof. sim_fields. Qed.
#[export] Instance set_budget_sim v : Proper (sim ==> sim) (set_budget v).
Proof. sim_fields. Qed.
#[export] Instance set_pending_approval_sim v : Proper (sim ==> sim) (set_pending_approval v).
Proof. sim_fields. Qed.
#[export] Instance set_decisions_sim v : Proper (sim ==> sim) (set_decisions v).
Proof. sim_fields. Qed.
#[export] Instance set_compensations_sim v : Proper (sim ==> sim) (set_compensations v).
Proof. sim_fields. Qed.
#[export] Instance set_output_sim v : Proper (sim ==> sim) (set_output v).
Proof. sim_fields. Qed.
#[export] Instance set_error_sim v : Proper (sim ==> sim) (set_error v).
Proof. sim_fields. Qed.
#[export] Instance set_needs_human_sim v : Proper (sim ==> sim) (set_needs_human v).
Proof. sim_fields. Qed.
#[export] Instance set_abandoning_sim v : Proper (sim ==> sim) (set_abandoning v).
Proof. sim_fields. Qed.
#[export] Instance set_park_reason_sim v : Proper (sim ==> sim) (set_park_reason v).
Proof. sim_fields. Qed.
#[export] Instance set_last_seq_sim v : Proper (sim ==> sim) (set_last_seq v).
Proof. sim_fields. Qed.
#[export] Instance is_status_sim st : Proper (sim ==> eq) (is_status st).
Proof. intros s t []. unfold is_status. by rewrite sim_state0. Qed.
#[export] Instance unwind_pending_sim : Proper (sim ==> eq) unwind_pending.
Proof. intros s t []. unfold unwind_pending. by rewrite sim_compensations0. Qed.
#[export] Instance mark_compensation_sim id v : Proper (sim ==> sim) (mark_compensation id v).
Proof.
  intros s t H. unfold mark_compensation. rewrite (sim_compensations _ _ H). by rewrite H.
Qed.

Lemma set_steps_sim l l' s t :
  map norm_step l = map norm_step l' -> sim s t -> sim (set_steps l s) (set_steps l' t).
Proof. intros Hl []. constructor; cbn; done. Qed.

Lemma update_step_sim id f s t :
  (forall st, norm_step (f (norm_step st)) = norm_step (f st)) -> sim s t ->
  sim (update_step id f s) (update_step id f t).
Proof.
  intros Hf H. unfold update_step. apply set_steps_sim; [|done].
  rewrite <- (update_first_norm _ _ (rs_steps s)), <- (update_first_norm _ _ (rs_steps t)) by done.
  by rewrite (sim_steps _ _ H).
Qed.

Lemma find_step_sim id s t :
  sim s t -> option_map norm_step (find_step id s) = option_map norm_step (find_step id t).
Proof.
  intros H. unfold find_step. pose proof (sim_steps _ _ H) as Hs.
  apply (f_equal (find_first (fun st => String.eqb (st_id st) id))) in Hs.
  by rewrite !find_first_map in Hs.
Qed.

(** The relation lifted to results of [apply_payload]. *)
Definition osim (a b : option RunState) : Prop :=
  match a, b with
  | Some s, Some t => sim s t
  | None, None => True
  | _, _ => False
  end.

Lemma schedule_sim p s t :
  sim s t ->
  sim (match find_step (ss_step p) s with
       | Some _ => update_step (ss_step p) reschedule s
       | None => set_steps (rs_steps s ++ [new_step p]) s end)
      (match find_step (ss_step p) t with
       | Some _ => update_step (ss_step p) reschedule t
       | None => set_steps (rs_steps t ++ [new_step p]) t end).
Proof.
  intros H. pose proof (find_step_sim (ss_step p) s t H) as Hf.
  destruct (find_step (ss_step p) s), (find_step (ss_step p) t); try discriminate Hf.
  - apply update_step_sim; [|done]. intros st. unfold norm_step. cbn. by rewrite drop_null_idem.
  - apply set_steps_sim; [|done]. by rewrite !map_app, (sim_steps _ _ H).
Qed.

Lemma if_sim (b b' : bool) f s t :
  Proper (sim ==> sim) f -> b = b' -> sim s t ->
  sim (if b then f s else s) (if b' then f t else t).
Proof. intros Hf -> H. destruct b'; [by f_equiv | done]. Qed.

Lemma apply_payload_sim e p s t : sim s t -> osim (apply_payload e p s) (apply_payload e p t).
Proof.
  intros H. destruct p; cbn [apply_payload osim]; try done;
    try (apply update_step_sim; [|done]; intros st; unfold norm_step; cbn; by rewrite ?drop_null_idem);
    rewrite ?(sim_decisions _ _ H), ?(sim_pending _ _ H), ?(sim_budget _ _ H),
      ?(sim_compensations _ _ H); try (by repeat f_equiv).
  - apply if_sim; [apply _ | apply is_status_sim |]; by apply schedule_sim.
  - assert (sim (set_pending_approval None (set_park_reason None (set_abandoning true s)))
                (set_pending_approval None (set_park_reason None (set_abandoning true t)))) as H'
      by by repeat f_equiv.
    rewrite (unwind_pending_sim _ _ H'). by f_equiv.
  - apply if_sim; [apply _ | | by f_equiv]. cbn. rewrite (sim_abandoning _ _ H). f_equal.
    apply is_status_sim. by f_equiv.
  - assert (sim (mark_compensation (cc_for_step p) "completed" s)
                (mark_compensation (cc_for_step p) "completed" t)) as H' by by f_equiv.
    apply if_sim; [apply _ | | done].
    by rewrite (sim_abandoning _ _ H'), (is_status_sim _ _ _ H'), (unwind_pending_sim _ _ H').
Qed.

(** Applying an event to related states gives related states, or fails on both. *)
Lemma apply_sim s t e :
  sim s t ->
  match apply s e, apply t e with
  | Ok s', Ok t' => sim s' t'
  | Err _, Err _ => True
  | _, _ => False
  end.
Proof.
  intros H. assert (sim (set_last_seq (ev_seq e) s) (set_last_seq (ev_seq e) t)) as H' by by f_equiv.
  unfold apply. destruct (ev_kind e); try done;
    try (rewrite (sim_budget _ _ H'); by f_equiv);
    match goal with |- context [decode_payload ?k ?j] => destruct (decode_payload k j) as [p|] end;
    cbn [mbind option_bind]; try done;
    pose proof (apply_payload_sim e p _ _ H') as Hp;
    destruct (apply_payload e p (set_last_seq (ev_seq e) s)),
             (apply_payload e p (set_last_seq (ev_seq e) t)); done.
Qed.

(** ** Ranges: what is needed for the state to be written and read back *)

Definition payload_nums (p : payload) : Prop :=
  match p with
  | PRunCreated p => BudgetSpec_wf (rc_budget p)
  | PStepScheduled p => u32_ok (ss_index p)
  | PStepLeased p => u32_ok (sl_attempt p)
  | PUsageRecorded p => f64_is_finite (ur_cumulative_usd p) = true
  | _ => True
  end.

Definition event_nums (e : Event) : Prop :=
  forall p, decode_payload (ev_kind e) (ev_payload e) = Some p -> payload_nums p.

Lemma u32_ok_zero : u32_ok 0.
Proof. by unfold u32_ok. Qed.

Lemma update_step_wf id f s :
  (forall st, StepState_wf st -> StepState_wf (f st)) -> RunState_wf s -> RunState_wf (update_step id f s).
Proof. intros Hf [Hs Hb]. split; [by apply Forall_update_first | done]. Qed.

Lemma apply_payload_wf e p s s' :
  apply_payload e p s = Some s' -> payload_nums p -> RunState_wf s -> RunState_wf s'.
Proof.
  intros H Hp Hs. pose proof u32_ok_zero.
  destruct p; cbn [apply_payload payload_nums] in *; try discriminate H; injection H as <-; try done;
    try (apply update_step_wf; [|done]; intros st (H1 & H2 & H3); split; [|split]; cbn; auto;
         try done; try (by intros ? [= <-]));
    try (repeat match goal with |- context [if ?b then _ else _] => destruct b end; done).
  - assert (RunState_wf (match find_step (ss_step p) s with
       | Some _ => update_step (ss_step p) reschedule s
       | None => set_steps (rs_steps s ++ [new_step p]) s end)) as Hw.
    { destruct (find_step (ss_step p) s).
      - apply update_step_wf; [|done]. intros st (H1 & _ & _). split; [done|]. split; [done|]. done.
      - destruct Hs as [Hs Hb]. split; [|done]. apply Forall_app. split; [done|].
        constructor; [|constructor]. split; [done|]. split; done. }
    by destruct (is_status RCreated _).
  - destruct (rs_pending_approval s); [|done]. by destruct (String.eqb _ _).
  - destruct Hs as [Hs (H1 & H2 & H3)]. split; [done|]. by repeat split.
Qed.

Lemma payload_free_nums k : payload_free k = true -> payload_nums (dummy_payload k).
Proof. by destruct k. Qed.

Lemma apply_wf s e s' :
  apply s e = Ok s' -> event_nums e -> RunState_wf s -> RunState_wf s'.
Proof.
  intros (p & Hp & Hk)%apply_inv Hn Hs. eapply apply_payload_wf; [exact Hp| |done].
  destruct Hk as [[Hf ->]|[_ Hd]]; [by apply payload_free_nums | by apply Hn].
Qed.

(** What the kernel puts in a payload: counters are [u32]s; floats need not be finite, a
    payload with one that is not does not decode. *)
Definition payload_u32 (p : payload) : Prop :=
  match p with
  | PStepScheduled p => u32_ok (ss_index p)
  | PStepLeased p => u32_ok (sl_attempt p)
  | _ => True
  end.

Lemma de_f64_finite f g : de_f64 (json_f64 f) = Some g -> f64_is_finite g = true.
Proof. unfold json_f64. destruct (f64_is_finite f) eqn:E; [by intros [= <-] | done]. Qed.

Lemma bind_inv {A B} (e : option A) (f : A -> option B) r :
  e ≫= f = Some r -> exists a, e = Some a /\ f a = Some r.
Proof. destruct e; cbn; [eauto | discriminate]. Qed.

Lemma fmap_inv {A B} (f : A -> B) (e : option A) r :
  f <$> e = Some r -> exists a, e = Some a /\ r = f a.
Proof. destruct e; cbn; [intros [= <-]; eauto | discriminate]. Qed.

(** Reads off the fields of a decoded struct. *)
Ltac unbind H :=
  repeat (let a := fresh "v" in let Ha := fresh "Hv" in
          apply bind_inv in H as (a & Ha & H)).

Lemma req_obj {A} (d : json -> option A) k l v :
  req d k {| from_seq := false; field_map := mk_map l |} = Some v ->
  exists j, get_last k l = Some j /\ d j = Some v.
Proof. unfold req. cbn. rewrite map_get_mk_map. destruct (get_last k l); [eauto | discriminate]. Qed.

Lemma opt_obj {A} (d : json -> option A) k l v :
  opt d k {| from_seq := false; field_map := mk_map l |} = Some v ->
  v = None \/ exists j, get_last k l = Some j /\ de_option d j = Some v.
Proof.
  unfold opt. cbn. rewrite map_get_mk_map. destruct (get_last k l); [eauto|].
  intros [= <-]. auto.
Qed.

Lemma de_BudgetSpec_finite b b' : de_BudgetSpec (ser_BudgetSpec b) = Some b' -> BudgetSpec_wf b'.
Proof.
  unfold de_BudgetSpec, ser_BudgetSpec, obj. intros H. cbn [struct_fields] in H.
  unbind H. injection Hv as <-. injection H as <-. split; cbn.
  - apply opt_obj in Hv1 as [->|(j & Hj & Hd)]; [done|].
    cbv [get_last String.eqb Ascii.eqb Bool.eqb] in Hj. injection Hj as <-.
    destruct (bg_usd b) as [u|]; cbn in Hd; [|by injection Hd as <-].
    unfold json_f64 in Hd. destruct (f64_is_finite u) eqn:E; cbn in Hd; injection Hd as <-; [|done].
    by intros a [= <-].
  - apply req_obj in Hv2 as (j & Hj & Hd).
    cbv [get_last String.eqb Ascii.eqb Bool.eqb] in Hj. injection Hj as <-. by eapply de_f64_finite.
Qed.

Lemma payload_value_nums p q :
  payload_u32 p -> decode_payload (payload_kind p) (payload_value p) = Some q -> payload_nums q.
Proof.
  intros Hu Hd. destruct p; cbn [payload_kind payload_value decode_payload] in *;
    apply fmap_inv in Hd as (a & Ha & ->); cbn [payload_nums payload_u32] in *; try done;
    cbn [from_value to_value] in Ha.
  - unfold de_RunCreated, ser_RunCreated, obj in Ha. cbn [struct_fields] in Ha. unbind Ha.
    injection Hv as <-. injection Ha as <-. cbn.
    match goal with H : req de_BudgetSpec _ _ = _ |- _ => apply req_obj in H as (j & Hj & Hd) end.
    destruct (rc_department p); cbv [skip_none get_last String.eqb Ascii.eqb Bool.eqb] in Hj;
      injection Hj as <-; by eapply de_BudgetSpec_finite.
  - rewrite de_ser_StepScheduled in Ha by done. by injection Ha as <-.
  - rewrite de_ser_StepLeased in Ha by done. by injection Ha as <-.
  - unfold de_UsageRecorded, ser_UsageRecorded, obj in Ha. cbn [struct_fields] in Ha. unbind Ha.
    injection Hv as <-. injection Ha as <-. cbn.
    match goal with H : req de_f64 "cumulative_usd" _ = _ |- _ => apply req_obj in H as (j & Hj & Hd) end.
    cbv [get_last String.eqb Ascii.eqb Bool.eqb] in Hj. injection Hj as <-. by eapply de_f64_finite.
Qed.

Lemma from_created_wf e s : from_created e = Ok s -> event_nums e -> RunState_wf s.
Proof.
  unfold from_created. destruct (bool_decide_reflect (ev_kind e = Kind.RunCreated)) as [Hk|]; [|discriminate].
  intros H Hn. cbn [negb] in H. apply rbind_ok in H as (c & Hc%ok_or_ok & H). injection H as <-.
  split; [constructor|]. unfold event_nums in Hn. rewrite Hk in Hn.
  specialize (Hn (PRunCreated c)). cbn [decode_payload] in Hn. unfold typed in Hc. rewrite Hc in Hn.
  destruct (Hn eq_refl). by repeat split.
Qed.

(** ** Properties *)

(** C27: whatever stream it is given, a fold that succeeds ends in a coherent state: step
    identifiers are unique, a step carries a lease exactly while it is leased and under
    its current attempt, a completed step has an output; a run has a park reason exactly
    while parked, an output when completed and an error when failed; and it is abandoned
    only once an unwind was asked for and no compensation is pending. *)
Theorem fold_coherent l s : fold l = Ok s -> state_inv s.
Proof. apply fold_inv. Qed.

Lemma apply_accepts s e p :
  payload_wf p -> payload_kind p <> Kind.RunCreated ->
  ev_kind e = payload_kind p -> ev_payload e = payload_value p ->
  exists s', apply s e = Ok s' /\ rs_last_seq s' = ev_seq e.
Proof.
  intros Hw Hk He Hp.
  assert (decode_payload (ev_kind e) (ev_payload e) = Some p) as Hd
    by (rewrite He, Hp; by apply decode_encode_payload).
  rewrite (apply_decoded s e p Hd).
  destruct p; try done; cbn [apply_payload ok_or]; eexists; (split; [reflexivity|]); try done;
    repeat match goal with
    | |- context [if ?b then _ else _] => destruct b
    | |- context [match find_step ?a ?b with _ => _ end] => destruct (find_step a b)
    | |- context [match rs_pending_approval ?b with _ => _ end] => destruct (rs_pending_approval b)
    end; done.
Qed.

(** Keeping the row by applying each appended event is the same as folding the whole
    stream again. *)
Theorem fold_incremental l e : l <> [] -> fold (l ++ [e]) = (let? s := fold l in apply s e).
Proof. apply fold_snoc. Qed.

(** The fold accepts every event the kernel writes after the first: a payload with
    fields in range, at its own kind, always applies. *)
Theorem fold_accepts_kernel_events s e p :
  payload_wf p -> payload_kind p <> Kind.RunCreated ->
  ev_kind e = payload_kind p -> ev_payload e = payload_value p ->
  exists s', apply s e = Ok s' /\ rs_last_seq s' = ev_seq e.
Proof. apply apply_accepts. Qed.

(** What workers and the gateway may append never changes the run: only the sequence
    number moves. *)
Theorem external_events_inert s e :
  Kind.is_external (ev_kind e) = true -> apply s e = Ok (set_last_seq (ev_seq e) s).
Proof. unfold apply. by destruct (ev_kind e). Qed.

(** ** Witnesses: the first events of a run *)

Definition example_created : RunCreated :=
  {| rc_bundle_id := "bnd_1"; rc_bundle_name := "accounts-payable"; rc_bundle_version := "1.0.0";
     rc_workflow := "invoice_intake"; rc_input := obj [("total", JNum (PosInt 7250))];
     rc_remit_id := "rem_1"; rc_requested_by := obj [("id", JStr "u.finch")];
     rc_budget := {| bg_tokens := None; bg_usd := None; bg_soft_ratio := f64_of_ratio 8 1 |};
     rc_department := Some "finance" |}.

(** An event of the example run; the hash plays no part in the fold. *)
Definition example_event (seq : Z) (p : payload) : Event :=
  {| ev_schema := SCHEMA; ev_run_id := "run_1"; ev_seq := seq; ev_ts := "2026-09-04T12:00:00.000Z";
     ev_kind := payload_kind p; ev_actor := Act.kernel; ev_payload := payload_value p;
     ev_prev_hash := ZERO_HASH; ev_hash := ZERO_HASH |}.

Definition example_schedule : payload :=
  PStepScheduled {| ss_step := "extract"; ss_index := 0; ss_kind := "model" |}.

Definition example_lease : payload :=
  PStepLeased {| sl_step := "extract"; sl_lease_id := "lse_1"; sl_worker_id := "wrk_1";
                 sl_attempt := 1; sl_expires_at := "2026-09-04T12:00:30.000Z" |}.

Definition example_events : list Event :=
  [example_event 1 (PRunCreated example_created); example_event 2 example_schedule;
   example_event 3 example_lease].

Definition example_state : RunState :=
  match fold example_events with
  | Ok s => s
  | Err _ => {| rs_run_id := ""; rs_state := RCreated;
                rs_bundle := {| br_id := ""; br_name := ""; br_version := "" |};
                rs_department := None; rs_workflow := ""; rs_input := JNull; rs_remit_id := "";
                rs_requested_by := JNull; rs_steps := [];
                rs_budget := {| bu_ceiling_tokens := None; bu_ceiling_usd := None;
                                bu_soft_ratio := f64_zero; bu_used_tokens := 0;
                                bu_used_usd := f64_zero; bu_soft_hit := false;
                                bu_exceeded := false |};
                rs_pending_approval := None; rs_decisions := []; rs_compensations := [];
                rs_output := None; rs_error := None; rs_needs_human := false;
                rs_abandoning := false; rs_park_reason := None; rs_last_seq := 0 |}
  end.

Lemma fold_coherent_witness : fold example_events = Ok example_state /\ state_inv example_state.
Proof.
  assert (fold example_events = Ok example_state) as H by (vm_compute; reflexivity).
  split; [exact H | exact (fold_coherent example_events example_state H)].
Defined.

Lemma fold_incremental_witness :
  fold (example_events ++ [example_event 4 example_schedule]) =
  (let? s := fold example_events in apply s (example_event 4 example_schedule)).
Proof. apply (fold_incremental example_events). discriminate. Defined.

Lemma fold_accepts_kernel_events_witness :
  exists s', apply example_state (example_event 4 example_schedule) = Ok s' /\ rs_last_seq s' = 4.
Proof.
  apply (fold_accepts_kernel_events example_state (example_event 4 example_schedule) example_schedule);
    [split; vm_compute; discriminate | discriminate | reflexivity | reflexivity].
Defined.

Lemma external_events_inert_witness :
  let e := example_event 4 (PNote {| no_text := "hello"; no_data := JNull |}) in
  apply example_state e = Ok (set_last_seq 4 example_state).
Proof. intros e. exact (external_events_inert example_state e eq_refl). Defined.
