(* ===== verification/Template.v ===== *)
(** * Templates

    [{{path}}] inside strings and [{"$ref": "path"}] as whole values
    ([kernos-core/src/template.rs]).  The compact JSON text of a value comes from the class
    [JsonPrint]. *)

From S2P Require Import Prelude Text F64 Json Canonical Time Payloads Events.
From Stdlib Require Import Ascii.

Local Open Scope string_scope.
Local Open Scope list_scope.
Local Open Scope Z_scope.

Record TemplateError := { te_code : string; te_path : string }.

Definition missing_path {A} (path : string) : result TemplateError A :=
  Err {| te_code := "template_missing_path"; te_path := path |}.

(** [items.get(i)] for a [usize]. *)
Definition vec_get {A} (i : Z) (l : list A) : option A :=
  if i <? Z.of_nat (length l) then nth_error l (Z.to_nat i) else None.

Definition path_step (current : json) (segment : string) : option json :=
  match current with
  | JObj map => map_get segment map
  | JArr items => i ← parse_u64 segment; vec_get i items
  | _ => None
  end.

Fixpoint walk (current : json) (segments : list string) : option json :=
  match segments with
  | [] => Some current
  | segment :: rest => next ← path_step current segment; walk next rest
  end.

Definition lookup_path (context : json) (path : string) : option json :=
  walk context (split_on "."%char path).

(** [text.find("{{")] and [find("}}")] with the text around the match. *)
Fixpoint split_pair (c : ascii) (s : string) : option (string * string) :=
  match s with
  | "" => None
  | String a s' =>
      match s' with
      | "" => None
      | String b rest =>
          if Ascii.eqb a c && Ascii.eqb b c then Some ("", rest)
          else match split_pair c s' with
               | Some (before, after) => Some (String a before, after)
               | None => None
               end
      end
  end.

Section Template.
Context `{JsonPrint}.

Definition render_text (value : json) : string :=
  match value with JStr s => s | other => json_text other end.

(** The loop over the rest of the text.  Each turn drops at least the four braces, so the
    length of the text is enough fuel, and with no fuel left no text is left either. *)
Fixpoint render_loop (fuel : nat) (rest : string) (context : json) (out : string)
    : result TemplateError string :=
  match fuel with
  | O => Ok (out +:+ rest)
  | S fuel =>
      match split_pair "{"%char rest with
      | None => Ok (out +:+ rest)
      | Some (before, after) =>
          match split_pair "}"%char after with
          | None => Ok (out +:+ rest)
          | Some (inside, rest') =>
              let path := trim inside in
              match lookup_path context path with
              | Some value => render_loop fuel rest' context (out +:+ before +:+ render_text value)
              | None => missing_path path
              end
          end
      end
  end.

Definition render_string (template : string) (context : json) : result TemplateError string :=
  render_loop (String.length template) template context "".

Definition ref_path (map : list (string * json)) : option string :=
  if (length map =? 1)%nat then (v ← map_get "$ref" map; as_str v) else None.

Fixpoint resolve (value context : json) : result TemplateError json :=
  match value with
  | JStr s => rmap JStr (render_string s context)
  | JArr items =>
      rmap JArr ((fix go items := match items with
        | [] => Ok []
        | item :: items => let? v := resolve item context in let? vs := go items in Ok (v :: vs)
        end) items)
  | JObj map =>
      match ref_path map with
      | Some reference =>
          match lookup_path context reference with
          | Some v => Ok v
          | None => missing_path reference
          end
      | None =>
          rmap JObj ((fix go map out := match map with
            | [] => Ok out
            | (key, item) :: map =>
                let? v := resolve item context in go map (map_insert key v out)
            end) map [])
      end
  | other => Ok other
  end.

(** ** The paths a value refers to *)

Fixpoint collect_loop (fuel : nat) (rest : string) (out : list string) : list string :=
  match fuel with
  | O => out
  | S fuel =>
      match split_pair "{"%char rest with
      | None => out
      | Some (_, after) =>
          match split_pair "}"%char after with
          | None => out
          | Some (inside, rest') => collect_loop fuel rest' (out ++ [trim inside])
          end
      end
  end.

Fixpoint collect_paths (value : json) (out : list string) : result TemplateError (list string) :=
  match value with
  | JStr s => Ok (collect_loop (String.length s) s out)
  | JArr items =>
      (fix go items out := match items with
        | [] => Ok out
        | item :: items => let? out := collect_paths item out in go items out
        end) items out
  | JObj map =>
      match map_get "$ref" map with
      | Some reference =>
          match as_str reference with
          | Some path => if (length map =? 1)%nat then Ok (out ++ [path])
                         else Err {| te_code := "template_bad_ref"; te_path := json_text reference |}
          | None => Err {| te_code := "template_bad_ref"; te_path := json_text reference |}
          end
      | None =>
          (fix go map out := match map with
            | [] => Ok out
            | (_, item) :: map => let? out := collect_paths item out in go map out
            end) map out
      end
  | _ => Ok out
  end.

(** ** Resolution succeeds exactly when every path is there *)

Definition found (context : json) (path : string) : Prop :=
  exists v, lookup_path context path = Some v.

(** What resolving against paths [ps] comes to. *)
Definition resolved {A} (context : json) (ps : list string) (r : result TemplateError A) : Prop :=
  match r with
  | Ok _ => Forall (found context) ps
  | Err e => te_code e = "template_missing_path" /\ In (te_path e) ps
             /\ lookup_path context (te_path e) = None
  end.

Lemma resolved_map {A B} context ps (f : A -> B) r :
  resolved context ps r -> resolved context ps (rmap f r).
Proof. by destruct r. Qed.

Lemma resolved_app_ok {A} context ps qs (r : result TemplateError A) :
  Forall (found context) ps -> resolved context qs r -> resolved context (ps ++ qs) r.
Proof.
  intros Hp. destruct r as [a|e]; cbn; [by rewrite Forall_app|].
  intros (? & ? & ?). rewrite in_app_iff. tauto.
Qed.

Lemma resolved_app_err {A} context ps qs e :
  resolved (A := A) context ps (Err e) -> resolved (A := A) context (ps ++ qs) (Err e).
Proof. cbn. rewrite in_app_iff. tauto. Qed.

(** Collecting only appends. *)
Lemma collect_loop_app fuel rest out :
  collect_loop fuel rest out = out ++ collect_loop fuel rest [].
Proof.
  revert rest out. induction fuel as [|fuel IH]; intros rest out; cbn; [by rewrite app_nil_r|].
  destruct (split_pair _ rest) as [[b a]|]; [|by rewrite app_nil_r].
  destruct (split_pair _ a) as [[i r]|]; [|by rewrite app_nil_r].
  rewrite IH, (IH r [trim i]). by rewrite <- app_assoc.
Qed.

Lemma render_resolved fuel rest context out :
  resolved context (collect_loop fuel rest []) (render_loop fuel rest context out).
Proof.
  revert rest out. induction fuel as [|fuel IH]; intros rest out; cbn; [constructor|].
  destruct (split_pair _ rest) as [[b a]|]; [|constructor].
  destruct (split_pair _ a) as [[i r]|]; [|constructor].
  rewrite collect_loop_app. cbn [app].
  destruct (lookup_path context (trim i)) as [v|] eqn:E.
  - apply (resolved_app_ok context [trim i]); [|apply IH]. constructor; [by exists v | constructor].
  - cbn. auto.
Qed.

(** A value whose collected paths, beyond those it starts from, describe its resolution. *)
Definition described (context value : json) : Prop := forall out paths,
  collect_paths value out = Ok paths ->
  exists ps, paths = out ++ ps /\ resolved context ps (resolve value context).

Lemma described_items context l : Forall (described context) l -> forall out paths,
  (fix go items out := match items with
    | [] => Ok out
    | item :: items => let? out := collect_paths item out in go items out
    end) l out = Ok paths ->
  exists ps, paths = out ++ ps /\ resolved context ps
    ((fix go items := match items with
      | [] => Ok []
      | item :: items => let? v := resolve item context in let? vs := go items in Ok (v :: vs)
      end) l).
Proof.
  induction 1 as [|x l Hx _ IH]; intros out paths Hc.
  - injection Hc as <-. exists []. rewrite app_nil_r. split; [done | constructor].
  - apply rbind_ok in Hc as (o1 & H1 & H2). destruct (Hx _ _ H1) as (ps & -> & Hr).
    destruct (IH _ _ H2) as (qs & -> & Hq). exists (ps ++ qs). rewrite <- app_assoc. split; [done|].
    destruct (resolve x context) as [v|e]; cbn [rbind]; [|by apply resolved_app_err].
    apply resolved_app_ok; [exact Hr|]. revert Hq.
    match goal with |- resolved _ _ ?g -> _ => destruct g as [vs|e] end; done.
Qed.

Lemma described_fields context m : Forall (fun kv => described context kv.2) m ->
  forall out paths acc,
  (fix go map out := match map with
    | [] => Ok out
    | (_, item) :: map => let? out := collect_paths item out in go map out
    end) m out = Ok paths ->
  exists ps, paths = out ++ ps /\ resolved context ps
    ((fix go map out := match map with
      | [] => Ok out
      | (key, item) :: map => let? v := resolve item context in go map (map_insert key v out)
      end) m acc).
Proof.
  induction 1 as [|[k x] m Hx _ IH]; intros out paths acc Hc.
  - injection Hc as <-. exists []. rewrite app_nil_r. split; [done | constructor].
  - apply rbind_ok in Hc as (o1 & H1 & H2). destruct (Hx _ _ H1) as (ps & -> & Hr). cbn [snd] in *.
    destruct (resolve x context) as [v|e]; cbn [rbind].
    + destruct (IH _ _ (map_insert k v acc) H2) as (qs & -> & Hq). exists (ps ++ qs).
      rewrite <- app_assoc. split; [done|]. by apply resolved_app_ok.
    + destruct (IH _ _ acc H2) as (qs & -> & _). exists (ps ++ qs). rewrite <- app_assoc.
      split; [done|]. by apply resolved_app_err.
Qed.

Lemma ref_path_some map path :
  ref_path map = Some path -> map_get "$ref" map = Some (JStr path) /\ (length map =? 1)%nat = true.
Proof.
  unfold ref_path. destruct (length map =? 1)%nat; [|done].
  destruct (map_get "$ref" map) as [[]|]; cbn; try done. by intros [= ->].
Qed.

Lemma resolve_described context value : described context value.
Proof.
  induction value as [ | b | n | s | l IHl | m IHm] using json_ind'; intros out paths Hc.
  1-3: injection Hc as <-; exists []; rewrite app_nil_r; split; [done | constructor].
  - injection Hc as <-. rewrite collect_loop_app. eexists. split; [reflexivity|].
    apply resolved_map. apply render_resolved.
  - destruct (described_items context l IHl _ _ Hc) as (ps & -> & Hr). exists ps. split; [done|].
    by apply resolved_map.
  - cbn [collect_paths] in Hc. destruct (ref_path m) as [path|] eqn:Er.
    + destruct (ref_path_some _ _ Er) as [Hg Hl]. rewrite Hg in Hc. cbn in Hc. rewrite Hl in Hc.
      injection Hc as <-. exists [path]. split; [done|]. cbn [resolve]. rewrite Er.
      destruct (lookup_path context path) as [v|] eqn:E; cbn; [|auto].
      constructor; [by exists v | constructor].
    + destruct (map_get "$ref" m) as [r|] eqn:Eg.
      * exfalso. unfold ref_path in Er. rewrite Eg in Er.
        destruct (as_str r) eqn:Es; [|done]. destruct (length m =? 1)%nat; [|done]. cbn in Er.
        by rewrite Es in Er.
      * destruct (described_fields context m IHm out paths [] Hc) as (ps & -> & Hr).
        exists ps. split; [done|]. cbn [resolve]. rewrite Er. by apply resolved_map.
Qed.

(** C40: resolving a value the bundle validator accepts succeeds exactly when every path it
    refers to is in the context, and otherwise fails on one of those paths, as missing:
    templating never drops a reference nor invents an error. *)
Theorem resolve_exact value context paths :
  collect_paths value [] = Ok paths -> resolved context paths (resolve value context).
Proof. intros Hc. by destruct (resolve_described context value [] paths Hc) as (ps & -> & Hr). Qed.

End Template.

(** ** A concrete template *)

Definition example_args : json :=
  obj [("to", JStr "invoice {{ input.id }} of {{run.id}}");
       ("lines", JArr [obj [("$ref", JStr "steps.fetch.output.0")]])].

Definition example_template_context : json :=
  obj [("input", obj [("id", JStr "42")]); ("run", obj [("id", JStr "run_1")]);
       ("steps", obj [("fetch", obj [("output", JArr [JBool true])])])].

(** Only strings occur in the examples, so any text will do for the other values. *)
Definition blank_text : JsonPrint := {| json_text := fun _ => "" |}.

Example resolve_example :
  resolve (H := blank_text) example_args example_template_context
  = Ok (obj [("to", JStr "invoice 42 of run_1"); ("lines", JArr [JBool true])]).
Proof. reflexivity. Qed.

Lemma resolve_exact_witness :
  resolved example_template_context ["steps.fetch.output.0"; "input.id"; "run.id"]
    (resolve (H := blank_text) example_args example_template_context).
Proof.
  apply (resolve_exact (H := blank_text) example_args example_template_context). vm_compute. reflexivity.
Defined.
