(* ===== verification/Schema.v ===== *)
(** * Input schemas

    The JSON Schema subset of [kernos-core/src/schema.rs].  Regular expressions are an
    external crate and enter as the class [Regex].  A violation keeps its dotted path; the
    message text is left out. *)

From S2P Require Import Prelude Text F64 Json.

Local Open Scope string_scope.
Local Open Scope list_scope.
Local Open Scope Z_scope.

(** [Regex::new(pattern)]: nothing when the pattern is invalid, else [is_match]. *)
Class Regex := { regex_new : string -> option (string -> bool) }.

Record SchemaViolation := { sv_path : string }.

Definition violation {A} (path : list string) : result SchemaViolation A :=
  Err {| sv_path := join "." path |}.

(** [if bad { return Err(fail(path, ..)) }] *)
Definition check_at (path : list string) (ok : bool) : result SchemaViolation unit :=
  if ok then Ok tt else violation path.

Definition type_matches (name : string) (value : json) : bool :=
  if String.eqb name "object" then is_object value
  else if String.eqb name "array" then match value with JArr _ => true | _ => false end
  else if String.eqb name "string" then is_string value
  else if String.eqb name "number" then match value with JNum _ => true | _ => false end
  else if String.eqb name "integer" then
    match value with
    | JNum (PosInt _) | JNum (NegInt _) => true
    | JNum (Float f) => f64_is_integer f
    | _ => false
    end
  else if String.eqb name "boolean" then match value with JBool _ => true | _ => false end
  else if String.eqb name "null" then match value with JNull => true | _ => false end
  else false.

(** [items.iter().filter_map(Value::as_str)] *)
Definition strings_of (items : list json) : list string := omap as_str items.

Definition type_ok (schema : list (string * json)) (value : json) : bool :=
  match map_get "type" schema with
  | Some expected =>
      let names := match expected with
                   | JStr s => [s] | JArr items => strings_of items | _ => [] end in
      match names with [] => true | _ => any (fun name => type_matches name value) names end
  | None => true
  end.

Definition enum_ok (schema : list (string * json)) (value : json) : bool :=
  match map_get "enum" schema with
  | Some (JArr options) => any (fun o => json_eqb o value) options
  | _ => true
  end.

(** [schema.get(key).and_then(as_..)] against a bound. *)
Definition bound_ok {A} (key : string) (read : json -> option A) (ok : A -> bool)
    (schema : list (string * json)) : bool :=
  match map_get key schema with
  | Some j => match read j with Some b => ok b | None => true end
  | None => true
  end.

Definition number_ok (schema : list (string * json)) (value : json) : bool :=
  match as_f64 value with
  | Some number =>
      bound_ok "minimum" as_f64 (fun min => negb (f64_ltb number min)) schema
      && bound_ok "maximum" as_f64 (fun max => negb (f64_gtb number max)) schema
  | None => true
  end.

Definition string_ok `{Regex} (schema : list (string * json)) (value : json) : bool :=
  match as_str value with
  | Some text =>
      let length := char_count text in
      bound_ok "minLength" as_u64 (fun min => min <=? length) schema
      && bound_ok "maxLength" as_u64 (fun max => length <=? max) schema
      && bound_ok "pattern" as_str
           (fun p => match regex_new p with Some re => re text | None => false end) schema
  | None => true
  end.

(** The first required key the object lacks. *)
Definition missing_key (schema : list (string * json)) (object : list (string * json)) : option string :=
  match map_get "required" schema with
  | Some (JArr required) => find_first (fun key => negb (map_contains key object)) (strings_of required)
  | _ => None
  end.

(** The schema a property is checked against: its own, the additional one, none, or refused. *)
Inductive property_schema := PS_Sub (sub : json) | PS_Refused | PS_Free.

Definition schema_of_key (schema : list (string * json)) (key : string) : property_schema :=
  match (properties ← map_get "properties" schema; m ← as_object properties; map_get key m) with
  | Some sub => PS_Sub sub
  | None =>
      match map_get "additionalProperties" schema with
      | Some (JBool false) => PS_Refused
      | Some (JObj m) => PS_Sub (JObj m)
      | _ => PS_Free
      end
  end.

Section Schema.
Context `{Regex}.

Fixpoint validate_at (value schema : json) (path : list string) {struct value}
    : result SchemaViolation unit :=
  match schema with
  | JObj schema =>
      let? _ := check_at path (type_ok schema value) in
      let? _ := check_at path (enum_ok schema value) in
      let? _ := check_at path (number_ok schema value) in
      let? _ := check_at path (string_ok schema value) in
      match value with
      | JObj object =>
          match missing_key schema object with
          | Some key => violation (path ++ [key])
          | None =>
              (fix go object := match object with
                | [] => Ok tt
                | (key, item) :: object =>
                    let? _ := match schema_of_key schema key with
                              | PS_Sub sub => validate_at item sub (path ++ [key])
                              | PS_Refused => violation (path ++ [key])
                              | PS_Free => Ok tt
                              end in
                    go object
                end) object
          end
      | JArr items =>
          match map_get "items" schema with
          | Some item_schema =>
              (fix go i items := match items with
                | [] => Ok tt
                | item :: items =>
                    let? _ := validate_at item item_schema (path ++ [dec i]) in go (i + 1) items
                end) 0 items
          | None => Ok tt
          end
      | _ => Ok tt
      end
  | JBool false => violation path
  | _ => Ok tt
  end.

Definition validate (schema value : json) : result SchemaViolation unit := validate_at value schema [].

(** ** What a value that passes is *)

(** Conformance, keyword by keyword and at every depth. *)
Fixpoint conforms (value schema : json) {struct value} : Prop :=
  match schema with
  | JObj schema =>
      (type_ok schema value && enum_ok schema value && number_ok schema value
        && string_ok schema value = true) /\
      match value with
      | JObj object =>
          missing_key schema object = None /\
          (fix go object := match object with
            | [] => True
            | (key, item) :: object =>
                match schema_of_key schema key with
                | PS_Sub sub => conforms item sub
                | PS_Refused => False
                | PS_Free => True
                end /\ go object
            end) object
      | JArr items =>
          match map_get "items" schema with
          | Some item_schema =>
              (fix go items := match items with
                | [] => True
                | item :: items => conforms item item_schema /\ go items
                end) items
          | None => True
          end
      | _ => True
      end
  | JBool false => False
  | _ => True
  end.

(** A dotted path into a value: where something is, or a key that an object lacks. *)
Inductive place : json -> list string -> Prop :=
| place_here v : place v []
| place_missing m k : map_get k m = None -> place (JObj m) [k]
| place_field m k v segs : In (k, v) m -> place v segs -> place (JObj m) (k :: segs)
| place_item l i v segs :
    nth_error l i = Some v -> place v segs -> place (JArr l) (dec (Z.of_nat i) :: segs).

Definition judged (value schema : json) (path : list string) (r : result SchemaViolation unit) : Prop :=
  match r with
  | Ok _ => conforms value schema
  | Err v => ~ conforms value schema /\
             exists segs, sv_path v = join "." (path ++ segs) /\ place value segs
  end.

Lemma check_at_inv {B} path ok (k : unit -> result SchemaViolation B) :
  (let? u := check_at path ok in k u) = if ok then k tt else violation path.
Proof. by destruct ok. Qed.

Lemma missing_key_absent schema object key :
  missing_key schema object = Some key -> map_get key object = None.
Proof.
  unfold missing_key. destruct (map_get "required" schema) as [[]|]; try done.
  intros [_ Hp]%find_first_some. apply negb_true_iff in Hp. unfold map_contains in Hp.
  by destruct (map_get key object).
Qed.

(** The two loops, for values whose parts are judged. *)
Section Loops.
Variable part : json -> Prop.
Hypothesis Hpart : forall v, part v -> forall schema path, judged v schema path (validate_at v schema path).

Lemma fields_judged schema path object : Forall (fun kv => part kv.2) object ->
  match (fix go object := match object with
    | [] => Ok tt
    | (key, item) :: object =>
        let? _ := match schema_of_key schema key with
                  | PS_Sub sub => validate_at item sub (path ++ [key])
                  | PS_Refused => violation (path ++ [key])
                  | PS_Free => Ok tt
                  end in
        go object
    end) object with
  | Ok _ => (fix go object := match object with
      | [] => True
      | (key, item) :: object =>
          match schema_of_key schema key with
          | PS_Sub sub => conforms item sub | PS_Refused => False | PS_Free => True
          end /\ go object
      end) object
  | Err v => ~ (fix go object := match object with
      | [] => True
      | (key, item) :: object =>
          match schema_of_key schema key with
          | PS_Sub sub => conforms item sub | PS_Refused => False | PS_Free => True
          end /\ go object
      end) object /\
      exists k x segs, In (k, x) object /\ sv_path v = join "." (path ++ k :: segs) /\ place x segs
  end.
Proof.
  induction 1 as [|[k x] object Hx _ IH]; [done|]. cbn [snd] in Hx.
  assert (match match schema_of_key schema k with
                | PS_Sub sub => validate_at x sub (path ++ [k])
                | PS_Refused => violation (path ++ [k]) | PS_Free => Ok tt end with
          | Ok _ => match schema_of_key schema k with
                    | PS_Sub sub => conforms x sub | PS_Refused => False | PS_Free => True end
          | Err v => ~ match schema_of_key schema k with
                     | PS_Sub sub => conforms x sub | PS_Refused => False | PS_Free => True end /\
                     exists segs, sv_path v = join "." (path ++ k :: segs) /\ place x segs
          end) as Hk.
  { destruct (schema_of_key schema k) as [sub| |]; [|split; [tauto|] | exact I].
    - specialize (Hpart x Hx sub (path ++ [k])). destruct (validate_at x sub (path ++ [k])); [done|].
      destruct Hpart as (Hn & segs & Hs & Hp). split; [done|]. exists segs.
      by rewrite <- app_assoc in Hs.
    - exists []. split; [done | constructor]. }
  destruct (match schema_of_key schema k with
            | PS_Sub sub => validate_at x sub (path ++ [k])
            | PS_Refused => violation (path ++ [k]) | PS_Free => Ok tt end) as [[]|v]; cbn [rbind].
  - match type of IH with match ?g with _ => _ end => destruct g as [[]|v] end; [done|].
    destruct IH as (Hn & k' & x' & segs & Hin & Hs). split; [tauto|]. exists k', x', segs.
    split; [by right | done].
  - destruct Hk as (Hn & segs & Hs & Hp). split; [tauto|]. exists k, x, segs. split; [by left | done].
Qed.

Lemma items_judged schema path items n : Forall part items -> 0 <= n ->
  match (fix go i items := match items with
    | [] => Ok tt
    | item :: items =>
        let? _ := validate_at item schema (path ++ [dec i]) in go (i + 1) items
    end) n items with
  | Ok _ => (fix go items := match items with
      | [] => True | item :: items => conforms item schema /\ go items end) items
  | Err v => ~ (fix go items := match items with
      | [] => True | item :: items => conforms item schema /\ go items end) items /\
      exists i x segs, nth_error items i = Some x /\
        sv_path v = join "." (path ++ dec (n + Z.of_nat i) :: segs) /\ place x segs
  end.
Proof.
  intros Hl. revert n. induction Hl as [|x items Hx _ IH]; intros n Hn; [done|].
  specialize (Hpart x Hx schema (path ++ [dec n])).
  destruct (validate_at x schema (path ++ [dec n])) as [[]|v]; cbn [rbind judged] in *.
  - specialize (IH (n + 1) ltac:(lia)).
    match type of IH with match ?g with _ => _ end => destruct g as [[]|v] end; [done|].
    destruct IH as (Hno & i & x' & segs & Hi & Hs & Hp). split; [tauto|]. exists (S i), x', segs.
    split; [done|]. split; [|done]. rewrite Hs. do 4 f_equal. lia.
  - destruct Hpart as (Hno & segs & Hs & Hp). split; [tauto|]. exists 0%nat, x, segs.
    rewrite <- app_assoc in Hs. split; [done|]. split; [|done]. by rewrite Z.add_0_r.
Qed.
End Loops.

Lemma violated_here value schema path :
  ~ conforms value schema -> judged value schema path (violation path).
Proof. intros Hn. split; [done|]. exists []. rewrite app_nil_r. split; [done | constructor]. Qed.

Lemma validate_at_judged value : forall schema path, judged value schema path (validate_at value schema path).
Proof.
  induction value as [ | b | n | s | l IHl | m IHm] using json_ind'; intros schema path;
    destruct schema as [ | [] | n' | s' | l' | sc];
    try (exact I); try (apply violated_here; intros Hf; exact Hf);
    cbn [validate_at]; rewrite !check_at_inv.
  all: match goal with |- judged ?v _ _ _ =>
    destruct (type_ok sc v) eqn:E1; [|by apply violated_here; cbn [conforms]; rewrite E1; intros [? _]];
    destruct (enum_ok sc v) eqn:E2; [|by apply violated_here; cbn [conforms]; rewrite E1, E2; intros [? _]];
    destruct (number_ok sc v) eqn:E3;
      [|by apply violated_here; cbn [conforms]; rewrite E1, E2, E3; intros [? _]];
    destruct (string_ok sc v) eqn:E4;
      [|by apply violated_here; cbn [conforms]; rewrite E1, E2, E3, E4; intros [? _]]
  end; unfold judged; cbn [conforms]; rewrite E1, E2, E3, E4.
  1-4: done.
  - destruct (map_get "items" sc) as [sub|]; [|done].
    pose proof (items_judged _ (fun v H => H) sub path l 0 IHl ltac:(lia)) as Hi.
    match type of Hi with match ?g with _ => _ end => destruct g as [[]|v] end; [done|].
    destruct Hi as (Hn & i & x & segs & Hi & Hs & Hp). split; [tauto|].
    exists (dec (Z.of_nat i) :: segs). split; [done|]. by eapply place_item.
  - destruct (missing_key sc m) as [key|] eqn:Ek.
    { split; [intros (_ & [=] & _)|]. exists [key]. split; [done|].
      constructor. by eapply missing_key_absent. }
    pose proof (fields_judged _ (fun v H => H) sc path m IHm) as Hi.
    match type of Hi with match ?g with _ => _ end => destruct g as [[]|v] end; [done|].
    destruct Hi as (Hn & k & x & segs & Hi & Hs & Hp). split; [tauto|].
    exists (k :: segs). split; [done|]. by eapply place_field.
Qed.

End Schema.
