(* ===== verification/Bundle.v ===== *)
(** * Bundles

    The signed description of workflows the kernel runs
    ([kernos-core/src/bundle.rs]): signature, read access and validation.  A validation
    failure keeps the dotted path of the offence; the message text is left out. *)

From S2P Require Import Prelude Text F64 Json Canonical Time Errors Keys Payloads Events Template.
From Stdlib Require Import Ascii.

Local Open Scope string_scope.
Local Open Scope list_scope.
Local Open Scope Z_scope.

Definition FORMAT : string := "kernos.bundle/1".
Definition MAX_CANONICAL_BYTES : Z := 1024 * 1024.
Definition DEFAULT_TIMEOUT_SECONDS : Z := 120.

Record BundleError := { be_path : string }.
Definition err {A} (path : string) : result BundleError A := Err {| be_path := path |}.

(** [if !ok { return Err(err(path, ..)) }] and [.ok_or_else(|| err(path, ..))]. *)
Definition ensure (ok : bool) (path : string) : result BundleError unit :=
  if ok then Ok tt else err path.
Definition need {A} (o : option A) (path : string) : result BundleError A :=
  ok_or {| be_path := path |} o.

(** ** Signatures *)

Record BundleSignature := {
  bs_key_id : string; bs_algorithm : string; bs_signature : string; bs_sha256 : option string }.

Definition ser_BundleSignature (s : BundleSignature) : json :=
  obj ([("key_id", JStr (bs_key_id s)); ("algorithm", JStr (bs_algorithm s));
        ("signature", JStr (bs_signature s))] ++ skip_none "sha256" JStr (bs_sha256 s)).

Section Signature.
Context `{FloatFormat, Sha256, Crypto}.

Definition sign_bundle (bundle : json) (key : KeyPair) : BundleSignature :=
  let bytes := canonical_bytes bundle in
  {| bs_key_id := kp_key_id key; bs_algorithm := "ed25519"; bs_signature := sign key bytes;
     bs_sha256 := Some (sha256_hex bytes) |}.

(** The reasons are texts; one unit stands for them. *)
Definition verify_bundle_signature (bundle : json) (signature : BundleSignature)
    (trusted : list PublicKey) : result unit PublicKey :=
  if negb (String.eqb (bs_algorithm signature) "ed25519") then Err tt
  else
    let? key := ok_or tt (find_first (fun k => String.eqb (pk_key_id k) (bs_key_id signature)) trusted) in
    let bytes := canonical_bytes bundle in
    if negb (verify key bytes (bs_signature signature)) then Err tt else Ok key.
End Signature.

(** ** Read access *)

Record Bundle := { bundle_value : json }.

Definition from_stored (value : json) : Bundle := {| bundle_value := value |}.

Definition str_or_empty (o : option string) : string := match o with Some s => s | None => "" end.

Definition bundle_name (b : Bundle) : string := str_or_empty (jget_str "name" (bundle_value b)).
Definition bundle_version (b : Bundle) : string := str_or_empty (jget_str "version" (bundle_value b)).
Definition bundle_department (b : Bundle) : option string := jget_str "department" (bundle_value b).

Definition bundle_policies (b : Bundle) : list string :=
  match (v ← jget "policies" (bundle_value b); as_array v) with
  | Some items => omap as_str items
  | None => []
  end.

Definition bundle_tools (b : Bundle) : json :=
  match jget "tools" (bundle_value b) with Some v => v | None => JArr [] end.
Definition bundle_prompts (b : Bundle) : json :=
  match jget "prompts" (bundle_value b) with Some v => v | None => JObj [] end.
Definition bundle_mock (b : Bundle) : json :=
  match jget "mock" (bundle_value b) with Some v => v | None => JObj [] end.

Definition workflow_names (b : Bundle) : list string :=
  match (v ← jget "workflows" (bundle_value b); as_object v) with
  | Some m => map fst m
  | None => []
  end.

Definition bundle_workflow (name : string) (b : Bundle) : option json :=
  w ← jget "workflows" (bundle_value b); jget name w.

Definition bundle_steps (workflow : string) (b : Bundle) : list json :=
  match (w ← bundle_workflow workflow b; s ← jget "steps" w; as_array s) with
  | Some s => s
  | None => []
  end.

Definition has_id (id : string) (s : json) : bool :=
  match jget_str "id" s with Some i => String.eqb i id | None => false end.

Definition bundle_step (workflow id : string) (b : Bundle) : option json :=
  find_first (has_id id) (bundle_steps workflow b).

Definition tool_writes (id : string) (b : Bundle) : option bool :=
  tools ← jget "tools" (bundle_value b);
  items ← as_array tools;
  t ← find_first (has_id id) items;
  Some (match (w ← jget "writes" t; as_bool w) with Some w => w | None => false end).

Definition input_schema (workflow : string) (b : Bundle) : json :=
  match (w ← bundle_workflow workflow b; jget "input_schema" w) with
  | Some s => s
  | None => JObj []
  end.

(** ** Names *)

Definition is_word_byte (a : ascii) : bool :=
  is_ascii_lowercase a || is_ascii_digit a || Ascii.eqb a "_".

Definition is_part (p : string) : bool := negb (is_empty p) && string_forall is_word_byte p.

Definition is_name (text : string) : bool :=
  negb (is_empty text) && (Z.of_nat (String.length text) <=? 120) && all is_part (split_on "." text).

(** [text.split(['-', '+']).next()] *)
Fixpoint semver_core (text : string) : string :=
  match text with
  | "" => ""
  | String a rest => if Ascii.eqb a "-" || Ascii.eqb a "+" then "" else String a (semver_core rest)
  end.

Definition is_semver_part (p : string) : bool :=
  negb (is_empty p) && string_forall is_ascii_digit p
  && ((String.length p =? 1)%nat || negb (starts_with p "0")).

Definition is_semver (text : string) : bool :=
  let parts := split_on "." (semver_core text) in
  (length parts =? 3)%nat && all is_semver_part parts.

Definition is_step_id (text : string) : bool :=
  match text with
  | "" => false
  | String a rest => is_ascii_lowercase a && string_forall is_word_byte rest
  end.

Definition is_tool_id (text : string) : bool :=
  let parts := split_on "." text in
  (length parts =? 2)%nat && all is_part parts.

Definition str_contains (x : string) (l : list string) : bool := any (String.eqb x) l.
Definition is_null (j : json) : bool := match j with JNull => true | _ => false end.
Definition is_number (j : json) : bool := match j with JNum _ => true | _ => false end.

(** A member that, when present, satisfies [ok]. *)
Definition member_ok (key : string) (ok : json -> bool) (m : list (string * json)) : bool :=
  match map_get key m with Some v => ok v | None => true end.

Definition positive (j : json) : bool := match as_u64 j with Some n => 0 <? n | None => false end.
Definition one_of (words : list string) (j : json) : bool :=
  match as_str j with Some s => str_contains s words | None => false end.
Definition string_or_null (j : json) : bool := is_string j || is_null j.
Definition string_list (j : json) : bool :=
  match as_array j with Some l => all is_string l | None => false end.

(** [root.get(key).and_then(Value::as_str)] *)
Definition member_str (key : string) (m : list (string * json)) : option string :=
  v ← map_get key m; as_str v.

(** ** Validation *)

Section Validate.
Context `{FloatFormat, JsonPrint}.

Definition check_path_root (path at_ : string) : result BundleError unit :=
  match split_on "." path with
  | root :: _ => ensure (str_contains root ["input"; "steps"; "run"]) at_
  | [] => err at_
  end.

(** [collect_paths(value, &mut paths).map_err(|e| err(at, ..))?] *)
Definition paths_at (value : json) (at_ : string) : result BundleError (list string) :=
  match collect_paths value [] with Ok paths => Ok paths | Err _ => err at_ end.

(** [steps.<id>] names a step before this one, or the step itself. *)
Definition check_step_ref (path at_ : string) (earlier : list string) (own : option string)
    : result BundleError unit :=
  match split_on "." path with
  | first :: rest =>
      if String.eqb first "steps" then
        match rest with
        | [] => err at_
        | target :: _ =>
            ensure (str_contains target earlier
                    || match own with Some o => String.eqb o target | None => false end) at_
        end
      else Ok tt
  | [] => Ok tt
  end.

Definition check_template_paths (value : json) (at_ : string) (earlier : list string)
    (own : option string) : result BundleError unit :=
  let? paths := paths_at value at_ in
  rfor paths (fun p =>
    let? _ := check_path_root p at_ in
    check_step_ref p at_ earlier own).

Definition check_templates_opt (o : option json) (at_ : string) (earlier : list string)
    : result BundleError unit :=
  match o with Some v => check_template_paths v at_ earlier None | None => Ok tt end.

Definition tiers : list string := ["deep"; "standard"; "cheap"].

Definition validate_escalate (path : string) (schema : option json) (esc : json)
    : result BundleError unit :=
  let? e := need (as_object esc) (path +:+ ".escalate") in
  let? _ := ensure (match map_get "when_confidence_below" e with Some v => is_number v | None => false end)
              (path +:+ ".escalate.when_confidence_below") in
  let? _ := ensure (match member_str "to_tier" e with Some t => str_contains t tiers | None => false end)
              (path +:+ ".escalate.to_tier") in
  ensure (match (s ← schema; p ← jget "properties" s; jget "confidence" p) with
          | Some _ => true | None => false end) (path +:+ ".escalate").

Definition validate_model (obj : list (string * json)) (path : string) (earlier : list string)
    (prompts : list string) (root : list (string * json)) : result BundleError unit :=
  let? tier := need (member_str "tier" obj) (path +:+ ".tier") in
  let? _ := ensure (str_contains tier tiers) (path +:+ ".tier") in
  let? _ := ensure (member_ok "effort" (one_of ["low"; "medium"; "high"; "xhigh"]) obj)
              (path +:+ ".effort") in
  let? prompt := need (member_str "prompt" obj) (path +:+ ".prompt") in
  let? _ := ensure (str_contains prompt prompts) (path +:+ ".prompt") in
  let? _ := check_templates_opt (p ← map_get "prompts" root; q ← jget prompt p; jget "user" q)
              ("prompts." +:+ prompt +:+ ".user") earlier in
  let? _ := check_templates_opt (m ← map_get "mock" root; jget prompt m) ("mock." +:+ prompt) earlier in
  let schema := map_get "output_schema" obj in
  let? _ := ensure (member_ok "output_schema" is_object obj) (path +:+ ".output_schema") in
  let? _ := ensure (member_ok "max_output_tokens" positive obj) (path +:+ ".max_output_tokens") in
  let? _ := ensure (member_ok "on_refusal" (one_of ["park"; "escalate"; "fail"]) obj)
              (path +:+ ".on_refusal") in
  let? _ := match map_get "escalate" obj with
            | Some esc => validate_escalate path schema esc | None => Ok tt end in
  ensure (member_ok "data_classes" string_list obj) (path +:+ ".data_classes").

Definition args_of (m : list (string * json)) : json :=
  match map_get "args" m with Some a => a | None => JObj [] end.

Definition validate_idempotency (obj : list (string * json)) (path : string) (earlier : list string)
    (writes : bool) : result BundleError unit :=
  let at_ := path +:+ ".idempotency_key" in
  match map_get "idempotency_key" obj with
  | Some key =>
      let? _ := ensure (is_string key || match jget "$ref" key with
                                         | Some r => is_string r | None => false end) at_ in
      check_template_paths key at_ earlier None
  | None => if writes then err at_ else Ok tt
  end.

Definition validate_compensation (obj : list (string * json)) (path id : string)
    (earlier : list string) (tools : list (string * bool)) : result BundleError unit :=
  match map_get "compensation" obj with
  | None => Ok tt
  | Some comp =>
      let? c := need (as_object comp) (path +:+ ".compensation") in
      let? ctool := need (member_str "tool" c) (path +:+ ".compensation.tool") in
      let? _ := ensure (any (fun t => String.eqb t.1 ctool) tools) (path +:+ ".compensation.tool") in
      let? _ := ensure (is_object (args_of c)) (path +:+ ".compensation.args") in
      check_template_paths (args_of c) (path +:+ ".compensation.args") earlier (Some id)
  end.

Definition validate_tool (obj : list (string * json)) (path id : string) (earlier : list string)
    (tools : list (string * bool)) : result BundleError unit :=
  let? tool := need (member_str "tool" obj) (path +:+ ".tool") in
  let? declared := need (find_first (fun t => String.eqb t.1 tool) tools) (path +:+ ".tool") in
  let? _ := ensure (is_object (args_of obj)) (path +:+ ".args") in
  let? _ := check_template_paths (args_of obj) (path +:+ ".args") earlier None in
  let? _ := validate_idempotency obj path earlier declared.2 in
  let? _ := ensure (member_ok "scope" string_or_null obj) (path +:+ ".scope") in
  validate_compensation obj path id earlier tools.

Definition validate_action (obj : list (string * json)) (path : string) (earlier : list string)
    : result BundleError unit :=
  let? action := need (map_get "action" obj) (path +:+ ".action") in
  let? a := need (as_object action) (path +:+ ".action") in
  let? _ := ensure (match map_get "kind" a with Some k => is_string k | None => false end)
              (path +:+ ".action.kind") in
  check_template_paths action (path +:+ ".action") earlier None.

Definition validate_step (step : json) (path : string) (earlier : list string)
    (tools : list (string * bool)) (prompts : list string) (root : list (string * json))
    : result BundleError unit :=
  let? obj := need (as_object step) path in
  let? id := need (member_str "id" obj) (path +:+ ".id") in
  let? _ := ensure (is_step_id id) (path +:+ ".id") in
  let? _ := ensure (negb (str_contains id earlier)) (path +:+ ".id") in
  let? _ := ensure (member_ok "timeout_seconds" positive obj) (path +:+ ".timeout_seconds") in
  let? _ := ensure (member_ok "description" is_string obj) (path +:+ ".description") in
  let? kind := need (member_str "kind" obj) (path +:+ ".kind") in
  if String.eqb kind "model" then validate_model obj path earlier prompts root
  else if String.eqb kind "tool" then validate_tool obj path id earlier tools
  else if String.eqb kind "action" then validate_action obj path earlier
  else err (path +:+ ".kind").

(** The loop over the steps of a workflow; [seen] grows by each id. *)
Fixpoint validate_steps (steps : list json) (i : Z) (wf_path : string) (seen : list string)
    (tools : list (string * bool)) (prompts : list string) (root : list (string * json))
    : result BundleError unit :=
  match steps with
  | [] => Ok tt
  | step :: steps =>
      let? _ := validate_step step (wf_path +:+ ".steps." +:+ dec i) seen tools prompts root in
      let seen := match jget_str "id" step with Some id => seen ++ [id] | None => seen end in
      validate_steps steps (i + 1) wf_path seen tools prompts root
  end.

Definition validate_workflow (tools : list (string * bool)) (prompts : list string)
    (root : list (string * json)) (entry : string * json) : result BundleError unit :=
  let wf_path := "workflows." +:+ entry.1 in
  let? wf := need (as_object entry.2) wf_path in
  let? _ := ensure (member_ok "input_schema" is_object wf) (wf_path +:+ ".input_schema") in
  let? steps := need (s ← map_get "steps" wf; as_array s) (wf_path +:+ ".steps") in
  let? _ := ensure (match steps with [] => false | _ => true end) (wf_path +:+ ".steps") in
  validate_steps steps 0 wf_path [] tools prompts root.

Fixpoint validate_tools (items : list json) (i : Z) (tool_ids : list (string * bool))
    : result BundleError (list (string * bool)) :=
  match items with
  | [] => Ok tool_ids
  | tool :: items =>
      let path := "tools." +:+ dec i in
      let? id := need (jget_str "id" tool) (path +:+ ".id") in
      let? _ := ensure (is_tool_id id) (path +:+ ".id") in
      let? _ := ensure (negb (any (fun t => String.eqb t.1 id) tool_ids)) (path +:+ ".id") in
      let? writes := match jget "writes" tool with
                     | None => Ok false
                     | Some (JBool b) => Ok b
                     | Some _ => err (path +:+ ".writes")
                     end in
      let? _ := ensure (match jget "description" tool with Some d => is_string d | None => true end)
                  (path +:+ ".description") in
      validate_tools items (i + 1) (tool_ids ++ [(id, writes)])
  end.

Definition has_braces (s : string) : bool :=
  match split_pair "{"%char s with Some _ => true | None => false end.

Definition validate_prompt (entry : string * json) : result BundleError unit :=
  let path := "prompts." +:+ entry.1 in
  let? obj := need (as_object entry.2) path in
  let? system := need (member_str "system" obj) (path +:+ ".system") in
  let? _ := ensure (negb (has_braces system)) (path +:+ ".system") in
  let? user := need (member_str "user" obj) (path +:+ ".user") in
  let? _ := paths_at (JStr user) (path +:+ ".user") in
  Ok tt.

Definition validate_mock (prompt_names : list string) (entry : string * json)
    : result BundleError unit :=
  let path := "mock." +:+ entry.1 in
  let? _ := ensure (str_contains entry.1 prompt_names) path in
  let? paths := paths_at entry.2 path in
  rfor paths (fun p => check_path_root p path).

(** The indexed loop over the policy names. *)
Fixpoint validate_policy_names (items : list json) (i : Z) : result BundleError unit :=
  match items with
  | [] => Ok tt
  | p :: items =>
      let? _ := ensure (is_string p) ("policies." +:+ dec i) in validate_policy_names items (i + 1)
  end.

Definition validate_head (bundle : json) (root : list (string * json)) : result BundleError unit :=
  let? _ := ensure (match member_str "format" root with Some f => String.eqb f FORMAT | None => false end)
              "format" in
  let? name := need (member_str "name" root) "name" in
  let? _ := ensure (is_name name) "name" in
  let? version := need (member_str "version" root) "version" in
  let? _ := ensure (is_semver version) "version" in
  let? _ := ensure (member_ok "department" string_or_null root) "department" in
  let? _ := match map_get "policies" root with
            | Some policies =>
                let? items := need (as_array policies) "policies" in validate_policy_names items 0
            | None => Ok tt
            end in
  ensure (Z.of_nat (String.length (canonical_bytes bundle)) <=? MAX_CANONICAL_BYTES) "".

Definition validate_bundle (bundle : json) : result BundleError unit :=
  let? root := need (as_object bundle) "" in
  let? _ := validate_head bundle root in
  let? tool_ids := match map_get "tools" root with
                   | Some tools => let? items := need (as_array tools) "tools" in validate_tools items 0 []
                   | None => Ok []
                   end in
  let? prompt_names := match map_get "prompts" root with
                       | Some prompts =>
                           let? map := need (as_object prompts) "prompts" in
                           let? _ := rfor map validate_prompt in
                           Ok (List.map fst map)
                       | None => Ok []
                       end in
  let? _ := match map_get "mock" root with
            | Some mock =>
                let? map := need (as_object mock) "mock" in rfor map (validate_mock prompt_names)
            | None => Ok tt
            end in
  let? workflows := need (w ← map_get "workflows" root; as_object w) "workflows" in
  let? _ := ensure (match workflows with [] => false | _ => true end) "workflows" in
  rfor workflows (validate_workflow tool_ids prompt_names root).

(** [Bundle::new] *)
Definition bundle_new (value : json) : result BundleError Bundle :=
  let? _ := validate_bundle value in
  Ok {| bundle_value := value |}.

End Validate.
