(* ===== verification/BundleSpec.v ===== *)
(** * What a validated bundle promises

    The kernel trusts the workflows of a stored bundle: distinct well-formed step ids, kinds
    it can schedule, templates that only look back, and an idempotency key on every step
    that writes.  This file derives those facts from [validate_bundle]. *)

From S2P Require Import Prelude Text F64 Json Canonical Time Errors Keys Payloads Events Template.
From S2P Require Import Bundle.
From Stdlib Require Import Ascii.

Local Open Scope string_scope.
Local Open Scope list_scope.
Local Open Scope Z_scope.

Lemma ensure_ok ok path u : ensure ok path = Ok u -> ok = true.
Proof. by destruct ok. Qed.

Ltac inv_checks :=
  inv_ok;
  repeat match goal with H : ensure _ _ = Ok _ |- _ => apply ensure_ok in H end;
  repeat match goal with H : need _ _ = Ok _ |- _ => apply ok_or_ok in H end.

(** ** Template references *)

(** A path that starts at [input] or [run], or at a step of [earlier] or [own]. *)
Definition backward_path (earlier : list string) (own : option string) (path : string) : Prop :=
  match split_on "." path with
  | root :: rest =>
      (root = "input" \/ root = "run") \/
      root = "steps" /\ exists target rest', rest = target :: rest' /\ (In target earlier \/ own = Some target)
  | [] => False
  end.

(** Every template path of a value looks back. *)
Definition backward `{JsonPrint} (earlier : list string) (own : option string) (value : json) : Prop :=
  exists paths, collect_paths value [] = Ok paths /\ Forall (backward_path earlier own) paths.

Definition backward_opt `{JsonPrint} (earlier : list string) (own : option string)
    (o : option json) : Prop :=
  match o with Some v => backward earlier own v | None => True end.

Lemma str_contains_spec x l : str_contains x l = true <-> In x l.
Proof.
  unfold str_contains. rewrite any_true. split.
  - intros (y & Hy & ->%String.eqb_eq). done.
  - intros Hx. exists x. split; [done | apply String.eqb_refl].
Qed.

Section Spec.
Context `{FloatFormat, JsonPrint}.

Lemma check_paths_backward earlier own at_ p :
  (let? _ := check_path_root p at_ in check_step_ref p at_ earlier own) = Ok tt ->
  backward_path earlier own p.
Proof.
  intros Hc. inv_checks. unfold check_path_root, check_step_ref, backward_path in *.
  destruct (split_on "." p) as [|root rest]; [done|]. inv_checks.
  rewrite str_contains_spec in Ha. cbn in Ha.
  destruct (String.eqb_spec root "steps") as [->|Hn].
  - right. split; [done|]. destruct rest as [|target rest']; [done|]. exists target, rest'.
    split; [done|]. inv_checks. apply orb_true_iff in Hc as [Hc|Hc].
    + left. by apply str_contains_spec.
    + right. destruct own as [o|]; [|done]. by apply String.eqb_eq in Hc as ->.
  - left. intuition congruence.
Qed.

Lemma check_template_backward value at_ earlier own :
  check_template_paths value at_ earlier own = Ok tt -> backward earlier own value.
Proof.
  unfold check_template_paths, paths_at. intros Hc. inv_checks.
  destruct (collect_paths value []) as [paths|] eqn:E; [|done]. injection Ha as ->.
  exists a. split; [done|]. rewrite List.Forall_forall. intros p Hp.
  rewrite rfor_ok, List.Forall_forall in Hc.
  eapply check_paths_backward. exact (Hc p Hp).
Qed.

(** ** Declared tools *)

Definition writes_of (tool : json) : bool :=
  match (w ← jget "writes" tool; as_bool w) with Some w => w | None => false end.

Definition declares (tool : json) (entry : string * bool) : Prop :=
  jget_str "id" tool = Some entry.1 /\ writes_of tool = entry.2.

Lemma validate_tools_declares items i tool_ids out :
  validate_tools items i tool_ids = Ok out ->
  exists l, out = tool_ids ++ l /\ Forall2 declares items l.
Proof.
  revert i tool_ids. induction items as [|tool items IH]; intros i tool_ids Hv; cbn [validate_tools] in Hv.
  - inv_ok. exists []. rewrite app_nil_r. split; [done | constructor].
  - inv_checks. apply IH in Hv as (l & -> & Hl). rewrite <- app_assoc. eexists. split; [reflexivity|].
    constructor; [|exact Hl]. split; [done|]. cbn. unfold writes_of.
    repeat match goal with H : match jget "writes" tool with _ => _ end = Ok _ |- _ =>
      revert H; destruct (jget "writes" tool) as [[]|]; intros H; try discriminate H; injection H as <- end;
      done.
Qed.

Lemma find_declared id items l p : Forall2 declares items l ->
  find_first (fun t => String.eqb t.1 id) l = Some p ->
  exists t, find_first (has_id id) items = Some t /\ declares t p.
Proof.
  induction 1 as [|t q items l Hd _ IH]; intros Hf; [discriminate Hf|]. cbn [find_first] in *.
  pose proof Hd as [Hid _]. unfold has_id at 1. rewrite Hid.
  destruct (String.eqb q.1 id); [|by apply IH]. injection Hf as <-. eauto.
Qed.

(** ** Steps *)

(** A tool step: declared tool, templates that look back, a key when it writes. *)
Definition tool_step_ok (b : Bundle) (obj : list (string * json)) (id : string)
    (earlier : list string) : Prop :=
  exists tool writes,
    member_str "tool" obj = Some tool /\ tool_writes tool b = Some writes /\
    backward earlier None (args_of obj) /\
    backward_opt earlier None (map_get "idempotency_key" obj) /\
    (writes = true -> map_get "idempotency_key" obj <> None) /\
    (forall c, (comp ← map_get "compensation" obj; as_object comp) = Some c ->
       backward earlier (Some id) (args_of c)).

Definition step_ok (b : Bundle) (earlier : list string) (step : json) (id : string) : Prop :=
  is_step_id id = true /\ ~ In id earlier /\
  exists obj kind, step = JObj obj /\ member_str "id" obj = Some id /\
    member_str "kind" obj = Some kind /\ In kind ["model"; "tool"; "action"] /\
    (kind = "tool" -> tool_step_ok b obj id earlier) /\
    (kind = "action" -> exists action, map_get "action" obj = Some action /\ backward earlier None action).

(** Step after step, each with the ids before it. *)
Inductive steps_ok (b : Bundle) : list string -> list json -> list string -> Prop :=
| steps_ok_nil earlier : steps_ok b earlier [] []
| steps_ok_cons earlier step steps id ids :
    step_ok b earlier step id -> steps_ok b (earlier ++ [id]) steps ids ->
    steps_ok b earlier (step :: steps) (id :: ids).

Section Steps.
Context (b : Bundle) (root : list (string * json)) (tools : list (string * bool)) (prompts : list string).
Hypothesis Htools : forall tool p,
  find_first (fun t => String.eqb t.1 tool) tools = Some p -> tool_writes tool b = Some p.2.

Lemma idempotency_ok obj path earlier writes :
  validate_idempotency obj path earlier writes = Ok tt ->
  backward_opt earlier None (map_get "idempotency_key" obj) /\
  (writes = true -> map_get "idempotency_key" obj <> None).
Proof.
  unfold validate_idempotency. destruct (map_get "idempotency_key" obj) as [key|].
  - intros Hc. inv_checks. split; [by eapply check_template_backward | done].
  - destruct writes; [done|]. done.
Qed.

Lemma compensation_ok obj path id earlier :
  validate_compensation obj path id earlier tools = Ok tt ->
  forall c, (comp ← map_get "compensation" obj; as_object comp) = Some c ->
    backward earlier (Some id) (args_of c).
Proof.
  unfold validate_compensation. destruct (map_get "compensation" obj) as [comp|]; [|done].
  intros Hv c Hc. cbn in Hc. inv_checks. simplify_eq. by eapply check_template_backward.
Qed.

Lemma validate_tool_ok obj path id earlier :
  validate_tool obj path id earlier tools = Ok tt -> tool_step_ok b obj id earlier.
Proof.
  unfold validate_tool. intros Hv. inv_checks.
  repeat match goal with u : unit |- _ => destruct u end.
  match goal with H : find_first _ tools = Some _ |- _ => apply Htools in H end.
  match goal with H : validate_idempotency _ _ _ _ = _ |- _ => apply idempotency_ok in H as [??] end.
  eexists _, _. split_and!; eauto using check_template_backward, compensation_ok.
Qed.

Lemma validate_step_ok step path earlier :
  validate_step step path earlier tools prompts root = Ok tt ->
  exists id, jget_str "id" step = Some id /\ step_ok b earlier step id.
Proof.
  unfold validate_step. intros Hv. inv_checks. destruct step as [ | | | | | obj]; try done.
  match goal with H : as_object _ = Some _ |- _ => injection H as -> end.
  match goal with H : negb (str_contains _ _) = true |- _ =>
    apply negb_true_iff, not_true_iff_false in H; rewrite str_contains_spec in H end.
  eexists. split; [eassumption|]. split; [done|]. split; [done|].
  eexists _, _. split; [done|]. split; [eassumption|]. split; [eassumption|].
  match type of Hv with (if String.eqb ?k "model" then _ else _) = _ => rename k into kind end.
  destruct (String.eqb_spec kind "model") as [->|]; [cbn; split; [auto|]; split; intros [=]|].
  destruct (String.eqb_spec kind "tool") as [->|].
  - cbn. split; [auto|]. split; [|done]. intros _. by eapply validate_tool_ok.
  - destruct (String.eqb_spec kind "action") as [->|]; [|done]. cbn. split; [auto|]. split; [done|].
    intros _. unfold validate_action in Hv. inv_checks. eauto using check_template_backward.
Qed.

Lemma validate_steps_ok steps i wf_path seen :
  validate_steps steps i wf_path seen tools prompts root = Ok tt ->
  exists ids, steps_ok b seen steps ids.
Proof.
  revert i seen. induction steps as [|step steps IH]; intros i seen Hv; cbn [validate_steps] in Hv.
  - exists []. constructor.
  - inv_checks. destruct a. match goal with H : validate_step _ _ _ _ _ _ = _ |- _ =>
      apply validate_step_ok in H as (id & Hid & Hs) end.
    rewrite Hid in Hv. apply IH in Hv as [ids Hids]. exists (id :: ids). by constructor.
Qed.
End Steps.

Lemma steps_ok_ids b earlier steps ids :
  List.NoDup earlier -> steps_ok b earlier steps ids ->
  List.NoDup (earlier ++ ids) /\ omapM (jget_str "id") steps = Some ids.
Proof.
  intros Hn Hs. revert Hn. induction Hs as [earlier|earlier step steps id ids Hok _ IH]; intros Hn.
  - by rewrite app_nil_r.
  - destruct Hok as (_ & Hni & obj & kind & -> & Hid & _).
    destruct IH as [IHn IHi].
    { apply List.NoDup_app; [done | constructor; [by intros [] | constructor] |].
      intros x Hx [<-|[]]. by apply Hni. }
    rewrite <- app_assoc in IHn. split; [done|]. cbn [omapM].
    change (jget_str "id" (JObj obj)) with (member_str "id" obj). rewrite Hid, IHi. done.
Qed.

Lemma validate_bundle_workflow value name w :
  validate_bundle value = Ok tt -> bundle_workflow name (from_stored value) = Some w ->
  exists ids, ids <> [] /\ steps_ok (from_stored value) [] (bundle_steps name (from_stored value)) ids.
Proof.
  intros Hv Hw. unfold validate_bundle in Hv. inv_checks.
  destruct value as [ | | | | | root]; try done.
  match goal with H : as_object _ = Some _ |- _ => injection H as <- end.
  unfold bundle_steps. rewrite Hw. unfold bundle_workflow in Hw. cbn [bundle_value from_stored jget] in Hw.
  destruct (map_get "workflows" root) as [wfs|] eqn:Ewf; [|done]. cbn in Hw.
  match goal with H : (_ ← Some wfs; _) = Some ?m |- _ => cbn in H; rename m into workflows;
    destruct wfs as [ | | | | | wm]; try discriminate H; injection H as -> end.
  cbn [jget] in Hw. rewrite rfor_ok, List.Forall_forall in Hv.
  assert (In (name, w) workflows) as Hin.
  { clear -Hw. induction workflows as [|[k v] m IH]; [done|]. cbn in *.
    destruct (String.eqb_spec name k) as [->|]; [injection Hw as ->; by left | right; auto]. }
  apply Hv in Hin. unfold validate_workflow in Hin. cbn [fst snd] in Hin. inv_checks.
  destruct w as [ | | | | | wf]; try done.
  match goal with H : as_object (JObj wf) = Some _ |- _ => injection H as <- end. cbn [mbind option_bind jget].
  match goal with H : (_ ← map_get "steps" wf; _) = Some ?l |- _ => rewrite H; rename l into steps end.
  match goal with tools : list (string * bool) |- _ =>
    match goal with prompts : list string |- _ =>
      eapply (validate_steps_ok (from_stored (JObj root)) root tools prompts) in Hin as [ids Hids] end end.
  - exists ids. split; [|exact Hids]. intros ->. inversion Hids; subst. done.
  - intros tool p Hp. unfold tool_writes. cbn [bundle_value from_stored jget].
    destruct (map_get "tools" root) as [ts|]; [|inv_checks; discriminate Hp].
    inv_checks. match goal with H : validate_tools _ _ _ = Ok _ |- _ =>
      apply validate_tools_declares in H as (l & -> & Hl) end.
    destruct (find_declared _ _ _ _ Hl Hp) as (t & Hf & _ & Hw'). cbn.
    match goal with H : as_array ts = Some _ |- _ => rewrite H end. cbn. rewrite Hf. cbn. by rewrite <- Hw'.
Qed.

End Spec.

(** ** Signatures *)

Section Signature.
Context `{FloatFormat, Sha256, Crypto}.

Lemma verify_bundle_inv bundle signature trusted key :
  verify_bundle_signature bundle signature trusted = Ok key ->
  bs_algorithm signature = "ed25519" /\ In key trusted /\ pk_key_id key = bs_key_id signature /\
  verify key (canonical_bytes bundle) (bs_signature signature) = true.
Proof.
  unfold verify_bundle_signature. destruct (String.eqb_spec (bs_algorithm signature) "ed25519"); [|done].
  cbn [negb]. intros Hv. inv_ok. apply find_first_some in Ha as [Hin Hk]. apply String.eqb_eq in Hk.
  destruct (verify a _ _) eqn:E; [|done]. cbn in Hv. inv_ok. auto.
Qed.
End Signature.

(** ** A concrete bundle *)

Definition example_step (id tool : string) (more : list (string * json)) : json :=
  obj ([("id", JStr id); ("kind", JStr "tool"); ("tool", JStr tool)] ++ more).

Definition example_bundle : json :=
  obj [("format", JStr FORMAT); ("name", JStr "finance.intake"); ("version", JStr "1.0.0");
       ("tools", JArr [obj [("id", JStr "http.get")];
                       obj [("id", JStr "ledger.post"); ("writes", JBool true)]]);
       ("workflows", obj [("intake", obj [("steps", JArr [
          example_step "fetch" "http.get" [("args", obj [("id", JStr "{{input.id}}")])];
          example_step "post" "ledger.post"
            [("args", obj [("$ref", JStr "steps.fetch.output")]);
             ("idempotency_key", JStr "post:{{run.id}}");
             ("compensation", obj [("tool", JStr "ledger.post");
                                   ("args", obj [("undo", JStr "{{steps.post.output.id}}")])])]])])])].

Definition example_workflow : json :=
  match bundle_workflow "intake" (from_stored example_bundle) with Some w => w | None => JNull end.

