(* ===== verification/Store.v ===== *)
(** * The store

    The SQLite tables and row-level queries of [kernos-core/src/store.rs].  A table is the
    list of its rows in insertion ([rowid]) order, a [SELECT] a filter and a sort, an
    [UPDATE] a map, and an [INSERT] that breaks a primary key or a uniqueness constraint
    fails.  A TEXT column that holds JSON is the value it spells; it is decoded on every
    read, as the code does, and a row that does not decode is an [Internal] error.

    Operations run in the monad [M]: a function from the store to a result and a store.  An
    error keeps the writes made so far; whether they survive is the caller's transaction. *)

From S2P Require Import Prelude Text F64 Json Policy Canonical Time Errors Keys Remit Payloads.
From S2P Require Import Events Fold RunJson.
From Stdlib Require Import Ascii.

Local Open Scope string_scope.
Local Open Scope list_scope.
Local Open Scope Z_scope.

(** ** Rows *)

Record EventRow := {
  er_run_id : string; er_seq : Z; er_ts : string; er_kind : string; er_actor : json;
  er_payload : json; er_prev_hash : string; er_hash : string }.

(** The row of [runs] as stored, and [RunRow], what [run_row_from_row] reads of it. *)
Record RunRecord := {
  rr_run_id : string; rr_state : string; rr_department : option string; rr_bundle_id : string;
  rr_bundle_name : string; rr_bundle_version : string; rr_workflow : string; rr_remit_id : string;
  rr_child_remit_id : string; rr_requested_by : json; rr_needs_human : Z;
  rr_park_reason : option string; rr_last_seq : Z; rr_last_hash : string; rr_state_json : json;
  rr_created_at : string; rr_updated_at : string; rr_abandoning : Z }.

Record RunRow := {
  row_state : RunState; row_child_remit_id : string; row_created_at : string;
  row_updated_at : string; row_last_hash : string }.

(** The row of [steps] as stored, and [StepRow], what [step_row_from_row] reads of it. *)
Record StepRecord := {
  sr_run_id : string; sr_step_id : string; sr_idx : Z; sr_kind : string; sr_state : string;
  sr_attempts : Z; sr_lease_id : option string; sr_not_before_ms : option Z; sr_def : json }.

Record StepRow := {
  srow_step_id : string; srow_idx : Z; srow_kind : string; srow_state : StepStatus;
  srow_attempts : Z; srow_lease_id : option string; srow_not_before_ms : option Z; srow_def : json }.

Record LeaseRow := {
  le_lease_id : string; le_run_id : string; le_step_id : string; le_worker_id : string;
  le_attempt : Z; le_ttl_seconds : Z; le_issued_at_ms : Z; le_expires_at_ms : Z;
  le_state : string }.

(** [payload] is the column's JSON in the record and the decoded payload in the row. *)
Record RemitRecord := {
  rm_remit_id : string; rm_parent_id : option string; rm_run_id : option string;
  rm_bound_run_id : option string; rm_payload : json; rm_token : string;
  rm_expires_at_ms : Z; rm_created_at : string }.

Record RemitRow := {
  rmrow_remit_id : string; rmrow_parent_id : option string; rmrow_run_id : option string;
  rmrow_bound_run_id : option string; rmrow_payload : RemitPayload; rmrow_token : string;
  rmrow_expires_at_ms : Z; rmrow_created_at : string }.

Record ApprovalRow := {
  apr_approval_id : string; apr_run_id : string; apr_action_id : string; apr_step_id : string;
  apr_action : json; apr_action_hash : string; apr_idempotency_key : option string;
  apr_approver : Approver; apr_original_approver : Approver; apr_escalate_to : json;
  apr_sla_seconds : Z; apr_state : string; apr_requested_at : string; apr_due_at_ms : Z;
  apr_escalations : Z; apr_parked_human : bool; apr_decided_at : option string;
  apr_actor : option json; apr_reason : option string; apr_decision : option string }.

Record BundleRow := {
  bn_bundle_id : string; bn_name : string; bn_version : string; bn_department : option string;
  bn_sha256 : string; bn_bundle : json; bn_signature : json; bn_created_at : string }.

Record PolicyRow := {
  po_policy_id : string; po_name : string; po_version : Z; po_source : string;
  po_created_at : string }.

Record ActionRow := {
  an_action_id : string; an_run_id : string; an_step_id : string; an_seq : Z; an_action : json;
  an_action_hash : string; an_idempotency_key : option string; an_context : json;
  an_decision : string; an_rule : string; an_approval_id : option string;
  an_created_at : string }.

Record Store := {
  t_events : list EventRow; t_runs : list RunRecord; t_steps : list StepRecord;
  t_leases : list LeaseRow; t_remits : list RemitRecord; t_approvals : list ApprovalRow;
  t_bundles : list BundleRow; t_policies : list PolicyRow; t_actions : list ActionRow }.

Definition empty_store : Store :=
  {| t_events := []; t_runs := []; t_steps := []; t_leases := []; t_remits := [];
     t_approvals := []; t_bundles := []; t_policies := []; t_actions := [] |}.

(** Replacing one table. *)
Definition with_events (v : list EventRow) (s : Store) : Store :=
  {| t_events := v; t_runs := t_runs s; t_steps := t_steps s; t_leases := t_leases s;
     t_remits := t_remits s; t_approvals := t_approvals s; t_bundles := t_bundles s;
     t_policies := t_policies s; t_actions := t_actions s |}.
Definition with_runs (v : list RunRecord) (s : Store) : Store :=
  {| t_events := t_events s; t_runs := v; t_steps := t_steps s; t_leases := t_leases s;
     t_remits := t_remits s; t_approvals := t_approvals s; t_bundles := t_bundles s;
     t_policies := t_policies s; t_actions := t_actions s |}.
Definition with_steps (v : list StepRecord) (s : Store) : Store :=
  {| t_events := t_events s; t_runs := t_runs s; t_steps := v; t_leases := t_leases s;
     t_remits := t_remits s; t_approvals := t_approvals s; t_bundles := t_bundles s;
     t_policies := t_policies s; t_actions := t_actions s |}.
Definition with_leases (v : list LeaseRow) (s : Store) : Store :=
  {| t_events := t_events s; t_runs := t_runs s; t_steps := t_steps s; t_leases := v;
     t_remits := t_remits s; t_approvals := t_approvals s; t_bundles := t_bundles s;
     t_policies := t_policies s; t_actions := t_actions s |}.
Definition with_remits (v : list RemitRecord) (s : Store) : Store :=
  {| t_events := t_events s; t_runs := t_runs s; t_steps := t_steps s; t_leases := t_leases s;
     t_remits := v; t_approvals := t_approvals s; t_bundles := t_bundles s;
     t_policies := t_policies s; t_actions := t_actions s |}.
Definition with_approvals (v : list ApprovalRow) (s : Store) : Store :=
  {| t_events := t_events s; t_runs := t_runs s; t_steps := t_steps s; t_leases := t_leases s;
     t_remits := t_remits s; t_approvals := v; t_bundles := t_bundles s;
     t_policies := t_policies s; t_actions := t_actions s |}.
Definition with_bundles (v : list BundleRow) (s : Store) : Store :=
  {| t_events := t_events s; t_runs := t_runs s; t_steps := t_steps s; t_leases := t_leases s;
     t_remits := t_remits s; t_approvals := t_approvals s; t_bundles := v;
     t_policies := t_policies s; t_actions := t_actions s |}.
Definition with_policies (v : list PolicyRow) (s : Store) : Store :=
  {| t_events := t_events s; t_runs := t_runs s; t_steps := t_steps s; t_leases := t_leases s;
     t_remits := t_remits s; t_approvals := t_approvals s; t_bundles := t_bundles s;
     t_policies := v; t_actions := t_actions s |}.
Definition with_actions (v : list ActionRow) (s : Store) : Store :=
  {| t_events := t_events s; t_runs := t_runs s; t_steps := t_steps s; t_leases := t_leases s;
     t_remits := t_remits s; t_approvals := t_approvals s; t_bundles := t_bundles s;
     t_policies := t_policies s; t_actions := v |}.

(** ** The monad of operations *)

Definition M (A : Type) : Type := Store -> KernelResult A * Store.

Definition kret {A} (a : A) : M A := fun s => (Ok a, s).
Definition kfail {A} (e : KernelError) : M A := fun s => (Err e, s).
Definition kbind {A B} (m : M A) (k : A -> M B) : M B := fun s =>
  match m s with
  | (Ok a, s) => k a s
  | (Err e, s) => (Err e, s)
  end.
Definition kget : M Store := fun s => (Ok s, s).
Definition kput (f : Store -> Store) : M unit := fun s => (Ok tt, f s).

Notation "'let!' x ':=' m 'in' k" := (kbind m (fun x => k))
  (at level 10, x pattern, m at level 100, k at level 200) : kernos_scope.

(** A computation that only reads, a [Result] lifted, and a guard. *)
Definition kread {A} (f : Store -> KernelResult A) : M A := fun s => (f s, s).
Definition klift {A} (r : KernelResult A) : M A := fun s => (r, s).
Definition kguard (ok : bool) (e : KernelError) : M unit := if ok then kret tt else kfail e.
Definition ksome {A} (o : option A) (e : KernelError) : M A := klift (ok_or e o).

(** [for x in l { body }] with [?] in the body, and with a variable carried along. *)
Fixpoint kfor {A} (l : list A) (body : A -> M unit) : M unit :=
  match l with
  | [] => kret tt
  | x :: l => let! _ := body x in kfor l body
  end.
Fixpoint kfold {A B} (l : list A) (b : B) (body : B -> A -> M B) : M B :=
  match l with
  | [] => kret b
  | x :: l => let! b := body b x in kfold l b body
  end.

(** A transaction that an error rolls back. *)
Definition transaction {A} (m : M A) : M A := fun s =>
  match m s with
  | (Ok a, s') => (Ok a, s')
  | (Err e, _) => (Err e, s)
  end.

(** ** Queries *)

(** [ORDER BY]: a stable sort. *)
Fixpoint insert_by {A} (leb : A -> A -> bool) (x : A) (l : list A) : list A :=
  match l with
  | [] => [x]
  | y :: l => if leb x y then x :: y :: l else y :: insert_by leb x l
  end.
Definition order_by {A} (leb : A -> A -> bool) (l : list A) : list A :=
  fold_right (insert_by leb) [] l.

Definition str_leb (a b : string) : bool := match String.compare a b with Gt => false | _ => true end.

(** Reading the rows of a [SELECT], failing on the first that does not decode. *)
Definition decode_rows {A B} (d : A -> KernelResult B) (l : list A) : KernelResult (list B) := rmapM d l.

(** [json_col]: decode a JSON column. *)
Definition json_col {A} (d : json -> option A) (j : json) : KernelResult A := ok_or Internal (d j).

(** *** Events *)

Definition event_row (e : Event) : EventRow :=
  {| er_run_id := ev_run_id e; er_seq := u64_as_i64 (ev_seq e); er_ts := ev_ts e;
     er_kind := Kind.as_str (ev_kind e); er_actor := ser_actor (ev_actor e);
     er_payload := ev_payload e; er_prev_hash := ev_prev_hash e; er_hash := ev_hash e |}.

(** [i64 as u64] *)
Definition i64_as_u64 (z : Z) : Z := z mod 2 ^ 64.

Definition same_event_key (a b : EventRow) : bool :=
  String.eqb (er_run_id a) (er_run_id b) && (er_seq a =? er_seq b).

Definition insert_event (e : Event) : M unit := fun s =>
  if any (same_event_key (event_row e)) (t_events s) then (Err Internal, s)
  else (Ok tt, with_events (t_events s ++ [event_row e]) s).

Definition event_from_row (row : EventRow) : KernelResult Event :=
  let? kind := ok_or Internal (Kind.parse (er_kind row)) in
  let? actor := json_col de_actor (er_actor row) in
  Ok {| ev_schema := SCHEMA; ev_run_id := er_run_id row; ev_seq := i64_as_u64 (er_seq row);
        ev_ts := er_ts row; ev_kind := kind; ev_actor := actor; ev_payload := er_payload row;
        ev_prev_hash := er_prev_hash row; ev_hash := er_hash row |}.

(** [LIMIT n]: a negative bound is none in SQLite.  The count is not built in unary. *)
Definition limit_rows {A} (limit : Z) (l : list A) : list A :=
  if (limit <? 0) || (Z.of_nat (length l) <=? limit) then l else firstn (Z.to_nat limit) l.

Definition events_from (run_id : string) (from_seq limit : Z) (s : Store) : KernelResult (list Event) :=
  decode_rows event_from_row
    (limit_rows (u64_as_i64 limit)
      (order_by (fun a b => er_seq a <=? er_seq b)
        (List.filter (fun e => String.eqb (er_run_id e) run_id && (u64_as_i64 from_seq <=? er_seq e))
          (t_events s)))).

Definition all_events (run_id : string) (s : Store) : KernelResult (list Event) :=
  events_from run_id 1 i64_max s.

Definition step_events (run_id step : string) (kinds : list EventKind) (s : Store)
    : KernelResult (list Event) :=
  let? all := all_events run_id s in
  Ok (List.filter (fun e => any (fun k => bool_decide (k = ev_kind e)) kinds
                            && match event_step e with Some x => String.eqb x step | None => false end) all).

(** *** Runs *)

Definition b2i (b : bool) : Z := if b then 1 else 0.

(** The columns of a fresh row. *)
Definition run_record (row : RunRow) : RunRecord :=
  let s := row_state row in
  {| rr_run_id := rs_run_id s; rr_state := run_status_str (rs_state s);
     rr_department := rs_department s; rr_bundle_id := br_id (rs_bundle s);
     rr_bundle_name := br_name (rs_bundle s); rr_bundle_version := br_version (rs_bundle s);
     rr_workflow := rs_workflow s; rr_remit_id := rs_remit_id s;
     rr_child_remit_id := row_child_remit_id row; rr_requested_by := rs_requested_by s;
     rr_needs_human := b2i (rs_needs_human s); rr_park_reason := rs_park_reason s;
     rr_last_seq := u64_as_i64 (rs_last_seq s); rr_last_hash := row_last_hash row;
     rr_state_json := ser_RunState s; rr_created_at := row_created_at row;
     rr_updated_at := row_updated_at row; rr_abandoning := b2i (rs_abandoning s) |}.

(** [ON CONFLICT(run_id) DO UPDATE SET ...]: the columns the conflict clause names. *)
Definition update_run_record (new old : RunRecord) : RunRecord :=
  {| rr_run_id := rr_run_id old; rr_state := rr_state new; rr_department := rr_department old;
     rr_bundle_id := rr_bundle_id old; rr_bundle_name := rr_bundle_name old;
     rr_bundle_version := rr_bundle_version old; rr_workflow := rr_workflow old;
     rr_remit_id := rr_remit_id old; rr_child_remit_id := rr_child_remit_id old;
     rr_requested_by := rr_requested_by old; rr_needs_human := rr_needs_human new;
     rr_park_reason := rr_park_reason new; rr_last_seq := rr_last_seq new;
     rr_last_hash := rr_last_hash new; rr_state_json := rr_state_json new;
     rr_created_at := rr_created_at old; rr_updated_at := rr_updated_at new;
     rr_abandoning := rr_abandoning new |}.

Definition is_run (run_id : string) (r : RunRecord) : bool := String.eqb (rr_run_id r) run_id.

Definition write_run (row : RunRow) : M unit := kput (fun s =>
  let new := run_record row in
  if any (is_run (rr_run_id new)) (t_runs s)
  then with_runs (update_first (is_run (rr_run_id new)) (update_run_record new) (t_runs s)) s
  else with_runs (t_runs s ++ [new]) s).

Definition run_row_from_row (r : RunRecord) : KernelResult RunRow :=
  let? state := json_col de_RunState (rr_state_json r) in
  Ok {| row_state := state; row_child_remit_id := rr_child_remit_id r;
        row_created_at := rr_created_at r; row_updated_at := rr_updated_at r;
        row_last_hash := rr_last_hash r |}.

(** [query_row(..).optional()] *)
Definition query_opt {A B} (d : A -> KernelResult B) (o : option A) : KernelResult (option B) :=
  match o with
  | Some r => rmap Some (d r)
  | None => Ok None
  end.

Definition get_run (run_id : string) (s : Store) : KernelResult (option RunRow) :=
  query_opt run_row_from_row (find_first (is_run run_id) (t_runs s)).

Definition require_run (run_id : string) (s : Store) : KernelResult RunRow :=
  let? o := get_run run_id s in
  ok_or (not_found "run_not_found") o.

Record RunFilter := {
  rf_state : option string; rf_department : option string; rf_limit : Z; rf_after : option string }.

Definition opt_matches (wanted : option string) (ok : string -> bool) : bool :=
  match wanted with Some w => ok w | None => true end.

(** [ORDER BY created_at, run_id] *)
Definition run_leb (a b : RunRecord) : bool :=
  if String.eqb (rr_created_at a) (rr_created_at b) then str_leb (rr_run_id a) (rr_run_id b)
  else str_leb (rr_created_at a) (rr_created_at b).

(** The keyset condition: after the anchor in that order. *)
Definition run_past (created after : string) (r : RunRecord) : bool :=
  negb (str_leb (rr_created_at r) created)
  || (String.eqb (rr_created_at r) created && negb (str_leb (rr_run_id r) after)).

Definition run_selected (filter : RunFilter) (r : RunRecord) : bool :=
  opt_matches (rf_state filter) (String.eqb (rr_state r))
  && opt_matches (rf_department filter)
       (fun d => match rr_department r with Some x => String.eqb x d | None => false end).

Definition list_runs (filter : RunFilter) (s : Store) : KernelResult (list RunRow) :=
  let? anchor := match rf_after filter with
                 | Some after => let? a := get_run after s in
                                 Ok (match a with Some r => Some (row_created_at r, after) | None => None end)
                 | None => Ok None
                 end in
  let selected r := run_selected filter r
    && match anchor with Some (created, after) => run_past created after r | None => true end in
  decode_rows run_row_from_row
    (limit_rows (u64_as_i64 (Z.max (rf_limit filter) 1)) (order_by run_leb (List.filter selected (t_runs s)))).

(** *** Steps *)

Definition is_step (run_id step_id : string) (r : StepRecord) : bool :=
  String.eqb (sr_run_id r) run_id && String.eqb (sr_step_id r) step_id.

(** The columns of a step row. *)
Definition step_record (run_id : string) (step : StepState) (def : json) : StepRecord :=
  {| sr_run_id := run_id; sr_step_id := st_id step; sr_idx := st_index step; sr_kind := st_kind step;
     sr_state := step_status_str (st_state step); sr_attempts := st_attempts step;
     sr_lease_id := match st_lease step with Some l => Some (li_lease_id l) | None => None end;
     sr_not_before_ms := (t ← st_not_before step; parse_rfc3339 t); sr_def := def |}.

Definition write_step (run_id : string) (step : StepState) (def : option json) : M unit := fun s =>
  if any (is_step run_id (st_id step)) (t_steps s) then
    (Ok tt, with_steps (update_all (is_step run_id (st_id step))
                          (fun r => step_record run_id step (sr_def r)) (t_steps s)) s)
  else
    match def with
    | None => (Err (api 500 "internal"), s)
    | Some def => (Ok tt, with_steps (t_steps s ++ [step_record run_id step def]) s)
    end.

Definition step_row_from_row (r : StepRecord) : KernelResult StepRow :=
  let? state := ok_or Internal (step_status_parse (sr_state r)) in
  Ok {| srow_step_id := sr_step_id r; srow_idx := sr_idx r mod 2 ^ 32; srow_kind := sr_kind r;
        srow_state := state; srow_attempts := sr_attempts r mod 2 ^ 32;
        srow_lease_id := sr_lease_id r; srow_not_before_ms := sr_not_before_ms r;
        srow_def := sr_def r |}.

Definition steps_of_run (run_id : string) (s : Store) : KernelResult (list StepRow) :=
  decode_rows step_row_from_row
    (order_by (fun a b => sr_idx a <=? sr_idx b)
      (List.filter (fun r => String.eqb (sr_run_id r) run_id) (t_steps s))).

Definition get_step (run_id step_id : string) (s : Store) : KernelResult (option StepRow) :=
  query_opt step_row_from_row (find_first (is_step run_id step_id) (t_steps s)).

(** An earlier step of the same class that is not completed. *)
Definition blocked_by (s e : StepRecord) : bool :=
  String.eqb (sr_run_id e) (sr_run_id s)
  && Bool.eqb (String.eqb (sr_kind e) "compensation") (String.eqb (sr_kind s) "compensation")
  && (sr_idx e <? sr_idx s) && negb (String.eqb (sr_state e) "completed").

(** The [WHERE] clause of [pick_runnable]. *)
Definition runnable (kinds : list string) (now_ms : Z) (steps : list StepRecord)
    (r : RunRecord) (s : StepRecord) : bool :=
  String.eqb (sr_run_id s) (rr_run_id r)
  && String.eqb (sr_state s) "scheduled"
  && match sr_not_before_ms s with Some t => t <=? now_ms | None => true end
  && any (String.eqb (sr_kind s)) kinds
  && String.eqb (rr_state r) "running"
  && ((rr_abandoning r =? 0) && negb (String.eqb (sr_kind s) "compensation")
      || (rr_abandoning r =? 1) && String.eqb (sr_kind s) "compensation")
  && negb (any (blocked_by s) steps).

(** [ORDER BY r.rowid, s.idx LIMIT 1]: the first run with a runnable step, and of its
    runnable steps the one of least index. *)
Definition pick_runnable (kinds : list string) (now_ms : Z) (s : Store) : option (string * string) :=
  match kinds with
  | [] => None
  | _ =>
      match flat_map (fun r => order_by (fun a b => sr_idx a <=? sr_idx b)
                                 (List.filter (runnable kinds now_ms (t_steps s) r) (t_steps s)))
              (t_runs s) with
      | [] => None
      | x :: _ => Some (sr_run_id x, sr_step_id x)
      end
  end.

(** *** Leases *)

Definition is_lease (lease_id : string) (l : LeaseRow) : bool := String.eqb (le_lease_id l) lease_id.

Definition insert_lease (l : LeaseRow) : M unit := fun s =>
  if any (is_lease (le_lease_id l)) (t_leases s) then (Err Internal, s)
  else (Ok tt, with_leases (t_leases s ++ [l]) s).

Definition get_lease (lease_id : string) (s : Store) : option LeaseRow :=
  find_first (is_lease lease_id) (t_leases s).

Definition set_lease (f : LeaseRow -> LeaseRow) (lease_id : string) : M unit :=
  kput (fun s => with_leases (update_all (is_lease lease_id) f (t_leases s)) s).

Definition set_lease_expiry (lease_id : string) (expires_at_ms : Z) : M unit :=
  set_lease (fun l =>
    {| le_lease_id := le_lease_id l; le_run_id := le_run_id l; le_step_id := le_step_id l;
       le_worker_id := le_worker_id l; le_attempt := le_attempt l; le_ttl_seconds := le_ttl_seconds l;
       le_issued_at_ms := le_issued_at_ms l; le_expires_at_ms := expires_at_ms;
       le_state := le_state l |}) lease_id.

(** [ended_at_ms] is never read back. *)
Definition end_lease (lease_id state : string) : M unit :=
  set_lease (fun l =>
    {| le_lease_id := le_lease_id l; le_run_id := le_run_id l; le_step_id := le_step_id l;
       le_worker_id := le_worker_id l; le_attempt := le_attempt l; le_ttl_seconds := le_ttl_seconds l;
       le_issued_at_ms := le_issued_at_ms l; le_expires_at_ms := le_expires_at_ms l;
       le_state := state |}) lease_id.

Definition expired_leases (now_ms : Z) (s : Store) : list LeaseRow :=
  order_by (fun a b => le_expires_at_ms a <=? le_expires_at_ms b)
    (List.filter (fun l => String.eqb (le_state l) "active" && (le_expires_at_ms l <=? now_ms)) (t_leases s)).

Definition active_leases_of_run (run_id : string) (s : Store) : list LeaseRow :=
  List.filter (fun l => String.eqb (le_state l) "active" && String.eqb (le_run_id l) run_id) (t_leases s).

(** *** Remits *)

Definition is_remit (remit_id : string) (r : RemitRecord) : bool := String.eqb (rm_remit_id r) remit_id.

Definition remit_record (r : RemitRow) : RemitRecord :=
  {| rm_remit_id := rmrow_remit_id r; rm_parent_id := rmrow_parent_id r; rm_run_id := rmrow_run_id r;
     rm_bound_run_id := rmrow_bound_run_id r; rm_payload := ser_payload (rmrow_payload r);
     rm_token := rmrow_token r; rm_expires_at_ms := rmrow_expires_at_ms r;
     rm_created_at := rmrow_created_at r |}.

Definition insert_remit (r : RemitRow) : M unit := fun s =>
  if any (is_remit (rmrow_remit_id r)) (t_remits s) then (Err Internal, s)
  else (Ok tt, with_remits (t_remits s ++ [remit_record r]) s).

Definition remit_from_row (r : RemitRecord) : KernelResult RemitRow :=
  let? payload := json_col de_payload (rm_payload r) in
  Ok {| rmrow_remit_id := rm_remit_id r; rmrow_parent_id := rm_parent_id r;
        rmrow_run_id := rm_run_id r; rmrow_bound_run_id := rm_bound_run_id r;
        rmrow_payload := payload; rmrow_token := rm_token r;
        rmrow_expires_at_ms := rm_expires_at_ms r; rmrow_created_at := rm_created_at r |}.

Definition get_remit (remit_id : string) (s : Store) : KernelResult (option RemitRow) :=
  query_opt remit_from_row (find_first (is_remit remit_id) (t_remits s)).

Definition bind_remit (remit_id run_id : string) : M unit := kput (fun s =>
  with_remits (update_all (is_remit remit_id) (fun r =>
    {| rm_remit_id := rm_remit_id r; rm_parent_id := rm_parent_id r; rm_run_id := rm_run_id r;
       rm_bound_run_id := Some run_id; rm_payload := rm_payload r; rm_token := rm_token r;
       rm_expires_at_ms := rm_expires_at_ms r; rm_created_at := rm_created_at r |}) (t_remits s)) s).

(** *** Approvals *)

Definition is_approval (approval_id : string) (a : ApprovalRow) : bool :=
  String.eqb (apr_approval_id a) approval_id.

(** The columns from [decided_at] on are not inserted: they start null. *)
Definition insert_approval (a : ApprovalRow) : M unit := fun s =>
  if any (is_approval (apr_approval_id a)) (t_approvals s) then (Err Internal, s)
  else (Ok tt, with_approvals (t_approvals s ++ [
    {| apr_approval_id := apr_approval_id a; apr_run_id := apr_run_id a; apr_action_id := apr_action_id a;
       apr_step_id := apr_step_id a; apr_action := apr_action a; apr_action_hash := apr_action_hash a;
       apr_idempotency_key := apr_idempotency_key a; apr_approver := apr_approver a;
       apr_original_approver := apr_original_approver a; apr_escalate_to := apr_escalate_to a;
       apr_sla_seconds := apr_sla_seconds a; apr_state := apr_state a;
       apr_requested_at := apr_requested_at a; apr_due_at_ms := apr_due_at_ms a;
       apr_escalations := apr_escalations a; apr_parked_human := apr_parked_human a;
       apr_decided_at := None; apr_actor := None; apr_reason := None; apr_decision := None |}]) s).

Definition get_approval (approval_id : string) (s : Store) : option ApprovalRow :=
  find_first (is_approval approval_id) (t_approvals s).

Definition list_approvals (state : option string) (s : Store) : list ApprovalRow :=
  order_by (fun a b => if String.eqb (apr_requested_at a) (apr_requested_at b)
                       then str_leb (apr_approval_id a) (apr_approval_id b)
                       else str_leb (apr_requested_at a) (apr_requested_at b))
    (List.filter (fun a => opt_matches state (String.eqb (apr_state a))) (t_approvals s)).

Definition overdue_approvals (now_ms : Z) (s : Store) : list ApprovalRow :=
  order_by (fun a b => apr_due_at_ms a <=? apr_due_at_ms b)
    (List.filter (fun a => String.eqb (apr_state a) "pending" && negb (apr_parked_human a)
                           && (apr_due_at_ms a <=? now_ms)) (t_approvals s)).

Definition set_approval (f : ApprovalRow -> ApprovalRow) (approval_id : string) : M unit :=
  kput (fun s => with_approvals (update_all (is_approval approval_id) f (t_approvals s)) s).

Definition escalate_approval (approval_id : string) (approver : Approver) (due_at_ms : Z) : M unit :=
  set_approval (fun a =>
    {| apr_approval_id := apr_approval_id a; apr_run_id := apr_run_id a; apr_action_id := apr_action_id a;
       apr_step_id := apr_step_id a; apr_action := apr_action a; apr_action_hash := apr_action_hash a;
       apr_idempotency_key := apr_idempotency_key a; apr_approver := approver;
       apr_original_approver := apr_original_approver a; apr_escalate_to := apr_escalate_to a;
       apr_sla_seconds := apr_sla_seconds a; apr_state := apr_state a;
       apr_requested_at := apr_requested_at a; apr_due_at_ms := due_at_ms;
       apr_escalations := apr_escalations a + 1; apr_parked_human := apr_parked_human a;
       apr_decided_at := apr_decided_at a; apr_actor := apr_actor a; apr_reason := apr_reason a;
       apr_decision := apr_decision a |}) approval_id.

Definition park_approval (approval_id : string) : M unit :=
  set_approval (fun a =>
    {| apr_approval_id := apr_approval_id a; apr_run_id := apr_run_id a; apr_action_id := apr_action_id a;
       apr_step_id := apr_step_id a; apr_action := apr_action a; apr_action_hash := apr_action_hash a;
       apr_idempotency_key := apr_idempotency_key a; apr_approver := apr_approver a;
       apr_original_approver := apr_original_approver a; apr_escalate_to := apr_escalate_to a;
       apr_sla_seconds := apr_sla_seconds a; apr_state := apr_state a;
       apr_requested_at := apr_requested_at a; apr_due_at_ms := apr_due_at_ms a;
       apr_escalations := apr_escalations a; apr_parked_human := true;
       apr_decided_at := apr_decided_at a; apr_actor := apr_actor a; apr_reason := apr_reason a;
       apr_decision := apr_decision a |}) approval_id.

(** [store::decide_approval] *)
Definition record_decision (approval_id decision : string) (actor : json) (reason decided_at : string)
    : M unit :=
  set_approval (fun a =>
    {| apr_approval_id := apr_approval_id a; apr_run_id := apr_run_id a; apr_action_id := apr_action_id a;
       apr_step_id := apr_step_id a; apr_action := apr_action a; apr_action_hash := apr_action_hash a;
       apr_idempotency_key := apr_idempotency_key a; apr_approver := apr_approver a;
       apr_original_approver := apr_original_approver a; apr_escalate_to := apr_escalate_to a;
       apr_sla_seconds := apr_sla_seconds a; apr_state := decision;
       apr_requested_at := apr_requested_at a; apr_due_at_ms := apr_due_at_ms a;
       apr_escalations := apr_escalations a; apr_parked_human := apr_parked_human a;
       apr_decided_at := Some decided_at; apr_actor := Some actor; apr_reason := Some reason;
       apr_decision := Some decision |}) approval_id.

Definition approved_in_run (run_id : string) (s : Store) : list ApprovalRow :=
  order_by (fun a b => str_leb (apr_requested_at a) (apr_requested_at b))
    (List.filter (fun a => String.eqb (apr_run_id a) run_id && String.eqb (apr_state a) "approved")
      (t_approvals s)).

Definition pending_in_run (run_id : string) (s : Store) : list ApprovalRow :=
  List.filter (fun a => String.eqb (apr_run_id a) run_id && String.eqb (apr_state a) "pending")
    (t_approvals s).

Definition count_pending_approvals (s : Store) : Z :=
  Z.of_nat (length (List.filter (fun a => String.eqb (apr_state a) "pending") (t_approvals s))).

(** *** Bundles *)

Definition is_bundle (bundle_id : string) (b : BundleRow) : bool := String.eqb (bn_bundle_id b) bundle_id.
Definition same_version (name version : string) (b : BundleRow) : bool :=
  String.eqb (bn_name b) name && String.eqb (bn_version b) version.

Definition insert_bundle (b : BundleRow) : M unit := fun s =>
  if any (is_bundle (bn_bundle_id b)) (t_bundles s) || any (same_version (bn_name b) (bn_version b)) (t_bundles s)
  then (Err Internal, s)
  else (Ok tt, with_bundles (t_bundles s ++ [b]) s).

Definition get_bundle (bundle_id : string) (s : Store) : option BundleRow :=
  find_first (is_bundle bundle_id) (t_bundles s).
Definition find_bundle (name version : string) (s : Store) : option BundleRow :=
  find_first (same_version name version) (t_bundles s).
Definition list_bundles (s : Store) : list BundleRow :=
  order_by (fun a b => if String.eqb (bn_created_at a) (bn_created_at b)
                       then str_leb (bn_bundle_id a) (bn_bundle_id b)
                       else str_leb (bn_created_at a) (bn_created_at b)) (t_bundles s).

(** *** Policies: versions are compared as the [i64] the column holds *)

Definition is_policy (name : string) (version : Z) (p : PolicyRow) : bool :=
  String.eqb (po_name p) name && (u64_as_i64 (po_version p) =? u64_as_i64 version).

Definition insert_policy (p : PolicyRow) : M unit := fun s =>
  if any (fun q => String.eqb (po_policy_id q) (po_policy_id p)) (t_policies s)
     || any (is_policy (po_name p) (po_version p)) (t_policies s)
  then (Err Internal, s)
  else (Ok tt, with_policies (t_policies s ++ [p]) s).

Definition get_policy (name : string) (version : Z) (s : Store) : option PolicyRow :=
  find_first (is_policy name version) (t_policies s).

Definition version_leb (a b : PolicyRow) : bool := u64_as_i64 (po_version a) <=? u64_as_i64 (po_version b).

Definition named_policies (name : string) (s : Store) : list PolicyRow :=
  List.filter (fun p => String.eqb (po_name p) name) (t_policies s).

(** [ORDER BY version DESC LIMIT 1] *)
Definition latest_policy (name : string) (s : Store) : option PolicyRow :=
  head (order_by (fun a b => version_leb b a) (named_policies name s)).

Definition policy_versions (name : string) (s : Store) : list PolicyRow :=
  order_by version_leb (named_policies name s).

Definition list_policies (s : Store) : list PolicyRow :=
  order_by (fun a b => if String.eqb (po_name a) (po_name b) then version_leb a b
                       else str_leb (po_name a) (po_name b)) (t_policies s).

(** *** Actions *)

Definition is_action (action_id : string) (a : ActionRow) : bool := String.eqb (an_action_id a) action_id.

Definition upsert_action (a : ActionRow) : M unit := kput (fun s =>
  if any (is_action (an_action_id a)) (t_actions s)
  then with_actions (update_first (is_action (an_action_id a)) (fun old =>
    {| an_action_id := an_action_id old; an_run_id := an_run_id old; an_step_id := an_step_id old;
       an_seq := an_seq a; an_action := an_action old; an_action_hash := an_action_hash old;
       an_idempotency_key := an_idempotency_key old; an_context := an_context old;
       an_decision := an_decision a; an_rule := an_rule a; an_approval_id := an_approval_id old;
       an_created_at := an_created_at old |}) (t_actions s)) s
  else with_actions (t_actions s ++ [a]) s).

Definition actions_since (since : string) (s : Store) : list ActionRow :=
  order_by (fun a b => if String.eqb (an_created_at a) (an_created_at b)
                       then str_leb (an_action_id a) (an_action_id b)
                       else str_leb (an_created_at a) (an_created_at b))
    (List.filter (fun a => str_leb since (an_created_at a)) (t_actions s)).

(** [store::run_status] *)
Definition run_status (run_id : string) (s : Store) : option RunStatus :=
  r ← find_first (is_run run_id) (t_runs s); run_status_parse (rr_state r).
