(* ===== verification/Kernel.v ===== *)
(** * The kernel

    The operations of [kernos-core/src/kernel.rs]: each takes the store, appends events to
    the runs it touches, and rewrites the materialised rows from the folded state, in one
    transaction.

    What an operation reads from outside the store is an argument: the [Kernel] (its key,
    the trusted keys, the directory, the configuration) and the [Call] (the clock, the random
    bytes of each identifier, in order, and the jitter of a retry).  The
    counters an operation bumps are in [Metrics]; log lines are left out. *)

From stdpp Require Import gmap.
From S2P Require Import Prelude Text Ids F64 Json Policy Lexer Parser PolicyTools Canonical Time.
From S2P Require Import Errors Keys Remit Payloads Events Fold RunJson Template Schema Bundle Store.
From Stdlib Require Import Ascii.

Local Open Scope string_scope.
Local Open Scope list_scope.
Local Open Scope Z_scope.

Record KernelConfig := {
  lease_ttl_default : Z; lease_ttl_min : Z; lease_ttl_max : Z; budget_soft_ratio : f64;
  max_attempts_nondeterministic : Z; max_attempts_deterministic : Z; retry_base_ms : Z;
  retry_cap_ms : Z }.

(** [KernelConfig::default()] *)
Definition default_config : KernelConfig :=
  {| lease_ttl_default := 30; lease_ttl_min := 1; lease_ttl_max := 300;
     budget_soft_ratio := f64_of_ratio 8 1; max_attempts_nondeterministic := 5;
     max_attempts_deterministic := 3; retry_base_ms := 500; retry_cap_ms := 30000 |}.

(** The fields of [Kernel] the operations read; [k_trusted] is the pinned keys followed by
    those of the trusted directory, as [trusted_keys] lists them. *)
Record Kernel `{Crypto} := {
  k_key : KeyPair; k_trusted : list PublicKey; k_directory : Directory; k_config : KernelConfig }.

(** [c_now] is the first reading of the clock, [c_later] the one [store_remit] makes. *)
Record Call := { c_now : Z; c_later : Z; c_random : nat -> list Z; c_jitter : Z }.

Definition internal : KernelError := api 500 "internal".
Definition invalid : KernelError := unprocessable "invalid_request".
Definition field_detail (e : KernelError) (field : string) : KernelError :=
  with_details e (obj [("field", JStr field)]).

Record StartRunRequest := {
  sq_bundle_id : string; sq_workflow : string; sq_input : json; sq_remit_id : string;
  sq_requested_by : option json }.
Record RunStarted := { started_run_id : string; started_state : RunStatus }.
Record LeaseRequest := { lq_worker_id : string; lq_kinds : list string; lq_ttl_seconds : option Z }.
Record LeaseGrant := {
  lg_lease_id : string; lg_run_id : string; lg_step : string; lg_attempt : Z; lg_expires_at : string;
  lg_heartbeat_seconds : Z; lg_step_def : json; lg_context : json }.
Record Usage := { us_tokens : Z; us_usd : f64 }.
Record CompleteResult := { cr_run_state : RunStatus; cr_next_step : option string }.
Record FailResult := { fr_outcome : string; fr_delay_ms : option Z }.
Record ActionOutcome := {
  ao_action_id : string; ao_decision : DecisionKind; ao_rule : string; ao_approval_id : option string }.
Record ApprovalOutcome := { out_run_id : string; out_run_state : RunStatus }.
Inductive ExternalAuth := AuthLease (lease_id : string) | AuthRemit (token : string) | AuthNone.
Record Appended := { app_seq : Z; app_hash : string }.
Record EventPage := { page_events : list Event; page_next_seq : option Z }.
Record BundleApplied := { ba_created : bool; ba_bundle_id : string; ba_name : string; ba_version : string }.
Record PolicyApplied := { pa_created : bool; pa_policy_id : string; pa_name : string; pa_version : Z }.
Record RemitIssued := {
  ri_remit_id : string; ri_parent_id : option string; ri_token : string; ri_expires_at : string }.

(** ** Contexts *)

(** [obj.entry(key).or_insert_with(|| json!([]))] *)
Definition or_insert (key : string) (v : json) (m : list (string * json)) : list (string * json) :=
  if map_contains key m then m else map_insert key v m.

Definition ser_remit_view (r : RemitPayload) : json :=
  obj [("autonomy", JStr (autonomy_as_str (autonomy r))); ("grants", ser_strings (grants r));
       ("tools", ser_strings (tools r)); ("scopes", ser_strings (scopes r))].

Definition bundle_view (s : RunState) : json :=
  obj [("name", JStr (br_name (rs_bundle s))); ("version", JStr (br_version (rs_bundle s)))].

Definition run_context (s : RunState) (remit : RemitPayload) : json :=
  obj [("id", JStr (rs_run_id s)); ("department", ser_option JStr (rs_department s));
       ("bundle", bundle_view s); ("workflow", JStr (rs_workflow s));
       ("remit", ser_remit_view remit); ("requested_by", rs_requested_by s)].

Definition policy_context (s : RunState) (remit : RemitPayload) (action : json) : json :=
  let action := match action with
                | JObj m => JObj (or_insert "paths" (JArr []) (or_insert "data_classes" (JArr []) m))
                | other => other
                end in
  obj [("action", action); ("run", run_context s remit)].

(** The outputs of the steps that have one. *)
Definition step_outputs (s : RunState) : json :=
  obj (omap (fun st => match st_output st with
                       | Some output => Some (st_id st, obj [("output", output)])
                       | None => None end) (rs_steps s)).

Definition template_context (s : RunState) : json :=
  obj [("input", rs_input s); ("steps", step_outputs s);
       ("run", obj [("id", JStr (rs_run_id s)); ("workflow", JStr (rs_workflow s));
                    ("department", ser_option JStr (rs_department s));
                    ("requested_by", rs_requested_by s)])].

(** [serde_json::to_value(event)] *)
Definition ser_event (e : Event) : json :=
  obj [("schema", JStr (ev_schema e)); ("run_id", JStr (ev_run_id e)); ("seq", json_u64 (ev_seq e));
       ("ts", JStr (ev_ts e)); ("kind", JStr (Kind.as_str (ev_kind e))); ("actor", ser_actor (ev_actor e));
       ("payload", ev_payload e); ("prev_hash", JStr (ev_prev_hash e)); ("hash", JStr (ev_hash e))].

(** [comp_<id>], or the first of [comp_<id>_2], [comp_<id>_3], ... that is no step.  One more
    candidate than there are steps is enough. *)
Fixpoint comp_id_from (fuel : nat) (n : Z) (base : string) (s : RunState) : string :=
  let candidate := base +:+ "_" +:+ dec n in
  match fuel with
  | O => candidate
  | S fuel =>
      match find_step candidate s with
      | None => candidate
      | Some _ => comp_id_from fuel (n + 1) base s
      end
  end.

Definition compensation_step_id (s : RunState) (for_step : string) : string :=
  let base := "comp_" +:+ for_step in
  match find_step base s with
  | None => base
  | Some _ => comp_id_from (length (rs_steps s)) 2 base s
  end.

(** ** Policies of a run *)

Section Policies.
Context `{UnicodeTables}.

Definition parse_policy_row (row : PolicyRow) : KernelResult LoadedPolicy :=
  match load (po_name row) (dec (po_version row)) (po_source row) with
  | Ok p => Ok p
  | Err _ => Err internal
  end.

Definition policy_invalid (e : ParseError) : KernelError :=
  with_details (unprocessable "policy_invalid")
    (obj [("line", json_u64 (pe_line e)); ("column", json_u64 (pe_column e))]).

Definition load_named (s : Store) (name : string) : KernelResult (LoadedPolicy * PolicyRef) :=
  let? row := ok_or (with_details (unprocessable "policy_not_found") (obj [("policy", JStr name)]))
                (latest_policy name s) in
  let? p := parse_policy_row row in
  Ok (p, {| pr_name := po_name row; pr_version := po_version row |}).

Definition load_policy_set (names : list string) (s : Store)
    : KernelResult (list LoadedPolicy * list PolicyRef) :=
  let? l := rmapM (load_named s) names in
  Ok (map fst l, map snd l).

Definition load_ref (s : Store) (r : PolicyRef) : KernelResult LoadedPolicy :=
  let? row := ok_or (unprocessable "policy_not_found") (get_policy (pr_name r) (pr_version r) s) in
  parse_policy_row row.

Definition load_policy_refs (refs : list PolicyRef) (s : Store) : KernelResult (list LoadedPolicy) :=
  rmapM (load_ref s) refs.
End Policies.

(** ** A run inside a transaction *)

Record RunTx := { rt_ts : string; rt_run : RunRow; rt_defs : list (string * json) }.

Definition rt_state (rt : RunTx) : RunState := row_state (rt_run rt).

Definition set_row (row : RunRow) (rt : RunTx) : RunTx :=
  {| rt_ts := rt_ts rt; rt_run := row; rt_defs := rt_defs rt |}.

Definition add_def (id : string) (def : json) (rt : RunTx) : RunTx :=
  {| rt_ts := rt_ts rt; rt_run := rt_run rt; rt_defs := map_insert id def (rt_defs rt) |}.

(** [RunTx::load] *)
Definition load_run (now_ms : Z) (run_id : string) : M RunTx :=
  let! row := kread (require_run run_id) in
  kret {| rt_ts := format_ms now_ms; rt_run := row; rt_defs := [] |}.

(** [RunTx::persist] *)
Definition persist (rt : RunTx) : M unit :=
  let row := {| row_state := rt_state rt; row_child_remit_id := row_child_remit_id (rt_run rt);
                row_created_at := row_created_at (rt_run rt); row_updated_at := rt_ts rt;
                row_last_hash := row_last_hash (rt_run rt) |} in
  let! _ := write_run row in
  let run_id := rs_run_id (rt_state rt) in
  kfor (rs_steps (rt_state rt)) (fun step => write_step run_id step (map_get (st_id step) (rt_defs rt))).

Section RunTx.
Context `{FloatFormat, Sha256}.

Definition append_raw (rt : RunTx) (actor : Actor) (kind : EventKind) (payload : json)
    : M (Event * RunTx) :=
  let s := rt_state rt in
  let seq := u64_add (rs_last_seq s) 1 in
  let event := build (rs_run_id s) seq (rt_ts rt) kind actor payload (row_last_hash (rt_run rt)) in
  let! _ := insert_event event in
  let! s' := klift (match apply s event with Ok s' => Ok s' | Err _ => Err internal end) in
  kret (event, set_row {| row_state := s'; row_child_remit_id := row_child_remit_id (rt_run rt);
                          row_created_at := row_created_at (rt_run rt);
                          row_updated_at := row_updated_at (rt_run rt);
                          row_last_hash := ev_hash event |} rt).

(** [append] for a typed payload; most callers drop the event. *)
Definition append_event (rt : RunTx) (actor : Actor) (p : payload) : M (Event * RunTx) :=
  append_raw rt actor (payload_kind p) (payload_value p).

Definition append (rt : RunTx) (actor : Actor) (p : payload) : M RunTx :=
  let! (_, rt) := append_event rt actor p in kret rt.

Definition park (rt : RunTx) (reason detail : string) : M RunTx :=
  append rt Act.kernel (PRunParked {| rp_reason := reason; rp_detail := detail |}).

Definition schedule_payload (st : StepState) : payload :=
  PStepScheduled {| ss_step := st_id st; ss_index := st_index st; ss_kind := st_kind st |}.
End RunTx.

(** ** Requests *)

Definition validate_pattern (field p : string) : KernelResult unit :=
  let body := match strip_suffix_char "*" p with Some b => b | None => p end in
  if is_empty p || contains_byte "*" body || any is_whitespace (chars p)
  then Err (field_detail invalid field) else Ok tt.

Definition validate_patterns (patterns : list string) (field : string) : KernelResult unit :=
  rfor patterns (validate_pattern field).

Definition validate_requested_by (value : json) : KernelResult unit :=
  match jget_str "id" value with
  | Some s => if is_empty s then Err (field_detail invalid "requested_by.id") else Ok tt
  | None => Err (field_detail invalid "requested_by.id")
  end.

Definition parse_approver_query (text : string) : Approver :=
  match split_once ":" text with
  | Some (kind, value) =>
      if String.eqb kind "role" then approver_role value
      else if String.eqb kind "user" then approver_user value
      else approver_user text
  | None => approver_user text
  end.

Definition approver_matches (wanted actual : Approver) : bool :=
  match ap_kind wanted, ap_kind actual with
  | TRole, TRole | TUser, TUser => String.eqb (ap_value wanted) (ap_value actual)
  | _, _ => false
  end.

(** [now_ms + seconds as i64 * 1000] *)
Definition deadline (now_ms seconds : Z) : Z :=
  i64_wrap (now_ms + i64_wrap (u64_as_i64 seconds * 1000)).

(** [actor.get("id").and_then(Value::as_str).unwrap_or("operator")] *)
Definition operator_id (actor : json) : string :=
  match jget_str "id" actor with Some id => id | None => "operator" end.

(** [clamp] panics when the bounds cross; the bounds here never do. *)
Definition clamp (v lo hi : Z) : Z := Z.min (Z.max v lo) hi.

Definition lease_ttl (c : KernelConfig) (requested : option Z) : Z :=
  clamp (match requested with Some t => t | None => lease_ttl_default c end)
    (lease_ttl_min c) (Z.max (lease_ttl_max c) (lease_ttl_min c)).

(** [gen_range(0..=half)] is the jitter, brought into its range. *)
Definition backoff_ms (c : KernelConfig) (jitter failed_attempts : Z) : Z :=
  let exponent := Z.min (Z.max (failed_attempts - 1) 0) 30 in
  let full := Z.min (u64_saturating_mul (retry_base_ms c) (Z.shiftl 1 exponent)) (retry_cap_ms c) in
  let half := full / 2 in
  half + jitter mod (half + 1).

(** ** Operations *)

(** Rust's [Display] of an [f64], which only the detail text of a budget park uses. *)
Class F64Display := { display_f64 : f64 -> string }.

Section Operations.
Context `{FloatFormat, Sha256, JsonPrint, Crypto, JsonText, Regex, UnicodeTables, F64Display}.
Variable k : Kernel.

Definition resolve_key (key_id : string) : option PublicKey :=
  if String.eqb key_id (kp_key_id (k_key k)) then Some (public (k_key k))
  else find_first (fun p => String.eqb (pk_key_id p) key_id) (k_trusted k).

Definition all_keys : list PublicKey := public (k_key k) :: k_trusted k.

Definition new (c : Call) (i : nat) (prefix : string) : string := new_id prefix (c_now c) (c_random c i).

Definition seconds (ms : Z) : Z := ms / 1000.

(** *** Bundles and policies *)

Definition apply_bundle (c : Call) (bundle : json) (signature : BundleSignature) : M BundleApplied :=
  let! _ := klift (match verify_bundle_signature bundle signature all_keys with
                   | Ok _ => Ok tt
                   | Err _ => Err (unprocessable "bundle_signature_invalid") end) in
  let! parsed := klift (match bundle_new bundle with
                        | Ok b => Ok b
                        | Err e => Err (with_details (unprocessable "bundle_invalid")
                                     (obj [("path", JStr (be_path e))])) end) in
  let sha := sha256_hex (canonical_bytes bundle) in
  let! s := kget in
  match find_bundle (bundle_name parsed) (bundle_version parsed) s with
  | Some existing =>
      if String.eqb (bn_sha256 existing) sha
      then kret {| ba_created := false; ba_bundle_id := bn_bundle_id existing; ba_name := bn_name existing;
                   ba_version := bn_version existing |}
      else kfail (conflict "bundle_version_exists")
  | None =>
      let row := {| bn_bundle_id := new c 0 "bnd"; bn_name := bundle_name parsed;
                    bn_version := bundle_version parsed; bn_department := bundle_department parsed;
                    bn_sha256 := sha; bn_bundle := bundle; bn_signature := ser_BundleSignature signature;
                    bn_created_at := format_ms (c_now c) |} in
      let! _ := insert_bundle row in
      kret {| ba_created := true; ba_bundle_id := bn_bundle_id row; ba_name := bn_name row;
              ba_version := bn_version row |}
  end.

Definition apply_policy (c : Call) (name : string) (version : Z) (source : string) : M PolicyApplied :=
  let! _ := kguard (negb (is_empty name)) (field_detail invalid "name") in
  let! _ := klift (match parse source with
                   | Ok _ => Ok tt
                   | Err e => Err (policy_invalid e) end) in
  let! s := kget in
  match get_policy name version s with
  | Some existing =>
      if String.eqb (po_source existing) source
      then kret {| pa_created := false; pa_policy_id := po_policy_id existing; pa_name := po_name existing;
                   pa_version := po_version existing |}
      else kfail (conflict "policy_version_exists")
  | None =>
      let row := {| po_policy_id := new c 0 "pol"; po_name := name; po_version := version;
                    po_source := source; po_created_at := format_ms (c_now c) |} in
      let! _ := insert_policy row in
      kret {| pa_created := true; pa_policy_id := po_policy_id row; pa_name := po_name row;
              pa_version := po_version row |}
  end.

(** *** Remits *)

Definition store_remit (c : Call) (payload : RemitPayload) (run_id : option string) : M RemitIssued :=
  let token := encode_token payload (k_key k) in
  let row := {| rmrow_remit_id := rid payload; rmrow_parent_id := parent payload;
                rmrow_run_id := run_id; rmrow_bound_run_id := None; rmrow_payload := payload;
                rmrow_token := token; rmrow_expires_at_ms := i64_wrap (exp payload * 1000);
                rmrow_created_at := format_ms (c_later c) |} in
  let! _ := insert_remit row in
  kret {| ri_remit_id := rmrow_remit_id row; ri_parent_id := rmrow_parent_id row;
          ri_token := rmrow_token row; ri_expires_at := format_ms (rmrow_expires_at_ms row) |}.

Definition issue_remit (c : Call) (request : IssueRequest) : M RemitIssued :=
  let! _ := klift (validate_patterns (iq_tools request) "tools") in
  let! _ := klift (validate_patterns (iq_scopes request) "scopes") in
  let! _ := klift (match iq_requested_by request with
                   | Some rb => validate_requested_by rb | None => Ok tt end) in
  let ttl := match iq_ttl_seconds request with Some t => t | None => DEFAULT_TTL_SECONDS end in
  let! _ := kguard (negb (ttl =? 0)) (field_detail invalid "ttl_seconds") in
  let now_s := seconds (c_now c) in
  store_remit c
    {| rid := new c 0 "rem"; parent := None; run := None; iss := kp_key_id (k_key k);
       iat := now_s; nbf := now_s; exp := i64_saturating_add now_s (u64_as_i64 ttl);
       tools := iq_tools request; scopes := iq_scopes request; grants := iq_grants request;
       spend := iq_spend request;
       autonomy := match iq_autonomy request with Some a => a | None => Observe end;
       policy_set := iq_policy_set request; requested_by := iq_requested_by request |} None.

Definition derive_remit (c : Call) (remit_id : string) (request : DeriveRequest) : M RemitIssued :=
  let! _ := klift (match dq_tools request with Some t => validate_patterns t "tools" | None => Ok tt end) in
  let! _ := klift (match dq_scopes request with Some t => validate_patterns t "scopes" | None => Ok tt end) in
  let! o := kread (get_remit remit_id) in
  let! par := ksome o (not_found "remit_not_found") in
  let now_s := seconds (c_now c) in
  let! _ := kguard (negb (exp (rmrow_payload par) <=? now_s)) (unprocessable "remit_expired") in
  let! n := klift (match narrow (rmrow_payload par) request now_s with
                   | Ok n => Ok n
                   | Err e => Err (field_detail (unprocessable "remit_widens") (we_field e)) end) in
  store_remit c
    {| rid := new c 0 "rem"; parent := Some (rmrow_remit_id par); run := None;
       iss := kp_key_id (k_key k); iat := now_s; nbf := n_nbf n; exp := n_exp n; tools := n_tools n;
       scopes := n_scopes n; grants := n_grants n; spend := n_spend n; autonomy := n_autonomy n;
       policy_set := n_policy_set n; requested_by := requested_by (rmrow_payload par) |} None.

Definition verify_remit_token (c : Call) (token : string) : result TokenError RemitPayload :=
  verify_token token resolve_key (seconds (c_now c)).

(** *** Starting a run *)

(** What [start_run] checks before it writes: bundle row, remit row, requester. *)
Definition check_start (c : Call) (request : StartRunRequest) : M (BundleRow * RemitRow * json) :=
  let! s := kget in
  let! bundle_row := ksome (get_bundle (sq_bundle_id request) s) (not_found "bundle_not_found") in
  let bundle := from_stored (bn_bundle bundle_row) in
  let! _ := kguard (match bundle_workflow (sq_workflow request) bundle with Some _ => true | None => false end)
              (not_found "workflow_not_found") in
  let! _ := klift (match validate (input_schema (sq_workflow request) bundle) (sq_input request) with
                   | Ok _ => Ok tt
                   | Err v => Err (with_details (unprocessable "input_invalid")
                                     (obj [("path", JStr (sv_path v))])) end) in
  let! o := kread (get_remit (sq_remit_id request)) in
  let! remit := ksome o (not_found "remit_not_found") in
  let! _ := kguard (negb (exp (rmrow_payload remit) <=? seconds (c_now c))) (unprocessable "remit_expired") in
  let! _ := kguard (match rmrow_bound_run_id remit, run (rmrow_payload remit) with
                    | None, None => true | _, _ => false end) (conflict "remit_bound") in
  let! _ := klift (rfor (bundle_policies bundle) (fun policy =>
              if str_in policy (policy_set (rmrow_payload remit)) then Ok tt
              else Err (with_details (unprocessable "remit_policy_set_missing")
                          (obj [("policy", JStr policy)])))) in
  let! _ := kread (load_policy_set (policy_set (rmrow_payload remit))) in
  let! rb := klift (match sq_requested_by request with
                    | Some rb => let? _ := validate_requested_by rb in Ok rb
                    | None => ok_or (field_detail invalid "requested_by") (requested_by (rmrow_payload remit))
                    end) in
  kret (bundle_row, remit, rb).

(** The remit a run hands to its workers. *)
Definition child_remit (c : Call) (remit : RemitRow) (run_id : string) (rb : json) : RemitPayload :=
  let p := rmrow_payload remit in
  {| rid := new c 1 "rem"; parent := Some (rmrow_remit_id remit); run := Some run_id;
     iss := kp_key_id (k_key k); iat := seconds (c_now c); nbf := Z.max (seconds (c_now c)) (nbf p);
     exp := exp p; tools := tools p; scopes := scopes p; grants := grants p; spend := spend p;
     autonomy := autonomy p; policy_set := policy_set p; requested_by := Some rb |}.

Definition created_payload (request : StartRunRequest) (bundle_row : BundleRow) (remit : RemitRow)
    (rb : json) : RunCreated :=
  let bundle := from_stored (bn_bundle bundle_row) in
  {| rc_bundle_id := bn_bundle_id bundle_row; rc_bundle_name := bundle_name bundle;
     rc_bundle_version := bundle_version bundle; rc_workflow := sq_workflow request;
     rc_input := sq_input request; rc_remit_id := rmrow_remit_id remit; rc_requested_by := rb;
     rc_budget := {| bg_tokens := sp_tokens (spend (rmrow_payload remit));
                     bg_usd := sp_usd (spend (rmrow_payload remit));
                     bg_soft_ratio := budget_soft_ratio (k_config k) |};
     rc_department := bundle_department bundle |}.

(** One turn of the loop over the workflow's steps: the index counts up. *)
Definition schedule_step (acc : RunTx * Z) (step : json) : M (RunTx * Z) :=
  let (rt, index) := acc in
  let id := str_or_empty (jget_str "id" step) in
  let kind := str_or_empty (jget_str "kind" step) in
  let! rt := append (add_def id step rt) Act.kernel
               (PStepScheduled {| ss_step := id; ss_index := index mod 2 ^ 32; ss_kind := kind |}) in
  kret (rt, index + 1).

(** The first event and the row that starts from it. *)
Definition create_run (c : Call) (run_id child_id : string) (created : RunCreated) : M RunTx :=
  let ts := format_ms (c_now c) in
  let first := build run_id 1 ts Kind.RunCreated Act.kernel (ser_RunCreated created) ZERO_HASH in
  let! _ := insert_event first in
  let! state := klift (match from_created first with Ok s => Ok s | Err _ => Err internal end) in
  kret {| rt_ts := ts;
          rt_run := {| row_state := state; row_child_remit_id := child_id; row_created_at := ts;
                       row_updated_at := ts; row_last_hash := ev_hash first |};
          rt_defs := [] |}.

Definition start_run (c : Call) (request : StartRunRequest) : M RunStarted := transaction (
  let! (bundle_row, remit, rb) := check_start c request in
  let run_id := new c 0 "run" in
  let child := child_remit c remit run_id rb in
  let! _ := insert_remit
    {| rmrow_remit_id := rid child; rmrow_parent_id := parent child; rmrow_run_id := Some run_id;
       rmrow_bound_run_id := None; rmrow_payload := child; rmrow_token := encode_token child (k_key k);
       rmrow_expires_at_ms := i64_wrap (exp child * 1000); rmrow_created_at := format_ms (c_now c) |} in
  let! _ := bind_remit (rmrow_remit_id remit) run_id in
  let! rt := create_run c run_id (rid child) (created_payload request bundle_row remit rb) in
  let! (rt, _) := kfold (bundle_steps (sq_workflow request) (from_stored (bn_bundle bundle_row)))
                    (rt, 0) schedule_step in
  let! _ := persist rt in
  kret {| started_run_id := run_id; started_state := rs_state (rt_state rt) |}).

(** *** Reading runs *)

Definition run_events (run_id : string) (from_seq limit : Z) : M EventPage :=
  let! row := kread (require_run run_id) in
  let! events := kread (events_from run_id (Z.max from_seq 1) (clamp limit 1 5000)) in
  kret {| page_events := events;
          page_next_seq := match head (rev events) with
                           | Some e => if ev_seq e <? rs_last_seq (row_state row)
                                       then Some (u64_add (ev_seq e) 1) else None
                           | None => None
                           end |}.

(** *** External events *)

Definition lease_permits (run_id : string) (payload : json) (now_ms : Z) (l : LeaseRow) : bool :=
  String.eqb (le_run_id l) run_id && String.eqb (le_state l) "active"
  && (now_ms <? le_expires_at_ms l)
  && match jget_str "step" payload with Some s => String.eqb s (le_step_id l) | None => true end.

Definition remit_permits (rt : RunTx) (run_id : string) (r : RemitPayload) : bool :=
  match run r with Some x => String.eqb x run_id | None => false end
  || String.eqb (rid r) (rs_remit_id (rt_state rt))
  || String.eqb (rid r) (row_child_remit_id (rt_run rt)).

Definition not_permitted : KernelError := forbidden "event_not_permitted".

Definition authorise (c : Call) (run_id : string) (payload : json) (auth : ExternalAuth) (rt : RunTx)
    : M unit :=
  let! s := kget in
  match auth with
  | AuthLease lease_id =>
      kguard (match get_lease lease_id s with
              | Some l => lease_permits run_id payload (c_now c) l | None => false end) not_permitted
  | AuthRemit token =>
      match verify_remit_token c token with
      | Ok r => kguard (remit_permits rt run_id r) not_permitted
      | Err e => kfail (with_details not_permitted (obj [("reason", JStr (token_error_reason e))]))
      end
  | AuthNone => kfail not_permitted
  end.

Definition external_actor (a : Actor) : bool :=
  match actor_kind a with AWorker | AGateway | ASystem | AUser => true | _ => false end.

Definition post_external_event (c : Call) (run_id kind : string) (payload actor : json)
    (auth : ExternalAuth) : M Appended :=
  let! kind := ksome (Kind.parse kind) not_permitted in
  let! _ := kguard (Kind.is_external kind) not_permitted in
  let! actor := ksome (de_actor actor) (field_detail invalid "actor") in
  let! _ := kguard (external_actor actor) not_permitted in
  let! payload := ksome (truncate_payload payload) (api 413 "payload_too_large") in
  transaction (
    let! rt := load_run (c_now c) run_id in
    let! _ := authorise c run_id payload auth rt in
    let! (event, rt) := append_raw rt actor kind payload in
    let! _ := persist rt in
    kret {| app_seq := ev_seq event; app_hash := ev_hash event |}).

(** *** Abandoning and resuming *)

Record Unwind := {
  uw_rt : RunTx; uw_next_index : Z; uw_scheduled : Z; uw_failed : option ErrorInfo }.

Definition max_index (steps : list StepState) : Z :=
  fold_right Z.max 0 (map (fun s => u32_add (st_index s) 1) steps).

(** The definition of a compensation step. *)
Definition compensation_def (run_id comp_id tool for_step : string) (args def : json) : json :=
  obj [("id", JStr comp_id); ("kind", JStr "compensation"); ("tool", JStr tool); ("args", args);
       ("for_step", JStr for_step); ("idempotency_key", JStr ("comp:" +:+ run_id +:+ ":" +:+ for_step));
       ("timeout_seconds", match jget "timeout_seconds" def with
                           | Some t => t | None => json_u64 DEFAULT_TIMEOUT_SECONDS end)].

(** The compensation a step declares: its tool and argument template. *)
Definition declared_compensation (def : json) : option (string * json) :=
  comp ← jget "compensation" def;
  if is_object comp then
    Some (str_or_empty (jget_str "tool" comp), match jget "args" comp with Some a => a | None => JObj [] end)
  else None.

(** One completed step, last first: schedule its compensation, or record that its arguments
    cannot be resolved. [state] is the state right after the abandonment. *)
Definition unwind_step (run_id : string) (state : RunState) (u : Unwind) (step : StepState) : M Unwind :=
  if any (fun co => String.eqb (co_for_step co) (st_id step) && negb (String.eqb (co_state co) "failed"))
       (rs_compensations state) then kret u
  else
    let! row := kread (get_step run_id (st_id step)) in
    match row with
    | None => kret u
    | Some row =>
        match declared_compensation (srow_def row) with
        | None => kret u
        | Some (tool, template) =>
            match resolve template (template_context state) with
            | Err e =>
                let error := {| ei_code := te_code e;
                                ei_message := "compensation for " +:+ st_id step
                                  +:+ " could not be resolved: " +:+ te_path e |} in
                let! rt := append (uw_rt u) Act.kernel
                  (PCompensationFailed {| cf_step := "comp_" +:+ st_id step; cf_for_step := st_id step;
                                          cf_error := error |}) in
                kret {| uw_rt := rt; uw_next_index := uw_next_index u; uw_scheduled := uw_scheduled u;
                        uw_failed := Some error |}
            | Ok args =>
                let comp_id := compensation_step_id state (st_id step) in
                let! rt := append (uw_rt u) Act.kernel
                  (PCompensationScheduled {| cs_step := comp_id; cs_for_step := st_id step;
                                             cs_tool := tool; cs_args := args |}) in
                let rt := add_def comp_id
                  (compensation_def run_id comp_id tool (st_id step) args (srow_def row)) rt in
                let! rt := append rt Act.kernel
                  (PStepScheduled {| ss_step := comp_id; ss_index := uw_next_index u;
                                     ss_kind := "compensation" |}) in
                kret {| uw_rt := rt; uw_next_index := u32_add (uw_next_index u) 1;
                        uw_scheduled := u64_add (uw_scheduled u) 1; uw_failed := uw_failed u |}
            end
        end
    end.

Definition abandonable (s : RunState) : bool :=
  match rs_state s with RRunning | RParked | RFailed => true | _ => false end.

Definition abandon (c : Call) (run_id reason : string) (actor : json) : M Z := transaction (
  let! rt := load_run (c_now c) run_id in
  let! _ := kguard (abandonable (rt_state rt)) (conflict "run_not_abandonable") in
  let! _ := kguard (negb (unwind_pending (rt_state rt))) (conflict "run_not_abandonable") in
  let! s := kget in
  let! _ := kfor (active_leases_of_run run_id s) (fun l => end_lease (le_lease_id l) "released") in
  let! s := kget in
  let! _ := kfor (pending_in_run run_id s) (fun a =>
              record_decision (apr_approval_id a) "cancelled" JNull "run abandoned" (format_ms (c_now c))) in
  let! rt := append rt (Act.user (operator_id actor)) (PRunAbandoned {| ra_reason := reason; ra_actor := actor |}) in
  let state := rt_state rt in
  let completed := List.filter (step_is SCompleted) (workflow_steps state) in
  let! u := kfold (rev completed)
              {| uw_rt := rt; uw_next_index := max_index (rs_steps state); uw_scheduled := 0;
                 uw_failed := None |} (unwind_step run_id state) in
  let! rt := match uw_failed u with
             | Some error => append (uw_rt u) Act.kernel
                               (PRunFailed {| rf_error := error; rf_needs_human := true |})
             | None => kret (uw_rt u)
             end in
  let! _ := persist rt in
  kret (uw_scheduled u)).

Definition resumable_reasons : list string := ["human"; "connector_quarantined"; "quarantine"; "refusal"].

Definition resume (c : Call) (run_id : string) (actor : json) : M RunStatus := transaction (
  let! rt := load_run (c_now c) run_id in
  let! _ := kguard (is_status RParked (rt_state rt)) (conflict "run_not_parked") in
  let reason := str_or_empty (rs_park_reason (rt_state rt)) in
  let! _ := kguard (str_contains reason resumable_reasons) (conflict "run_not_resumable") in
  let! s := kget in
  let! _ := kguard (match pending_in_run run_id s with [] => true | _ => false end)
              (conflict "approval_pending") in
  let! rt := append rt (Act.user (operator_id actor))
               (PRunResumed {| rr_reason := "operator"; rr_actor := Some actor |}) in
  let stuck := List.filter (fun s => step_is SQuarantined s || step_is SFailed s)
                 (workflow_steps (rt_state rt)) in
  let! rt := kfold stuck rt (fun rt s => append rt Act.kernel (schedule_payload s)) in
  let! _ := persist rt in
  kret (rs_state (rt_state rt))).

(** *** Leases *)

Definition all_kinds : list string := ["model"; "tool"; "action"; "compensation"].

Definition lease_context (state : RunState) (child : RemitRow) (bundle : Bundle)
    (approved : list string) (prior : list json) : json :=
  obj [("input", rs_input state); ("steps", step_outputs state);
       ("run", obj [("id", JStr (rs_run_id state)); ("bundle", bundle_view state);
                    ("workflow", JStr (rs_workflow state)); ("requested_by", rs_requested_by state);
                    ("department", ser_option JStr (rs_department state))]);
       ("remit_token", JStr (rmrow_token child)); ("remit", ser_remit_view (rmrow_payload child));
       ("prompts", bundle_prompts bundle); ("mock", bundle_mock bundle); ("tools", bundle_tools bundle);
       ("pacing", JBool (bu_soft_hit (rs_budget state))); ("approved_actions", ser_strings approved);
       ("prior_events", JArr prior)].

(** Granting the step [pick_runnable] chose. *)
Definition grant (c : Call) (request : LeaseRequest) (ttl : Z) (run_id step_id : string) : M LeaseGrant :=
  let now_ms := c_now c in
  let! rt := load_run now_ms run_id in
  let! step := ksome (find_step step_id (rt_state rt)) internal in
  let! o := kread (get_step run_id step_id) in
  let! step_row := ksome o internal in
  let! s := kget in
  let! bundle_row := ksome (get_bundle (br_id (rs_bundle (rt_state rt))) s) internal in
  let! o := kread (get_remit (row_child_remit_id (rt_run rt))) in
  let! child := ksome o internal in
  let lease_id := new c 0 "lse" in
  let attempt := u32_add (st_attempts step) 1 in
  let expires_at_ms := deadline now_ms ttl in
  let! rt := append rt Act.kernel
    (PStepLeased {| sl_step := step_id; sl_lease_id := lease_id; sl_worker_id := lq_worker_id request;
                    sl_attempt := attempt; sl_expires_at := format_ms expires_at_ms |}) in
  let! _ := insert_lease
    {| le_lease_id := lease_id; le_run_id := run_id; le_step_id := step_id;
       le_worker_id := lq_worker_id request; le_attempt := attempt; le_ttl_seconds := ttl;
       le_issued_at_ms := now_ms; le_expires_at_ms := expires_at_ms; le_state := "active" |} in
  let! s := kget in
  let approved := map apr_action_id (approved_in_run run_id s) in
  let! prior := kread (step_events run_id step_id [Kind.ToolCalled; Kind.ToolResult]) in
  let! _ := persist rt in
  kret {| lg_lease_id := lease_id; lg_run_id := run_id; lg_step := step_id; lg_attempt := attempt;
          lg_expires_at := format_ms expires_at_ms; lg_heartbeat_seconds := Z.max (ttl / 3) 1;
          lg_step_def := srow_def step_row;
          lg_context := lease_context (rt_state rt) child (from_stored (bn_bundle bundle_row)) approved
                          (map ser_event prior) |}.

Definition lease (c : Call) (request : LeaseRequest) : M (option LeaseGrant) :=
  let! _ := kguard (negb (is_empty (trim (lq_worker_id request)))) (field_detail invalid "worker_id") in
  let kinds := match lq_kinds request with [] => all_kinds | l => l end in
  let ttl := lease_ttl (k_config k) (lq_ttl_seconds request) in
  transaction (
    let! s := kget in
    match pick_runnable kinds (c_now c) s with
    | None => kret None
    | Some (run_id, step_id) => let! g := grant c request ttl run_id step_id in kret (Some g)
    end).

(** Whether the state still has the step under this lease. *)
Definition lease_held (s : RunState) (l : LeaseRow) : bool :=
  match find_step (le_step_id l) s with
  | Some st => match st_lease st with Some i => String.eqb (li_lease_id i) (le_lease_id l) | None => false end
  | None => false
  end.

Definition expire_lease (now_ms : Z) (l : LeaseRow) : M unit :=
  let! rt := load_run now_ms (le_run_id l) in
  let! _ := if lease_held (rt_state rt) l then
              let! rt := append rt (Act.system "lease-sweeper")
                (PStepLeaseExpired {| sle_step := le_step_id l; sle_lease_id := le_lease_id l;
                                      sle_worker_id := le_worker_id l |}) in
              persist rt
            else kret tt in
  end_lease (le_lease_id l) "expired".

Definition lease_expired : KernelError := gone "lease_expired".

Definition live_lease (now_ms : Z) (lease_id : string) : M LeaseRow :=
  let! s := kget in
  let! l := ksome (get_lease lease_id s) (not_found "lease_not_found") in
  if String.eqb (le_state l) "active" && (le_expires_at_ms l <=? now_ms) then
    let! _ := expire_lease now_ms l in kfail lease_expired
  else
    let! _ := kguard (String.eqb (le_state l) "active") lease_expired in
    kret l.

(** [match first { Ok(x) => .., Err(e) => { tx.commit()?; return Err(e) } }]: a failure of
    [first] is committed, a failure of the rest rolls everything back. *)
Definition commit_failure {A B} (first : M A) (rest : A -> M B) : M B := fun s =>
  match first s with
  | (Err e, s1) => (Err e, s1)
  | (Ok a, s1) =>
      match rest a s1 with
      | (Ok b, s2) => (Ok b, s2)
      | (Err e, _) => (Err e, s)
      end
  end.

Definition heartbeat (c : Call) (lease_id : string) : M string :=
  commit_failure (live_lease (c_now c) lease_id) (fun l =>
    let expires_at_ms := deadline (c_now c) (le_ttl_seconds l) in
    let! _ := set_lease_expiry lease_id expires_at_ms in
    kret (format_ms expires_at_ms)).

Definition step_held (s : RunState) (l : LeaseRow) : bool :=
  match find_step (le_step_id l) s with
  | Some st => step_is SLeased st
               && match st_lease st with
                  | Some i => String.eqb (li_lease_id i) (le_lease_id l) | None => false end
  | None => false
  end.

Definition leased_run (now_ms : Z) (lease_id : string) : M (LeaseRow * RunTx) :=
  let! l := live_lease now_ms lease_id in
  let! rt := load_run now_ms (le_run_id l) in
  if step_held (rt_state rt) l then kret (l, rt)
  else
    let! _ := end_lease lease_id "released" in
    kfail lease_expired.

(** *** Completing a step *)

Definition ratio_of (used ceiling : f64) : f64 := f64_div used ceiling.

(** [ceiling.filter(> 0).map(|c| used / c).filter(|r| r >= soft_ratio)] *)
Definition soft_usd (b : BudgetState) (cumulative_usd : f64) : option f64 :=
  c ← bu_ceiling_usd b;
  if f64_gtb c f64_zero then
    let r := ratio_of cumulative_usd c in if f64_geb r (bu_soft_ratio b) then Some r else None
  else None.

Definition soft_tokens (b : BudgetState) (cumulative_tokens : Z) : option f64 :=
  c ← bu_ceiling_tokens b;
  if 0 <? c then
    let r := ratio_of (f64_of_Z cumulative_tokens) (f64_of_Z c) in
    if f64_geb r (bu_soft_ratio b) then Some r else None
  else None.

(** [x.map(|_| v)] and [x.and(y)] *)
Definition when_some {A B} (x : option A) (y : option B) : option B :=
  match x with Some _ => y | None => None end.

Definition soft_threshold (b : BudgetState) (cumulative_tokens : Z) (cumulative_usd : f64)
    : option BudgetSoftThreshold :=
  let usd_soft := soft_usd b cumulative_usd in
  let tokens_soft := soft_tokens b cumulative_tokens in
  if bu_soft_hit b then None
  else match usd_soft, tokens_soft with
  | None, None => None
  | _, _ => Some {| bs_cumulative_usd := when_some usd_soft (Some cumulative_usd);
                    bs_ceiling_usd := when_some usd_soft (bu_ceiling_usd b);
                    bs_cumulative_tokens := when_some tokens_soft (Some cumulative_tokens);
                    bs_ceiling_tokens := when_some tokens_soft (bu_ceiling_tokens b);
                    bs_ratio := match usd_soft, tokens_soft with
                                | Some r, _ => r | None, Some r => r | None, None => f64_zero end |}
  end.

Definition over_ceiling (b : BudgetState) (cumulative_tokens : Z) (cumulative_usd : f64) : bool :=
  match bu_ceiling_usd b with Some c => f64_gtb cumulative_usd c | None => false end
  || match bu_ceiling_tokens b with Some c => c <? cumulative_tokens | None => false end.

(** Recording reported usage; the flag says whether a ceiling is passed. *)
Definition record_usage (rt : RunTx) (step_id : string) (usage : option Usage) : M (RunTx * bool) :=
  match usage with
  | None => kret (rt, false)
  | Some u =>
      let budget := rs_budget (rt_state rt) in
      let cumulative_tokens := u64_add (bu_used_tokens budget) (us_tokens u) in
      let cumulative_usd := f64_add (bu_used_usd budget) (us_usd u) in
      let! rt := append rt Act.kernel
        (PUsageRecorded {| ur_step := step_id; ur_tokens := us_tokens u; ur_usd := us_usd u;
                           ur_cumulative_tokens := cumulative_tokens;
                           ur_cumulative_usd := cumulative_usd |}) in
      let! rt := match soft_threshold budget cumulative_tokens cumulative_usd with
                 | Some t => append rt Act.kernel (PBudgetSoftThreshold t)
                 | None => kret rt
                 end in
      kret (rt, over_ceiling budget cumulative_tokens cumulative_usd)
  end.

(** The step a compensation step undoes, from its stored definition. *)
Definition for_step_of (run_id step_id : string) : M string :=
  let! row := kread (get_step run_id step_id) in
  kret (str_or_empty (r ← row; jget_str "for_step" (srow_def r))).

(** What follows the completion: the compensation's outcome, the end of the run, or a park
    over budget. *)
Definition after_completion (rt : RunTx) (run_id : string) (step : StepState) (stored_output : json)
    (exceeded : bool) : M RunTx :=
  if is_compensation step then
    let! for_step := for_step_of run_id (st_id step) in
    append rt Act.kernel (PCompensationCompleted {| cc_step := st_id step; cc_for_step := for_step;
                                                    cc_result := stored_output |})
  else if negb (any (fun s => negb (step_is SCompleted s)) (workflow_steps (rt_state rt))) then
    append rt Act.kernel (PRunCompleted {| rco_output := stored_output |})
  else if exceeded && negb (bu_exceeded (rs_budget (rt_state rt))) then
    let b := rs_budget (rt_state rt) in
    let! rt := append rt Act.kernel
      (PBudgetExceeded {| be_cumulative_usd := when_some (bu_ceiling_usd b) (Some (bu_used_usd b));
                          be_ceiling_usd := bu_ceiling_usd b;
                          be_cumulative_tokens := when_some (bu_ceiling_tokens b) (Some (bu_used_tokens b));
                          be_ceiling_tokens := bu_ceiling_tokens b |}) in
    park rt "budget" ("spend " +:+ display_f64 (bu_used_usd b) +:+ " exceeds the ceiling")
  else kret rt.

Definition complete (c : Call) (lease_id : string) (output : json) (usage : option Usage)
    : M CompleteResult :=
  commit_failure (leased_run (c_now c) lease_id) (fun pair =>
    let (l, rt) := pair : LeaseRow * RunTx in
    let! step := ksome (find_step (le_step_id l) (rt_state rt)) internal in
    let! payload := ksome (truncate_payload (ser_StepCompleted
      {| sc_step := st_id step; sc_lease_id := le_lease_id l; sc_attempt := le_attempt l;
         sc_output := output |})) (api 413 "payload_too_large") in
    let stored_output := match jget "output" payload with Some o => o | None => JNull end in
    let! (_, rt) := append_raw rt (Act.worker (le_worker_id l)) Kind.StepCompleted payload in
    let! _ := end_lease lease_id "completed" in
    let! (rt, exceeded) := record_usage rt (st_id step) usage in
    let! rt := after_completion rt (le_run_id l) step stored_output exceeded in
    let! _ := persist rt in
    kret {| cr_run_state := rs_state (rt_state rt);
            cr_next_step := match next_step (rt_state rt) with
                            | Some s => Some (st_id s) | None => None end |}).

(** *** Failing a step *)

(** The last failure of a step allowed: quarantine, and for a compensation the run fails. *)
Definition quarantine (rt : RunTx) (run_id : string) (step : StepState) (error : ErrorInfo)
    (deterministic : bool) : M RunTx :=
  let attempts := st_attempts step in
  let! rt := append rt Act.kernel
    (PStepQuarantined {| sq_step := st_id step;
       sq_reason := dec attempts +:+ " " +:+ (if deterministic then "deterministic" else "non-deterministic")
                    +:+ " failures, last: " +:+ ei_code error;
       sq_attempts := attempts |}) in
  if is_compensation step then
    let! for_step := for_step_of run_id (st_id step) in
    let! rt := append rt Act.kernel (PCompensationFailed {| cf_step := st_id step; cf_for_step := for_step;
                                                            cf_error := error |}) in
    append rt Act.kernel
      (PRunFailed {| rf_error := {| ei_code := "compensation_failed";
                                    ei_message := "compensation " +:+ st_id step +:+ " failed: "
                                                  +:+ ei_message error |};
                     rf_needs_human := true |})
  else
    park rt (if String.eqb (ei_code error) "connector_quarantined" then "connector_quarantined"
             else "quarantine")
      ("step " +:+ st_id step +:+ " quarantined after " +:+ dec attempts +:+ " attempts").

Definition attempt_limit (deterministic : bool) : Z :=
  if deterministic then max_attempts_deterministic (k_config k)
  else max_attempts_nondeterministic (k_config k).

Definition after_failure (c : Call) (rt : RunTx) (run_id : string) (step : StepState)
    (error : ErrorInfo) (deterministic : bool) : M (RunTx * FailResult) :=
  let attempts := st_attempts step in
  if String.eqb (ei_code error) "model_refused" && negb (is_compensation step) then
    let! rt := park rt "refusal" ("step " +:+ st_id step +:+ " refused: " +:+ ei_message error) in
    kret (rt, {| fr_outcome := "parked"; fr_delay_ms := None |})
  else if attempt_limit deterministic <=? attempts then
    let! rt := quarantine rt run_id step error deterministic in
    kret (rt, {| fr_outcome := "quarantined"; fr_delay_ms := None |})
  else
    let delay_ms := if deterministic then 0 else backoff_ms (k_config k) (c_jitter c) attempts in
    let! rt := append rt Act.kernel
      (PStepRetryScheduled {| sr_step := st_id step; sr_attempt := u32_add attempts 1;
                              sr_delay_ms := delay_ms |}) in
    kret (rt, {| fr_outcome := "retry_scheduled"; fr_delay_ms := Some delay_ms |}).

Definition fail (c : Call) (lease_id : string) (error : ErrorInfo) (deterministic : bool) : M FailResult :=
  commit_failure (leased_run (c_now c) lease_id) (fun pair =>
    let (l, rt) := pair : LeaseRow * RunTx in
    let! step := ksome (find_step (le_step_id l) (rt_state rt)) internal in
    let! rt := append rt (Act.worker (le_worker_id l))
      (PStepFailed {| sf_step := st_id step; sf_lease_id := Some (le_lease_id l);
                      sf_attempt := le_attempt l; sf_error := error;
                      sf_deterministic := deterministic |}) in
    let! _ := end_lease lease_id "failed" in
    let! (rt, result) := after_failure c rt (le_run_id l) step error deterministic in
    let! _ := persist rt in
    kret result).

(** *** Actions *)

(** Whether an approved action is this one: by idempotency key when both have one, else by
    content. *)
Definition same_action (idempotency_key : option string) (action_hash : string) (a : ApprovalRow) : bool :=
  match idempotency_key, apr_idempotency_key a with
  | Some key, Some ak => String.eqb key ak
  | _, _ => String.eqb (apr_action_hash a) action_hash
  end.

Record Proposal := {
  pp_lease : LeaseRow; pp_action : json; pp_hash : string; pp_key : option string; pp_context : json }.

Definition action_row (c : Call) (p : Proposal) (action_id : string) (seq : Z) (decision rule : string)
    (approval_id : option string) : ActionRow :=
  {| an_action_id := action_id; an_run_id := le_run_id (pp_lease p); an_step_id := le_step_id (pp_lease p);
     an_seq := seq; an_action := pp_action p; an_action_hash := pp_hash p;
     an_idempotency_key := pp_key p;
     an_context := match jget "run" (pp_context p) with Some r => r | None => JNull end;
     an_decision := decision; an_rule := rule; an_approval_id := approval_id;
     an_created_at := format_ms (c_now c) |}.

Definition propose (rt : RunTx) (p : Proposal) (action_id : string) : M RunTx :=
  append rt (Act.worker (le_worker_id (pp_lease p)))
    (PActionProposed {| ap_action_id := action_id; ap_step := le_step_id (pp_lease p);
                        ap_action := pp_action p |}).

(** An action a human already approved goes through under its approval. *)
Definition reuse_approval (c : Call) (rt : RunTx) (p : Proposal) (approval : ApprovalRow) : M ActionOutcome :=
  let rule := "approved:" +:+ apr_approval_id approval in
  let! rt := propose rt p (apr_action_id approval) in
  let! (decided, rt) := append_event rt (Act.policy "approval")
    (PPolicyDecided {| pd_action_id := apr_action_id approval; pd_decision := "allow"; pd_rule := rule;
       pd_policy := None; pd_policy_version := JNull; pd_approver := JNull; pd_sla_seconds := None;
       pd_escalate_to := JNull; pd_policy_set := None |}) in
  let! _ := upsert_action (action_row c p (apr_action_id approval) (ev_seq decided) "allow" rule
                             (Some (apr_approval_id approval))) in
  let! _ := persist rt in
  kret {| ao_action_id := apr_action_id approval; ao_decision := DAllow; ao_rule := rule;
          ao_approval_id := Some (apr_approval_id approval) |}.

(** [decision.policy_version.parse::<u64>()] as JSON. *)
Definition version_json (v : option string) : json :=
  match (t ← v; parse_u64 t) with Some n => json_u64 n | None => JNull end.

Definition decided_payload (d : Decision) (action_id : string) (refs : list PolicyRef) : payload :=
  PPolicyDecided {| pd_action_id := action_id; pd_decision := decision_as_str (decision d);
    pd_rule := d_rule d; pd_policy := d_policy d; pd_policy_version := version_json (d_policy_version d);
    pd_approver := ser_option ser_approver (d_approver d); pd_sla_seconds := d_sla_seconds d;
    pd_escalate_to := ser_option ser_escalate_to (d_escalate_to d); pd_policy_set := Some refs |}.

(** Asking a human: the run parks and the lease is given back. *)
Definition request_approval (c : Call) (rt : RunTx) (p : Proposal) (d : Decision) (action_id : string)
    : M (RunTx * string) :=
  let l := pp_lease p in
  let approver := match d_approver d with Some a => a | None => admin_fallback end in
  let sla := match d_sla_seconds d with Some s => s | None => DEFAULT_SLA_SECONDS end in
  let escalate_to := match d_escalate_to d with Some e => e | None => ReportingLine end in
  let id := new c 1 "apr" in
  let due_at_ms := deadline (c_now c) sla in
  let! rt := append rt Act.kernel
    (PApprovalRequested {| ar_approval_id := id; ar_action_id := action_id;
       ar_approver := ser_approver approver; ar_sla_seconds := sla;
       ar_escalate_to := ser_escalate_to escalate_to; ar_due_at := format_ms due_at_ms |}) in
  let! rt := append rt Act.kernel
    (PStepWaitingApproval {| sw_step := le_step_id l; sw_action_id := action_id; sw_approval_id := id |}) in
  let! rt := park rt "approval" ("approval " +:+ id +:+ " pending for step " +:+ le_step_id l) in
  let! _ := end_lease (le_lease_id l) "released" in
  let! _ := insert_approval
    {| apr_approval_id := id; apr_run_id := le_run_id l; apr_action_id := action_id;
       apr_step_id := le_step_id l; apr_action := pp_action p; apr_action_hash := pp_hash p;
       apr_idempotency_key := pp_key p; apr_approver := approver; apr_original_approver := approver;
       apr_escalate_to := ser_escalate_to escalate_to; apr_sla_seconds := sla; apr_state := "pending";
       apr_requested_at := format_ms (c_now c); apr_due_at_ms := due_at_ms; apr_escalations := 0;
       apr_parked_human := false; apr_decided_at := None; apr_actor := None; apr_reason := None;
       apr_decision := None |} in
  kret (rt, id).

Definition decide_action (c : Call) (rt : RunTx) (p : Proposal) (d : Decision) (refs : list PolicyRef)
    : M ActionOutcome :=
  let action_id := new c 0 "act" in
  let! rt := propose rt p action_id in
  let! (decided, rt) := append_event rt
    (Act.policy (match d_policy d with Some n => n | None => "default" end))
    (decided_payload d action_id refs) in
  let! (rt, approval_id) :=
    match decision d with
    | DApprovalRequired => let! (rt, id) := request_approval c rt p d action_id in kret (rt, Some id)
    | _ => kret (rt, None)
    end in
  let! _ := upsert_action (action_row c p action_id (ev_seq decided) (decision_as_str (decision d))
                             (d_rule d) approval_id) in
  let! _ := persist rt in
  kret {| ao_action_id := action_id; ao_decision := decision d; ao_rule := d_rule d;
          ao_approval_id := approval_id |}.

Definition propose_action (c : Call) (lease_id : string) (action : json) : M ActionOutcome :=
  let! _ := kguard (is_object action && match jget "kind" action with
                                        | Some v => is_string v | None => false end)
              (field_detail invalid "action.kind") in
  commit_failure (leased_run (c_now c) lease_id) (fun pair =>
    let (l, rt) := pair : LeaseRow * RunTx in
    let! o := kread (get_remit (row_child_remit_id (rt_run rt))) in
    let! child := ksome o internal in
    let context := policy_context (rt_state rt) (rmrow_payload child) action in
    let p := {| pp_lease := l; pp_action := action; pp_hash := hash_value action;
                pp_key := jget_str "idempotency_key" action; pp_context := context |} in
    let! s := kget in
    match find_first (same_action (pp_key p) (pp_hash p)) (approved_in_run (le_run_id l) s) with
    | Some approval => reuse_approval c rt p approval
    | None =>
        let! (policies, refs) := kread (load_policy_set (policy_set (rmrow_payload child))) in
        decide_action c rt p (evaluate policies context) refs
    end).

(** *** Approvals *)

Definition decide_accepts (a : ApprovalRow) (actor : DecisionActor) : bool :=
  accepts (apr_approver a) (da_id actor) (da_role actor)
  || accepts (apr_original_approver a) (da_id actor) (da_role actor).

(** After an approval: the run resumes and the step is scheduled again. *)
Definition after_approval (rt : RunTx) (step : option StepState) : M RunTx :=
  let! rt := if is_status RParked (rt_state rt)
             then append rt Act.kernel (PRunResumed {| rr_reason := "approval"; rr_actor := None |})
             else kret rt in
  match step with
  | Some st => append rt Act.kernel (schedule_payload st)
  | None => kret rt
  end.

(** After a rejection: the step and the run fail. *)
Definition after_rejection (rt : RunTx) (step : option StepState) (actor_id reason : string) : M RunTx :=
  let error := {| ei_code := "action_rejected"; ei_message := actor_id +:+ " rejected: " +:+ reason |} in
  let! rt := match step with
             | Some st => append rt Act.kernel
                 (PStepFailed {| sf_step := st_id st; sf_lease_id := None; sf_attempt := st_attempts st;
                                 sf_error := error; sf_deterministic := true |})
             | None => kret rt
             end in
  append rt Act.kernel (PRunFailed {| rf_error := error; rf_needs_human := false |}).

Definition decide_approval (c : Call) (approval_id decision : string) (actor : DecisionActor)
    (reason : string) : M ApprovalOutcome :=
  let! _ := kguard (String.eqb decision "approved" || String.eqb decision "rejected")
              (field_detail invalid "decision") in
  let! _ := kguard (negb (char_count (trim reason) <? 3)) (field_detail (unprocessable "reason_required") "reason") in
  let! _ := kguard (negb (is_empty (da_id actor))) (field_detail invalid "actor.id") in
  transaction (
    let! s := kget in
    let! approval := ksome (get_approval approval_id s) (not_found "approval_not_found") in
    let! _ := kguard (String.eqb (apr_state approval) "pending") (conflict "already_decided") in
    let! _ := kguard (decide_accepts approval actor) (forbidden "not_the_approver") in
    let! rt := load_run (c_now c) (apr_run_id approval) in
    let! _ := record_decision approval_id decision (ser_DecisionActor actor) reason (format_ms (c_now c)) in
    let! rt := append rt (Act.user (da_id actor))
      (PApprovalDecided {| ad_approval_id := approval_id; ad_action_id := apr_action_id approval;
                           ad_decision := decision; ad_actor := actor; ad_reason := reason |}) in
    let step := find_step (apr_step_id approval) (rt_state rt) in
    let! rt := if String.eqb decision "approved" then after_approval rt step
               else after_rejection rt step (da_id actor) reason in
    let! _ := persist rt in
    kret {| out_run_id := apr_run_id approval; out_run_state := rs_state (rt_state rt) |}).

(** *** Sweepers *)

Definition sweep_leases (c : Call) : M Z := transaction (
  let! s := kget in
  let expired := expired_leases (c_now c) s in
  let! _ := kfor expired (expire_lease (c_now c)) in
  kret (Z.of_nat (length expired))).

(** One overdue approval: escalate it the first time, park the run the second. *)
Definition sweep_approval (now_ms : Z) (a : ApprovalRow) : M unit :=
  let! rt := load_run now_ms (apr_run_id a) in
  let! rt :=
    if apr_escalations a =? 0 then
      let target := match de_escalate_to (apr_escalate_to a) with Some t => t | None => ReportingLine end in
      let to := resolve_escalation (k_directory k) target (apr_approver a) in
      let due_at_ms := deadline now_ms (apr_sla_seconds a) in
      let! rt := append rt (Act.system "approval-sweeper")
        (PApprovalEscalated {| ae_approval_id := apr_approval_id a; ae_from := ser_approver (apr_approver a);
           ae_to := ser_approver to; ae_reason := "sla_expired"; ae_due_at := Some (format_ms due_at_ms) |}) in
      let! _ := escalate_approval (apr_approval_id a) to due_at_ms in
      kret rt
    else
      let! rt := append rt (Act.system "approval-sweeper")
        (PRunParked {| rp_reason := "human";
           rp_detail := "approval " +:+ apr_approval_id a +:+ " unanswered after escalation to "
                        +:+ to_query_string (apr_approver a) |}) in
      let! _ := park_approval (apr_approval_id a) in
      kret rt in
  persist rt.

Definition sweep_approvals (c : Call) : M Z := transaction (
  let! s := kget in
  let overdue := overdue_approvals (c_now c) s in
  let! _ := kfor overdue (sweep_approval (c_now c)) in
  kret (Z.of_nat (length overdue))).

End Operations.

(** ** Requests, and the stores they lead to *)

(** A request to the kernel that can write. *)
Inductive Op :=
| OApplyBundle (bundle : json) (signature : BundleSignature)
| OApplyPolicy (name : string) (version : Z) (source : string)
| OIssueRemit (request : IssueRequest)
| ODeriveRemit (remit_id : string) (request : DeriveRequest)
| OStartRun (request : StartRunRequest)
| OPostEvent (run_id kind : string) (payload actor : json) (auth : ExternalAuth)
| OAbandon (run_id reason : string) (actor : json)
| OResume (run_id : string) (actor : json)
| OLease (request : LeaseRequest)
| OHeartbeat (lease_id : string)
| OComplete (lease_id : string) (output : json) (usage : option Usage)
| OFail (lease_id : string) (error : ErrorInfo) (deterministic : bool)
| OPropose (lease_id : string) (action : json)
| ODecide (approval_id decision : string) (actor : DecisionActor) (reason : string)
| OSweepLeases
| OSweepApprovals.

Section Reachable.
Context `{FloatFormat, Sha256, JsonPrint, Crypto, JsonText, Regex, UnicodeTables, F64Display}.

(** The store after a request, whatever the answer is. *)
Definition after {A} (m : M A) (s : Store) : Store := snd (m s).

Definition exec (k : Kernel) (c : Call) (op : Op) : Store -> Store :=
  match op with
  | OApplyBundle bundle signature => after (apply_bundle k c bundle signature)
  | OApplyPolicy name version source => after (apply_policy c name version source)
  | OIssueRemit request => after (issue_remit k c request)
  | ODeriveRemit id request => after (derive_remit k c id request)
  | OStartRun request => after (start_run k c request)
  | OPostEvent run_id kind payload actor auth => after (post_external_event k c run_id kind payload actor auth)
  | OAbandon run_id reason actor => after (abandon c run_id reason actor)
  | OResume run_id actor => after (resume c run_id actor)
  | OLease request => after (lease k c request)
  | OHeartbeat id => after (heartbeat c id)
  | OComplete id output usage => after (complete c id output usage)
  | OFail id error deterministic => after (fail k c id error deterministic)
  | OPropose id action => after (propose_action c id action)
  | ODecide id decision actor reason => after (decide_approval c id decision actor reason)
  | OSweepLeases => after (sweep_leases c)
  | OSweepApprovals => after (sweep_approvals k c)
  end.

(** What any sequence of requests leads to, at any times, whatever random bytes are drawn,
    the kernel restarted under another key or configuration in between. *)
Inductive reachable : Store -> Prop :=
| reach_empty : reachable empty_store
| reach_exec k c op s : reachable s -> reachable (exec k c op s).
End Reachable.
