(* ===== verification/Reads.v ===== *)
(** * Reading the kernel

    The operations of [kernos-core/src/kernel.rs] that answer from the store and change
    nothing: bundles, policies and policy tests, remits, runs, approvals, actions and health.
    That following their cursors loses and repeats nothing is shown in [Paging]. *)

From stdpp Require Import gmap.
From S2P Require Import Prelude Text Ids F64 Json Policy Lexer Parser PolicyTools Canonical Time.
From S2P Require Import Errors Keys Remit Payloads Events Fold RunJson Template Schema Bundle Store.
From S2P Require Import Kernel.
From Stdlib Require Import Ascii.

Local Open Scope string_scope.
Local Open Scope list_scope.
Local Open Scope Z_scope.

Record HealthRuns := { hr_running : Z; hr_parked : Z }.
Record HealthReport := { h_ok : bool; h_version : string; h_uptime_s : Z; h_runs : HealthRuns }.

Inductive PolicySelector :=
| SelStored (name : string) (version : Z)
| SelInline (source : string).

Record RunPage := { rp_runs : list RunState; rp_next : option string }.

(** [store::runs_by_state]: [SELECT state, COUNT( * ) .. GROUP BY state] into a map. *)
Definition runs_by_state (s : Store) : gmap string Z :=
  foldr (fun r m => <[rr_state r := default 0 (m !! rr_state r) + 1]> m) ∅ (t_runs s).

(** ** Health and keys *)

Definition health (version : string) (started_at_ms now_ms : Z) (s : Store) : HealthReport :=
  let by_state := runs_by_state s in
  {| h_ok := true; h_version := version; h_uptime_s := Z.max (i64_wrap (now_ms - started_at_ms)) 0 / 1000;
     h_runs := {| hr_running := default 0 (by_state !! "running");
                  hr_parked := default 0 (by_state !! "parked") |} |}.

(** ** Bundles and policies *)

Module Read.
Definition list_bundles (s : Store) : list json :=
  map (fun r => obj [("bundle_id", JStr (bn_bundle_id r)); ("name", JStr (bn_name r));
                     ("version", JStr (bn_version r)); ("department", ser_option JStr (bn_department r));
                     ("workflows", ser_strings (workflow_names (from_stored (bn_bundle r))));
                     ("created_at", JStr (bn_created_at r))]) (Store.list_bundles s).

Definition get_bundle (bundle_id : string) (s : Store) : KernelResult json :=
  let? row := ok_or (not_found "bundle_not_found") (Store.get_bundle bundle_id s) in
  Ok (obj [("bundle_id", JStr (bn_bundle_id row)); ("name", JStr (bn_name row));
           ("version", JStr (bn_version row)); ("department", ser_option JStr (bn_department row));
           ("bundle", bn_bundle row); ("signature", bn_signature row);
           ("created_at", JStr (bn_created_at row))]).

Definition find_bundle (name version : string) (s : Store) : option string :=
  bn_bundle_id <$> Store.find_bundle name version s.

Definition policy_summary (row : PolicyRow) : json :=
  obj [("policy_id", JStr (po_policy_id row)); ("name", JStr (po_name row));
       ("version", json_u64 (po_version row)); ("created_at", JStr (po_created_at row))].

Definition list_policies (s : Store) : list json := map policy_summary (Store.list_policies s).

Definition policy_versions (name : string) (s : Store) : KernelResult (list json) :=
  match Store.policy_versions name s with
  | [] => Err (not_found "policy_not_found")
  | rows => Ok (map policy_summary rows)
  end.

Definition policy_source (name : string) (version : Z) (s : Store) : KernelResult json :=
  let? row := ok_or (not_found "policy_not_found") (get_policy name version s) in
  Ok (obj [("policy_id", JStr (po_policy_id row)); ("name", JStr (po_name row));
           ("version", json_u64 (po_version row)); ("source", JStr (po_source row));
           ("created_at", JStr (po_created_at row))]).

Definition ser_flip (f : Flip) : json :=
  obj [("index", json_u64 (Z.of_nat (f_index f))); ("a", JStr (decision_as_str (f_a f)));
       ("b", JStr (decision_as_str (f_b f))); ("rule_a", JStr (f_rule_a f)); ("rule_b", JStr (f_rule_b f))].

Section Select.
Context `{UnicodeTables}.

Definition select_policy (selector : PolicySelector) (s : Store) : KernelResult LoadedPolicy :=
  match selector with
  | SelStored name version =>
      let? row := ok_or (not_found "policy_not_found") (get_policy name version s) in
      parse_policy_row row
  | SelInline source =>
      match parse source with
      | Ok policy => Ok {| lp_name := default "draft" (policy_name policy); lp_version := "draft";
                           lp_policy := policy |}
      | Err e => Err (policy_invalid e)
      end
  end.

Definition test_policies (a b : PolicySelector) (corpus : list json) (s : Store) : KernelResult json :=
  let? pa := select_policy a s in
  let? pb := select_policy b s in
  Ok (obj [("cases", json_u64 (Z.of_nat (length corpus)));
           ("flips", JArr (map ser_flip (test_corpus [pa] [pb] corpus)))]).
End Select.

(** ** Remits, runs, actions and approvals *)

(** The payload with the identifiers inserted over it. *)
Definition get_remit (remit_id : string) (s : Store) : KernelResult json :=
  let? o := Store.get_remit remit_id s in
  let? row := ok_or (not_found "remit_not_found") o in
  Ok (match ser_payload (rmrow_payload row) with
      | JObj m =>
          JObj (map_insert "created_at" (JStr (rmrow_created_at row))
               (map_insert "expires_at" (JStr (format_ms (rmrow_expires_at_ms row)))
               (map_insert "run_id" (ser_option JStr (match rmrow_run_id row with
                                                      | Some r => Some r | None => rmrow_bound_run_id row end))
               (map_insert "parent_id" (ser_option JStr (rmrow_parent_id row))
               (map_insert "remit_id" (JStr (rmrow_remit_id row)) m)))))
      | other => other
      end).

Definition list_runs (filter : RunFilter) (s : Store) : KernelResult RunPage :=
  let? rows := Store.list_runs filter s in
  Ok {| rp_runs := map row_state rows;
        rp_next := if Z.max (rf_limit filter) 1 <=? Z.of_nat (length rows)
                   then (fun r => rs_run_id (row_state r)) <$> head (rev rows) else None |}.

Definition get_run (run_id : string) (s : Store) : KernelResult RunState :=
  let? row := require_run run_id s in Ok (row_state row).

Definition all_events (run_id : string) (s : Store) : KernelResult (list Event) :=
  let? _ := require_run run_id s in Store.all_events run_id s.

Definition export_actions (since_ms : Z) (s : Store) : list json :=
  map (fun r => obj [("action", an_action r); ("run", an_context r); ("decision", JStr (an_decision r));
                     ("rule", JStr (an_rule r)); ("action_id", JStr (an_action_id r));
                     ("run_id", JStr (an_run_id r))]) (actions_since (format_ms since_ms) s).

Definition approval_json (a : ApprovalRow) : json :=
  obj [("approval_id", JStr (apr_approval_id a)); ("run_id", JStr (apr_run_id a));
       ("action_id", JStr (apr_action_id a)); ("step", JStr (apr_step_id a)); ("action", apr_action a);
       ("approver", ser_approver (apr_approver a)); ("original_approver", ser_approver (apr_original_approver a));
       ("escalate_to", apr_escalate_to a); ("sla_seconds", json_u64 (apr_sla_seconds a));
       ("state", JStr (apr_state a)); ("requested_at", JStr (apr_requested_at a));
       ("due_at", JStr (format_ms (apr_due_at_ms a))); ("escalations", json_u64 (apr_escalations a));
       ("decision", ser_option JStr (apr_decision a)); ("actor", default JNull (apr_actor a));
       ("reason", ser_option JStr (apr_reason a)); ("decided_at", ser_option JStr (apr_decided_at a))].

Definition approval_for (wanted : option Approver) (a : ApprovalRow) : bool :=
  match wanted with
  | None => true
  | Some w => approver_matches w (apr_approver a) || approver_matches w (apr_original_approver a)
  end.

Definition list_approvals (state approver : option string) (s : Store) : list json :=
  map approval_json (List.filter (approval_for (parse_approver_query <$> approver)) (Store.list_approvals state s)).

Definition get_approval (approval_id : string) (s : Store) : KernelResult json :=
  let? row := ok_or (not_found "approval_not_found") (Store.get_approval approval_id s) in
  Ok (approval_json row).

(** [peek_token] decodes without verifying. *)
Definition peek_token `{Crypto, JsonText} (token : string) : result TokenError RemitPayload :=
  let? d := decode_token token in Ok (dt_payload d).
End Read.
