(* ===== verification/Scenario.v ===== *)
(** * A run of the kernel

    Concrete functions in place of the parameters (number formatting, hashing, signatures,
    regular expressions, Unicode tables) and one run taken through the kernel from an empty
    store: a policy, a bundle, a remit, a start, leases, an action that needs a human, the
    approval, completions, and another run that loses a lease and retries a step.  The stores
    on the way are where the theorems on operations are applied. *)

From stdpp Require Import gmap.
From S2P Require Import Prelude Text Ids F64 Json Policy Lexer Parser ParserSpec PolicyTools.
From S2P Require Import Canonical Time Errors Keys Remit RemitToken Payloads Events Fold RunJson.
From S2P Require Import Template Schema Bundle BundleSpec Store Kernel.
From Stdlib Require Import Ascii.

Local Open Scope string_scope.
Local Open Scope list_scope.
Local Open Scope Z_scope.

(** ** Parameters *)

(** A rolling checksum, in decimal. *)
Fixpoint checksum (acc : Z) (s : string) : Z :=
  match s with
  | EmptyString => acc
  | String a s => checksum ((acc * 31 + byte_of a) mod 2 ^ 61) s
  end.

(** Instances for those who import them. *)
Module Demo.
#[export] Instance demo_float : FloatFormat := mantissa_format.
#[export] Instance demo_sha : Sha256 := {| sha256_hex := fun s => dec (checksum 7 s) |}.
#[export] Instance demo_text : JsonPrint := {| json_text := canonical_json |}.
#[export] Instance demo_crypto : Crypto := Concrete.crypto.
#[export] Instance demo_json : JsonText := example_json_text.
#[export] Instance demo_regex : Regex := {| regex_new := fun _ => None |}.
#[export] Instance demo_tables : UnicodeTables := ascii_tables.
#[export] Instance demo_display : F64Display := {| display_f64 := fmt_mantissa |}.
End Demo.

Import Demo.

(** ** The kernel and its requests *)

Definition demo_kernel : Kernel :=
  {| k_key := example_key; k_trusted := []; k_directory := directory_empty; k_config := default_config |}.

(** The [n]-th request, one second after the one before. *)
Definition demo_call (n : Z) : Call :=
  {| c_now := 1788523200000 + n * 1000; c_later := 1788523200000 + n * 1000;
     c_random := fun i => [Z.of_nat i; n; 0; 0; 0; 0; 0; 0; 0; 0]; c_jitter := 0 |}.

Definition demo_id (n : Z) (i : nat) (prefix : string) : string := new (demo_call n) i prefix.

Definition demo_issue : IssueRequest :=
  {| iq_tools := ["http.*"; "ledger.post"]; iq_scopes := []; iq_grants := [];
     iq_spend := {| sp_tokens := Some 1000; sp_usd := None |}; iq_autonomy := Some Supervised;
     iq_ttl_seconds := None; iq_policy_set := ["finance"];
     iq_requested_by := Some (obj [("id", JStr "u.finch")]) |}.

(** Writes need the requester's manager; everything else goes through. *)
Definition demo_policy : string :=
  "require approval when action.writes_to_system_of_record -> approver: run.requested_by.manager, sla: 4h allow when true".

Definition demo_action : json :=
  obj [("kind", JStr "ledger.post"); ("writes_to_system_of_record", JBool true);
       ("idempotency_key", JStr "post:1")].

Definition demo_manager : DecisionActor := {| da_id := "u.boss"; da_role := "controller" |}.

Definition demo_lease_request : LeaseRequest :=
  {| lq_worker_id := "w1"; lq_kinds := []; lq_ttl_seconds := None |}.

Definition demo_start (n : Z) : StartRunRequest :=
  {| sq_bundle_id := demo_id 1 0 "bnd"; sq_workflow := "intake"; sq_input := obj [("id", JStr "7")];
     sq_remit_id := demo_id n 0 "rem";
     sq_requested_by := Some (obj [("id", JStr "u.finch"); ("manager", JStr "u.boss")]) |}.

(** The run of request 3 is leased (4), completes its first step (5), is leased again (6),
    proposes a write (7), which the manager approves (8), is leased again (9), proposes the
    write again (10) and completes (11).  The run of request 13 is leased (14), loses the
    lease to the sweeper (60), is leased again (61), completes its first step with a null
    output (62), fails the second (64), is leased again (65) and completes (66). *)
Definition demo_ops : list (Z * Op) := [
  (0, OApplyPolicy "finance" 1 demo_policy);
  (1, OApplyBundle example_bundle (sign_bundle example_bundle example_key));
  (2, OIssueRemit demo_issue);
  (3, OStartRun (demo_start 2));
  (4, OLease demo_lease_request);
  (5, OComplete (demo_id 4 0 "lse") (obj [("n", JNum (PosInt 1))]) (Some {| us_tokens := 900; us_usd := f64_zero |}));
  (6, OLease demo_lease_request);
  (7, OPropose (demo_id 6 0 "lse") demo_action);
  (8, ODecide (demo_id 7 1 "apr") "approved" demo_manager "checked");
  (9, OLease demo_lease_request);
  (10, OPropose (demo_id 9 0 "lse") demo_action);
  (11, OComplete (demo_id 9 0 "lse") (obj [("id", JStr "p1")]) None);
  (12, OIssueRemit demo_issue);
  (13, OStartRun (demo_start 12));
  (14, OLease demo_lease_request);
  (60, OSweepLeases);
  (61, OLease demo_lease_request);
  (62, OComplete (demo_id 61 0 "lse") JNull None);
  (63, OLease demo_lease_request);
  (64, OFail (demo_id 63 0 "lse") {| ei_code := "timeout"; ei_message := "no answer" |} false);
  (65, OLease demo_lease_request);
  (66, OComplete (demo_id 65 0 "lse") (obj [("id", JStr "p2")]) None)].

Definition play (ops : list (Z * Op)) (s : Store) : Store :=
  fold_left (fun s x => exec demo_kernel (demo_call (fst x)) (snd x) s) ops s.

(** The store after the first [n] requests. *)
Definition demo (n : nat) : Store := play (firstn n demo_ops) empty_store.

Lemma play_reachable ops s : reachable s -> reachable (play ops s).
Proof. revert s. induction ops as [|x ops IH]; intros s Hs; [done|]. cbn. apply IH. by constructor. Qed.

Lemma demo_reachable n : reachable (demo n).
Proof. apply play_reachable. constructor. Qed.

(** ** Evaluating a request *)

(** A request that is answered with a value satisfying [ok], and the store after it. *)
Definition answers {A} (ok : A -> bool) (m : M A) (s : Store) : bool :=
  match fst (m s) with Ok a => ok a | Err _ => false end.

Lemma answered {A} (ok : A -> bool) (m : M A) s :
  answers ok m s = true -> exists a, m s = (Ok a, after m s) /\ ok a = true.
Proof. unfold answers, after. destruct (m s) as [[a|e] s']; cbn; [eauto | discriminate]. Qed.

Definition anyway {A} (_ : A) : bool := true.
