(* ===== verification/Hoare.v ===== *)
(** * Reasoning about operations

    Triples for the monad of [Store]: what holds of the store before, after a success and
    after an error.  The error condition matters because the code commits some failures:
    [commit_failure] keeps the writes of its first part. *)

From S2P Require Import Prelude Errors Store Kernel.

Local Open Scope list_scope.

Definition hoare {A} (P : Store -> Prop) (m : M A) (Q : A -> Store -> Prop) (E : Store -> Prop) : Prop :=
  forall s, P s -> match m s with (Ok a, s') => Q a s' | (Err _, s') => E s' end.

(** Nothing is claimed of an error that is rolled back. *)
Definition anything (s : Store) : Prop := True.

#[warnings="-closed-notation-not-level-0"]
Notation "'{{' P '}}' m '{{' Q '}}'" := (hoare P m Q anything)
  (at level 90, P at level 99, m at level 99, Q at level 99) : kernos_scope.
#[warnings="-closed-notation-not-level-0"]
Notation "'{{' P '}}' m '{{' Q '}}' 'else' '{{' E '}}'" := (hoare P m Q E)
  (at level 90, P at level 99, m at level 99, Q at level 99, E at level 99) : kernos_scope.

Section Rules.
Context {A B : Type}.
Implicit Types (P E : Store -> Prop).

Lemma hoare_ret (a : A) (Q : A -> Store -> Prop) E : {{ Q a }} kret a {{ Q }} else {{ E }}.
Proof. by intros s Hs. Qed.

Lemma hoare_fail (e : KernelError) (Q : A -> Store -> Prop) E : {{ E }} kfail e {{ Q }} else {{ E }}.
Proof. by intros s Hs. Qed.

Lemma hoare_bind P (m : M A) (R : A -> Store -> Prop) (k : A -> M B) (Q : B -> Store -> Prop) E :
  ({{ P }} m {{ R }} else {{ E }}) -> (forall a, {{ R a }} k a {{ Q }} else {{ E }}) ->
  {{ P }} kbind m k {{ Q }} else {{ E }}.
Proof.
  intros Hm Hk s Hs. unfold kbind. specialize (Hm s Hs). destruct (m s) as [[a|e] s1]; [|done].
  by apply Hk.
Qed.

Lemma hoare_conseq P P' (m : M A) (Q Q' : A -> Store -> Prop) E E' :
  (forall s, P s -> P' s) -> (forall a s, Q' a s -> Q a s) -> (forall s, E' s -> E s) ->
  ({{ P' }} m {{ Q' }} else {{ E' }}) -> {{ P }} m {{ Q }} else {{ E }}.
Proof.
  intros Hp Hq He Hm s Hs. specialize (Hm s (Hp s Hs)). destruct (m s) as [[a|e] s1]; auto.
Qed.

Lemma hoare_pre P P' (m : M A) (Q : A -> Store -> Prop) E :
  (forall s, P s -> P' s) -> ({{ P' }} m {{ Q }} else {{ E }}) -> {{ P }} m {{ Q }} else {{ E }}.
Proof. intros Hp. by apply hoare_conseq. Qed.

Lemma hoare_lift P (r : KernelResult A) (Q : A -> Store -> Prop) E :
  (forall a s, r = Ok a -> P s -> Q a s) -> (forall s, P s -> E s) ->
  {{ P }} klift r {{ Q }} else {{ E }}.
Proof. intros Hq He s Hs. unfold klift. destruct r; auto. Qed.

Lemma hoare_read P (f : Store -> KernelResult A) (Q : A -> Store -> Prop) E :
  (forall a s, f s = Ok a -> P s -> Q a s) -> (forall s, P s -> E s) ->
  {{ P }} kread f {{ Q }} else {{ E }}.
Proof. intros Hq He s Hs. unfold kread. specialize (Hq) with (s := s). destruct (f s); auto. Qed.

Lemma hoare_some P (o : option A) e (Q : A -> Store -> Prop) E :
  (forall a s, o = Some a -> P s -> Q a s) -> (forall s, P s -> E s) ->
  {{ P }} ksome o e {{ Q }} else {{ E }}.
Proof. intros Hq He. apply hoare_lift; [|done]. intros a s H%ok_or_ok. by apply Hq. Qed.

Lemma hoare_guard P (b : bool) e (Q : unit -> Store -> Prop) E :
  (forall s, b = true -> P s -> Q tt s) -> (forall s, P s -> E s) ->
  {{ P }} kguard b e {{ Q }} else {{ E }}.
Proof. intros Hq He s Hs. unfold kguard. destruct b; [by apply Hq | by apply He]. Qed.

Lemma hoare_get P (Q : Store -> Store -> Prop) E :
  (forall s, P s -> Q s s) -> {{ P }} kget {{ Q }} else {{ E }}.
Proof. intros Hq s Hs. by apply Hq. Qed.

Lemma hoare_transaction P (m : M A) (Q : A -> Store -> Prop) E :
  (forall s, P s -> E s) -> ({{ P }} m {{ Q }}) -> {{ P }} transaction m {{ Q }} else {{ E }}.
Proof.
  intros He Hm s Hs. unfold transaction. specialize (Hm s Hs). destruct (m s) as [[a|e] s1]; auto.
Qed.

Lemma hoare_commit P (first : M A) (R : A -> Store -> Prop) (rest : A -> M B) (Q : B -> Store -> Prop) E :
  (forall s, P s -> E s) -> ({{ P }} first {{ R }} else {{ E }}) -> (forall a, {{ R a }} rest a {{ Q }}) ->
  {{ P }} commit_failure first rest {{ Q }} else {{ E }}.
Proof.
  intros He Hf Hr s Hs. unfold commit_failure. specialize (Hf s Hs).
  destruct (first s) as [[a|e] s1]; [|done]. specialize (Hr a s1 Hf).
  destruct (rest a s1) as [[b|e] s2]; auto.
Qed.

End Rules.

Lemma hoare_for {A} (l : list A) (body : A -> M unit) P E :
  (forall x, In x l -> {{ P }} body x {{ fun _ => P }} else {{ E }}) ->
  {{ P }} kfor l body {{ fun _ => P }} else {{ E }}.
Proof.
  induction l as [|x l IH]; intros Hb; [by intros s Hs|].
  cbn [kfor]. eapply hoare_bind; [apply Hb; by left|]. intros u. apply IH. intros y Hy. apply Hb. by right.
Qed.

Lemma hoare_fold {A B} (l : list A) (b : B) (body : B -> A -> M B) (I : B -> Store -> Prop) E :
  (forall b x, In x l -> {{ I b }} body b x {{ I }} else {{ E }}) ->
  {{ I b }} kfold l b body {{ I }} else {{ E }}.
Proof.
  revert b. induction l as [|x l IH]; intros b Hb; [by intros s Hs|].
  cbn [kfold]. eapply hoare_bind; [apply Hb; by left|]. intros b'. apply IH. intros b'' y Hy. apply Hb. by right.
Qed.

(** Reading facts out of a precondition. *)
Lemma hoare_pure {A} (F : Prop) P (m : M A) (Q : A -> Store -> Prop) E :
  (F -> {{ P }} m {{ Q }} else {{ E }}) -> {{ fun s => F /\ P s }} m {{ Q }} else {{ E }}.
Proof. intros Hm s [Hf Hs]. by apply Hm. Qed.

(** A successful run, seen through a triple. *)
Lemma hoare_ok {A} P (m : M A) Q E s a s' :
  ({{ P }} m {{ Q }} else {{ E }}) -> P s -> m s = (Ok a, s') -> Q a s'.
Proof. intros Hm Hs He. specialize (Hm s Hs). by rewrite He in Hm. Qed.

(** ** Taking a successful run apart *)

Lemma kbind_ok {A B} (m : M A) (k : A -> M B) s b s' :
  kbind m k s = (Ok b, s') -> exists a s1, m s = (Ok a, s1) /\ k a s1 = (Ok b, s').
Proof. unfold kbind. destruct (m s) as [[a|e] s1]; [eauto | discriminate]. Qed.

Lemma klift_ok {A} (r : KernelResult A) s a s' : klift r s = (Ok a, s') -> r = Ok a /\ s' = s.
Proof. unfold klift. by intros [= -> ->]. Qed.

Lemma kread_ok {A} (f : Store -> KernelResult A) s a s' : kread f s = (Ok a, s') -> f s = Ok a /\ s' = s.
Proof. unfold kread. by intros [= -> ->]. Qed.

Lemma ksome_ok {A} (o : option A) e s a s' : ksome o e s = (Ok a, s') -> o = Some a /\ s' = s.
Proof. intros [->%ok_or_ok ->]%klift_ok. done. Qed.

Lemma kguard_ok b e s u s' : kguard b e s = (Ok u, s') -> b = true /\ s' = s.
Proof. unfold kguard, kret, kfail. destruct b; [by intros [= _ ->] | discriminate]. Qed.

Lemma kget_ok s a s' : kget s = (Ok a, s') -> a = s /\ s' = s.
Proof. unfold kget. by intros [= -> ->]. Qed.

Lemma kret_ok {A} (x : A) s a s' : kret x s = (Ok a, s') -> a = x /\ s' = s.
Proof. unfold kret. by intros [= -> ->]. Qed.

Lemma transaction_ok {A} (m : M A) s a s' : transaction m s = (Ok a, s') -> m s = (Ok a, s').
Proof. unfold transaction. by destruct (m s) as [[]]. Qed.

Lemma commit_ok {A B} (first : M A) (rest : A -> M B) s b s' :
  commit_failure first rest s = (Ok b, s') -> exists a s1, first s = (Ok a, s1) /\ rest a s1 = (Ok b, s').
Proof.
  unfold commit_failure. destruct (first s) as [[a|e] s1]; [|discriminate].
  destruct (rest a s1) as [[]] eqn:E; intros [= <- <-]. eauto.
Qed.

(** Peels one [let!] off a hypothesis about a success, by what it binds. *)
Ltac peel H :=
  let a := fresh "a" in let s1 := fresh "s" in let Ha := fresh "Ha" in
  apply kbind_ok in H as (a & s1 & Ha & H);
  first [ apply kguard_ok in Ha as [Ha ->]
        | apply kget_ok in Ha as [-> ->]
        | apply ksome_ok in Ha as [Ha ->]
        | apply kread_ok in Ha as [Ha ->]
        | apply klift_ok in Ha as [Ha ->]
        | apply kret_ok in Ha as [-> ->]
        | idtac ].

(** ** How an operation moves the store *)

(** Whatever it returns, [m] takes the store to one related by [R]. *)
Class Evolves {A} (R : Store -> Store -> Prop) (m : M A) : Prop := evolves : forall s, R s (snd (m s)).

Section Evolves.
Context (R : Store -> Store -> Prop) `{!PreOrder R}.

#[global] Instance evolves_ret {A} (a : A) : Evolves R (kret a).
Proof. intros s. reflexivity. Qed.
#[global] Instance evolves_fail {A} e : Evolves R (@kfail A e).
Proof. intros s. reflexivity. Qed.
#[global] Instance evolves_get : Evolves R kget.
Proof. intros s. reflexivity. Qed.
#[global] Instance evolves_read {A} (f : Store -> KernelResult A) : Evolves R (kread f).
Proof. intros s. reflexivity. Qed.
#[global] Instance evolves_lift {A} (r : KernelResult A) : Evolves R (klift r).
Proof. intros s. reflexivity. Qed.
#[global] Instance evolves_some {A} (o : option A) e : Evolves R (ksome o e).
Proof. intros s. reflexivity. Qed.
#[global] Instance evolves_guard b e : Evolves R (kguard b e).
Proof. intros s. destruct b; reflexivity. Qed.
#[global] Instance evolves_bind {A B} (m : M A) (k : A -> M B) :
  Evolves R m -> (forall a, Evolves R (k a)) -> Evolves R (kbind m k).
Proof.
  intros Hm Hk s. unfold kbind. specialize (Hm s). destruct (m s) as [[a|e] s1]; cbn in *; [|done].
  transitivity s1; [done | apply Hk].
Qed.
#[global] Instance evolves_for {A} (l : list A) (body : A -> M unit) :
  (forall x, Evolves R (body x)) -> Evolves R (kfor l body).
Proof. intros Hb. induction l as [|x l IH]; cbn [kfor]; apply _. Qed.
#[global] Instance evolves_fold {A B} (l : list A) (b : B) (body : B -> A -> M B) :
  (forall b x, Evolves R (body b x)) -> Evolves R (kfold l b body).
Proof. intros Hb. revert b. induction l as [|x l IH]; intros b; cbn [kfold]; apply _. Qed.
#[global] Instance evolves_transaction {A} (m : M A) : Evolves R m -> Evolves R (transaction m).
Proof.
  intros Hm s. unfold transaction. specialize (Hm s). destruct (m s) as [[a|e] s1]; cbn in *; [done | reflexivity].
Qed.
#[global] Instance evolves_commit {A B} (m : M A) (k : A -> M B) :
  Evolves R m -> (forall a, Evolves R (k a)) -> Evolves R (commit_failure m k).
Proof.
  intros Hm Hk s. unfold commit_failure. specialize (Hm s). destruct (m s) as [[a|e] s1]; cbn in *; [|done].
  specialize (Hk a s1). destruct (k a s1) as [[b|e] s2]; cbn in *; [by transitivity s1 | reflexivity].
Qed.
End Evolves.

