(* ===== verification/History.v ===== *)
(** * What no request can undo

    The log, the bundles and the policies are append-only; a remit keeps its content; a lease
    that has ended stays ended; a run, once created, stays.  Each holds of every single write
    of [store.rs], hence of every operation. *)

From S2P Require Import Prelude Text Ids F64 Json Policy Lexer Canonical Time Errors Keys Remit.
From S2P Require Import Payloads Events Fold RunJson Template Schema Bundle Store Kernel Scenario.
From S2P Require Import Hoare.
From Stdlib Require Import Ascii.

Local Open Scope string_scope.
Local Open Scope list_scope.
Local Open Scope Z_scope.

(** A lease that is no longer active. *)
Definition ended (id : string) (s : Store) : Prop :=
  exists l, get_lease id s = Some l /\ le_state l <> "active".

(** A remit's row, where the run it is bound to may be filled in but not cleared. *)
Definition same_remit (a b : RemitRecord) : Prop :=
  rm_remit_id a = rm_remit_id b /\ rm_parent_id a = rm_parent_id b /\ rm_run_id a = rm_run_id b /\
  rm_payload a = rm_payload b /\ rm_token a = rm_token b /\ rm_expires_at_ms a = rm_expires_at_ms b /\
  (rm_bound_run_id a <> None -> rm_bound_run_id b <> None).

Definition remit_row (id : string) (s : Store) : option RemitRecord := find_first (is_remit id) (t_remits s).

Record history (s s' : Store) : Prop := {
  hi_events : exists more, t_events s' = t_events s ++ more;
  hi_bundles : exists more, t_bundles s' = t_bundles s ++ more;
  hi_policies : exists more, t_policies s' = t_policies s ++ more;
  hi_runs : forall id, In id (map rr_run_id (t_runs s)) -> In id (map rr_run_id (t_runs s'));
  hi_remits : forall id r, remit_row id s = Some r -> exists r', remit_row id s' = Some r' /\ same_remit r r';
  hi_leases : forall id, ended id s -> ended id s' }.

#[export] Instance history_preorder : PreOrder history.
Proof.
  split.
  - intros s. constructor; try (exists []; by rewrite app_nil_r); auto.
    intros id r Hr. exists r. by repeat split.
  - intros s1 s2 s3 [[e1 E1] [b1 B1] [p1 P1] R1 M1 L1] [[e2 E2] [b2 B2] [p2 P2] R2 M2 L2]. constructor; auto.
    + exists (e1 ++ e2). by rewrite E2, E1, app_assoc.
    + exists (b1 ++ b2). by rewrite B2, B1, app_assoc.
    + exists (p1 ++ p2). by rewrite P2, P1, app_assoc.
    + intros id r (r1 & H1 & S1)%M1. destruct (M2 id r1 H1) as (r2 & H2 & S2). exists r2. split; [done|].
      unfold same_remit in *. decompose [and] S1. decompose [and] S2. repeat split; auto; congruence.
Qed.

(** A write to one table leaves the others to [history]'s reflexivity. *)
Ltac other_tables :=
  constructor; cbn; try (exists []; by rewrite app_nil_r); auto;
  try (let x := fresh in let E := fresh in intros ? x E; exists x; by repeat split).

#[export] Instance write_step_history run_id step def : Evolves history (write_step run_id step def).
Proof.
  intros s. unfold write_step. destruct (any _ _); [by other_tables|]. destruct def; cbn; [by other_tables | reflexivity].
Qed.

#[export] Instance insert_event_history e : Evolves history (insert_event e).
Proof.
  intros s. unfold insert_event. destruct (any _ _); cbn; [reflexivity|]. other_tables. eauto.
Qed.

#[export] Instance insert_bundle_history b : Evolves history (insert_bundle b).
Proof.
  intros s. unfold insert_bundle. destruct (_ || _); cbn; [reflexivity|]. other_tables. eauto.
Qed.

#[export] Instance insert_policy_history p : Evolves history (insert_policy p).
Proof.
  intros s. unfold insert_policy. destruct (_ || _); cbn; [reflexivity|]. other_tables. eauto.
Qed.

#[export] Instance insert_approval_history a : Evolves history (insert_approval a).
Proof. intros s. unfold insert_approval. destruct (any _ _); cbn; [reflexivity|]. by other_tables. Qed.

#[export] Instance record_decision_history id d a r t : Evolves history (record_decision id d a r t).
Proof. intros s. by other_tables. Qed.
#[export] Instance escalate_approval_history id a t : Evolves history (escalate_approval id a t).
Proof. intros s. by other_tables. Qed.
#[export] Instance park_approval_history id : Evolves history (park_approval id).
Proof. intros s. by other_tables. Qed.
#[export] Instance upsert_action_history a : Evolves history (upsert_action a).
Proof. intros s. unfold upsert_action, kput. cbn. destruct (any _ _); by other_tables. Qed.

#[export] Instance write_run_history row : Evolves history (write_run row).
Proof.
  intros s. unfold write_run, kput. cbn. destruct (any _ _); other_tables.
  - intros id. by rewrite map_update_first.
  - intros id Hin. rewrite map_app. apply in_app_iff. auto.
Qed.

#[export] Instance insert_remit_history r : Evolves history (insert_remit r).
Proof.
  intros s. unfold insert_remit. destruct (any _ _); cbn; [reflexivity|]. other_tables.
  intros id x Hx. exists x. split; [|by repeat split]. unfold remit_row in *. cbn.
  rewrite find_first_app. by rewrite Hx.
Qed.

Lemma find_first_update_all {A} (p q : A -> bool) f l :
  (forall x, q x = true -> p (f x) = p x) ->
  find_first p (update_all q f l) = option_map (fun x => if q x then f x else x) (find_first p l).
Proof.
  intros Hp. unfold update_all. induction l as [|x l IH]; [done|]. cbn.
  destruct (q x) eqn:E; rewrite ?Hp by done; destruct (p x) eqn:Ep; cbn; rewrite ?E; auto.
Qed.

#[export] Instance bind_remit_history id run_id : Evolves history (bind_remit id run_id).
Proof.
  intros s. other_tables. intros id' x Hx. unfold remit_row in *. cbn. rewrite find_first_update_all by done.
  rewrite Hx. eexists. split; [reflexivity|]. destruct (is_remit id x); by repeat split.
Qed.

Lemma set_lease_history f id :
  (forall l, le_lease_id (f l) = le_lease_id l) ->
  (forall l, le_state l <> "active" -> le_state (f l) <> "active") -> Evolves history (set_lease f id).
Proof.
  intros Hid Hst s. other_tables. intros id' (l & Hl & Hn). unfold ended, get_lease in *. cbn.
  rewrite find_first_update_all by (intros x; unfold is_lease; by rewrite Hid). rewrite Hl.
  eexists. split; [reflexivity|]. destruct (is_lease id l); auto.
Qed.

#[export] Instance set_lease_expiry_history id t : Evolves history (set_lease_expiry id t).
Proof. by apply set_lease_history. Qed.

#[export] Instance insert_lease_history l : Evolves history (insert_lease l).
Proof.
  intros s. unfold insert_lease. destruct (any _ _); cbn; [reflexivity|]. other_tables.
  intros id (x & Hx & Hn). exists x. split; [|done]. unfold get_lease in *. cbn.
  rewrite find_first_app. by rewrite Hx.
Qed.

Lemma end_lease_history id st : st <> "active" -> Evolves history (end_lease id st).
Proof. intros Hst. by apply set_lease_history. Qed.

#[export] Hint Extern 1 (Evolves history (end_lease _ _)) => (apply end_lease_history; discriminate)
  : typeclass_instances.

(** ** Operations *)

(** Walks an operation down to its writes. *)
Ltac evolve :=
  lazymatch goal with
  | |- Evolves _ (kbind _ _) => eapply evolves_bind; [apply _ | evolve | intros ?; evolve]
  | |- Evolves _ (transaction _) => eapply evolves_transaction; [apply _ | evolve]
  | |- Evolves _ (commit_failure _ _) => eapply evolves_commit; [apply _ | evolve | intros ?; evolve]
  | |- Evolves _ (kfor _ _) => eapply evolves_for; [apply _ | intros ?; evolve]
  | |- Evolves _ (kfold _ _ _) => eapply evolves_fold; [apply _ | intros ? ?; evolve]
  | |- Evolves _ (let _ := _ in _) => cbv zeta; evolve
  | |- Evolves _ (match ?x with _ => _ end) => destruct x; evolve
  | |- _ => apply _
  end.

Section Operations.
Context `{FloatFormat, Sha256, JsonPrint, Crypto, JsonText, Regex, UnicodeTables, F64Display}.
Variable k : Kernel.

#[global] Instance persist_history rt : Evolves history (persist rt).
Proof. unfold persist. evolve. Qed.
#[global] Instance load_run_history now id : Evolves history (load_run now id).
Proof. unfold load_run. evolve. Qed.
#[global] Instance append_raw_history rt actor kind payload : Evolves history (append_raw rt actor kind payload).
Proof. unfold append_raw. evolve. Qed.
#[global] Instance append_event_history rt actor p : Evolves history (append_event rt actor p).
Proof. unfold append_event. evolve. Qed.
#[global] Instance append_history rt actor p : Evolves history (append rt actor p).
Proof. unfold append. evolve. Qed.
#[global] Instance park_history rt reason detail : Evolves history (park rt reason detail).
Proof. unfold park. evolve. Qed.
#[global] Instance store_remit_history c p run_id : Evolves history (store_remit k c p run_id).
Proof. unfold store_remit. evolve. Qed.
#[global] Instance check_start_history c request : Evolves history (check_start c request).
Proof. unfold check_start. evolve. Qed.
#[global] Instance create_run_history c run_id child created : Evolves history (create_run c run_id child created).
Proof. unfold create_run. evolve. Qed.
#[global] Instance schedule_step_history acc step : Evolves history (schedule_step acc step).
Proof. unfold schedule_step. evolve. Qed.
#[global] Instance authorise_history c run_id payload auth rt : Evolves history (authorise k c run_id payload auth rt).
Proof. unfold authorise. evolve. Qed.
#[global] Instance unwind_step_history run_id state u step : Evolves history (unwind_step run_id state u step).
Proof. unfold unwind_step. evolve. Qed.
#[global] Instance grant_history c request ttl run_id step_id : Evolves history (grant c request ttl run_id step_id).
Proof. unfold grant. evolve. Qed.
#[global] Instance expire_lease_history now l : Evolves history (expire_lease now l).
Proof. unfold expire_lease. evolve. Qed.
#[global] Instance live_lease_history now id : Evolves history (live_lease now id).
Proof. unfold live_lease. evolve. Qed.
#[global] Instance leased_run_history now id : Evolves history (leased_run now id).
Proof. unfold leased_run. evolve. Qed.
#[global] Instance record_usage_history rt id usage : Evolves history (record_usage rt id usage).
Proof. unfold record_usage. evolve. Qed.
#[global] Instance for_step_of_history run_id id : Evolves history (for_step_of run_id id).
Proof. unfold for_step_of. evolve. Qed.
#[global] Instance after_completion_history rt run_id st output b :
  Evolves history (after_completion rt run_id st output b).
Proof. unfold after_completion. evolve. Qed.
#[global] Instance quarantine_history rt run_id st error det : Evolves history (quarantine rt run_id st error det).
Proof. unfold quarantine. evolve. Qed.
#[global] Instance after_failure_history c rt run_id st error det :
  Evolves history (after_failure k c rt run_id st error det).
Proof. unfold after_failure. evolve. Qed.
#[global] Instance propose_history rt p id : Evolves history (propose rt p id).
Proof. unfold propose. evolve. Qed.
#[global] Instance reuse_approval_history c rt p a : Evolves history (reuse_approval c rt p a).
Proof. unfold reuse_approval. evolve. Qed.
#[global] Instance request_approval_history c rt p d id : Evolves history (request_approval c rt p d id).
Proof. unfold request_approval. evolve. Qed.
#[global] Instance decide_action_history c rt p d refs : Evolves history (decide_action c rt p d refs).
Proof. unfold decide_action. evolve. Qed.
#[global] Instance after_approval_history rt o : Evolves history (after_approval rt o).
Proof. unfold after_approval. evolve. Qed.
#[global] Instance after_rejection_history rt o actor reason : Evolves history (after_rejection rt o actor reason).
Proof. unfold after_rejection. evolve. Qed.
#[global] Instance sweep_approval_history now a : Evolves history (sweep_approval k now a).
Proof. unfold sweep_approval. evolve. Qed.

Lemma exec_history c op s : history s (exec k c op s).
Proof.
  revert s. change (forall s, history s (exec k c op s)) with (forall s, history s (exec k c op s)).
  destruct op; unfold exec, after;
    match goal with |- forall s, history s (snd (?m s)) => change (Evolves history m) end;
    unfold apply_bundle, apply_policy, issue_remit, derive_remit, start_run, post_external_event, abandon, resume,
      lease, heartbeat, complete, fail, propose_action, decide_approval, sweep_leases, sweep_approvals;
    evolve.
Qed.
End Operations.
