(* ===== verification/StoreInv.v ===== *)
(** * The store invariant

    [store.rs] says that the materialised tables "must equal [fold] at every [seq]".  This
    file states it: the events of every run link, fold to a state, and the [runs] and [steps]
    rows are that state, as JSON and as columns.  It also states what holds in the middle of
    a transaction, between [append_raw] and [persist], and that those two preserve it. *)

From S2P Require Import Prelude Text F64 Json Canonical Time Errors Payloads PayloadLaws Events.
From S2P Require Import Fold RunJson FoldSpec Keys Remit Template Schema Bundle Store Kernel.
From Stdlib Require Import Ascii.

Local Open Scope string_scope.
Local Open Scope list_scope.
Local Open Scope Z_scope.

(** ** What an event leaves alone *)

Lemma apply_payload_frame e p s s' :
  apply_payload e p s = Some s' ->
  rs_run_id s' = rs_run_id s /\ rs_last_seq s' = rs_last_seq s /\
  exists more, map st_id (rs_steps s') = map st_id (rs_steps s) ++ more.
Proof.
  intros H. destruct p; cbn [apply_payload] in H; try discriminate H; injection H as <-;
    try (split; [done|]; split; [done|]; exists []; rewrite app_nil_r;
         try (unfold update_step; cbn; by apply map_update_first); done);
    try (repeat match goal with |- context [if ?b then _ else _] => destruct b end;
         (split; [done|]); (split; [done|]); exists []; rewrite app_nil_r; done).
  - assert (let s1 := match find_step (ss_step p) s with
                      | Some _ => update_step (ss_step p) reschedule s
                      | None => set_steps (rs_steps s ++ [new_step p]) s end in
            rs_run_id s1 = rs_run_id s /\ rs_last_seq s1 = rs_last_seq s /\
            exists more, map st_id (rs_steps s1) = map st_id (rs_steps s) ++ more) as H1.
    { destruct (find_step (ss_step p) s); cbn; (split; [done|]); (split; [done|]).
      - exists []. rewrite app_nil_r. by apply map_update_first.
      - rewrite map_app. eauto. }
    cbn in H1. by destruct (is_status RCreated _).
  - destruct (rs_pending_approval s) as [a|]; [destruct (String.eqb _ _)|]; cbn;
      (split; [done|]); (split; [done|]); exists []; by rewrite app_nil_r.
Qed.

Lemma apply_frame s e s' :
  apply s e = Ok s' ->
  rs_run_id s' = rs_run_id s /\ rs_last_seq s' = ev_seq e /\
  exists more, map st_id (rs_steps s') = map st_id (rs_steps s) ++ more.
Proof. intros (p & Hp & _)%apply_inv. by apply apply_payload_frame in Hp. Qed.

Lemma sim_ids s t : sim s t -> map st_id (rs_steps s) = map st_id (rs_steps t).
Proof.
  intros H. apply sim_steps in H.
  assert (forall l, map st_id (map norm_step l) = map st_id l) as E
    by (intros l; rewrite map_map; by apply map_ext).
  rewrite <- (E (rs_steps s)), H. apply E.
Qed.

Lemma sim_wf s t : sim s t -> RunState_wf s -> RunState_wf t.
Proof.
  intros H [Hs Hb]. split; [|by rewrite <- (sim_budget _ _ H)].
  assert (forall l, Forall StepState_wf (map norm_step l) <-> Forall StepState_wf l) as E.
  { intros l. rewrite List.Forall_map. split; apply List.Forall_impl; done. }
  apply E. rewrite <- (sim_steps _ _ H). by apply E.
Qed.

(** ** The invariant *)

Section Inv.
Context `{FloatFormat, Sha256}.

(** A log no longer than its sequence numbers reach. *)
Definition small (s : Store) : Prop := Z.of_nat (length (t_events s)) < i64_max.

Definition event_rows (run_id : string) (s : Store) : list EventRow :=
  List.filter (fun e => String.eqb (er_run_id e) run_id) (t_events s).
Definition step_rows (run_id : string) (s : Store) : list StepRecord :=
  List.filter (fun r => String.eqb (sr_run_id r) run_id) (t_steps s).

(** The stored events of a run: they link, up to [last], and fold to [st]. *)
Record log_ok (s : Store) (run_id last : string) (evs : list Event) (st : RunState) : Prop := {
  lo_rows : event_rows run_id s = map event_row evs;
  lo_own : Forall (fun e => ev_run_id e = run_id /\ ev_schema e = SCHEMA) evs;
  lo_chain : chain_ok 1 ZERO_HASH evs;
  lo_some : evs <> [];
  lo_last : last = last_hash ZERO_HASH evs;
  lo_fold : fold evs = Ok st;
  lo_wf : RunState_wf st;
  lo_id : rs_run_id st = run_id;
  lo_seq : rs_last_seq st = Z.of_nat (length evs) }.

(** The row shows the state: as JSON, up to what JSON can tell, and in the columns queries
    look at. *)
Record mirrors (r : RunRecord) (st : RunState) : Prop := {
  mi_json : de_RunState (rr_state_json r) = Some (norm_state st);
  mi_state : rr_state r = run_status_str (rs_state st);
  mi_abandoning : rr_abandoning r = b2i (rs_abandoning st);
  mi_needs_human : rr_needs_human r = b2i (rs_needs_human st);
  mi_park_reason : rr_park_reason r = rs_park_reason st;
  mi_last_seq : rr_last_seq r = u64_as_i64 (rs_last_seq st) }.

Definition shows (run_id : string) (st : StepState) (r : StepRecord) : Prop :=
  exists def, r = step_record run_id st def.

Definition run_ok (s : Store) (r : RunRecord) : Prop :=
  exists evs st, log_ok s (rr_run_id r) (rr_last_hash r) evs st /\ mirrors r st /\
    Forall2 (shows (rr_run_id r)) (rs_steps st) (step_rows (rr_run_id r) s).

Definition known (s : Store) (run_id : string) : Prop := In run_id (map rr_run_id (t_runs s)).

Record consistent (s : Store) : Prop := {
  co_nodup : List.NoDup (map rr_run_id (t_runs s));
  co_runs : Forall (run_ok s) (t_runs s);
  co_events : Forall (fun e => known s (er_run_id e)) (t_events s);
  co_steps : Forall (fun r => known s (sr_run_id r)) (t_steps s) }.

(** In a transaction: every other run is as it should be; the log of this one is ahead of its
    rows, and its step rows are those of the first steps of the state. *)
Record tx_ok (s : Store) (rt : RunTx) : Prop := {
  tx_nodup : List.NoDup (map rr_run_id (t_runs s));
  tx_others : Forall (fun r => rr_run_id r <> rs_run_id (rt_state rt) -> run_ok s r) (t_runs s);
  tx_events : Forall (fun e => er_run_id e <> rs_run_id (rt_state rt) -> known s (er_run_id e)) (t_events s);
  tx_steps : Forall (fun r => sr_run_id r <> rs_run_id (rt_state rt) -> known s (sr_run_id r)) (t_steps s);
  tx_run : exists evs st,
    log_ok s (rs_run_id (rt_state rt)) (row_last_hash (rt_run rt)) evs st /\ sim st (rt_state rt) /\
    exists more, map st_id (rs_steps st) = map sr_step_id (step_rows (rs_run_id (rt_state rt)) s) ++ more }.

(** Both hold as long as the log is small. *)
Definition INV (s : Store) : Prop := small s -> consistent s.
Definition TX (rt : RunTx) (s : Store) : Prop := small s -> tx_ok s rt.

Lemma empty_consistent : consistent empty_store.
Proof. split; constructor. Qed.

(** The tables the invariant is about. *)
Definition same_core (s s' : Store) : Prop :=
  t_events s' = t_events s /\ t_runs s' = t_runs s /\ t_steps s' = t_steps s.

Lemma log_ok_core s s' run_id last evs st :
  t_events s' = t_events s -> log_ok s run_id last evs st -> log_ok s' run_id last evs st.
Proof. intros He []. constructor; auto. unfold event_rows in *. by rewrite He. Qed.

Lemma run_ok_core s s' r : same_core s s' -> run_ok s r -> run_ok s' r.
Proof.
  intros (He & Hr & Hs) (evs & st & Hl & Hm & Hf). exists evs, st.
  split; [by eapply log_ok_core|]. split; [done|]. unfold step_rows in *. by rewrite Hs.
Qed.

Lemma consistent_core s s' : same_core s s' -> consistent s -> consistent s'.
Proof.
  intros Hc []. pose proof Hc as (He & Hr & Hs). constructor; unfold known in *; rewrite ?He, ?Hr, ?Hs; auto.
  eapply List.Forall_impl; [|exact co_runs0]. intros r. by apply run_ok_core.
Qed.

Lemma tx_ok_core s s' rt : same_core s s' -> tx_ok s rt -> tx_ok s' rt.
Proof.
  intros Hc []. pose proof Hc as (He & Hr & Hs). constructor; unfold known in *; rewrite ?He, ?Hr, ?Hs; auto.
  - eapply List.Forall_impl; [|exact tx_others0]. intros r Hi Hn. eapply run_ok_core; eauto.
  - destruct tx_run0 as (evs & st & Hl & Hsim & Hids). exists evs, st. split; [by eapply log_ok_core|].
    split; [done|]. unfold step_rows in *. by rewrite Hs.
Qed.

Lemma small_core s s' : same_core s s' -> small s' -> small s.
Proof. intros (He & _). unfold small. by rewrite He. Qed.

Lemma INV_core s s' : same_core s s' -> INV s -> INV s'.
Proof. intros Hc Hi Hs. eapply consistent_core; [exact Hc|]. apply Hi. by eapply small_core. Qed.

Lemma TX_core rt s s' : same_core s s' -> TX rt s -> TX rt s'.
Proof. intros Hc Hi Hs. eapply tx_ok_core; [exact Hc|]. apply Hi. by eapply small_core. Qed.

(** ** Loading *)

Lemma find_run_in run_id l r :
  find_first (is_run run_id) l = Some r -> In r l /\ rr_run_id r = run_id.
Proof. intros [Hin Hp]%find_first_some. split; [done|]. by apply String.eqb_eq. Qed.

Lemma shows_ids run_id steps rows :
  Forall2 (shows run_id) steps rows -> map st_id steps = map sr_step_id rows.
Proof.
  induction 1 as [|st r steps rows [def ->] _ IH]; [done|]. cbn. by rewrite IH.
Qed.

Lemma require_run_ok run_id s row :
  consistent s -> require_run run_id s = Ok row ->
  rs_run_id (row_state row) = run_id /\
  exists evs st r, In r (t_runs s) /\ log_ok s run_id (row_last_hash row) evs st /\
    row_state row = norm_state st /\ mirrors r st /\
    Forall2 (shows run_id) (rs_steps st) (step_rows run_id s).
Proof.
  intros Hc. unfold require_run, get_run, query_opt. intros Hr. inv_ok.
  destruct (find_first (is_run run_id) (t_runs s)) as [r|] eqn:Ef; [|by inv_ok].
  apply find_run_in in Ef as [Hin <-]. unfold rmap in Ha. inv_ok.
  unfold run_row_from_row, json_col in Ha0. inv_ok. cbn.
  pose proof (co_runs s Hc) as Hf. rewrite List.Forall_forall in Hf.
  destruct (Hf r Hin) as (evs & st & Hl & Hm & Hs).
  pose proof (mi_json _ _ Hm) as Hj.
  match goal with E : de_RunState (rr_state_json r) = Some ?a |- _ =>
    assert (a = norm_state st) as -> by congruence end.
  injection Hr as <-. cbn.
  split; [apply (lo_id _ _ _ _ _ Hl)|]. exists evs, st, r. auto.
Qed.

Lemma consistent_tx s run_id row ts defs :
  consistent s -> require_run run_id s = Ok row ->
  tx_ok s {| rt_ts := ts; rt_run := row; rt_defs := defs |}.
Proof.
  intros Hc Hr. destruct (require_run_ok _ _ _ Hc Hr) as (Hid & evs & st & r & Hin & Hl & Hst & Hm & Hs).
  destruct Hc. constructor; unfold rt_state; cbn [rt_run]; rewrite ?Hid; auto.
  - eapply List.Forall_impl; [|exact co_runs0]. auto.
  - eapply List.Forall_impl; [|exact co_events0]. auto.
  - eapply List.Forall_impl; [|exact co_steps0]. auto.
  - exists evs, st. split; [done|]. rewrite Hst. split; [symmetry; apply sim_norm|].
    exists []. rewrite app_nil_r. by eapply shows_ids.
Qed.

(** ** Appending *)

Lemma insert_event_inv e s u s' :
  insert_event e s = (Ok u, s') -> s' = with_events (t_events s ++ [event_row e]) s.
Proof. unfold insert_event. destruct (any _ _); [done|]. by intros [= _ <-]. Qed.

Lemma event_rows_app run_id e s :
  event_rows run_id (with_events (t_events s ++ [e]) s) =
  event_rows run_id s ++ if String.eqb (er_run_id e) run_id then [e] else [].
Proof. unfold event_rows. cbn. rewrite List.filter_app. cbn. by destruct (String.eqb _ _). Qed.

Lemma run_ok_other r e s :
  rr_run_id r <> er_run_id e -> run_ok s r -> run_ok (with_events (t_events s ++ [e]) s) r.
Proof.
  intros Hn (evs & st & Hl & Hm & Hs). exists evs, st. split; [|done].
  destruct Hl. constructor; auto. rewrite event_rows_app.
  destruct (String.eqb_spec (er_run_id e) (rr_run_id r)); [congruence|]. by rewrite app_nil_r.
Qed.

Lemma filter_length_le {A} (f : A -> bool) l : (length (List.filter f l) <= length l)%nat.
Proof. induction l as [|x l IH]; cbn; [lia|]. destruct (f x); cbn; lia. Qed.

Lemma log_length s run_id last evs st : log_ok s run_id last evs st -> (length evs <= length (t_events s))%nat.
Proof.
  intros Hl. rewrite <- (length_map event_row evs), <- (lo_rows _ _ _ _ _ Hl).
  apply filter_length_le.
Qed.

Lemma log_extend s run_id last evs st e st' :
  small (with_events (t_events s ++ [event_row e]) s) -> log_ok s run_id last evs st ->
  e = build run_id (u64_add (rs_last_seq st) 1) (ev_ts e) (ev_kind e) (ev_actor e) (ev_payload e) last ->
  event_nums e -> apply st e = Ok st' ->
  log_ok (with_events (t_events s ++ [event_row e]) s) run_id (ev_hash e) (evs ++ [e]) st'.
Proof.
  intros Hsm Hl He Hn Ha. pose proof (log_length _ _ _ _ _ Hl) as Hlen. destruct Hl.
  assert (ev_seq e = Z.of_nat (length evs) + 1) as Hseq.
  { rewrite He. cbn. unfold small in Hsm. cbn in Hsm. rewrite length_app in Hsm. cbn in Hsm.
    unfold i64_max in Hsm. rewrite lo_seq0. apply u64_add_small; unfold u64_max; lia. }
  assert (ev_run_id e = run_id) as Hid by by rewrite He.
  destruct (apply_frame _ _ _ Ha) as (Hf1 & Hf2 & _).
  constructor.
  - rewrite event_rows_app, map_app, lo_rows0. cbn. by rewrite Hid, String.eqb_refl.
  - apply Forall_app. split; [done|]. constructor; [|constructor]. split; [done|]. by rewrite He.
  - apply chain_ok_app. split; [done|]. cbn. split; [lia|]. split; [by rewrite He|]. split; [|done].
    rewrite He. done.
  - by destruct evs.
  - by rewrite last_hash_snoc.
  - rewrite fold_snoc by done. by rewrite lo_fold0.
  - by eapply apply_wf.
  - by rewrite Hf1.
  - rewrite Hf2, Hseq, length_app. cbn. lia.
Qed.

(** What an appended event must be for the state to be written: its counters are in range. *)
Definition nums_ok (kind : EventKind) (payload : json) : Prop :=
  forall p, decode_payload kind payload = Some p -> payload_nums p.

Lemma append_raw_inv rt actor kind payload s e rt' s' :
  append_raw rt actor kind payload s = (Ok (e, rt'), s') ->
  e = build (rs_run_id (rt_state rt)) (u64_add (rs_last_seq (rt_state rt)) 1) (rt_ts rt) kind actor payload
        (row_last_hash (rt_run rt)) /\
  s' = with_events (t_events s ++ [event_row e]) s /\
  apply (rt_state rt) e = Ok (rt_state rt') /\ row_last_hash (rt_run rt') = ev_hash e /\
  rt_defs rt' = rt_defs rt /\ rt_ts rt' = rt_ts rt /\
  row_child_remit_id (rt_run rt') = row_child_remit_id (rt_run rt).
Proof.
  unfold append_raw, kbind, klift, kret. intros Ha.
  destruct (insert_event _ s) as [[u|] s1] eqn:E; [|done]. apply insert_event_inv in E as ->.
  destruct (apply _ _) as [st|] eqn:Es; [|done]. injection Ha as <- <- <-. auto 10.
Qed.

Lemma small_shrink e s : small (with_events (t_events s ++ [e]) s) -> small s.
Proof. unfold small. cbn. rewrite length_app. lia. Qed.

Lemma append_raw_tx rt actor kind payload s e rt' s' :
  append_raw rt actor kind payload s = (Ok (e, rt'), s') ->
  (small s -> tx_ok s rt -> nums_ok kind payload) -> TX rt s -> TX rt' s'.
Proof.
  intros Ha Hn Htx Hsm. apply append_raw_inv in Ha as (He & -> & Ha & Hh & _).
  pose proof (small_shrink _ _ Hsm) as Hsm0. specialize (Htx Hsm0). specialize (Hn Hsm0 Htx).
  destruct (apply_frame _ _ _ Ha) as (Hid & _ & _).
  assert (er_run_id (event_row e) = rs_run_id (rt_state rt)) as Her by by rewrite He.
  destruct Htx. constructor; rewrite ?Hid, ?Hh; auto.
  - eapply List.Forall_impl; [|exact tx_others0]. intros r Hr Hne. apply run_ok_other; [congruence | auto].
  - cbn. apply Forall_app. split; [exact tx_events0|]. constructor; [congruence | constructor].
  - destruct tx_run0 as (evs & st & Hl & Hsim & more & Hids).
    pose proof (apply_sim st (rt_state rt) e Hsim) as Hap. rewrite Ha in Hap.
    destruct (apply st e) as [st'|] eqn:Est; [|done]. exists (evs ++ [e]), st'.
    split; [|split; [done|]].
    + apply (log_extend _ _ (row_last_hash (rt_run rt)) _ st); try done.
      * rewrite He. cbn. by rewrite (sim_last_seq _ _ Hsim).
      * unfold event_nums. by rewrite He.
    + destruct (apply_frame _ _ _ Est) as (_ & _ & more' & Hm). exists (more ++ more').
      unfold step_rows in *. cbn. by rewrite Hm, Hids, app_assoc.
Qed.

(** ** Persisting *)

(** The rows of a run after [write_step]. *)
Definition put_step (run_id : string) (rows : list StepRecord) (step : StepState) (def : option json)
    : option (list StepRecord) :=
  if any (is_step run_id (st_id step)) rows
  then Some (update_all (is_step run_id (st_id step)) (fun r => step_record run_id step (sr_def r)) rows)
  else match def with Some d => Some (rows ++ [step_record run_id step d]) | None => None end.

Lemma filter_update_all {A} (keep p : A -> bool) f l :
  (forall x, p x = true -> keep x = true /\ keep (f x) = true) ->
  List.filter keep (update_all p f l) = update_all p f (List.filter keep l).
Proof.
  intros Hp. unfold update_all in *. induction l as [|x l IH]; [done|]. cbn. destruct (p x) eqn:E.
  - destruct (Hp x E) as [-> ->]. cbn. by rewrite E, IH.
  - destruct (keep x); cbn; [rewrite E|]; by rewrite IH.
Qed.

Lemma filter_update_none {A} (keep p : A -> bool) f l :
  (forall x, p x = true -> keep x = false /\ keep (f x) = false) ->
  List.filter keep (update_all p f l) = List.filter keep l.
Proof.
  intros Hp. unfold update_all in *. induction l as [|x l IH]; [done|]. cbn. destruct (p x) eqn:E.
  - by destruct (Hp x E) as [-> ->].
  - by rewrite IH.
Qed.

Lemma any_filter {A} (keep p : A -> bool) l :
  (forall x, p x = true -> keep x = true) -> any p (List.filter keep l) = any p l.
Proof.
  intros Hp. unfold any in *. induction l as [|x l IH]; [done|]. cbn.
  destruct (keep x) eqn:E; cbn; [by rewrite IH|].
  destruct (p x) eqn:Ep; [by rewrite (Hp x Ep) in E | done].
Qed.

Lemma is_step_run run_id id r : is_step run_id id r = true -> sr_run_id r = run_id.
Proof. unfold is_step. intros [E _]%andb_true_iff. by apply String.eqb_eq. Qed.

Lemma write_step_inv run_id step def s r s' :
  write_step run_id step def s = (r, s') ->
  t_events s' = t_events s /\ t_runs s' = t_runs s /\
  (forall id, id <> run_id -> step_rows id s' = step_rows id s) /\
  match r with
  | Ok _ => Some (step_rows run_id s') = put_step run_id (step_rows run_id s) step def /\
            (forall x, In x (t_steps s') -> In x (t_steps s) \/ sr_run_id x = run_id)
  | Err _ => put_step run_id (step_rows run_id s) step def = None
  end.
Proof.
  unfold write_step, put_step, step_rows.
  assert (forall id x, is_step run_id (st_id step) x = true ->
            String.eqb (sr_run_id x) id = String.eqb run_id id) as Hk.
  { intros id x E. by rewrite (is_step_run _ _ _ E). }
  rewrite (any_filter (fun r => String.eqb (sr_run_id r) run_id)).
  2: { intros x E. rewrite (Hk _ _ E). apply String.eqb_refl. }
  destruct (any _ (t_steps s)); [|destruct def as [d|]]; intros [= <- <-]; cbn.
  - split; [done|]. split; [done|]. split.
    + intros id Hne. apply filter_update_none. intros x E. rewrite (Hk _ _ E). cbn.
      destruct (String.eqb_spec run_id id); [congruence | done].
    + split; [f_equal; apply filter_update_all; intros x E; rewrite (Hk _ _ E); cbn;
              by rewrite String.eqb_refl|].
      intros x [y [Hy Hin]]%in_map_iff. destruct (is_step run_id (st_id step) y); subst; auto.
  - split; [done|]. split; [done|]. split.
    + intros id Hne. rewrite List.filter_app. cbn. destruct (String.eqb_spec run_id id); [congruence|].
      by rewrite app_nil_r.
    + split; [by rewrite List.filter_app; cbn; rewrite String.eqb_refl|].
      intros x [Hx|[<-|[]]]%in_app_iff; auto.
  - auto.
Qed.

Lemma update_all_none {A} (p : A -> bool) f l : Forall (fun x => p x = false) l -> update_all p f l = l.
Proof. unfold update_all. induction 1 as [|x l Hx _ IH]; cbn; [done|]. by rewrite Hx, IH. Qed.

(** Writing the steps of a state in order over the rows of its first steps. *)
Lemma put_step_next run_id done stale step steps def more :
  map st_id (step :: steps) = map sr_step_id stale ++ more ->
  List.NoDup (map sr_step_id done ++ map st_id (step :: steps)) ->
  Forall (fun r => sr_run_id r = run_id) (done ++ stale) ->
  (stale <> [] -> exists d stale' , put_step run_id (done ++ stale) step def
     = Some ((done ++ [step_record run_id step d]) ++ stale') /\ length stale' = pred (length stale) /\
     map st_id steps = map sr_step_id stale' ++ more /\ Forall (fun r => sr_run_id r = run_id) stale') /\
  (stale = [] -> put_step run_id (done ++ stale) step def =
     match def with Some d => Some (done ++ [step_record run_id step d]) | None => None end).
Proof.
  intros Hids Hnd Hown. cbn [map] in Hids, Hnd. apply Forall_app in Hown as [Hown1 Hown2].
  assert (Forall (fun r => is_step run_id (st_id step) r = false) done) as Hdone.
  { rewrite List.Forall_forall in *. intros r Hr. unfold is_step. apply andb_false_iff. right.
    apply String.eqb_neq. intros E. apply List.NoDup_remove_2 in Hnd. apply Hnd.
    apply in_app_iff. left. apply in_map_iff. eauto. }
  split; intros Hst.
  - destruct stale as [|r stale']; [done|]. cbn [map app] in Hids. injection Hids as Hid Hids.
    apply Forall_cons_1 in Hown2 as [Hr Hown2].
    assert (Forall (fun r => is_step run_id (st_id step) r = false) stale') as Hrest.
    { rewrite List.Forall_forall in *. intros r' Hr'. unfold is_step. apply andb_false_iff. right.
      apply String.eqb_neq. intros E. apply List.NoDup_remove_2 in Hnd. apply Hnd.
      apply in_app_iff. right. rewrite Hids. apply in_app_iff. left. apply in_map_iff. eauto. }
    assert (is_step run_id (st_id step) r = true) as Eis
      by (unfold is_step; by rewrite Hr, Hid, !String.eqb_refl).
    exists (sr_def r), stale'. split; [|done]. unfold put_step.
    assert (any (is_step run_id (st_id step)) (done ++ r :: stale') = true) as ->
      by (apply any_true; exists r; split; [apply in_app_iff; right; by left | done]).
    unfold update_all. rewrite map_app. cbn. rewrite Eis.
    fold (update_all (is_step run_id (st_id step)) (fun r => step_record run_id step (sr_def r)) done).
    fold (update_all (is_step run_id (st_id step)) (fun r => step_record run_id step (sr_def r)) stale').
    rewrite !update_all_none by done. by rewrite <- app_assoc.
  - subst stale. rewrite app_nil_r. unfold put_step.
    assert (any (is_step run_id (st_id step)) done = false) as ->; [|done].
    apply not_true_iff_false. rewrite any_true. intros (x & Hx & E).
    rewrite List.Forall_forall in Hdone. by rewrite (Hdone x Hx) in E.
Qed.

Lemma step_rows_own run_id s : Forall (fun r => sr_run_id r = run_id) (step_rows run_id s).
Proof.
  rewrite List.Forall_forall. intros r [_ Hr]%filter_In. by apply String.eqb_eq.
Qed.

Lemma write_steps_inv run_id (defs : string -> option json) steps : forall s r s' done stale more,
  kfor steps (fun step => write_step run_id step (defs (st_id step))) s = (r, s') ->
  step_rows run_id s = done ++ stale -> map st_id steps = map sr_step_id stale ++ more ->
  List.NoDup (map sr_step_id done ++ map st_id steps) ->
  t_events s' = t_events s /\ t_runs s' = t_runs s /\
  (forall id, id <> run_id -> step_rows id s' = step_rows id s) /\
  match r with
  | Ok _ => (exists rows, step_rows run_id s' = done ++ rows /\ Forall2 (shows run_id) steps rows) /\
            (forall x, In x (t_steps s') -> In x (t_steps s) \/ sr_run_id x = run_id)
  | Err _ => more <> []
  end.
Proof.
  induction steps as [|step steps IH]; intros s r s' done stale more Hw Hrows Hids Hnd.
  - cbn in Hw. injection Hw as <- <-. do 3 (split; [done|]). split; [|auto].
    destruct stale; [|done]. exists []. split; [done | constructor].
  - cbn [kfor] in Hw. unfold kbind in Hw.
    destruct (write_step run_id step (defs (st_id step)) s) as [r1 s1] eqn:E1.
    destruct (write_step_inv _ _ _ _ _ _ E1) as (He1 & Hr1 & Ho1 & Hres).
    pose proof (step_rows_own run_id s) as Hown. rewrite Hrows in *.
    destruct (put_step_next run_id done stale step steps (defs (st_id step)) more Hids Hnd Hown) as [Hp1 Hp2].
    assert (match r1 with Ok _ => exists d stale', step_rows run_id s1 = (done ++ [step_record run_id step d]) ++ stale'
              /\ exists more', map st_id steps = map sr_step_id stale' ++ more' /\ (more' <> [] -> more <> [])
            | Err _ => more <> [] end) as Hstep.
    { destruct stale as [|r0 stale0].
      - rewrite (Hp2 eq_refl) in Hres. cbn in Hids. destruct r1.
        + destruct (defs (st_id step)) as [d|]; [|by destruct Hres]. destruct Hres as [[= Hres] _].
          exists d, []. rewrite app_nil_r. split; [done|]. exists (map st_id steps).
          split; [done|]. intros _. by rewrite <- Hids.
        + by rewrite <- Hids.
      - destruct (Hp1 ltac:(done)) as (d & stale' & Hput & _ & Hids' & _). rewrite Hput in Hres.
        destruct r1; [|done]. destruct Hres as [[= Hres] _]. exists d, stale'. split; [done|]. eauto. }
    destruct r1 as [u|e1]; [|by injection Hw as <- <-].
    destruct Hstep as (d & stale' & Hrows1 & more' & Hids1 & Hmore). destruct Hres as [_ Hin1].
    destruct (IH s1 r s' _ stale' more' Hw Hrows1 Hids1) as (He & Hr & Ho & Hres).
    { rewrite map_app. cbn. by rewrite <- app_assoc. }
    split; [congruence|]. split; [congruence|].
    split; [intros id Hne; rewrite Ho by done; by apply Ho1|].
    destruct r as [u'|]; [|auto]. destruct Hres as [(rows & Hrs & Hf) Hin]. split.
    + exists (step_record run_id step d :: rows). split; [by rewrite Hrs, <- app_assoc|].
      constructor; [by exists d | done].
    + intros x Hx. destruct (Hin x Hx); auto.
Qed.

(** The row that [write_run] leaves for its run, the others unchanged. *)
Lemma write_run_inv row id s u s' :
  rs_run_id (row_state row) = id ->
  List.NoDup (map rr_run_id (t_runs s)) -> write_run row s = (Ok u, s') ->
  t_events s' = t_events s /\ t_steps s' = t_steps s /\ List.NoDup (map rr_run_id (t_runs s')) /\
  (forall x, known s x -> known s' x) /\ known s' id /\
  forall r, In r (t_runs s') -> (In r (t_runs s) /\ rr_run_id r <> id) \/
    (rr_run_id r = id /\ rr_last_hash r = row_last_hash row /\
     (RunState_wf (row_state row) -> mirrors r (row_state row))).
Proof.
  intros Hrid Hnd. unfold write_run, kput. intros [= _ <-].
  change (rr_run_id (run_record row)) with (rs_run_id (row_state row)). rewrite Hrid.
  assert (forall old, rr_run_id old = id -> rr_run_id (update_run_record (run_record row) old) = id /\
    rr_last_hash (update_run_record (run_record row) old) = row_last_hash row /\
    (RunState_wf (row_state row) -> mirrors (update_run_record (run_record row) old) (row_state row))) as Hup.
  { intros old Hid. split; [done|]. split; [done|]. intros Hwf. constructor; try done.
    by apply de_ser_RunState. }
  destruct (any (is_run id) (t_runs s)) eqn:Ea; cbn.
  - assert (map rr_run_id (update_first (is_run id) (update_run_record (run_record row)) (t_runs s))
            = map rr_run_id (t_runs s)) as Em by by apply map_update_first.
    split; [reflexivity|]. split; [reflexivity|]. unfold known. cbn [t_runs with_runs]. rewrite Em. split; [exact Hnd|]. split; [auto|].
    apply any_true in Ea as (r0 & Hr0 & E0%String.eqb_eq). split; [rewrite <- E0; by apply in_map|].
    clear r0 Hr0 E0 Em. revert Hnd Hup. generalize (t_runs s) as l. clear.
    induction l as [|y l IH]; intros Hnd Hup r Hr; [done|]. cbn [map update_first In] in *. apply List.NoDup_cons_iff in Hnd as [Hni Hnd].
    destruct (is_run id y) eqn:E; cbn [In] in Hr.
    + apply String.eqb_eq in E. destruct Hr as [<-|Hr]; [right; by apply Hup|]. left. split; [auto|].
      intros Heq. apply Hni. rewrite E, <- Heq. by apply in_map.
    + destruct Hr as [<-|Hr]; [left; split; [auto|]; by apply String.eqb_neq in E|].
      destruct (IH Hnd Hup r Hr) as [[??]|]; auto.
  - split; [done|]. split; [done|]. unfold known. cbn. rewrite map_app. cbn. rewrite Hrid.
    assert (~ In id (map rr_run_id (t_runs s))) as Hni.
    { intros (r & <- & Hr)%in_map_iff. apply not_true_iff_false in Ea. apply Ea. apply any_true.
      exists r. split; [done | apply String.eqb_refl]. }
    split. { apply List.NoDup_app; [done | constructor; [by intros []|constructor] |]. intros x Hx [<-|[]]. exact (Hni Hx). }
    split; [intros x Hx; apply in_app_iff; auto|]. split; [apply in_app_iff; right; by left|].
    intros r [Hr|[<-|[]]]%in_app_iff.
    + left. split; [done|]. intros <-. apply Hni. by apply in_map.
    + right. split; [done|]. split; [done|]. intros Hwf. constructor; try done. by apply de_ser_RunState.
Qed.

Lemma shows_norm run_id steps steps' rows :
  map norm_step steps = map norm_step steps' -> Forall2 (shows run_id) steps rows ->
  Forall2 (shows run_id) steps' rows.
Proof.
  intros Hn Hf. revert steps' Hn. induction Hf as [|st r steps rows [def ->] _ IH]; intros [|st' steps'] Hn;
    try discriminate Hn; [constructor|]. cbn [map] in Hn.
  injection Hn as E1 E2 E3 E4 E5 E6 _ _ _ _ E7 Hn. constructor; [|by apply IH].
  exists def. unfold step_record. by rewrite E1, E2, E3, E4, E5, E6, E7.
Qed.

Lemma mirrors_sim r s t : sim s t -> mirrors r s -> mirrors r t.
Proof.
  intros Hs []. pose proof (proj1 (norm_sim _ _) Hs) as Hn. destruct Hs. constructor; congruence.
Qed.

Lemma run_ok_frame s s' r :
  t_events s' = t_events s -> step_rows (rr_run_id r) s' = step_rows (rr_run_id r) s ->
  run_ok s r -> run_ok s' r.
Proof.
  intros He Hs (evs & st & Hl & Hm & Hf). exists evs, st. split; [by eapply log_ok_core|].
  split; [done|]. by rewrite Hs.
Qed.

(** The row [persist] writes. *)
Definition persisted (rt : RunTx) : RunRow :=
  {| row_state := rt_state rt; row_child_remit_id := row_child_remit_id (rt_run rt);
     row_created_at := row_created_at (rt_run rt); row_updated_at := rt_ts rt;
     row_last_hash := row_last_hash (rt_run rt) |}.

Lemma persist_split rt s r s' :
  persist rt s = (r, s') -> exists s1, write_run (persisted rt) s = (Ok tt, s1) /\
    kfor (rs_steps (rt_state rt)) (fun step =>
      write_step (rs_run_id (rt_state rt)) step (map_get (st_id step) (rt_defs rt))) s1 = (r, s').
Proof. unfold persist, kbind. intros Hp. destruct (write_run _ s) as [[[]|] s1] eqn:E; [eauto | done]. Qed.

(** Persisting ends a transaction well. *)
Lemma persist_inv rt s r s' :
  persist rt s = (r, s') -> tx_ok s rt ->
  t_events s' = t_events s /\
  match r with
  | Ok _ => consistent s'
  | Err _ => exists id, In id (map st_id (rs_steps (rt_state rt))) /\
               ~ In id (map sr_step_id (step_rows (rs_run_id (rt_state rt)) s))
  end.
Proof.
  intros (s1 & Hw & Hf)%persist_split [Hnd Hoth Hev Hst (evs & st & Hl & Hsim & more & Hids)].
  destruct (write_run_inv (persisted rt) (rs_run_id (rt_state rt)) s tt s1) as
    (He1 & Hs1 & Hnd1 & Hk1 & Hid1 & Hr1); try done.
  assert (List.NoDup (map st_id (rs_steps (rt_state rt)))) as Hndids.
  { rewrite <- (sim_ids _ _ Hsim). apply (fold_inv _ _ (lo_fold _ _ _ _ _ Hl)). }
  assert (step_rows (rs_run_id (rt_state rt)) s1 = step_rows (rs_run_id (rt_state rt)) s) as Hrows
    by (unfold step_rows; by rewrite Hs1).
  assert (map st_id (rs_steps (rt_state rt)) = map sr_step_id (step_rows (rs_run_id (rt_state rt)) s) ++ more)
    as Hids' by by rewrite <- (sim_ids _ _ Hsim).
  destruct (write_steps_inv (rs_run_id (rt_state rt)) (fun id => map_get id (rt_defs rt)) _ s1 r s' [] _ more
    Hf Hrows Hids' Hndids) as (He2 & Hr2 & Ho2 & Hres).
  split; [congruence|]. destruct r as [u|].
  - destruct Hres as [(rows & Hrows2 & Hf2) Hin2]. constructor.
    + by rewrite Hr2.
    + rewrite Hr2. rewrite List.Forall_forall in *. intros r Hr. destruct (Hr1 r Hr) as [[Hin Hne]|(Hid & Hh & Hm)].
      * apply (run_ok_frame s); [congruence| |by apply Hoth].
        rewrite Ho2 by done. unfold step_rows. by rewrite Hs1.
      * exists evs, st. rewrite Hid, Hh. split; [eapply log_ok_core; [|exact Hl]; congruence|].
        split; [eapply mirrors_sim; [symmetry; exact Hsim|]; apply Hm; by eapply sim_wf, Hl|].
        rewrite Hrows2. eapply shows_norm; [|exact Hf2]. symmetry. by apply sim_steps.
    + unfold known in *. rewrite He2, He1, Hr2. eapply List.Forall_impl; [|exact Hev]. intros e Hne.
      destruct (String.eqb_spec (er_run_id e) (rs_run_id (rt_state rt))) as [->|]; auto.
    + unfold known in *. rewrite Hr2. rewrite List.Forall_forall in *. intros x Hx.
      destruct (Hin2 x Hx) as [Hx'| ->]; [|done]. rewrite Hs1 in Hx'.
      destruct (String.eqb_spec (sr_run_id x) (rs_run_id (rt_state rt))) as [->|]; auto.
  - destruct more as [|id more]; [done|]. exists id. rewrite Hids'. split; [apply in_app_iff; right; by left|].
    intros Hin. rewrite Hids' in Hndids. apply List.NoDup_remove_2 in Hndids. apply Hndids.
    apply in_app_iff. by left.
Qed.
(** ** A new run *)

(** A run that is known has its first event in the log. *)
Lemma known_first s run_id :
  consistent s -> known s run_id -> exists e, In e (t_events s) /\ er_run_id e = run_id /\ er_seq e = 1.
Proof.
  intros Hc (r & <- & Hr)%in_map_iff. pose proof (co_runs s Hc) as Hf. rewrite List.Forall_forall in Hf.
  destruct (Hf r Hr) as (evs & st & Hl & _). destruct evs as [|e evs]; [by destruct (lo_some _ _ _ _ _ Hl)|].
  destruct (lo_chain _ _ _ _ _ Hl) as (Hseq & _).
  assert (In (event_row e) (event_rows (rr_run_id r) s)) as Hin
    by (rewrite (lo_rows _ _ _ _ _ Hl); by left).
  apply filter_In in Hin as [Hin Hid%String.eqb_eq]. exists (event_row e). split; [done|].
  split; [done|]. cbn. by rewrite Hseq.
Qed.

Lemma unknown_rows s run_id :
  consistent s -> ~ known s run_id -> event_rows run_id s = [] /\ step_rows run_id s = [].
Proof.
  intros Hc Hn. destruct Hc. unfold event_rows, step_rows. rewrite List.Forall_forall in *. split.
  - destruct (List.filter _ (t_events s)) as [|e l] eqn:E; [done|]. exfalso.
    assert (In e (e :: l)) as Hin by by left. rewrite <- E in Hin. apply filter_In in Hin as [Hin He%String.eqb_eq].
    apply Hn. rewrite <- He. auto.
  - destruct (List.filter _ (t_steps s)) as [|e l] eqn:E; [done|]. exfalso.
    assert (In e (e :: l)) as Hin by by left. rewrite <- E in Hin. apply filter_In in Hin as [Hin He%String.eqb_eq].
    apply Hn. rewrite <- He. auto.
Qed.

Lemma from_created_ids e st :
  from_created e = Ok st -> rs_run_id st = ev_run_id e /\ rs_last_seq st = ev_seq e /\ rs_steps st = [].
Proof. unfold from_created. destruct (negb _); [done|]. intros Hc. inv_ok. done. Qed.

Lemma create_tx s run_id ts created st child created_at defs :
  consistent s -> ~ known s run_id ->
  let first := build run_id 1 ts Kind.RunCreated Act.kernel (ser_RunCreated created) ZERO_HASH in
  from_created first = Ok st ->
  tx_ok (with_events (t_events s ++ [event_row first]) s)
    {| rt_ts := ts; rt_defs := defs;
       rt_run := {| row_state := st; row_child_remit_id := child; row_created_at := created_at;
                    row_updated_at := created_at; row_last_hash := ev_hash first |} |}.
Proof.
  intros Hc Hn first Hf. destruct (unknown_rows _ _ Hc Hn) as [He Hst].
  destruct (from_created_ids _ _ Hf) as (Hid & Hseq & Hsteps).
  change (ev_run_id first) with run_id in Hid. destruct Hc.
  constructor; unfold rt_state; cbn [rt_run row_state row_last_hash]; rewrite ?Hid; auto.
  - eapply List.Forall_impl; [|exact co_runs0]. intros r Hr Hne. by apply run_ok_other.
  - cbn. apply Forall_app. split; [eapply List.Forall_impl; [|exact co_events0]; auto|].
    constructor; [by intros [] | constructor].
  - eapply List.Forall_impl; [|exact co_steps0]. auto.
  - exists [first], st. split; [|split; [reflexivity|]].
    + constructor; try done.
      * rewrite event_rows_app, He. cbn. by rewrite String.eqb_refl.
      * by repeat constructor.
      * cbn [fold apply_all rbind]. by rewrite Hf.
      * eapply from_created_wf; [exact Hf|]. intros p Hp.
        by apply (payload_value_nums (PRunCreated created) p).
    + exists []. unfold step_rows in *. cbn. by rewrite Hst, Hsteps.
Qed.
End Inv.
