(* ===== verification/KernelInv.v ===== *)
(** * Every operation keeps the store consistent

    From the empty store, whatever operations run, in whatever order and whatever they
    return, the events of every run link and fold, and the rows are what they fold to. *)

From S2P Require Import Prelude Text Ids F64 Json Policy Lexer Parser PolicyTools Canonical Time.
From S2P Require Import Errors Keys Remit Payloads PayloadLaws Events Fold RunJson FoldSpec.
From S2P Require Import Template Schema Bundle Store Kernel Scenario Hoare StoreInv.
From Stdlib Require Import Ascii.

Local Open Scope string_scope.
Local Open Scope list_scope.
Local Open Scope Z_scope.

(** ** Steps that leave the log and the rows alone *)

Abbreviation Frames := (Evolves same_core).

#[export] Instance same_core_preorder : PreOrder same_core.
Proof. split; [done|]. intros s1 s2 s3 (?&?&?) (?&?&?). repeat split; congruence. Qed.

#[export] Instance frames_end_lease id st : Frames (end_lease id st).
Proof. by intros s. Qed.
#[export] Instance frames_set_lease_expiry id t : Frames (set_lease_expiry id t).
Proof. by intros s. Qed.
#[export] Instance frames_record_decision id d a r t : Frames (record_decision id d a r t).
Proof. by intros s. Qed.
#[export] Instance frames_escalate_approval id a t : Frames (escalate_approval id a t).
Proof. by intros s. Qed.
#[export] Instance frames_park_approval id : Frames (park_approval id).
Proof. by intros s. Qed.
#[export] Instance frames_bind_remit id r : Frames (bind_remit id r).
Proof. by intros s. Qed.
#[export] Instance frames_upsert_action a : Frames (upsert_action a).
Proof. intros s. unfold upsert_action, kput. cbn. by destruct (any _ _). Qed.
#[export] Instance frames_insert_lease l : Frames (insert_lease l).
Proof. intros s. unfold insert_lease. by destruct (any _ _). Qed.
#[export] Instance frames_insert_remit l : Frames (insert_remit l).
Proof. intros s. unfold insert_remit. by destruct (any _ _). Qed.
#[export] Instance frames_insert_approval l : Frames (insert_approval l).
Proof. intros s. unfold insert_approval. by destruct (any _ _). Qed.
#[export] Instance frames_insert_bundle l : Frames (insert_bundle l).
Proof. intros s. unfold insert_bundle. by destruct (_ || _). Qed.
#[export] Instance frames_insert_policy l : Frames (insert_policy l).
Proof. intros s. unfold insert_policy. by destruct (_ || _). Qed.

Definition stable (P : Store -> Prop) : Prop := forall s s', same_core s s' -> P s -> P s'.

Lemma hoare_frame {A} (m : M A) P (E : Store -> Prop) :
  Frames m -> stable P -> (forall s, P s -> E s) -> {{ P }} m {{ fun _ => P }} else {{ E }}.
Proof.
  intros Hm Hp He s Hs. specialize (Hm s). destruct (m s) as [[a|e] s1]; cbn in Hm.
  - by eapply Hp.
  - apply He. by eapply Hp.
Qed.

Section KernelInv.
Context `{FloatFormat, Sha256, JsonPrint, Crypto, JsonText, Regex, UnicodeTables, F64Display}.
Variable k : Kernel.

(** ** Inside a transaction *)

(** The transaction is under way and [F], which may only hold of a log that is small. *)
Definition TXF (F : Prop) (rt : RunTx) (s : Store) : Prop := small s -> tx_ok s rt /\ F.

Lemma INV_stable : stable INV.
Proof. intros s s'. apply INV_core. Qed.

Lemma TXF_stable F rt : stable (TXF F rt).
Proof.
  intros s s' Hc Ht Hs. destruct (Ht (small_core _ _ Hc Hs)). split; [by eapply tx_ok_core | done].
Qed.

Lemma tx_ok_row s rt rt' : rt_run rt' = rt_run rt -> tx_ok s rt -> tx_ok s rt'.
Proof. intros Hr []. unfold rt_state in *. rewrite <- Hr in *. by constructor. Qed.

Lemma TXF_row F rt rt' s : rt_run rt' = rt_run rt -> TXF F rt s -> TXF F rt' s.
Proof. intros Hr Ht Hs. destruct (Ht Hs). split; [by eapply tx_ok_row | done]. Qed.

Lemma TXF_weaken (F G : Prop) rt s : (RunState_wf (rt_state rt) -> F -> G) -> TXF F rt s -> TXF G rt s.
Proof.
  intros Hw Ht Hs. destruct (Ht Hs) as [Hx Hf]. split; [done|]. apply Hw; [|done].
  destruct (tx_run _ _ Hx) as (evs & st & Hl & Hsim & _). eapply sim_wf; [exact Hsim|]. apply Hl.
Qed.

Lemma hoare_append_raw F rt actor kind payload :
  (F -> nums_ok kind payload) ->
  {{ TXF F rt }} append_raw rt actor kind payload {{ fun p => TXF F p.2 }}.
Proof.
  intros Hn s Ht. destruct (append_raw _ _ _ _ s) as [[[e rt']|] s'] eqn:E; [|done].
  cbn. intros Hs. pose proof (append_raw_inv _ _ _ _ _ _ _ _ E) as (_ & Hs' & _).
  assert (small s) as Hs0 by (rewrite Hs' in Hs; by eapply small_shrink).
  destruct (Ht Hs0) as [Hx Hf]. split; [|done].
  eapply append_raw_tx; [exact E | auto | by intros _ | done].
Qed.

Lemma hoare_append F rt actor p :
  (F -> payload_u32 p) -> {{ TXF F rt }} append rt actor p {{ TXF F }}.
Proof.
  intros Hp. unfold append, append_event. eapply hoare_bind.
  - apply hoare_append_raw. intros Hf q. by apply payload_value_nums, Hp.
  - intros [e rt']. apply hoare_ret.
Qed.

Lemma hoare_append_event F rt actor p :
  (F -> payload_u32 p) -> {{ TXF F rt }} append_event rt actor p {{ fun p => TXF F p.2 }}.
Proof. intros Hp. apply hoare_append_raw. intros Hf q. by apply payload_value_nums, Hp. Qed.

Lemma write_steps_events run_id (defs : string -> option json) steps : forall s r s',
  kfor steps (fun step => write_step run_id step (defs (st_id step))) s = (r, s') ->
  t_events s' = t_events s.
Proof.
  induction steps as [|x l IH]; intros s r s' Hf; [by injection Hf as _ ->|].
  cbn [kfor] in Hf. unfold kbind in Hf. destruct (write_step run_id x _ s) as [[v|] s2] eqn:E;
    apply write_step_inv in E as (He & _).
  - by rewrite (IH _ _ _ Hf).
  - by injection Hf as _ ->.
Qed.

Lemma persist_events rt s r s' : persist rt s = (r, s') -> t_events s' = t_events s.
Proof.
  intros (s1 & Hw & Hf)%persist_split. rewrite (write_steps_events _ (fun id => map_get id (rt_defs rt)) _ _ _ _ Hf).
  unfold write_run, kput in Hw. injection Hw as <-. by destruct (any _ _).
Qed.

Lemma hoare_persist F rt : {{ TXF F rt }} persist rt {{ fun _ => INV }}.
Proof.
  intros s Ht. destruct (persist rt s) as [[u|] s'] eqn:E; [|done]. intros Hs.
  destruct (Ht ltac:(unfold small in *; by rewrite <- (persist_events _ _ _ _ E))) as [Hx _].
  by destruct (persist_inv _ _ _ _ E Hx).
Qed.

Lemma hoare_load now run_id : {{ INV }} load_run now run_id {{ TXF True }}.
Proof.
  intros s Hi. unfold load_run, kbind, kread, kret. destruct (require_run run_id s) as [row|] eqn:E; [|done].
  intros Hs. split; [|done]. eapply consistent_tx; [by apply Hi | exact E].
Qed.

(** ** Operations *)

(** One step of a program: an append, a persist, or anything that frames. *)
Ltac frame := apply hoare_frame; [apply _ | first [apply INV_stable | apply TXF_stable] | done || by intros ? _].
Ltac one :=
  first [ apply hoare_append; (by intros _) || auto
        | apply hoare_append_event; (by intros _) || auto
        | apply hoare_persist | apply hoare_load
        | frame ].
Ltac step := eapply hoare_bind; [one | cbv beta].
Ltac done_ret := first [apply hoare_ret | eapply hoare_conseq; [ | | | apply hoare_ret]; auto].

Lemma hoare_park F rt reason detail : {{ TXF F rt }} park rt reason detail {{ TXF F }}.
Proof. by apply hoare_append. Qed.

Lemma hoare_create c run_id child created : {{ INV }} create_run c run_id child created {{ TXF True }}.
Proof.
  intros s Hi. unfold create_run, kbind, klift, kret.
  set (first := build _ _ _ _ _ _ _).
  destruct (insert_event first s) as [[u|] s1] eqn:E; [|done].
  destruct (from_created first) as [st|] eqn:Ef; [|done]. intros Hs. split; [|done].
  pose proof E as E'. apply insert_event_inv in E' as ->.
  assert (consistent s) as Hc by (apply Hi; by eapply small_shrink).
  apply create_tx; [done| |done]. intros (e & Hin & Hid & Hseq)%known_first; [|done].
  unfold insert_event in E. destruct (any _ _) eqn:Ea; [done|].
  apply not_true_iff_false in Ea. apply Ea, any_true. exists e. split; [done|].
  unfold same_event_key. rewrite Hid, Hseq. cbn. by rewrite String.eqb_refl.
Qed.

Lemma u32_mod z : u32_ok (z mod 2 ^ 32).
Proof. unfold u32_ok, u32_max. pose proof (Z.mod_pos_bound z (2 ^ 32)). lia. Qed.

Lemma u32_add_ok a b : u32_ok (u32_add a b).
Proof. apply u32_mod. Qed.

Lemma hoare_schedule_step acc x :
  {{ TXF True acc.1 }} schedule_step acc x {{ fun acc => TXF True acc.1 }}.
Proof.
  destruct acc as [rt index]. unfold schedule_step. eapply hoare_bind.
  - eapply hoare_pre; [|apply (hoare_append True); intros _; apply u32_mod].
    intros s. by apply TXF_row.
  - intros rt'. apply (hoare_ret (rt', index + 1) (fun acc => TXF True acc.1)).
Qed.

#[export] Instance frames_check_start c request : Frames (check_start c request).
Proof. unfold check_start. apply _. Qed.

(** What an operation must do, whether it succeeds or not. *)
Definition keeps {A} (m : M A) : Prop := {{ INV }} m {{ fun _ => INV }} else {{ INV }}.

Lemma start_run_keeps c request : keeps (start_run k c request).
Proof.
  unfold keeps, start_run. apply hoare_transaction; [done|].
  step. intros [[bundle_row remit] rb]. step. intros _. step. intros _.
  eapply hoare_bind; [apply hoare_create|]. intros rt.
  eapply hoare_bind; [apply (hoare_fold _ (rt, 0) _ (fun acc => TXF True acc.1));
                      intros; apply hoare_schedule_step|].
  intros [rt' n]. cbn [fst]. step. intros _. apply (hoare_ret _ (fun _ => INV)).
Qed.

(** *** Expiring a lease, which is also done on the way to a committed failure *)

Lemma apply_expired s run_id seq ts actor p prev :
  apply s (build run_id seq ts (payload_kind (PStepLeaseExpired p)) actor
             (payload_value (PStepLeaseExpired p)) prev) =
  Ok (update_step (sle_step p) expire_step (set_last_seq seq s)).
Proof.
  rewrite (apply_decoded _ _ (PStepLeaseExpired p)); [done|]. by apply decode_encode_payload.
Qed.

Lemma append_expired rt actor p s :
  match append rt actor (PStepLeaseExpired p) s with
  | (Ok rt', s') => step_rows (rs_run_id (rt_state rt)) s' = step_rows (rs_run_id (rt_state rt)) s /\
      rs_run_id (rt_state rt') = rs_run_id (rt_state rt) /\
      map st_id (rs_steps (rt_state rt')) = map st_id (rs_steps (rt_state rt))
  | (Err _, s') => s' = s
  end.
Proof.
  unfold append, append_event, append_raw, kbind, klift, kret. rewrite apply_expired.
  unfold insert_event. destruct (any _ _); [done|]. cbn. split; [done|]. split; [done|].
  by apply map_update_first.
Qed.

Lemma append_small rt actor p s rt' s1 : append rt actor p s = (Ok rt', s1) -> small s1 -> small s.
Proof.
  unfold append, append_event, kbind, kret. destruct (append_raw _ _ _ _ s) as [[[e rt1]|] s2] eqn:Ew; [|done].
  intros [= _ <-]. apply append_raw_inv in Ew as (_ & -> & _). by apply small_shrink.
Qed.

(** The rows of the steps are there, so writing the expiry succeeds. *)
Lemma expired_persists rt actor p s rt' s1 e s2 :
  INV s -> require_run (rs_run_id (rt_state rt)) s = Ok (rt_run rt) ->
  append rt actor (PStepLeaseExpired p) s = (Ok rt', s1) -> persist rt' s1 = (Err e, s2) -> ~ small s2.
Proof.
  intros Hi Er Ea Ep Hs. pose proof (persist_events _ _ _ _ Ep) as Hev.
  assert (small s1) as Hs1 by (unfold small in *; by rewrite <- Hev).
  pose proof (append_small _ _ _ _ _ _ Ea Hs1) as Hs0.
  assert (TXF True rt s) as Ht.
  { intros _. split; [|done]. eapply tx_ok_row; [|eapply (consistent_tx _ _ _ (rt_ts rt) []); [by apply Hi | exact Er]]. done. }
  pose proof (append_expired rt actor p s) as Ha. rewrite Ea in Ha.
  pose proof (hoare_append True rt actor (PStepLeaseExpired p) (fun _ => I) s Ht) as Htx. rewrite Ea in Htx.
  destruct (persist_inv _ _ _ _ Ep (proj1 (Htx Hs1))) as [_ (id & Hin & Hni)].
  destruct Ha as (Hrows & Hid & Hids). apply Hni. rewrite Hid, Hrows. rewrite Hids in Hin.
  destruct (require_run_ok _ _ _ (Hi Hs0) Er) as (Hrid & evs & st & r & _ & _ & Hst & _ & Hf).
  rewrite <- (shows_ids _ _ _ Hf). unfold rt_state in Hin. rewrite Hst in Hin. by rewrite (sim_ids _ _ (sim_norm st)) in Hin.
Qed.

Lemma expire_lease_keeps now l : keeps (expire_lease now l).
Proof.
  intros s Hi. unfold expire_lease, load_run, kread. unfold kbind at 1 2. unfold kret at 1.
  destruct (require_run (le_run_id l) s) as [row|] eqn:Er; [|done].
  set (rt := {| rt_ts := _; rt_run := row; rt_defs := _ |}).
  assert (TXF True rt s) as Ht.
  { intros Hs. split; [|done]. eapply consistent_tx; [by apply Hi | exact Er]. }
  unfold kbind at 1. destruct (lease_held (rt_state rt) l); [|by apply (INV_core s)].
  unfold kbind. set (p := {| sle_step := _; sle_lease_id := _; sle_worker_id := _ |}).
  pose proof (append_expired rt (Act.system "lease-sweeper") p s) as Ha.
  pose proof (hoare_append True rt (Act.system "lease-sweeper") (PStepLeaseExpired p) (fun _ => I) s Ht) as Htx.
  destruct (append rt _ _ s) as [[rt'|e] s1] eqn:Ea; [|by rewrite Ha].
  pose proof (hoare_persist True rt' s1 Htx) as Hp.
  destruct (persist rt' s1) as [[u|e] s2] eqn:Ep; [by apply (INV_core s2)|].
  intros Hs. exfalso. apply (expired_persists rt (Act.system "lease-sweeper") p s rt' s1 e s2); try done.
  assert (small s) as Hs0.
  { eapply append_small; [exact Ea|]. unfold small in *. by rewrite <- (persist_events _ _ _ _ Ep). }
  destruct (require_run_ok _ _ _ (Hi Hs0) Er) as (E & _). change (rs_run_id (rt_state rt) = le_run_id l) in E. by rewrite E.
Qed.

Lemma keeps_INV {A} (m : M A) : keeps m -> {{ INV }} m {{ fun _ => INV }}.
Proof. intros Hm. eapply hoare_conseq; [..|exact Hm]; done. Qed.

Lemma live_lease_keeps now id : keeps (live_lease now id).
Proof.
  unfold keeps, live_lease. step. intros s. step. intros l.
  destruct (_ && _).
  - eapply hoare_bind; [apply expire_lease_keeps|]. intros u. apply hoare_fail.
  - step. intros _. apply (hoare_ret l (fun _ => INV)).
Qed.

Lemma hoare_leased_run now id :
  {{ INV }} leased_run now id {{ fun p => TXF True p.2 }} else {{ INV }}.
Proof.
  unfold leased_run. eapply hoare_bind; [apply live_lease_keeps|]. intros l. eapply hoare_bind.
  - instantiate (1 := fun rt s => INV s /\ TXF True rt s). intros s Hi. pose proof (hoare_load now (le_run_id l) s Hi) as Hl.
    unfold load_run, kbind, kread, kret in *. by destruct (require_run _ s).
  - intros rt. destruct (step_held _ _).
    + intros s [_ Ht]. exact Ht.
    + eapply hoare_bind; [eapply (hoare_pre _ INV); [by intros s []|]; frame|]. intros u. apply hoare_fail.
Qed.

Lemma heartbeat_keeps c id : keeps (heartbeat c id).
Proof.
  unfold keeps, heartbeat. eapply hoare_commit; [done | apply live_lease_keeps|]. intros l.
  step. intros _. apply (hoare_ret _ (fun _ => INV)).
Qed.

(** *** Working on a step *)

Lemma hoare_record_usage F rt step_id usage :
  {{ TXF F rt }} record_usage rt step_id usage {{ fun p => TXF F p.1 }}.
Proof.
  unfold record_usage. destruct usage as [u|]; [|apply (hoare_ret (rt, false) (fun p => TXF F p.1))].
  step. intros rt1. eapply hoare_bind.
  - instantiate (1 := TXF F). destruct (soft_threshold _ _ _); [by apply hoare_append | apply hoare_ret].
  - intros rt2. apply (hoare_ret (rt2, _) (fun p => TXF F p.1)).
Qed.

#[export] Instance frames_for_step_of run_id id : Frames (for_step_of run_id id).
Proof. unfold for_step_of. apply _. Qed.

Lemma hoare_after_completion F rt run_id st output exceeded :
  {{ TXF F rt }} after_completion rt run_id st output exceeded {{ TXF F }}.
Proof.
  unfold after_completion. destruct (is_compensation st); [step; intros for_step; one|].
  destruct (negb _); [one|]. destruct (_ && _); [|apply hoare_ret].
  step. intros rt1. apply hoare_park.
Qed.

Lemma nums_free kind payload :
  (forall p, payload_kind p = kind -> payload_nums p) -> nums_ok kind payload.
Proof. intros Hk p Hp%decode_payload_kind. by apply Hk. Qed.

Lemma complete_keeps c id output usage : keeps (complete c id output usage).
Proof.
  unfold keeps, complete. eapply hoare_commit; [done | apply hoare_leased_run|]. intros [l rt]. cbn [snd].
  step. intros st. step. intros payload.
  eapply hoare_bind; [apply hoare_append_raw; intros _; apply nums_free; by intros []|].
  intros [e rt1]. cbn [snd]. step. intros _.
  eapply hoare_bind; [apply hoare_record_usage|]. intros [rt2 exceeded]. cbn [fst].
  eapply hoare_bind; [apply hoare_after_completion|]. intros rt3.
  step. intros _. apply (hoare_ret _ (fun _ => INV)).
Qed.

Lemma hoare_quarantine F rt run_id st error det :
  {{ TXF F rt }} quarantine rt run_id st error det {{ TXF F }}.
Proof.
  unfold quarantine. step. intros rt1. destruct (is_compensation st); [|apply hoare_park].
  step. intros for_step. step. intros rt2. one.
Qed.

Lemma hoare_after_failure c F rt run_id st error det :
  {{ TXF F rt }} after_failure k c rt run_id st error det {{ fun p => TXF F p.1 }}.
Proof.
  unfold after_failure. destruct (_ && _); [|destruct (_ <=? _)].
  - eapply hoare_bind; [apply hoare_park|]. intros rt1. apply (hoare_ret (rt1, _) (fun p => TXF F p.1)).
  - eapply hoare_bind; [apply hoare_quarantine|]. intros rt1. apply (hoare_ret (rt1, _) (fun p => TXF F p.1)).
  - step. intros rt1. apply (hoare_ret (rt1, _) (fun p => TXF F p.1)).
Qed.

Lemma fail_keeps c id error det : keeps (fail k c id error det).
Proof.
  unfold keeps, fail. eapply hoare_commit; [done | apply hoare_leased_run|]. intros [l rt]. cbn [snd].
  step. intros st. step. intros rt1. step. intros _.
  eapply hoare_bind; [apply hoare_after_failure|]. intros [rt2 result]. cbn [fst].
  step. intros _. apply (hoare_ret _ (fun _ => INV)).
Qed.

Lemma hoare_request_approval c F rt p d action_id :
  {{ TXF F rt }} request_approval c rt p d action_id {{ fun r => TXF F r.1 }}.
Proof.
  unfold request_approval. step. intros rt1. step. intros rt2.
  eapply hoare_bind; [apply hoare_park|]. intros rt3. step. intros _. step. intros _.
  apply (hoare_ret (rt3, _) (fun r => TXF F r.1)).
Qed.

Lemma hoare_decide_action c F rt p d refs : {{ TXF F rt }} decide_action c rt p d refs {{ fun _ => INV }}.
Proof.
  unfold decide_action, propose. step. intros rt1. step. intros [decided rt2]. cbn [snd]. eapply hoare_bind.
  - instantiate (1 := fun r => TXF F r.1). destruct (decision d); try apply (hoare_ret (rt2, None) (fun r => TXF F r.1)).
    eapply hoare_bind; [apply hoare_request_approval|]. intros [rt3 id].
    apply (hoare_ret (rt3, Some id) (fun r => TXF F r.1)).
  - intros [rt3 o]. cbn [fst]. step. intros _. step. intros _. apply (hoare_ret _ (fun _ => INV)).
Qed.

Lemma propose_action_keeps c id action : keeps (propose_action c id action).
Proof.
  unfold keeps, propose_action. step. intros _.
  eapply hoare_commit; [done | apply hoare_leased_run|]. intros [l rt]. cbn [snd].
  step. intros o. step. intros child. step. intros s0.
  destruct (find_first _ _) as [approval|].
  - unfold reuse_approval, propose. step. intros rt1. step. intros [decided rt2]. cbn [snd].
    step. intros _. step. intros _. apply (hoare_ret _ (fun _ => INV)).
  - step. intros [policies refs]. apply hoare_decide_action.
Qed.

(** *** Approvals, abandoning and resuming *)

(** A step of the state, and one of several, has an index in range. *)
Definition step_u32 (o : option StepState) : Prop := forall st, o = Some st -> u32_ok (st_index st).
Definition steps_u32 (l : list StepState) : Prop := Forall (fun st => u32_ok (st_index st)) l.

Lemma wf_steps_u32 s l : RunState_wf s -> (forall st, In st l -> In st (rs_steps s)) -> steps_u32 l.
Proof.
  intros [Hs _] Hin. unfold steps_u32. rewrite List.Forall_forall in *. intros st Hst.
  by destruct (Hs st (Hin st Hst)).
Qed.

Lemma wf_step_u32 s id : RunState_wf s -> step_u32 (find_step id s).
Proof.
  intros [Hs _] st [Hin _]%find_first_some. rewrite List.Forall_forall in Hs. by destruct (Hs st Hin).
Qed.

Lemma hoare_after_approval rt o :
  {{ TXF (step_u32 o) rt }} after_approval rt o {{ TXF (step_u32 o) }}.
Proof.
  unfold after_approval. eapply hoare_bind.
  - instantiate (1 := TXF (step_u32 o)). destruct (is_status _ _); [one | apply hoare_ret].
  - intros rt1. destruct o as [st|]; [|apply hoare_ret]. apply hoare_append. intros Hu. by apply Hu.
Qed.

Lemma hoare_after_rejection F rt o actor reason :
  {{ TXF F rt }} after_rejection rt o actor reason {{ TXF F }}.
Proof.
  unfold after_rejection. eapply hoare_bind.
  - instantiate (1 := TXF F). destruct o as [st|]; [one | apply hoare_ret].
  - intros rt1. one.
Qed.

Lemma decide_approval_keeps c id decision actor reason : keeps (decide_approval c id decision actor reason).
Proof.
  unfold keeps, decide_approval. step. intros _. step. intros _. step. intros _.
  apply hoare_transaction; [done|]. step. intros s0. step. intros approval. step. intros _. step. intros _.
  step. intros rt. step. intros _. step. intros rt1.
  apply (hoare_pre _ (TXF (step_u32 (find_step (apr_step_id approval) (rt_state rt1))) rt1)).
  { intros s. apply TXF_weaken. intros Hw _. by apply wf_step_u32. }
  eapply hoare_bind.
  - instantiate (1 := TXF (step_u32 (find_step (apr_step_id approval) (rt_state rt1)))).
    destruct (String.eqb _ _); [apply hoare_after_approval | apply hoare_after_rejection].
  - intros rt2. step. intros _. apply (hoare_ret _ (fun _ => INV)).
Qed.

Lemma max_index_ok l : u32_ok (max_index l).
Proof.
  unfold max_index, u32_ok. induction l as [|st l IH]; cbn; [done|].
  pose proof (u32_add_ok (st_index st) 1) as Hu. unfold u32_ok in Hu. lia.
Qed.

(** Unwinding keeps the transaction and the next index in range. *)
Definition unwinding (F : Prop) (u : Unwind) (s : Store) : Prop :=
  u32_ok (uw_next_index u) /\ TXF F (uw_rt u) s.

Lemma unwinding_stable F u : stable (unwinding F u).
Proof. intros s s' Hc [Hu Ht]. split; [done|]. by eapply TXF_stable. Qed.

Lemma hoare_unwind_step F run_id state u st :
  {{ unwinding F u }} unwind_step run_id state u st {{ unwinding F }}.
Proof.
  unfold unwind_step. destruct (any _ _); [apply hoare_ret|]. unfold unwinding at 1. apply hoare_pure. intros Hu.
  step. intros [row|]; [|by intros s Hs].
  destruct (declared_compensation _) as [[tool template]|]; [|by intros s Hs].
  destruct (resolve _ _) as [args|e].
  - step. intros rt1. eapply hoare_bind.
    + eapply hoare_pre; [|apply (hoare_append F); by intros _]. intros s. by apply TXF_row.
    + intros rt2 s Hs. split; [apply u32_add_ok | exact Hs].
  - step. intros rt1 s Hs. by split.
Qed.

Lemma abandon_keeps c run_id reason actor : keeps (abandon c run_id reason actor).
Proof.
  unfold keeps, abandon. apply hoare_transaction; [done|]. step. intros rt. step. intros _. step. intros _.
  step. intros s0. step. intros _. step. intros s1. step. intros _. step. intros rt1. eapply hoare_bind.
  - eapply hoare_pre; [|apply (hoare_fold _ _ _ (unwinding True)); intros; apply hoare_unwind_step].
    intros s Hs. split; [apply max_index_ok | exact Hs].
  - intros u. unfold unwinding. apply hoare_pure. intros _. eapply hoare_bind.
    + instantiate (1 := TXF True). destruct (uw_failed u); [one | apply hoare_ret].
    + intros rt2. step. intros _. apply (hoare_ret _ (fun _ => INV)).
Qed.

Lemma workflow_steps_in f s st : In st (List.filter f (workflow_steps s)) -> In st (rs_steps s).
Proof. intros [Hin _]%filter_In. by apply filter_In in Hin as [Hin _]. Qed.

Lemma resume_keeps c run_id actor : keeps (resume c run_id actor).
Proof.
  unfold keeps, resume. apply hoare_transaction; [done|]. step. intros rt. step. intros _. step. intros _.
  step. intros s0. step. intros _. step. intros rt1. set (stuck := List.filter _ _).
  apply (hoare_pre _ (TXF (steps_u32 stuck) rt1)).
  { intros s. apply TXF_weaken. intros Hw _. eapply wf_steps_u32; [exact Hw|]. apply workflow_steps_in. }
  eapply hoare_bind.
  - apply (hoare_fold _ rt1 _ (TXF (steps_u32 stuck))). intros rt2 st Hin. apply hoare_append.
    intros Hu. unfold steps_u32 in Hu. rewrite List.Forall_forall in Hu. by apply Hu.
  - intros rt2. step. intros _. apply (hoare_ret _ (fun _ => INV)).
Qed.

(** *** The rest *)

Lemma lease_keeps c request : keeps (lease k c request).
Proof.
  unfold keeps, lease. step. intros _. apply hoare_transaction; [done|]. step. intros s0.
  destruct (pick_runnable _ _ _) as [[run_id step_id]|]; [|apply (hoare_ret _ (fun _ => INV))].
  eapply hoare_bind; [|intros g; apply (hoare_ret _ (fun _ => INV))].
  unfold grant. step. intros rt. step. intros st. step. intros o. step. intros step_row. step. intros s1.
  step. intros bundle_row. step. intros o'. step. intros child.
  eapply hoare_bind; [apply hoare_append; intros _; apply u32_add_ok|]. intros rt1.
  step. intros _. step. intros s2. step. intros prior. step. intros _. apply (hoare_ret _ (fun _ => INV)).
Qed.

#[export] Instance frames_authorise c run_id payload auth rt : Frames (authorise k c run_id payload auth rt).
Proof. unfold authorise. apply evolves_bind; [apply _..|]. intros s. destruct auth; [apply _| |apply _].
  destruct (verify_remit_token _ _ _); apply _. Qed.

Lemma external_nums kind payload : Kind.is_external kind = true -> nums_ok kind payload.
Proof. intros He. apply nums_free. intros p <-. by destruct p. Qed.

Lemma post_external_event_keeps c run_id kind payload actor auth :
  keeps (post_external_event k c run_id kind payload actor auth).
Proof.
  unfold keeps, post_external_event. step. intros kd. eapply hoare_bind.
  { apply (hoare_guard _ _ _ (fun _ s => Kind.is_external kd = true /\ INV s)); [|done]. intros s Hk Hs. exact (conj Hk Hs). }
  intros u. apply hoare_pure. intros Hk. step. intros act. step. intros _. step. intros pl.
  apply hoare_transaction; [done|]. step. intros rt. step. intros _.
  eapply hoare_bind; [apply hoare_append_raw; intros _; by apply external_nums|]. intros [e rt1]. cbn [snd].
  step. intros _. apply (hoare_ret _ (fun _ => INV)).
Qed.

Lemma sweep_leases_keeps c : keeps (sweep_leases c).
Proof.
  unfold keeps, sweep_leases. apply hoare_transaction; [done|]. step. intros s0.
  eapply hoare_bind; [apply hoare_for; intros l _; apply keeps_INV, expire_lease_keeps|].
  intros u. apply (hoare_ret _ (fun _ => INV)).
Qed.

Lemma hoare_sweep_approval now a : {{ INV }} sweep_approval k now a {{ fun _ => INV }}.
Proof.
  unfold sweep_approval. step. intros rt. eapply hoare_bind.
  - instantiate (1 := TXF True). destruct (_ =? _); step; intros rt1; step; intros _; apply hoare_ret.
  - intros rt1. one.
Qed.

Lemma sweep_approvals_keeps c : keeps (sweep_approvals k c).
Proof.
  unfold keeps, sweep_approvals. apply hoare_transaction; [done|]. step. intros s0. eapply hoare_bind.
  - apply hoare_for. intros a _. apply hoare_sweep_approval.
  - intros u. apply (hoare_ret _ (fun _ => INV)).
Qed.

Lemma frames_keeps {A} (m : M A) : Frames m -> keeps m.
Proof. intros Hm. apply hoare_frame; [done | apply INV_stable | done]. Qed.

Lemma apply_bundle_keeps c bundle signature : keeps (apply_bundle k c bundle signature).
Proof.
  apply frames_keeps. unfold apply_bundle. do 3 (apply evolves_bind; [apply _..|]; intros ?).
  destruct (find_bundle _ _ _) as [b|]; [destruct (String.eqb _ _)|]; apply _.
Qed.

Lemma apply_policy_keeps c name version source : keeps (apply_policy c name version source).
Proof.
  apply frames_keeps. unfold apply_policy. do 3 (apply evolves_bind; [apply _..|]; intros ?).
  destruct (get_policy _ _ _) as [b|]; [destruct (String.eqb _ _)|]; apply _.
Qed.

Lemma issue_remit_keeps c request : keeps (issue_remit k c request).
Proof. apply frames_keeps. unfold issue_remit, store_remit. apply _. Qed.

Lemma derive_remit_keeps c id request : keeps (derive_remit k c id request).
Proof. apply frames_keeps. unfold derive_remit, store_remit. apply _. Qed.
End KernelInv.

(** ** Reachable stores *)

Section Reachable.
Context `{FloatFormat, Sha256, JsonPrint, Crypto, JsonText, Regex, UnicodeTables, F64Display}.

Lemma keeps_after {A} (m : M A) s : keeps m -> INV s -> INV (after m s).
Proof. intros Hm Hs. specialize (Hm s Hs). unfold after. by destruct (m s) as [[]]. Qed.

Lemma exec_INV k c op s : INV s -> INV (exec k c op s).
Proof.
  destruct op; apply keeps_after;
    [ apply apply_bundle_keeps | apply apply_policy_keeps | apply issue_remit_keeps | apply derive_remit_keeps
    | apply start_run_keeps | apply post_external_event_keeps | apply abandon_keeps | apply resume_keeps
    | apply lease_keeps | apply heartbeat_keeps | apply complete_keeps | apply fail_keeps
    | apply propose_action_keeps | apply decide_approval_keeps | apply sweep_leases_keeps
    | apply sweep_approvals_keeps ].
Qed.

Lemma reachable_INV s : reachable s -> INV s.
Proof. induction 1; [by intros _; apply empty_consistent | by apply exec_INV]. Qed.

End Reachable.

Import Demo.

