(* ===== verification/Replay.v ===== *)
(** * Replay

    [kernos-core/src/replay.rs]: the three checks over the stored stream of a run (the hash
    chain, the fold against the materialised row, every recorded policy decision evaluated
    again), and what they report on a store the kernel wrote. *)

From S2P Require Import Prelude Text F64 Json Policy Lexer Canonical Time Errors Keys Remit.
From S2P Require Import Payloads PayloadLaws Events Fold RunJson FoldSpec Template Schema Bundle.
From S2P Require Import Store Kernel Scenario Hoare StoreInv KernelInv.
From Stdlib Require Import Ascii.

Local Open Scope string_scope.
Local Open Scope list_scope.
Local Open Scope Z_scope.

(** ** [PartialEq] of the folded state *)

Definition opt_eqb {A} (eqb : A -> A -> bool) (a b : option A) : bool :=
  match a, b with
  | Some a, Some b => eqb a b
  | None, None => true
  | _, _ => false
  end.

Fixpoint list_eqb {A} (eqb : A -> A -> bool) (a b : list A) : bool :=
  match a, b with
  | [], [] => true
  | x :: a, y :: b => eqb x y && list_eqb eqb a b
  | _, _ => false
  end.

Definition BundleRef_eqb (a b : BundleRef) : bool :=
  String.eqb (br_id a) (br_id b) && String.eqb (br_name a) (br_name b)
  && String.eqb (br_version a) (br_version b).

Definition LeaseInfo_eqb (a b : LeaseInfo) : bool :=
  String.eqb (li_lease_id a) (li_lease_id b) && String.eqb (li_worker_id a) (li_worker_id b)
  && (li_attempt a =? li_attempt b) && String.eqb (li_expires_at a) (li_expires_at b).

Definition StepState_eqb (a b : StepState) : bool :=
  String.eqb (st_id a) (st_id b) && (st_index a =? st_index b) && String.eqb (st_kind a) (st_kind b)
  && bool_decide (st_state a = st_state b) && (st_attempts a =? st_attempts b)
  && opt_eqb LeaseInfo_eqb (st_lease a) (st_lease b)
  && opt_eqb json_eqb (st_output a) (st_output b) && opt_eqb json_eqb (st_error a) (st_error b)
  && opt_eqb String.eqb (st_action_id a) (st_action_id b)
  && opt_eqb String.eqb (st_approval_id a) (st_approval_id b)
  && opt_eqb String.eqb (st_not_before a) (st_not_before b).

Definition BudgetState_eqb (a b : BudgetState) : bool :=
  opt_eqb Z.eqb (bu_ceiling_tokens a) (bu_ceiling_tokens b)
  && opt_eqb f64_eqb (bu_ceiling_usd a) (bu_ceiling_usd b) && f64_eqb (bu_soft_ratio a) (bu_soft_ratio b)
  && (bu_used_tokens a =? bu_used_tokens b) && f64_eqb (bu_used_usd a) (bu_used_usd b)
  && Bool.eqb (bu_soft_hit a) (bu_soft_hit b) && Bool.eqb (bu_exceeded a) (bu_exceeded b).

Definition PendingApproval_eqb (a b : PendingApproval) : bool :=
  String.eqb (pa_approval_id a) (pa_approval_id b) && String.eqb (pa_action_id a) (pa_action_id b)
  && json_eqb (pa_approver a) (pa_approver b) && String.eqb (pa_due_at a) (pa_due_at b).

Definition DecisionRecord_eqb (a b : DecisionRecord) : bool :=
  String.eqb (dr_action_id a) (dr_action_id b) && String.eqb (dr_decision a) (dr_decision b)
  && String.eqb (dr_rule a) (dr_rule b) && opt_eqb String.eqb (dr_policy a) (dr_policy b)
  && json_eqb (dr_policy_version a) (dr_policy_version b).

Definition CompensationState_eqb (a b : CompensationState) : bool :=
  String.eqb (co_for_step a) (co_for_step b) && String.eqb (co_step a) (co_step b)
  && String.eqb (co_state a) (co_state b).

(** The fields in two groups: those JSON may not keep, and the rest. *)
Definition same_rest (a b : RunState) : bool :=
  String.eqb (rs_run_id a) (rs_run_id b) && bool_decide (rs_state a = rs_state b)
  && BundleRef_eqb (rs_bundle a) (rs_bundle b) && opt_eqb String.eqb (rs_department a) (rs_department b)
  && String.eqb (rs_workflow a) (rs_workflow b) && json_eqb (rs_input a) (rs_input b)
  && String.eqb (rs_remit_id a) (rs_remit_id b) && json_eqb (rs_requested_by a) (rs_requested_by b)
  && BudgetState_eqb (rs_budget a) (rs_budget b)
  && opt_eqb PendingApproval_eqb (rs_pending_approval a) (rs_pending_approval b)
  && list_eqb DecisionRecord_eqb (rs_decisions a) (rs_decisions b)
  && list_eqb CompensationState_eqb (rs_compensations a) (rs_compensations b)
  && Bool.eqb (rs_needs_human a) (rs_needs_human b) && Bool.eqb (rs_abandoning a) (rs_abandoning b)
  && opt_eqb String.eqb (rs_park_reason a) (rs_park_reason b) && (rs_last_seq a =? rs_last_seq b).

Definition RunState_eqb (a b : RunState) : bool :=
  list_eqb StepState_eqb (rs_steps a) (rs_steps b)
  && opt_eqb json_eqb (rs_output a) (rs_output b) && opt_eqb json_eqb (rs_error a) (rs_error b)
  && same_rest a b.

(** ** The report *)

(** The JSON objects of the report, by the field [error]. *)
Inductive ChainError :=
| SeqGap (seq expected : Z)
| PrevHashMismatch (seq : Z) (expected actual : string)
| HashMismatch (seq : Z) (expected actual : string)
| LastHashMismatch (seq : Z) (expected actual : string).

Inductive DecisionMismatch :=
| Unreadable (seq : Z)
| NoPriorApproval (seq : Z) (action_id decision rule : string)
| NotFound (seq : Z) (action_id : string)
| PoliciesNotLoaded (seq : Z) (action_id : string) (error : KernelError)
| Differs (seq : Z) (action_id decision rule computed computed_rule : string).

Inductive StateMismatch :=
| FoldFailed (error : FoldError)
| Different (folded materialised : json).

Record ReplayReport := {
  chain_valid : bool; rep_events : Z; state_matches : bool; rep_decisions : Z;
  decision_mismatches : list DecisionMismatch; chain_errors : list ChainError;
  rep_state : RunState; state_mismatch : option StateMismatch }.

(** *** The report as JSON

    Its human sentences, which quote the decoder and the database, are left to the class. *)
Class Sentences := { fold_sentence : FoldError -> string; error_sentence : KernelError -> string }.

Section ReportJson.
Context `{Sentences}.

Definition ser_ChainError (e : ChainError) : json :=
  match e with
  | SeqGap seq expected => obj [("seq", json_u64 seq); ("error", JStr "seq_gap"); ("expected", json_u64 expected)]
  | PrevHashMismatch seq expected actual =>
      obj [("seq", json_u64 seq); ("error", JStr "prev_hash_mismatch"); ("expected", JStr expected); ("actual", JStr actual)]
  | HashMismatch seq expected actual =>
      obj [("seq", json_u64 seq); ("error", JStr "hash_mismatch"); ("expected", JStr expected); ("actual", JStr actual)]
  | LastHashMismatch seq expected actual =>
      obj [("seq", json_u64 seq); ("error", JStr "last_hash_mismatch"); ("expected", JStr expected); ("actual", JStr actual)]
  end.

Definition ruled (decision rule : string) : json := obj [("decision", JStr decision); ("rule", JStr rule)].

Definition ser_DecisionMismatch (m : DecisionMismatch) : json :=
  match m with
  | Unreadable seq => obj [("seq", json_u64 seq); ("error", JStr "unreadable policy.decided")]
  | NoPriorApproval seq action_id decision rule =>
      obj [("seq", json_u64 seq); ("action_id", JStr action_id); ("recorded", ruled decision rule);
           ("computed", ruled "allow" rule); ("error", JStr "no prior approval for the recorded rule")]
  | NotFound seq action_id =>
      obj [("seq", json_u64 seq); ("action_id", JStr action_id); ("error", JStr "action or remit not found")]
  | PoliciesNotLoaded seq action_id e =>
      obj [("seq", json_u64 seq); ("action_id", JStr action_id); ("error", JStr (error_sentence e))]
  | Differs seq action_id decision rule computed computed_rule =>
      obj [("seq", json_u64 seq); ("action_id", JStr action_id); ("recorded", ruled decision rule);
           ("computed", ruled computed computed_rule)]
  end.

Definition ser_StateMismatch (m : StateMismatch) : json :=
  match m with
  | FoldFailed e => obj [("fold_error", JStr (fold_sentence e))]
  | Different folded materialised => obj [("folded", folded); ("materialised", materialised)]
  end.

Definition ser_ReplayReport (r : ReplayReport) : json :=
  obj ([("chain_valid", JBool (chain_valid r)); ("events", json_u64 (rep_events r));
        ("state_matches", JBool (state_matches r)); ("decisions", json_u64 (rep_decisions r));
        ("decision_mismatches", ser_list ser_DecisionMismatch (decision_mismatches r));
        ("chain_errors", ser_list ser_ChainError (chain_errors r));
        ("state", ser_RunState (rep_state r))]
       ++ skip_none "state_mismatch" ser_StateMismatch (state_mismatch r)).
End ReportJson.

Section Replay.
Context `{FloatFormat, Sha256, UnicodeTables}.

(** One event against the sequence number and the hash it should carry. *)
Definition check_event (expected_seq : Z) (prev_hash : string) (e : Event) : list ChainError :=
  (if negb (ev_seq e =? expected_seq) then [SeqGap (ev_seq e) expected_seq] else [])
  ++ (if negb (String.eqb (ev_prev_hash e) prev_hash)
      then [PrevHashMismatch (ev_seq e) prev_hash (ev_prev_hash e)] else [])
  ++ (if negb (String.eqb (ev_hash e) (expected_hash e))
      then [HashMismatch (ev_seq e) (expected_hash e) (ev_hash e)] else []).

(** The loop: the errors and the last hash seen; [i] is the index of the first event. *)
Fixpoint check_chain (i : Z) (prev_hash : string) (events : list Event) : list ChainError * string :=
  match events with
  | [] => ([], prev_hash)
  | e :: events =>
      let (errors, last) := check_chain (i + 1) (ev_hash e) events in
      (check_event (i + 1) prev_hash e ++ errors, last)
  end.

Definition all_chain_errors (row : RunRow) (events : list Event) : list ChainError :=
  let (errors, prev_hash) := check_chain 0 ZERO_HASH events in
  errors ++ if negb (String.eqb (row_last_hash row) prev_hash)
            then [LastHashMismatch (Z.of_nat (length events)) prev_hash (row_last_hash row)] else [].

(** The folded state, whether it matches, and the difference. *)
Definition check_state (row : RunRow) (events : list Event) : RunState * bool * option StateMismatch :=
  match fold events with
  | Ok folded =>
      if RunState_eqb folded (row_state row) then (folded, true, None)
      else (folded, false, Some (Different (ser_RunState folded) (ser_RunState (row_state row))))
  | Err e => (row_state row, false, Some (FoldFailed e))
  end.

Definition str_field_is (k v : string) (j : json) : bool :=
  match jget_str k j with Some x => String.eqb x v | None => false end.

Definition approved_before (approval_id : string) (before : list Event) : bool :=
  any (fun e => bool_decide (ev_kind e = Kind.ApprovalDecided)
                && str_field_is "approval_id" approval_id (ev_payload e)
                && str_field_is "decision" "approved" (ev_payload e)) before.

(** The last proposal of the action before the decision. *)
Definition proposed_action (action_id : string) (before : list Event) : option json :=
  e ← find_first (fun e => bool_decide (ev_kind e = Kind.ActionProposed)
                           && str_field_is "action_id" action_id (ev_payload e)) (rev before);
  jget "action" (ev_payload e).

Definition decided_refs (d : PolicyDecided) : list PolicyRef :=
  match pd_policy_set d with
  | Some set => set
  | None =>
      match pd_policy d, as_u64 (pd_policy_version d) with
      | Some name, Some version => [{| pr_name := name; pr_version := version |}]
      | _, _ => []
      end
  end.

(** One recorded decision: what is wrong with it, if anything. *)
Definition check_decision (s : Store) (folded : RunState) (remit : option RemitPayload)
    (before : list Event) (e : Event) : option DecisionMismatch :=
  match typed (P := PolicyDecided) e with
  | None => Some (Unreadable (ev_seq e))
  | Some d =>
      match strip_prefix "approved:" (pd_rule d) with
      | Some approval_id =>
          if negb (approved_before approval_id before) || negb (String.eqb (pd_decision d) "allow")
          then Some (NoPriorApproval (ev_seq e) (pd_action_id d) (pd_decision d) (pd_rule d))
          else None
      | None =>
          match proposed_action (pd_action_id d) before, remit with
          | Some action, Some remit =>
              match load_policy_refs (decided_refs d) s with
              | Err err => Some (PoliciesNotLoaded (ev_seq e) (pd_action_id d) err)
              | Ok policies =>
                  let computed := evaluate policies (policy_context folded remit action) in
                  if negb (String.eqb (decision_as_str (decision computed)) (pd_decision d))
                     || negb (String.eqb (d_rule computed) (pd_rule d))
                  then Some (Differs (ev_seq e) (pd_action_id d) (pd_decision d) (pd_rule d)
                               (decision_as_str (decision computed)) (d_rule computed))
                  else None
              end
          | _, _ => Some (NotFound (ev_seq e) (pd_action_id d))
          end
      end
  end.

(** The loop over the events: how many decisions, and the mismatches. *)
Fixpoint check_decisions (s : Store) (folded : RunState) (remit : option RemitPayload)
    (before events : list Event) : Z * list DecisionMismatch :=
  match events with
  | [] => (0, [])
  | e :: rest =>
      let (n, mismatches) := check_decisions s folded remit (before ++ [e]) rest in
      if bool_decide (ev_kind e = Kind.PolicyDecided)
      then (n + 1, match check_decision s folded remit before e with
                   | Some m => m :: mismatches | None => mismatches end)
      else (n, mismatches)
  end.

(** Both lookups are made; the child remit is preferred. *)
Definition replay_remit (row : RunRow) (s : Store) : KernelResult (option RemitPayload) :=
  let? child := get_remit (row_child_remit_id row) s in
  let? parent := get_remit (rs_remit_id (row_state row)) s in
  Ok (match child, parent with
      | Some r, _ => Some (rmrow_payload r)
      | None, Some r => Some (rmrow_payload r)
      | None, None => None
      end).

Definition replay_run (row : RunRow) (s : Store) : KernelResult ReplayReport :=
  let? events := all_events (rs_run_id (row_state row)) s in
  let errors := all_chain_errors row events in
  let '(folded, matches, mismatch) := check_state row events in
  let? remit := replay_remit row s in
  let (decisions, mismatches) := check_decisions s folded remit [] events in
  Ok {| chain_valid := match errors with [] => true | _ => false end;
        rep_events := Z.of_nat (length events); state_matches := matches; rep_decisions := decisions;
        decision_mismatches := mismatches; chain_errors := errors; rep_state := folded;
        state_mismatch := mismatch |}.

(** [Kernel::replay] *)
Definition replay (run_id : string) (s : Store) : KernelResult ReplayReport :=
  let? row := require_run run_id s in
  replay_run row s.
End Replay.

(** ** What the checks find *)

Section ReplaySpec.
Context `{FloatFormat, Sha256, UnicodeTables}.

Lemma check_event_ok expected prev e :
  check_event expected prev e = [] <->
  ev_seq e = expected /\ ev_prev_hash e = prev /\ ev_hash e = expected_hash e.
Proof.
  unfold check_event. destruct (Z.eqb_spec (ev_seq e) expected), (String.eqb_spec (ev_prev_hash e) prev),
    (String.eqb_spec (ev_hash e) (expected_hash e)); cbn; split; try done; tauto.
Qed.

Lemma check_chain_last events : forall i prev, (check_chain i prev events).2 = last_hash prev events.
Proof.
  induction events as [|e events IH]; intros i prev; [done|]. cbn.
  specialize (IH (i + 1) (ev_hash e)). by destruct (check_chain (i + 1) (ev_hash e) events).
Qed.

Lemma check_chain_ok events : forall i prev,
  (check_chain i prev events).1 = [] <-> chain_ok (i + 1) prev events.
Proof.
  induction events as [|e events IH]; intros i prev; [done|]. cbn [check_chain chain_ok].
  specialize (IH (i + 1) (ev_hash e)). destruct (check_chain (i + 1) (ev_hash e) events) as [errors last].
  cbn [fst] in *. rewrite <- IH. pose proof (check_event_ok (i + 1) prev e) as Hc.
  destruct (check_event (i + 1) prev e); cbn; [tauto|]. split; [done|]. intros (E1 & E2 & E3 & _).
  discriminate (proj2 Hc (conj E1 (conj E2 E3))).
Qed.

Lemma all_chain_errors_ok row events :
  all_chain_errors row events = [] <->
  chain_ok 1 ZERO_HASH events /\ row_last_hash row = last_hash ZERO_HASH events.
Proof.
  unfold all_chain_errors. pose proof (check_chain_ok events 0 ZERO_HASH) as Hc.
  pose proof (check_chain_last events 0 ZERO_HASH) as Hl.
  destruct (check_chain 0 ZERO_HASH events) as [errors last]. cbn [fst snd] in *. subst last.
  change (0 + 1) with 1 in Hc. rewrite <- Hc.
  destruct (String.eqb_spec (row_last_hash row) (last_hash ZERO_HASH events)); cbn.
  - rewrite app_nil_r. tauto.
  - split; [by destruct errors | tauto].
Qed.

(** ** Reading the log back *)

Lemma insert_by_le {A} (leb : A -> A -> bool) x l :
  (forall y, In y l -> leb x y = true) -> insert_by leb x l = x :: l.
Proof. destruct l as [|y l]; [done|]. intros Hl. cbn. by rewrite (Hl y (or_introl eq_refl)). Qed.

Lemma order_by_sorted {A} (leb : A -> A -> bool) (l : list A) :
  List.ForallOrdPairs (fun x y => leb x y = true) l -> order_by leb l = l.
Proof.
  unfold order_by. induction 1 as [|x l Hx _ IH]; [done|]. cbn. rewrite IH.
  apply insert_by_le. by rewrite List.Forall_forall in Hx.
Qed.

Lemma filter_true {A} (f : A -> bool) l : Forall (fun x => f x = true) l -> List.filter f l = l.
Proof. induction 1 as [|x l Hx _ IH]; [done|]. cbn. by rewrite Hx, IH. Qed.

Lemma filter_filter {A} (f g : A -> bool) l :
  List.filter g (List.filter f l) = List.filter (fun x => f x && g x) l.
Proof. induction l as [|x l IH]; [done|]. cbn. destruct (f x); cbn; [destruct (g x)|]; by rewrite IH. Qed.

(** The sequence numbers of a linked stream. *)
Lemma chain_seqs events : forall seq prev, chain_ok seq prev events ->
  Forall (fun e => seq <= ev_seq e < seq + Z.of_nat (length events)) events /\
  List.ForallOrdPairs (fun a b => ev_seq a <= ev_seq b) events.
Proof.
  induction events as [|e events IH]; intros seq prev Hc; [by split; constructor|].
  destruct Hc as (Hs & _ & _ & Hc). destruct (IH _ _ Hc) as [Hf Hp]. cbn [length]. split.
  - constructor; [lia|]. eapply List.Forall_impl; [|exact Hf]. cbn. lia.
  - constructor; [|done]. eapply List.Forall_impl; [|exact Hf]. cbn. lia.
Qed.

Lemma event_from_row_ok e :
  ev_schema e = SCHEMA -> 0 <= ev_seq e <= i64_max -> event_from_row (event_row e) = Ok e.
Proof.
  intros Hs Hr. unfold event_from_row, json_col, event_row.
  cbn [er_kind er_actor er_run_id er_seq er_ts er_payload er_prev_hash er_hash].
  rewrite parse_as_str, de_ser_actor. cbn [ok_or rbind].
  unfold i64_as_u64. rewrite u64_as_i64_small by done. unfold i64_max in Hr.
  rewrite Z.mod_small by lia. destruct e. cbn in *. by subst.
Qed.

Lemma rmapM_map {E A B} (f : A -> result E B) (g : B -> A) l :
  Forall (fun b => f (g b) = Ok b) l -> rmapM f (map g l) = Ok l.
Proof. induction 1 as [|x l Hx _ IH]; [done|]. cbn. by rewrite Hx; cbn; rewrite IH. Qed.

Lemma ordpairs_map {A B} (f : A -> B) (R : B -> B -> Prop) l :
  List.ForallOrdPairs (fun x y => R (f x) (f y)) l -> List.ForallOrdPairs R (map f l).
Proof.
  induction 1 as [|x l Hx _ IH]; cbn [map]; constructor; [|done]. by apply List.Forall_map.
Qed.

Lemma ordpairs_impl {A} (P : A -> Prop) (R R' : A -> A -> Prop) l :
  (forall x y, P x -> P y -> R x y -> R' x y) -> Forall P l ->
  List.ForallOrdPairs R l -> List.ForallOrdPairs R' l.
Proof.
  intros Hr Hp. induction 1 as [|x l Hx _ IH]; [constructor|]. apply Forall_cons_1 in Hp as [Hpx Hp].
  constructor; [|auto]. rewrite List.Forall_forall in *. auto.
Qed.

Lemma ordpairs_app_r {A} (R : A -> A -> Prop) l1 l2 :
  List.ForallOrdPairs R (l1 ++ l2) -> List.ForallOrdPairs R l2.
Proof. induction l1 as [|x l1 IH]; [done|]. cbn. intros Ho. inversion Ho. auto. Qed.

Lemma firstn_in {A} n (x : A) l : In x (firstn n l) -> In x l.
Proof. intros Hin. rewrite <- (firstn_skipn n l). apply in_or_app. by left. Qed.

Lemma skipn_in {A} n (x : A) l : In x (skipn n l) -> In x l.
Proof. intros Hin. rewrite <- (firstn_skipn n l). apply in_or_app. by right. Qed.

Lemma chain_from evs : forall seq prev from, chain_ok seq prev evs -> seq <= from ->
  List.filter (fun e => from <=? ev_seq e) evs = skipn (Z.to_nat (from - seq)) evs.
Proof.
  induction evs as [|e evs IH]; intros seq prev from Hc Hf; [by destruct (Z.to_nat _)|].
  pose proof (chain_seqs _ _ _ Hc) as [Hall _]. destruct Hc as (Hs & _ & _ & Hc).
  destruct (Z.eq_dec seq from) as [<-|Hne].
  - rewrite Z.sub_diag. cbn [Z.to_nat skipn]. apply filter_true. eapply List.Forall_impl; [|exact Hall].
    cbn beta. intros x Hx. apply Z.leb_le. lia.
  - cbn [List.filter]. destruct (Z.leb_spec from (ev_seq e)); [lia|].
    rewrite (IH (seq + 1) (ev_hash e) from Hc) by lia.
    replace (Z.to_nat (from - seq)) with (S (Z.to_nat (from - (seq + 1)))) by lia. done.
Qed.

Lemma filter_map_rows {A B} (f : A -> B) (p : B -> bool) l :
  List.filter p (map f l) = map f (List.filter (fun x => p (f x)) l).
Proof. induction l as [|x l IH]; [done|]. cbn. destruct (p (f x)); cbn; by rewrite IH. Qed.

Lemma limit_rows_firstn {A} n (l : list A) : 0 <= n -> limit_rows n l = firstn (Z.to_nat n) l.
Proof.
  intros Hn. unfold limit_rows. destruct (Z.ltb_spec n 0); [lia|].
  destruct (Z.leb_spec (Z.of_nat (length l)) n); [|done]. cbn. symmetry. apply List.firstn_all2. lia.
Qed.

(** The events from a sequence number on, at most [limit] of them. *)
Lemma events_from_log s run_id last evs st from limit :
  small s -> log_ok s run_id last evs st -> 1 <= from <= i64_max -> 0 <= limit <= i64_max ->
  events_from run_id from limit s = Ok (firstn (Z.to_nat limit) (skipn (Z.to_nat (from - 1)) evs)).
Proof.
  intros Hs Hl Hfrom Hlim. pose proof (log_length _ _ _ _ _ Hl) as Hlen. unfold small in Hs.
  destruct (chain_seqs _ _ _ (lo_chain _ _ _ _ _ Hl)) as [Hseq Hord].
  assert (Forall (fun e => 1 <= ev_seq e <= i64_max) evs) as Hrange
    by (eapply List.Forall_impl; [|exact Hseq]; cbn; lia).
  unfold events_from, decode_rows. rewrite <- filter_filter.
  change (List.filter (fun e => String.eqb (er_run_id e) run_id) (t_events s)) with (event_rows run_id s).
  rewrite (lo_rows _ _ _ _ _ Hl), !u64_as_i64_small, filter_map_rows by lia.
  rewrite (filter_ext_in _ (fun e => from <=? ev_seq e)).
  2: { intros e He. rewrite List.Forall_forall in Hrange. specialize (Hrange e He). cbn.
       by rewrite u64_as_i64_small by lia. }
  assert (List.ForallOrdPairs (fun x y => ev_seq x <= ev_seq y) (List.filter (fun e => from <=? ev_seq e) evs)) as Hord'.
  { rewrite (chain_from _ _ _ _ (lo_chain _ _ _ _ _ Hl)) by lia.
    rewrite <- (firstn_skipn (Z.to_nat (from - 1)) evs) in Hord. by apply ordpairs_app_r in Hord. }
  rewrite order_by_sorted.
  2: { apply ordpairs_map. eapply (ordpairs_impl (fun e => 1 <= ev_seq e <= i64_max)); [| |exact Hord'].
       - cbn. intros x y Hx Hy Hxy. rewrite !u64_as_i64_small by lia. by apply Z.leb_le.
       - rewrite List.Forall_forall in *. intros x [Hx _]%filter_In. auto. }
  rewrite limit_rows_firstn by lia.
  rewrite (chain_from _ _ _ _ (lo_chain _ _ _ _ _ Hl)), List.firstn_map by lia.
  apply rmapM_map. pose proof (lo_own _ _ _ _ _ Hl) as Hown. rewrite List.Forall_forall in *.
  intros e He%firstn_in%skipn_in. apply event_from_row_ok; [by apply Hown|]. specialize (Hrange e He). cbn in Hrange. lia.
Qed.

Lemma all_events_log s run_id last evs st :
  small s -> log_ok s run_id last evs st -> all_events run_id s = Ok evs.
Proof.
  intros Hs Hl. unfold all_events. rewrite (events_from_log _ _ _ _ _ _ _ Hs Hl) by (unfold i64_max; lia).
  cbn [Z.sub Z.to_nat skipn]. f_equal. apply List.firstn_all2.
  pose proof (log_length _ _ _ _ _ Hl). unfold small in Hs. lia.
Qed.

(** ** Matching states *)

(** What JSON cannot tell from an absent value. *)
Definition null_option (o : option json) : bool := match o with Some JNull => true | _ => false end.

Definition null_step (st : StepState) : bool := null_option (st_output st) || null_option (st_error st).

Definition has_null (s : RunState) : bool :=
  any null_step (rs_steps s) || null_option (rs_output s) || null_option (rs_error s).

Lemma drop_null_eqb o : opt_eqb json_eqb o o = true -> opt_eqb json_eqb o (drop_null o) = negb (null_option o).
Proof. by destruct o as [[]|]. Qed.

Lemma norm_step_eqb st : StepState_eqb st st = true -> StepState_eqb st (norm_step st) = negb (null_step st).
Proof.
  unfold StepState_eqb, null_step. cbn [st_id st_index st_kind st_state st_attempts st_lease st_output st_error
    st_action_id st_approval_id st_not_before norm_step]. intros Hr. rewrite !andb_true_iff in Hr.
  destruct Hr as ((((((((((-> & ->) & ->) & ->) & ->) & ->) & Ho) & He) & ->) & ->) & ->).
  rewrite (drop_null_eqb _ Ho), (drop_null_eqb _ He). cbn. rewrite !andb_true_r. by rewrite negb_orb.
Qed.

Lemma norm_steps_eqb l :
  list_eqb StepState_eqb l l = true -> list_eqb StepState_eqb l (map norm_step l) = negb (any null_step l).
Proof.
  unfold any. induction l as [|st l IH]; [done|]. cbn. intros [Hs Hl]%andb_true_iff.
  by rewrite (norm_step_eqb _ Hs), IH, negb_orb.
Qed.

Lemma norm_state_eqb s : RunState_eqb s s = true -> RunState_eqb s (norm_state s) = negb (has_null s).
Proof.
  unfold RunState_eqb, has_null. change (same_rest s (norm_state s)) with (same_rest s s).
  cbn [rs_steps rs_output rs_error norm_state set_steps set_output set_error].
  intros [[[Hs Ho]%andb_true_iff He]%andb_true_iff ->]%andb_true_iff.
  by rewrite (norm_steps_eqb _ Hs), (drop_null_eqb _ Ho), (drop_null_eqb _ He), andb_true_r, !negb_orb.
Qed.

Lemma replay_run_inv row s r :
  replay_run row s = Ok r -> exists events,
    all_events (rs_run_id (row_state row)) s = Ok events /\
    chain_errors r = all_chain_errors row events /\
    chain_valid r = bool_decide (chain_errors r = []) /\ rep_events r = Z.of_nat (length events) /\
    (rep_state r, state_matches r, state_mismatch r) = check_state row events.
Proof.
  unfold replay_run. intros Hr. apply rbind_ok in Hr as (events & He & Hr). exists events. split; [done|].
  destruct (check_state row events) as [[folded matches] mismatch].
  apply rbind_ok in Hr as (remit & _ & Hr).
  destruct (check_decisions s folded remit [] events) as [n mismatches]. injection Hr as <-. cbn.
  repeat split. by destruct (all_chain_errors row events).
Qed.

(** The chain check of a replay is exact: it passes if and only if the stored events are
    numbered from 1 without a gap, each carries the hash of the one before and the hash of
    its own content, and the row carries the hash of the last. *)
Theorem replay_chain_exact row s r :
  replay_run row s = Ok r ->
  (chain_valid r = true <-> exists events, all_events (rs_run_id (row_state row)) s = Ok events /\
     chain_ok 1 ZERO_HASH events /\ row_last_hash row = last_hash ZERO_HASH events).
Proof.
  intros (events & He & Hc & Hv & _)%replay_run_inv. rewrite Hv, bool_decide_eq_true, Hc, all_chain_errors_ok.
  split; [eauto|]. intros (events' & He' & Hok). assert (events' = events) as -> by congruence. done.
Qed.
End ReplaySpec.


(** ** Witnesses *)

Import Demo.

Lemma demo_small : small (demo 22).
Proof. vm_compute. reflexivity. Qed.

Definition matches_in (run_id : string) (s : Store) : option bool :=
  match replay run_id s with Ok r => Some (state_matches r) | Err _ => None end.

Lemma matches_in_inv run_id s b :
  matches_in run_id s = Some b -> exists r, replay run_id s = Ok r /\ state_matches r = b.
Proof. unfold matches_in. destruct (replay run_id s) as [r|]; [|discriminate]. intros [= <-]. eauto. Qed.

Lemma replay_row run_id s r : replay run_id s = Ok r -> exists row, replay_run row s = Ok r.
Proof. intros (row & _ & E)%rbind_ok. eauto. Qed.


Lemma replay_chain_exact_witness : exists row r,
  replay_run row (demo 22) = Ok r /\
  (chain_valid r = true <-> exists events, all_events (rs_run_id (row_state row)) (demo 22) = Ok events /\
     chain_ok 1 ZERO_HASH events /\ row_last_hash row = last_hash ZERO_HASH events).
Proof.
  destruct (matches_in_inv (demo_id 3 0 "run") (demo 22) true) as (r & E & _); [vm_compute; reflexivity|].
  destruct (replay_row _ _ _ E) as [row Er]. exists row, r. split; [exact Er|].
  exact (replay_chain_exact row (demo 22) r Er).
Defined.
