(* ===== verification/LeaseSpec.v ===== *)
(** * Leases

    Who may report on a step, and what [Kernel::lease] hands out.  The state a run is in, by
    its log, is what the properties are about; the rows only serve to find it. *)

From S2P Require Import Prelude Text Ids F64 Json Policy Lexer Canonical Time Errors Keys Remit.
From S2P Require Import Payloads PayloadLaws Events Fold RunJson FoldSpec Template Schema Bundle.
From S2P Require Import Store Kernel Scenario Hoare History StoreInv KernelInv Replay.
From Stdlib Require Import Ascii.

Local Open Scope string_scope.
Local Open Scope list_scope.
Local Open Scope Z_scope.

(** ** The state of a run *)

(** The state the log of a run folds to. *)
Definition logged (s : Store) (run_id : string) (st : RunState) : Prop :=
  exists events, all_events run_id s = Ok events /\ fold events = Ok st.

Section Logged.
Context `{FloatFormat, Sha256}.

Lemma logged_unique s run_id st st' : logged s run_id st -> logged s run_id st' -> st = st'.
Proof. intros (e1 & E1 & F1) (e2 & E2 & F2). congruence. Qed.

Lemma run_logged s r :
  consistent s -> small s -> In r (t_runs s) -> exists st,
    logged s (rr_run_id r) st /\ mirrors r st /\
    Forall2 (shows (rr_run_id r)) (rs_steps st) (step_rows (rr_run_id r) s) /\ state_inv st.
Proof.
  intros Hc Hs Hr. pose proof (co_runs s Hc) as Hf. rewrite List.Forall_forall in Hf.
  destruct (Hf r Hr) as (evs & st & Hl & Hm & Hsh). exists st. split.
  - exists evs. split; [by eapply all_events_log | apply Hl].
  - split; [done|]. split; [done|]. apply (fold_inv _ _ (lo_fold _ _ _ _ _ Hl)).
Qed.

(** A row that was loaded is the state of the log, as far as JSON tells. *)
Lemma loaded_logged s run_id row :
  consistent s -> small s -> require_run run_id s = Ok row ->
  exists st, logged s run_id st /\ row_state row = norm_state st.
Proof.
  intros Hc Hs Hr. destruct (require_run_ok _ _ _ Hc Hr) as (_ & evs & st & r & _ & Hl & Hst & _).
  exists st. split; [|done]. exists evs. split; [by eapply all_events_log | apply Hl].
Qed.

Lemma find_step_norm id st :
  find_step id (norm_state st) = option_map norm_step (find_step id st).
Proof. unfold find_step. cbn. by rewrite find_first_map. Qed.
End Logged.

(** ** A lease that ended is refused *)

(** The stores that requests lead to from [s]. *)
Inductive later `{FloatFormat, Sha256, JsonPrint, Crypto, JsonText, Regex, UnicodeTables, F64Display}
  (s : Store) : Store -> Prop :=
| later_now : later s s
| later_exec k c op s' : later s s' -> later s (exec k c op s').

Section Ended.
Context `{FloatFormat, Sha256, JsonPrint, Crypto, JsonText, Regex, UnicodeTables, F64Display}.

Lemma later_history s s' : later s s' -> history s s'.
Proof. induction 1 as [|k c op s' _ IH]; [reflexivity|]. transitivity s'; [done | apply exec_history]. Qed.

Lemma live_lease_ended now id s : ended id s -> live_lease now id s = (Err lease_expired, s).
Proof.
  intros (l & Hl & Hn). unfold live_lease, kbind, kget, ksome, klift. rewrite Hl. cbn [ok_or].
  apply String.eqb_neq in Hn. by rewrite Hn.
Qed.

Lemma leased_run_ended now id s : ended id s -> leased_run now id s = (Err lease_expired, s).
Proof. intros He. unfold leased_run, kbind. by rewrite (live_lease_ended now id s He). Qed.

Lemma live_lease_ok now id s l s' :
  live_lease now id s = (Ok l, s') ->
  s' = s /\ get_lease id s = Some l /\ le_state l = "active" /\ now < le_expires_at_ms l.
Proof.
  unfold live_lease. intros Hl. peel Hl. peel Hl. destruct (_ && _) eqn:E.
  - by apply kbind_ok in Hl as (u & s1 & _ & Hl).
  - peel Hl. apply kret_ok in Hl as [-> ->]. rewrite Ha0 in E. cbn in E. apply Z.leb_gt in E.
    split; [done|]. split; [done|]. split; [by apply String.eqb_eq | done].
Qed.

Lemma leased_run_ok now id s l rt s' :
  leased_run now id s = (Ok (l, rt), s') ->
  s' = s /\ get_lease id s = Some l /\ le_state l = "active" /\ now < le_expires_at_ms l /\
  require_run (le_run_id l) s = Ok (rt_run rt) /\ step_held (rt_state rt) l = true /\
  rt_ts rt = format_ms now /\ rt_defs rt = [].
Proof.
  unfold leased_run. intros Hl. apply kbind_ok in Hl as (l' & s1 & Hlive & Hl).
  apply live_lease_ok in Hlive as (-> & Hg & Ha & Hn). apply kbind_ok in Hl as (rt' & s2 & Hload & Hl).
  unfold load_run in Hload. peel Hload. apply kret_ok in Hload as [-> ->].
  destruct (step_held _ _) eqn:E; [|by apply kbind_ok in Hl as (u & s3 & _ & Hl)].
  apply kret_ok in Hl as [[= -> ->] ->]. auto 10.
Qed.

Lemma end_lease_ended id st s u s' :
  st <> "active" -> get_lease id s <> None -> end_lease id st s = (Ok u, s') -> ended id s'.
Proof.
  intros Hst Hg. unfold end_lease, set_lease, kput. intros [= _ <-]. unfold ended, get_lease in *. cbn.
  rewrite find_first_update_all by done. destruct (find_first (is_lease id) (t_leases s)) as [l|] eqn:E; [|done].
  apply find_first_some in E as [_ E]. eexists. split; [reflexivity|]. by rewrite E.
Qed.

Lemma append_leases rt actor p s rt' s' :
  append rt actor p s = (Ok rt', s') -> t_leases s' = t_leases s.
Proof.
  unfold append, append_event. intros Ha. apply kbind_ok in Ha as ([e rt1] & s1 & Ha & Hr).
  apply kret_ok in Hr as [_ ->]. by apply append_raw_inv in Ha as (_ & -> & _).
Qed.

Lemma get_lease_ext id s s' : t_leases s' = t_leases s -> get_lease id s' = get_lease id s.
Proof. intros E. unfold get_lease. by rewrite E. Qed.

Lemma evolves_ok {A} R (m : M A) s a s' : Evolves R m -> m s = (Ok a, s') -> R s s'.
Proof. intros Hm E. specialize (Hm s). by rewrite E in Hm. Qed.

Lemma complete_ends c id output usage s r s' : complete c id output usage s = (Ok r, s') -> ended id s'.
Proof.
  unfold complete. intros Hc. apply commit_ok in Hc as ([l rt] & s1 & Hl & Hc).
  apply leased_run_ok in Hl as (-> & Hg & _). peel Hc. peel Hc.
  apply kbind_ok in Hc as ([e rt1] & s1 & Ha1 & Hc). apply append_raw_inv in Ha1 as (_ & -> & _).
  apply kbind_ok in Hc as (u & s2 & He & Hc). apply end_lease_ended in He; [|done|by rewrite (get_lease_ext _ s), Hg].
  eapply hi_leases; [|exact He]. eapply evolves_ok; [|exact Hc]. evolve.
Qed.

Lemma fail_ends k c id error det s r s' : fail k c id error det s = (Ok r, s') -> ended id s'.
Proof.
  unfold fail. intros Hc. apply commit_ok in Hc as ([l rt] & s1 & Hl & Hc).
  apply leased_run_ok in Hl as (-> & Hg & _). peel Hc.
  apply kbind_ok in Hc as (rt1 & s1 & Ha1 & Hc). apply append_leases in Ha1.
  apply kbind_ok in Hc as (u & s2 & He & Hc).
  apply end_lease_ended in He; [|done|by rewrite (get_lease_ext _ s), Hg].
  eapply hi_leases; [|exact He]. eapply evolves_ok; [|exact Hc]. evolve.
Qed.

(** A request for this lease that was answered with success and used it up. *)
Inductive reports (id : string) (s s' : Store) : Prop :=
| reports_complete c output usage r : complete c id output usage s = (Ok r, s') -> reports id s s'
| reports_fail k c error det r : fail k c id error det s = (Ok r, s') -> reports id s s'.


End Ended.

(** ** Which step is handed out *)

Section Pick.
Context `{FloatFormat, Sha256}.

(** A step that may run: the run is running, the step is scheduled, of a kind asked for and
    past its retry delay; compensations run exactly while the run is being abandoned; and
    every step of the same class before it has completed. *)
Record may_run (kinds : list string) (now_ms : Z) (st : RunState) (step : StepState) : Prop := {
  mr_running : rs_state st = RRunning;
  mr_step : In step (rs_steps st);
  mr_scheduled : st_state step = SScheduled;
  mr_kind : In (st_kind step) kinds;
  mr_class : is_compensation step = rs_abandoning st;
  mr_delay : forall t, (x ← st_not_before step; parse_rfc3339 x) = Some t -> t <= now_ms;
  mr_order : forall e, In e (rs_steps st) -> is_compensation e = is_compensation step ->
               st_index e < st_index step -> st_state e = SCompleted }.

Lemma insert_by_in {A} (leb : A -> A -> bool) x y l : In x (insert_by leb y l) <-> x = y \/ In x l.
Proof.
  induction l as [|z l IH]; cbn; [naive_solver|]. destruct (leb y z); cbn; [naive_solver|]. rewrite IH. naive_solver.
Qed.

Lemma order_by_in {A} (leb : A -> A -> bool) x l : In x (order_by leb l) <-> In x l.
Proof. unfold order_by. induction l as [|y l IH]; [done|]. cbn. rewrite insert_by_in, IH. naive_solver. Qed.

Lemma run_status_str_inj a b : run_status_str a = run_status_str b -> a = b.
Proof. by destruct a, b. Qed.

Lemma step_status_str_inj a b : step_status_str a = step_status_str b -> a = b.
Proof. by destruct a, b. Qed.

Lemma step_rows_in s run_id x : In x (t_steps s) /\ sr_run_id x = run_id <-> In x (step_rows run_id s).
Proof. unfold step_rows. rewrite filter_In. by rewrite String.eqb_eq. Qed.

Lemma shows_row run_id steps rows x :
  Forall2 (shows run_id) steps rows -> In x rows -> exists st def, In st steps /\ x = step_record run_id st def.
Proof.
  induction 1 as [|st r steps rows [def ->] _ IH]; [done|]. intros [<-|Hin].
  - exists st, def. split; [by left | done].
  - destruct (IH Hin) as (st' & def' & Hst & ->). exists st', def'. split; [by right | done].
Qed.

Lemma shows_step run_id steps rows st :
  Forall2 (shows run_id) steps rows -> In st steps -> exists def, In (step_record run_id st def) rows.
Proof.
  induction 1 as [|st' r steps rows [def ->] _ IH]; [done|]. intros [->|Hin].
  - exists def. by left.
  - destruct (IH Hin) as [def' Hd]. exists def'. by right.
Qed.

Lemma abandoning_class (b c : bool) :
  ((b2i b =? 0) && negb c || (b2i b =? 1) && c) = true <-> c = b.
Proof. by destruct b, c. Qed.

Lemma delay_passed (o : option Z) now :
  (match o with Some t => t <=? now | None => true end) = true <-> forall t, o = Some t -> t <= now.
Proof.
  destruct o as [t|]; split; try done.
  - intros Ht t' [= <-]. by apply Z.leb_le.
  - intros Ht. by apply Z.leb_le, Ht.
Qed.

Lemma kind_listed kind kinds : any (String.eqb kind) kinds = true <-> In kind kinds.
Proof.
  rewrite any_true. split.
  - intros (x & Hx & ->%String.eqb_eq). done.
  - intros Hk. exists kind. split; [done | apply String.eqb_refl].
Qed.

(** The [WHERE] clause on rows is [may_run] on the state they show. *)
Lemma runnable_spec kinds now s r st step def :
  mirrors r st -> Forall2 (shows (rr_run_id r)) (rs_steps st) (step_rows (rr_run_id r) s) ->
  In step (rs_steps st) ->
  (runnable kinds now (t_steps s) r (step_record (rr_run_id r) step def) = true <-> may_run kinds now st step).
Proof.
  intros Hm Hsh Hin. unfold runnable. cbn [sr_run_id sr_state sr_not_before_ms sr_kind step_record].
  rewrite (mi_state _ _ Hm), (mi_abandoning _ _ Hm).
  change (String.eqb (st_kind step) "compensation") with (is_compensation step).
  rewrite !andb_true_iff, abandoning_class, delay_passed, kind_listed, !String.eqb_eq, negb_true_iff,
    <- not_true_iff_false, any_true.
  change "scheduled" with (step_status_str SScheduled). change "running" with (run_status_str RRunning).
  split.
  - intros ((((((_ & Hst) & Hd) & Hk) & Hr) & Hcl) & Hno). constructor; auto using run_status_str_inj, step_status_str_inj.
    intros e He Hc Hi. destruct (shows_step _ _ _ e Hsh He) as [d Hd'].
    destruct (bool_decide_reflect (st_state e = SCompleted)) as [|Hne]; [done|]. exfalso. apply Hno.
    exists (step_record (rr_run_id r) e d). apply step_rows_in in Hd' as [Hd' _]. split; [done|].
    unfold blocked_by. cbn. rewrite String.eqb_refl.
    change (String.eqb (st_kind e) "compensation") with (is_compensation e).
    change (String.eqb (st_kind step) "compensation") with (is_compensation step).
    rewrite Hc, Bool.eqb_reflx. cbn. apply andb_true_iff. split; [by apply Z.ltb_lt|].
    apply negb_true_iff, String.eqb_neq. intros E. apply Hne. by apply (step_status_str_inj _ SCompleted).
  - intros []. rewrite mr_running0, mr_scheduled0. repeat split; auto.
    intros (x & Hx & Hb). unfold blocked_by in Hb. rewrite !andb_true_iff, !String.eqb_eq in Hb.
    destruct Hb as (((Hrun & Hc) & Hi) & Hne). cbn in Hrun, Hc, Hi.
    destruct (shows_row _ _ _ x Hsh) as (e & d & He & ->); [by apply step_rows_in|].
    cbn in Hc, Hi, Hne. apply Bool.eqb_prop in Hc. apply Z.ltb_lt in Hi.
    by rewrite (mr_order0 e He Hc Hi) in Hne.
Qed.

Lemma pick_in kinds now s run_id id :
  pick_runnable kinds now s = Some (run_id, id) -> exists r x, In r (t_runs s) /\ In x (t_steps s) /\
    runnable kinds now (t_steps s) r x = true /\ sr_run_id x = run_id /\ sr_step_id x = id.
Proof.
  unfold pick_runnable. destruct kinds as [|k kinds]; [discriminate|].
  destruct (flat_map _ _) as [|x l] eqn:E; [discriminate|]. intros [= <- <-].
  assert (In x (x :: l)) as Hin by by left. rewrite <- E in Hin.
  apply in_flat_map in Hin as (r & Hr & [Hx Hrun]%order_by_in%filter_In). eauto 10.
Qed.

Lemma pick_none kinds now s r x :
  pick_runnable kinds now s = None -> In r (t_runs s) -> In x (t_steps s) ->
  runnable kinds now (t_steps s) r x = false.
Proof.
  unfold pick_runnable. intros Hp Hr Hx. apply not_true_iff_false. intros Hrun.
  destruct kinds as [|k kinds].
  - unfold runnable in Hrun. rewrite !andb_true_iff in Hrun. by destruct Hrun as (((((_ & _) & Hk) & _) & _) & _).
  - destruct (flat_map _ _) eqn:E; [|discriminate].
    assert (In x []) as []. rewrite <- E. apply in_flat_map. exists r. split; [done|].
    by apply order_by_in, filter_In.
Qed.
End Pick.

Section Grant.
Context `{FloatFormat, Sha256, JsonPrint, Crypto, JsonText, Regex, UnicodeTables, F64Display}.

(** What a transaction leaves in the log. *)
Lemma persist_logged F rt s u s' :
  TXF F rt s -> persist rt s = (Ok u, s') -> small s' ->
  exists st, logged s' (rs_run_id (rt_state rt)) st /\ sim st (rt_state rt).
Proof.
  intros Ht Hp Hs. pose proof (persist_events _ _ _ _ Hp) as He.
  destruct (Ht ltac:(unfold small in *; by rewrite <- He)) as [[_ _ _ _ (evs & st & Hl & Hsim & _)] _].
  exists st. split; [|done]. exists evs. split; [|apply Hl].
  eapply all_events_log; [exact Hs|]. eapply log_ok_core; [exact He | exact Hl].
Qed.

Lemma find_first_update {A} (p : A -> bool) f l :
  (forall x, p (f x) = p x) -> find_first p (update_first p f l) = option_map f (find_first p l).
Proof.
  intros Hp. induction l as [|x l IH]; [done|]. cbn. destruct (p x) eqn:E; cbn; [by rewrite Hp, E | by rewrite E].
Qed.

Lemma find_update_step id f st :
  (forall x, st_id (f x) = st_id x) -> find_step id (update_step id f st) = option_map f (find_step id st).
Proof. intros Hf. unfold find_step, update_step. cbn. apply find_first_update. intros x. by rewrite Hf. Qed.

Lemma sim_find_step id s t step :
  sim s t -> find_step id t = Some step -> exists step', find_step id s = Some step' /\ norm_step step' = norm_step step.
Proof.
  intros Hs Hf. pose proof (find_step_sim id _ _ Hs) as E. rewrite Hf in E.
  destruct (find_step id s) as [x|]; [|discriminate]. exists x. split; [done|].
  cbn [option_map] in E. congruence.
Qed.

Lemma append_state rt actor p s rt' s' :
  append rt actor p s = (Ok rt', s') -> exists e,
    ev_kind e = payload_kind p /\ ev_payload e = payload_value p /\ apply (rt_state rt) e = Ok (rt_state rt') /\
    s' = with_events (t_events s ++ [event_row e]) s.
Proof.
  unfold append, append_event. intros Ha. apply kbind_ok in Ha as ([e rt1] & s1 & Ha & Hr).
  apply kret_ok in Hr as [-> ->]. apply append_raw_inv in Ha as (He & -> & Hap & _). exists e. rewrite He at 1 2. auto.
Qed.

Lemma append_applied rt actor p s rt' s' :
  payload_wf p -> append rt actor p s = (Ok rt', s') -> exists e st,
    apply_payload e p (set_last_seq (ev_seq e) (rt_state rt)) = Some st /\ rt_state rt' = st /\
    s' = with_events (t_events s ++ [event_row e]) s.
Proof.
  intros Hw (e & Hk & Hp & Ha & Hs)%append_state. exists e.
  rewrite (apply_decoded _ e p) in Ha by (rewrite Hk, Hp; by apply decode_encode_payload).
  destruct (apply_payload _ _ _) as [st|]; [|discriminate]. injection Ha as <-. eauto.
Qed.

(** ** Theorems *)

Definition asked_kinds (request : LeaseRequest) : list string :=
  match lq_kinds request with [] => all_kinds | l => l end.

Lemma grant_inv c request ttl run_id id s g s' :
  grant c request ttl run_id id s = (Ok g, s') -> exists row step,
    require_run run_id s = Ok row /\ find_step id (row_state row) = Some step /\
    lg_run_id g = run_id /\ lg_step g = id /\ lg_attempt g = u32_add (st_attempts step) 1 /\
    exists rt1 s1 l s2 u,
      append {| rt_ts := format_ms (c_now c); rt_run := row; rt_defs := [] |} Act.kernel
        (PStepLeased {| sl_step := id; sl_lease_id := lg_lease_id g; sl_worker_id := lq_worker_id request;
                        sl_attempt := lg_attempt g; sl_expires_at := lg_expires_at g |}) s = (Ok rt1, s1) /\
      insert_lease l s1 = (Ok u, s2) /\ le_lease_id l = lg_lease_id g /\ le_run_id l = run_id /\ le_step_id l = id /\
      le_worker_id l = lq_worker_id request /\ le_state l = "active" /\ persist rt1 s2 = (Ok u, s').
Proof.
  unfold grant, load_run. intros Hg. apply kbind_ok in Hg as (rt & s0 & Hload & Hg). peel Hload.
  apply kret_ok in Hload as [-> ->]. do 8 peel Hg.
  apply kbind_ok in Hg as (u & s2 & Hins & Hg). do 2 peel Hg. apply kbind_ok in Hg as ([] & s3 & Hper & Hg).
  apply kret_ok in Hg as [-> ->]. cbn. destruct u. do 2 eexists. do 5 (split; [eassumption || reflexivity|]).
  do 5 eexists. split; [eassumption|]. split; [eassumption|]. cbn. auto 10.
Qed.

Lemma history_small s s' : history s s' -> small s' -> small s.
Proof. intros [[more E] _ _ _ _ _]. unfold small. rewrite E, length_app. lia. Qed.

Lemma evolves_small {A} (m : M A) s a s' :
  Evolves history m -> m s = (Ok a, s') -> small s' -> small s.
Proof. intros Hm He. by eapply history_small, evolves_ok. Qed.

Lemma insert_lease_get l s u s' :
  insert_lease l s = (Ok u, s') -> get_lease (le_lease_id l) s' = Some l.
Proof.
  unfold insert_lease. destruct (any _ _) eqn:E; [discriminate|]. intros [= _ <-]. unfold get_lease. cbn.
  rewrite find_first_app. apply not_true_iff_false in E. rewrite any_true in E.
  destruct (find_first (is_lease (le_lease_id l)) (t_leases s)) as [x|] eqn:Ef; [|cbn; unfold is_lease; by rewrite String.eqb_refl].
  apply find_first_some in Ef as [Hin Hx]. exfalso. eauto.
Qed.

Lemma write_steps_leases run_id (defs : string -> option json) steps : forall s r s',
  kfor steps (fun step => write_step run_id step (defs (st_id step))) s = (r, s') -> t_leases s' = t_leases s.
Proof.
  induction steps as [|x l IH]; intros s r s' Hf; [by injection Hf as _ ->|].
  cbn [kfor] in Hf. unfold kbind in Hf. destruct (write_step run_id x _ s) as [[v|] s2] eqn:E.
  - rewrite (IH _ _ _ Hf). unfold write_step in E. destruct (any _ _); [by injection E as _ <-|].
    destruct (defs _); [by injection E as _ <- | discriminate].
  - injection Hf as _ ->. unfold write_step in E. destruct (any _ _); [discriminate|].
    destruct (defs _); [discriminate|]. by injection E as _ <-.
Qed.

Lemma persist_leases rt s r s' : persist rt s = (r, s') -> t_leases s' = t_leases s.
Proof.
  intros (s1 & Hw & Hf)%persist_split. rewrite (write_steps_leases _ (fun id => map_get id (rt_defs rt)) _ _ _ _ Hf).
  unfold write_run, kput in Hw. injection Hw as <-. by destruct (any _ _).
Qed.

Lemma load_tx s run_id row now :
  INV s -> require_run run_id s = Ok row -> TXF True {| rt_ts := format_ms now; rt_run := row; rt_defs := [] |} s.
Proof. intros Hi Hr Hs. split; [|done]. eapply consistent_tx; [by apply Hi | exact Hr]. Qed.

(** The step after a lease was granted. *)
Definition holds (st : RunState) (g : LeaseGrant) (worker : string) : Prop :=
  exists step, find_step (lg_step g) st = Some step /\ st_state step = SLeased /\
    st_attempts step = lg_attempt g /\
    st_lease step = Some {| li_lease_id := lg_lease_id g; li_worker_id := worker; li_attempt := lg_attempt g;
                            li_expires_at := lg_expires_at g |}.

Lemma grant_post c request ttl run_id id s g s' :
  INV s -> small s' -> grant c request ttl run_id id s = (Ok g, s') ->
  exists st', logged s' run_id st' /\ holds st' g (lq_worker_id request) /\
    exists l, get_lease (lg_lease_id g) s' = Some l /\ le_run_id l = run_id /\ le_step_id l = id /\
      le_worker_id l = lq_worker_id request /\ le_state l = "active".
Proof.
  intros Hi Hs' Hg. pose proof (evolves_small _ _ _ _ _ Hg Hs') as Hs.
  apply grant_inv in Hg as (row & step & Hrow & Hstep & Hgr & Hgs & Hatt & rt1 & s1 & l & s2 & u & Hap & Hins & Hl & Hrest).
  destruct Hrest as (Hlr & Hls & Hlw & Hla & Hper).
  pose proof (load_tx _ _ _ (c_now c) Hi Hrow) as Ht.
  assert (u32_ok (lg_attempt g)) as Hu by (rewrite Hatt; apply u32_add_ok).
  assert (TXF True rt1 s1) as Ht1.
  { eapply (hoare_ok _ _ (TXF True)); [|exact Ht|exact Hap]. apply hoare_append. by intros _. }
  assert (TXF True rt1 s2) as Ht2.
  { eapply TXF_stable; [|exact Ht1]. exact (evolves_ok _ _ _ _ _ (frames_insert_lease l) Hins). }
  destruct (persist_logged _ _ _ _ _ Ht2 Hper Hs') as (st' & Hlog & Hsim).
  apply append_applied in Hap as (e & st1 & Hpay & Hst1 & _); [|exact Hu].
  cbn [apply_payload] in Hpay. injection Hpay as <-.
  assert (rs_run_id (rt_state rt1) = run_id) as Hrid.
  { rewrite Hst1. cbn. by destruct (require_run_ok _ _ _ (Hi Hs) Hrow). }
  rewrite Hrid in Hlog. exists st'. split; [done|]. split.
  - rewrite Hst1 in Hsim. destruct (sim_find_step id _ _ (lease_step
      {| sl_step := id; sl_lease_id := lg_lease_id g; sl_worker_id := lq_worker_id request;
         sl_attempt := lg_attempt g; sl_expires_at := lg_expires_at g |} step) Hsim) as (x & Hx & Hn).
    { cbn [sl_step]. rewrite find_update_step by done. unfold rt_state. cbn.
      unfold find_step in *. cbn. by rewrite Hstep. }
    exists x. rewrite Hgs. injection Hn as _ _ _ E1 E2 E3 _ _ _ _ _. auto.
  - exists l. rewrite <- Hl. split; [|auto]. rewrite (get_lease_ext _ s2) by by eapply persist_leases.
    by eapply insert_lease_get.
Qed.

(** C7: what [lease] hands out may run, and is held exclusively.  By its log, the run is
    running, the step is scheduled, of a kind the worker asked for, past its delay, in the
    right phase and with every earlier step of its class completed; afterwards the log has
    the step leased under the new lease and attempt, for this worker, and the lease is
    active. *)
Theorem lease_hands_out_runnable k c request s g s' :
  reachable s -> small s' -> lease k c request s = (Ok (Some g), s') ->
  (exists st step, logged s (lg_run_id g) st /\ may_run (asked_kinds request) (c_now c) st step /\
     st_id step = lg_step g /\ lg_attempt g = u32_add (st_attempts step) 1) /\
  exists st', logged s' (lg_run_id g) st' /\ holds st' g (lq_worker_id request) /\
    exists l, get_lease (lg_lease_id g) s' = Some l /\ le_run_id l = lg_run_id g /\ le_step_id l = lg_step g /\
      le_worker_id l = lq_worker_id request /\ le_state l = "active".
Proof.
  intros Hi%reachable_INV Hs' Hl. unfold lease in Hl. peel Hl. apply transaction_ok in Hl.
  assert (small s) as Hs by (eapply evolves_small; [|exact Hl|exact Hs']; evolve). peel Hl.
  change (match lq_kinds request with [] => all_kinds | l => l end) with (asked_kinds request) in Hl.
  destruct (pick_runnable _ _ _) as [[run_id id]|] eqn:Ep; [|by apply kret_ok in Hl as [? _]].
  apply kbind_ok in Hl as (g' & s1 & Hg & Hl). apply kret_ok in Hl as [[= <-] <-].
  destruct (grant_inv _ _ _ _ _ _ _ _ Hg) as (row & step & Hrow & Hstep & Hgr & Hgs & Hatt & _).
  split; [|rewrite Hgr, Hgs; by eapply grant_post].
  destruct (pick_in _ _ _ _ _ Ep) as (r & x & Hr & Hx & Hrun & Hxr & Hxs).
  assert (rr_run_id r = run_id) as Hrid.
  { unfold runnable in Hrun. rewrite !andb_true_iff in Hrun.
    destruct Hrun as ((((((E & _) & _) & _) & _) & _) & _). apply String.eqb_eq in E. congruence. }
  destruct (run_logged _ _ (Hi Hs) Hs Hr) as (st & Hlog & Hm & Hsh & [[Hnd _] _]).
  destruct (shows_row _ _ _ x Hsh) as (step' & def & Hin & ->); [apply step_rows_in; split; [done | congruence]|].
  cbn in Hxs. rewrite Hgr, Hgs, <- Hrid. exists st, step'. split; [done|].
  apply (runnable_spec _ _ _ _ _ _ _ Hm Hsh Hin) in Hrun. split; [done|]. split; [done|].
  rewrite Hatt. f_equal. destruct (loaded_logged _ _ _ (Hi Hs) Hs Hrow) as (st2 & Hlog2 & Hst2).
  rewrite <- Hrid in Hlog2. rewrite (logged_unique _ _ _ _ Hlog2 Hlog) in Hst2.
  rewrite Hst2, find_step_norm in Hstep. destruct (find_step id st) as [y|] eqn:Ey; [|discriminate].
  injection Hstep as <-. cbn. apply find_first_some in Ey as [Hy Ey%String.eqb_eq].
  by rewrite (nodup_map_inj st_id (rs_steps st) y step' Hnd Hy Hin) by congruence.
Qed.
End Grant.

(** ** Witnesses *)

Import Demo.


(** The first lease of the scenario. *)
Lemma lease_hands_out_runnable_witness : exists g s',
  lease demo_kernel (demo_call 4) demo_lease_request (demo 4) = (Ok (Some g), s') /\ lg_step g = "fetch" /\
  exists st', logged s' (lg_run_id g) st' /\ holds st' g "w1".
Proof.
  set (m := lease demo_kernel (demo_call 4) demo_lease_request).
  destruct (answered (fun o => match o with Some g => String.eqb (lg_step g) "fetch" | None => false end) m (demo 4))
    as ([g|] & E & Hg); [vm_compute; reflexivity| |discriminate].
  exists g, (after m (demo 4)). split; [exact E|]. split; [by apply String.eqb_eq|].
  destruct (lease_hands_out_runnable demo_kernel (demo_call 4) demo_lease_request (demo 4) g (after m (demo 4))
    (demo_reachable 4)) as [_ (st' & Hl & Hh & _)]; [vm_compute; reflexivity | exact E |].
  exists st'. split; [exact Hl | exact Hh].
Defined.
