(* ===== verification/StepSpec.v ===== *)
(** * Reporting on a step

    [complete], [fail] and [propose_action] act only for the current holder of the step, and
    what they leave in the log is what they were told. *)

From S2P Require Import Prelude Text Ids F64 Json Policy Lexer Canonical Time Errors Keys Remit.
From S2P Require Import Payloads PayloadLaws Events Fold RunJson FoldSpec Template Schema Bundle.
From S2P Require Import Store Kernel Scenario Hoare History StoreInv KernelInv Replay LeaseSpec.
From Stdlib Require Import Ascii.

Local Open Scope string_scope.
Local Open Scope list_scope.
Local Open Scope Z_scope.

(** ** The holder *)

(** The lease is active and not expired, and by the log its step is leased under it. *)
Definition holder (now_ms : Z) (s : Store) (l : LeaseRow) (st : RunState) (step : StepState) : Prop :=
  get_lease (le_lease_id l) s = Some l /\ le_state l = "active" /\ now_ms < le_expires_at_ms l /\
  logged s (le_run_id l) st /\ find_step (le_step_id l) st = Some step /\ st_state step = SLeased /\
  exists i, st_lease step = Some i /\ li_lease_id i = le_lease_id l.

(** Events that leave the steps alone. *)
Definition leaves_steps (k : EventKind) : bool :=
  match k with
  | Kind.UsageRecorded | Kind.BudgetSoftThreshold | Kind.BudgetExceeded | Kind.CompensationCompleted
  | Kind.CompensationFailed | Kind.RunCompleted | Kind.RunFailed | Kind.RunParked | Kind.RunResumed => true
  | _ => false
  end.

Lemma apply_leaves_steps s e s' :
  leaves_steps (ev_kind e) = true -> apply s e = Ok s' -> rs_steps s' = rs_steps s.
Proof.
  intros Hl (p & Hp & Hk)%apply_inv.
  assert (ev_kind e = payload_kind p) as E.
  { destruct Hk as [[Hf ->]|[_ Hd]]; [by destruct (ev_kind e) | by apply decode_payload_kind in Hd]. }
  rewrite E in Hl. destruct p; try discriminate Hl; cbn [apply_payload] in Hp; injection Hp as <-; try done;
    by repeat match goal with |- context [if ?b then _ else _] => destruct b end.
Qed.

Section Steps.
Context `{FloatFormat, Sha256, JsonPrint, Crypto, JsonText, Regex, UnicodeTables, F64Display}.

(** The steps a run has and the run, in the middle of a transaction. *)
Definition steps_are (run_id : string) (steps : list StepState) (rt : RunTx) (s : Store) : Prop :=
  TXF True rt s /\ rs_run_id (rt_state rt) = run_id /\ rs_steps (rt_state rt) = steps.

Lemma steps_are_stable run_id steps rt : stable (steps_are run_id steps rt).
Proof. intros s s' Hc [Ht Hr]. split; [by eapply TXF_stable | done]. Qed.

Lemma append_leaves_steps run_id steps rt actor p :
  leaves_steps (payload_kind p) = true ->
  {{ steps_are run_id steps rt }} append rt actor p {{ steps_are run_id steps }}.
Proof.
  intros Hl s (Ht & Hid & Hst).
  assert (payload_u32 p) as Hu by by destruct p.
  pose proof (hoare_append True rt actor p (fun _ => Hu) s Ht) as Ht1.
  destruct (append rt actor p s) as [[rt'|] s'] eqn:E; [|done].
  apply append_state in E as (e & Hk & _ & Ha & _). split; [exact Ht1|].
  destruct (apply_frame _ _ _ Ha) as (Hid' & _ & _). split; [congruence|].
  rewrite <- Hst. eapply apply_leaves_steps; [|exact Ha]. by rewrite Hk.
Qed.

Ltac keep := apply append_leaves_steps; reflexivity.
Ltac keep_frame := apply hoare_frame; [apply _ | apply steps_are_stable | by intros ? _].

Lemma record_usage_steps run_id steps rt id usage :
  {{ steps_are run_id steps rt }} record_usage rt id usage {{ fun p => steps_are run_id steps p.1 }}.
Proof.
  unfold record_usage. destruct usage as [u|]; [|apply (hoare_ret (rt, false) (fun p => steps_are run_id steps p.1))].
  eapply hoare_bind; [keep|]. intros rt1. eapply hoare_bind.
  - instantiate (1 := steps_are run_id steps). destruct (soft_threshold _ _ _); [keep | apply hoare_ret].
  - intros rt2. apply (hoare_ret (rt2, _) (fun p => steps_are run_id steps p.1)).
Qed.

Lemma after_completion_steps run_id steps rt id st output exceeded :
  {{ steps_are run_id steps rt }} after_completion rt id st output exceeded {{ steps_are run_id steps }}.
Proof.
  unfold after_completion. destruct (is_compensation st); [|destruct (negb _); [keep|]].
  - eapply hoare_bind; [keep_frame|]. intros for_step. keep.
  - destruct (_ && _); [|apply hoare_ret]. eapply hoare_bind; [keep|]. intros rt1. keep.
Qed.

Lemma leased_run_holder now id s l rt s' :
  INV s -> small s -> leased_run now id s = (Ok (l, rt), s') ->
  s' = s /\ le_lease_id l = id /\ TXF True rt s /\ rs_run_id (rt_state rt) = le_run_id l /\
  exists st step, holder now s l st step /\ rt_state rt = norm_state st /\
    find_step (le_step_id l) (rt_state rt) = Some (norm_step step).
Proof.
  intros Hi Hs Hl. apply leased_run_ok in Hl as (-> & Hg & Hact & Hn & Hrow & Hheld & _).
  assert (le_lease_id l = id) as Hid by (by apply find_first_some in Hg as [_ Hg%String.eqb_eq]).
  split; [done|]. split; [done|]. split.
  { intros _. split; [|done]. apply (tx_ok_row s {| rt_ts := ""; rt_run := rt_run rt; rt_defs := [] |}); [done|].
    eapply consistent_tx; [by apply Hi | exact Hrow]. }
  split; [by destruct (require_run_ok _ _ _ (Hi Hs) Hrow)|].
  destruct (loaded_logged _ _ _ (Hi Hs) Hs Hrow) as (st & Hlog & Hst).
  unfold step_held in Hheld. unfold rt_state in *. rewrite Hst, find_step_norm in Hheld |- *.
  destruct (find_step (le_step_id l) st) as [step|] eqn:Ef; [|discriminate]. cbn in Hheld.
  apply andb_true_iff in Hheld as [Hst1 Hst2]. unfold step_is in Hst1. cbn in Hst1. bool_prop.
  exists st, step. split; [|done]. unfold holder. rewrite Hid. repeat split; try done.
  destruct (st_lease step) as [i|]; [|discriminate]. exists i. split; [done|].
  rewrite <- Hid. by apply String.eqb_eq.
Qed.

(** ** The payload of a completion *)

Lemma map_get_remove {A} k k' (m : list (string * A)) :
  k <> k' -> map_get k (map_remove k' m) = map_get k m.
Proof.
  intros Hne. unfold map_remove. induction m as [|[x v] m IH]; [done|]. cbn.
  destruct (String.eqb_spec x k') as [->|]; cbn; [|by destruct (String.eqb k x)].
  rewrite IH. by destruct (String.eqb_spec k k').
Qed.

(** Truncation touches one of four fields and adds two. *)
Lemma truncate_keeps j j' k :
  truncate_payload j = Some j' -> ~ In k ["result"; "output"; "args"; "data"; "truncated"; "sha256"] ->
  jget k j' = jget k j.
Proof.
  intros Ht Hk. unfold truncate_payload in Ht. destruct (_ <=? _); [by injection Ht as <-|].
  destruct j as [| | | | |m]; try discriminate. apply bind_inv in Ht as (field & Hf & Ht).
  apply bind_inv in Ht as (full & _ & Ht). destruct (_ <=? _); [|discriminate]. injection Ht as <-.
  apply find_first_some in Hf as [Hin _].
  cbn [jget]. rewrite !map_get_insert.
  destruct (String.eqb_spec k "sha256") as [->|]; [cbn in Hk; tauto|].
  destruct (String.eqb_spec k "truncated") as [->|]; [cbn in Hk; tauto|].
  destruct (String.eqb_spec k field) as [->|Hne]; [cbn in Hin, Hk; tauto|]. by apply map_get_remove.
Qed.

Lemma truncate_object m j' : truncate_payload (JObj m) = Some j' -> exists m', j' = JObj m'.
Proof.
  intros Ht. unfold truncate_payload in Ht. destruct (_ <=? _); [injection Ht as <-; eauto|].
  apply bind_inv in Ht as (field & Hf & Ht). apply bind_inv in Ht as (full & _ & Ht).
  destruct (_ <=? _); [|discriminate]. injection Ht as <-. eauto.
Qed.

Lemma de_StepCompleted_fields m p :
  de_StepCompleted (JObj m) = Some p ->
  map_get "step" m = Some (JStr (sc_step p)) /\ map_get "output" m = Some (sc_output p).
Proof.
  unfold de_StepCompleted. cbn [struct_fields]. intros Hd. unbind Hd. injection Hv as <-. injection Hd as <-.
  unfold req in *. cbn [field_map] in *. split.
  - destruct (map_get "step" m) as [[]|]; try discriminate. by injection Hv0 as <-.
  - destruct (map_get "output" m); [|discriminate]. by injection Hv3 as <-.
Qed.

Definition completion (l : LeaseRow) (step : StepState) (output : json) : json :=
  ser_StepCompleted {| sc_step := st_id step; sc_lease_id := le_lease_id l; sc_attempt := le_attempt l;
                       sc_output := output |}.

Lemma completion_decoded l step output payload p :
  truncate_payload (completion l step output) = Some payload -> de_StepCompleted payload = Some p ->
  sc_step p = st_id step /\ jget "output" payload = Some (sc_output p).
Proof.
  intros Ht Hd. pose proof Ht as Hk. unfold completion, ser_StepCompleted, obj in Ht.
  apply truncate_object in Ht as [m ->]. apply de_StepCompleted_fields in Hd as [Hs Ho]. split; [|done].
  apply (truncate_keeps _ _ "step") in Hk; [|cbn; intuition discriminate].
  cbn [jget] in Hk. rewrite Hs in Hk. unfold completion, ser_StepCompleted, obj in Hk. cbn [jget] in Hk.
  rewrite map_get_mk_map in Hk. cbv [get_last String.eqb Ascii.eqb Bool.eqb] in Hk. cbn [sc_step] in Hk. congruence.
Qed.

(** ** Completing *)

(** The state after the completion is appended. *)
Lemma append_completion rt actor payload s e rt1 s1 :
  append_raw rt actor Kind.StepCompleted payload s = (Ok (e, rt1), s1) ->
  exists p, de_StepCompleted payload = Some p /\ rs_run_id (rt_state rt1) = rs_run_id (rt_state rt) /\
    rt_state rt1 = update_step (sc_step p) (complete_step p) (set_last_seq (ev_seq e) (rt_state rt)).
Proof.
  intros (He & _ & Ha & _)%append_raw_inv. destruct (apply_frame _ _ _ Ha) as (Hid & _ & _).
  apply apply_inv in Ha as (p & Hp & [[Hf _]|[_ Hd]]); [by rewrite He in Hf|].
  rewrite He in Hd. cbn [ev_kind ev_payload build decode_payload] in Hd.
  apply fmap_inv in Hd as (q & Hq & ->). cbn [apply_payload] in Hp. injection Hp as Hp.
  exists q. split; [exact Hq|]. by split.
Qed.

#[global] Instance complete_history c id output usage : Evolves history (complete c id output usage).
Proof. unfold complete. evolve. Qed.
#[global] Instance fail_history k c id error det : Evolves history (fail k c id error det).
Proof. unfold fail. evolve. Qed.
#[global] Instance propose_action_history c id action : Evolves history (propose_action c id action).
Proof. unfold propose_action. evolve. Qed.

Lemma find_step_steps id s t : rs_steps s = rs_steps t -> find_step id s = find_step id t.
Proof. intros E. unfold find_step. by rewrite E. Qed.

(** The rest of [complete] keeps the steps as the completion left them. *)
Lemma complete_rest l rt1 s1 id step payload usage steps r s' :
  steps_are (le_run_id l) steps rt1 s1 ->
  (let! _ := end_lease id "completed" in
   let! (rt, exceeded) := record_usage rt1 (st_id step) usage in
   let! rt := after_completion rt (le_run_id l) step payload exceeded in
   let! _ := persist rt in
   kret {| cr_run_state := rs_state (rt_state rt);
           cr_next_step := match next_step (rt_state rt) with Some s => Some (st_id s) | None => None end |}) s1
    = (Ok r, s') -> small s' ->
  exists st' rt3, logged s' (le_run_id l) st' /\ sim st' (rt_state rt3) /\ rs_steps (rt_state rt3) = steps /\
    rs_state st' = cr_run_state r.
Proof.
  intros Hst Hc Hs'. apply kbind_ok in Hc as (u & s2 & He & Hc).
  pose proof (steps_are_stable _ _ _ _ _ (evolves_ok _ _ _ _ _ (frames_end_lease id "completed") He) Hst) as Hst2.
  apply kbind_ok in Hc as ([rt2 exceeded] & s3 & Hu & Hc).
  pose proof (hoare_ok _ _ _ _ _ _ _ (record_usage_steps _ _ _ _ _) Hst2 Hu) as Hst3. cbn [fst] in Hst3.
  apply kbind_ok in Hc as (rt3 & s4 & Ha & Hc).
  pose proof (hoare_ok _ _ _ _ _ _ _ (after_completion_steps _ _ _ _ _ _ _) Hst3 Ha) as (Ht & Hid & Hsteps).
  apply kbind_ok in Hc as (u' & s5 & Hp & Hc). apply kret_ok in Hc as [-> ->].
  destruct (persist_logged _ _ _ _ _ Ht Hp Hs') as (st' & Hlog & Hsim). rewrite Hid in Hlog.
  exists st', rt3. cbn. split; [done|]. split; [done|]. split; [done|]. apply (sim_state _ _ Hsim).
Qed.


(** ** Failing *)

(** The step's status, in the middle of a transaction. *)
Definition step_now (run_id id : string) (status : StepStatus) (rt : RunTx) (s : Store) : Prop :=
  TXF True rt s /\ rs_run_id (rt_state rt) = run_id /\
  exists x, find_step id (rt_state rt) = Some x /\ st_state x = status.

Lemma step_now_stable run_id id status rt : stable (step_now run_id id status rt).
Proof. intros s s' Hc [Ht Hr]. split; [by eapply TXF_stable | done]. Qed.

Lemma step_now_leaves run_id id status rt actor p :
  leaves_steps (payload_kind p) = true ->
  {{ step_now run_id id status rt }} append rt actor p {{ step_now run_id id status }}.
Proof.
  intros Hl s (Ht & Hid & x & Hx & Hst).
  pose proof (append_leaves_steps run_id (rs_steps (rt_state rt)) rt actor p Hl s (conj Ht (conj Hid eq_refl))) as Ha.
  destruct (append rt actor p s) as [[rt'|] s']; [|done]. destruct Ha as (Ht' & Hid' & Hsteps).
  split; [done|]. split; [done|]. exists x. by rewrite (find_step_steps _ _ _ Hsteps).
Qed.

(** An event that updates one step, however its payload is read back. *)
Lemma step_now_update run_id id f status rt actor p s rt' s' :
  payload_u32 p -> step_now run_id id status rt s -> append rt actor p s = (Ok rt', s') ->
  payload_free (payload_kind p) = false ->
  (forall q, decode_payload (payload_kind p) (payload_value p) = Some q -> forall e st,
     exists g, apply_payload e q st = Some (update_step id g st) /\
       (forall x, st_id (g x) = st_id x) /\ (forall x, st_state (g x) = f)) ->
  step_now run_id id f rt' s'.
Proof.
  intros Hu (Ht & Hid & x & Hx & _) Ha Hpf Hq.
  pose proof (hoare_append True rt actor p (fun _ => Hu) s Ht) as Ht1. rewrite Ha in Ht1.
  apply append_state in Ha as (e & Hk & Hp & Ha & _). destruct (apply_frame _ _ _ Ha) as (Hid' & _ & _).
  split; [exact Ht1|]. split; [congruence|].
  apply apply_inv in Ha as (q & Hap & [[Hf _]|[_ Hd]]); [congruence|]. rewrite Hk, Hp in Hd.
  destruct (Hq q Hd e (set_last_seq (ev_seq e) (rt_state rt))) as (g & Hg & Hgi & Hgs).
  rewrite Hg in Hap. injection Hap as <-. rewrite find_update_step by done.
  unfold find_step in *. cbn. rewrite Hx. cbn. eauto.
Qed.

Lemma de_StepFailed_step p q : de_StepFailed (ser_StepFailed p) = Some q -> sf_step q = sf_step p.
Proof.
  unfold de_StepFailed, ser_StepFailed, obj. cbn [struct_fields]. intros Hd. unbind Hd.
  injection Hv as <-. injection Hd as <-. cbn [sf_step]. apply req_obj in Hv0 as (j & Hj & Hd).
  destruct (sf_lease_id p); cbv [skip_none app get_last String.eqb Ascii.eqb Bool.eqb] in Hj;
    injection Hj as <-; by injection Hd as <-.
Qed.

Lemma failed_now run_id status rt actor p :
  {{ step_now run_id (sf_step p) status rt }} append rt actor (PStepFailed p)
  {{ step_now run_id (sf_step p) SFailed }}.
Proof.
  intros s Hs. destruct (append rt actor _ s) as [[rt'|] s'] eqn:E; [|done].
  eapply (step_now_update _ _ _ _ _ _ (PStepFailed p)); [done | exact Hs | exact E | done |]. cbn [decode_payload payload_kind payload_value KIND].
  intros q (q' & Hq & ->)%fmap_inv e st. cbn [apply_payload].
  exists (fail_step q'). by rewrite (de_StepFailed_step _ _ Hq).
Qed.

Lemma retried_now run_id status rt actor p :
  u32_ok (sr_attempt p) ->
  {{ step_now run_id (sr_step p) status rt }} append rt actor (PStepRetryScheduled p)
  {{ step_now run_id (sr_step p) SScheduled }}.
Proof.
  intros Hu s Hs. destruct (append rt actor _ s) as [[rt'|] s'] eqn:E; [|done].
  eapply (step_now_update _ _ _ _ _ _ (PStepRetryScheduled p)); [done | exact Hs | exact E | done |].
  intros q Hq e st. rewrite (decode_encode_payload (PStepRetryScheduled p) Hu) in Hq. injection Hq as <-.
  cbn [apply_payload]. eexists. split; [reflexivity|]. done.
Qed.

Lemma quarantined_now run_id status rt actor p :
  u32_ok (sq_attempts p) ->
  {{ step_now run_id (sq_step p) status rt }} append rt actor (PStepQuarantined p)
  {{ step_now run_id (sq_step p) SQuarantined }}.
Proof.
  intros Hu s Hs. destruct (append rt actor _ s) as [[rt'|] s'] eqn:E; [|done].
  eapply (step_now_update _ _ _ _ _ _ (PStepQuarantined p)); [done | exact Hs | exact E | done |].
  intros q Hq e st. rewrite (decode_encode_payload (PStepQuarantined p) Hu) in Hq. injection Hq as <-.
  cbn [apply_payload]. eexists. split; [reflexivity|]. done.
Qed.

(** Exponential backoff with jitter: between half and all of the capped delay. *)
Lemma backoff_range (c : KernelConfig) jitter n :
  0 <= retry_base_ms c -> 0 <= retry_cap_ms c ->
  let full := Z.min (u64_saturating_mul (retry_base_ms c) (Z.shiftl 1 (Z.min (Z.max (n - 1) 0) 30)))
                (retry_cap_ms c) in
  full / 2 <= backoff_ms c jitter n <= full /\ 0 <= full <= retry_cap_ms c.
Proof.
  intros Hb Hc full. assert (0 <= full) as Hf.
  { unfold full, u64_saturating_mul, u64_max. rewrite Z.shiftl_mul_pow2 by lia.
    assert (0 < 2 ^ Z.min (Z.max (n - 1) 0) 30) by (apply Z.pow_pos_nonneg; lia). nia. }
  unfold backoff_ms. fold full. assert (0 <= full / 2) by (apply Z.div_pos; lia).
  pose proof (Z.mod_pos_bound jitter (full / 2 + 1) ltac:(lia)).
  pose proof (Z.mul_div_le full 2 ltac:(lia)). unfold full in *. lia.
Qed.

(** What a failure leads to, by the number of attempts made. *)
Definition failure_outcome (k : Kernel) (attempts : Z) (det : bool) (r : FailResult) (status : StepStatus) : Prop :=
  fr_outcome r = "parked" /\ status = SFailed /\ fr_delay_ms r = None \/
  fr_outcome r = "quarantined" /\ status = SQuarantined /\ fr_delay_ms r = None /\ attempt_limit k det <= attempts \/
  fr_outcome r = "retry_scheduled" /\ status = SScheduled /\ attempts < attempt_limit k det /\
    exists d, fr_delay_ms r = Some d /\ (det = true -> d = 0) /\
      (0 <= retry_base_ms (k_config k) -> 0 <= retry_cap_ms (k_config k) -> 0 <= d <= retry_cap_ms (k_config k)).

Ltac leave := apply step_now_leaves; reflexivity.

Lemma quarantine_now rt run_id step error det :
  u32_ok (st_attempts step) ->
  {{ step_now run_id (st_id step) SFailed rt }} quarantine rt run_id step error det
  {{ step_now run_id (st_id step) SQuarantined }}.
Proof.
  intros Hu. unfold quarantine. eapply hoare_bind.
  { apply (quarantined_now run_id SFailed rt Act.kernel {| sq_step := st_id step; sq_reason := _; sq_attempts := _ |}).
    exact Hu. }
  intros rt1. destruct (is_compensation step); [|leave].
  eapply hoare_bind; [apply hoare_frame; [apply _ | apply step_now_stable | by intros ? _]|].
  intros for_step. eapply hoare_bind; [leave|]. intros rt2. leave.
Qed.

Lemma after_failure_now k c rt run_id step error det :
  u32_ok (st_attempts step) ->
  {{ step_now run_id (st_id step) SFailed rt }} after_failure k c rt run_id step error det
  {{ fun p s => exists status, failure_outcome k (st_attempts step) det p.2 status /\
                  step_now run_id (st_id step) status p.1 s }}.
Proof.
  intros Hu. unfold after_failure. destruct (_ && _); [|destruct (Z.leb_spec (attempt_limit k det) (st_attempts step))].
  - eapply hoare_bind; [leave|]. intros rt1 s Hs. exists SFailed. split; [left; done | exact Hs].
  - eapply hoare_bind; [by apply quarantine_now|]. intros rt1 s Hs. exists SQuarantined.
    split; [right; left; done | exact Hs].
  - eapply hoare_bind.
    { apply (retried_now run_id SFailed rt Act.kernel {| sr_step := st_id step; sr_attempt := _; sr_delay_ms := _ |}).
      apply u32_add_ok. }
    intros rt1 s Hs. exists SScheduled. split; [|exact Hs]. right; right. split; [done|]. split; [done|].
    split; [done|]. eexists. split; [reflexivity|]. split; [by intros ->|]. intros Hb Hc. destruct det; [lia|].
    destruct (backoff_range (k_config k) (c_jitter c) (st_attempts step) Hb Hc) as [[Hlo Hhi] [Hz Hcap]].
    split; [|lia]. eapply Z.le_trans; [|exact Hlo]. apply Z.div_pos; lia.
Qed.

End Steps.

(** ** Witnesses *)

Import Demo.


