(* ===== verification/ActionSpec.v ===== *)
(** * Actions and approvals

    An action goes through only when the policies of the run allow it or a human has
    approved this very action; an action that needs a human parks the run and gives up the
    lease; and only an approver decides, once. *)

From S2P Require Import Prelude Text Ids F64 Json Policy Lexer Canonical Time Errors Keys Remit.
From S2P Require Import Payloads PayloadLaws Events Fold RunJson FoldSpec Template Schema Bundle.
From S2P Require Import Store Kernel Scenario Hoare History StoreInv KernelInv Replay LeaseSpec.
From S2P Require Import StepSpec.
From Stdlib Require Import Ascii.

Local Open Scope string_scope.
Local Open Scope list_scope.
Local Open Scope Z_scope.

(** ** What leaves the approvals alone *)

Definition same_approvals (s s' : Store) : Prop := t_approvals s' = t_approvals s.

#[export] Instance same_approvals_preorder : PreOrder same_approvals.
Proof. split; [done|]. intros s1 s2 s3. unfold same_approvals. congruence. Qed.

#[export] Instance write_step_approvals run_id step def : Evolves same_approvals (write_step run_id step def).
Proof. intros s. unfold write_step. destruct (any _ _); [done|]. by destruct def. Qed.
#[export] Instance write_run_approvals row : Evolves same_approvals (write_run row).
Proof. intros s. unfold write_run, kput. cbn. by destruct (any _ _). Qed.
#[export] Instance insert_event_approvals e : Evolves same_approvals (insert_event e).
Proof. intros s. unfold insert_event. by destruct (any _ _). Qed.
#[export] Instance upsert_action_approvals a : Evolves same_approvals (upsert_action a).
Proof. intros s. unfold upsert_action, kput. cbn. by destruct (any _ _). Qed.
#[export] Instance end_lease_approvals id st : Evolves same_approvals (end_lease id st).
Proof. by intros s. Qed.

Lemma get_approval_ext id s s' : same_approvals s s' -> get_approval id s' = get_approval id s.
Proof. intros E. unfold get_approval. by rewrite E. Qed.

Lemma insert_approval_get a s u s' :
  insert_approval a s = (Ok u, s') -> exists a', get_approval (apr_approval_id a) s' = Some a' /\
    apr_run_id a' = apr_run_id a /\ apr_step_id a' = apr_step_id a /\ apr_action a' = apr_action a /\
    apr_action_hash a' = apr_action_hash a /\ apr_state a' = apr_state a /\ apr_approver a' = apr_approver a.
Proof.
  unfold insert_approval. destruct (any _ _) eqn:E; [discriminate|]. intros [= _ <-].
  unfold get_approval. cbn. rewrite find_first_app. apply not_true_iff_false in E. rewrite any_true in E.
  destruct (find_first (is_approval (apr_approval_id a)) (t_approvals s)) as [x|] eqn:Ef.
  - apply find_first_some in Ef as [Hin Hx]. exfalso. eauto.
  - cbn. unfold is_approval. cbn. rewrite String.eqb_refl. eexists. split; [reflexivity|]. done.
Qed.

Section Actions.
Context `{FloatFormat, Sha256, JsonPrint, Crypto, JsonText, Regex, UnicodeTables, F64Display}.

#[global] Instance persist_approvals rt : Evolves same_approvals (persist rt).
Proof. unfold persist. evolve. Qed.
#[global] Instance append_raw_approvals rt actor kind payload : Evolves same_approvals (append_raw rt actor kind payload).
Proof. unfold append_raw. evolve. Qed.
#[global] Instance append_event_approvals rt actor p : Evolves same_approvals (append_event rt actor p).
Proof. unfold append_event. evolve. Qed.
#[global] Instance append_approvals rt actor p : Evolves same_approvals (append rt actor p).
Proof. unfold append. evolve. Qed.

(** ** Asking a human *)

(** The run waits for a decision: the lease is over, the run is parked by its log, and the
    approval is there to decide, for this action. *)
Definition waits (s : Store) (l : LeaseRow) (action : json) (approval_id : string) : Prop :=
  ended (le_lease_id l) s /\
  (exists st, logged s (le_run_id l) st /\ rs_state st = RParked /\ rs_park_reason st = Some "approval") /\
  exists a, get_approval approval_id s = Some a /\ apr_state a = "pending" /\ apr_run_id a = le_run_id l /\
    apr_step_id a = le_step_id l /\ apr_action a = action /\ apr_action_hash a = hash_value action.

(** The transaction of a run, and the run. *)
Definition tx_of (run_id : string) (rt : RunTx) (s : Store) : Prop :=
  TXF True rt s /\ rs_run_id (rt_state rt) = run_id.

Lemma tx_of_stable run_id rt : stable (tx_of run_id rt).
Proof. intros s s' Hc [Ht Hr]. split; [by eapply TXF_stable | done]. Qed.

Lemma append_event_tx run_id rt actor p :
  payload_u32 p -> {{ tx_of run_id rt }} append_event rt actor p {{ fun q => tx_of run_id q.2 }}.
Proof.
  intros Hu s [Ht Hid]. pose proof (hoare_append_event True rt actor p (fun _ => Hu) s Ht) as Ha.
  destruct (append_event rt actor p s) as [[[e rt']|] s'] eqn:E; [|done]. split; [exact Ha|].
  apply append_raw_inv in E as (_ & _ & Hap & _). apply apply_frame in Hap as (Hid' & _). cbn. congruence.
Qed.

Lemma append_tx run_id rt actor p :
  payload_u32 p -> {{ tx_of run_id rt }} append rt actor p {{ tx_of run_id }}.
Proof.
  intros Hu. unfold append. eapply hoare_bind; [by apply append_event_tx|]. intros [e rt']. apply (hoare_ret rt' (tx_of run_id)).
Qed.

Lemma append_tx_ok run_id rt actor p s rt' s' :
  append rt actor p s = (Ok rt', s') -> payload_u32 p -> tx_of run_id rt s -> tx_of run_id rt' s'.
Proof. intros Ha Hu Ht. pose proof (append_tx run_id rt actor p Hu s Ht) as Hx. by rewrite Ha in Hx. Qed.

Lemma append_event_tx_ok run_id rt actor p s e rt' s' :
  append_event rt actor p s = (Ok (e, rt'), s') -> payload_u32 p -> tx_of run_id rt s -> tx_of run_id rt' s'.
Proof. intros Ha Hu Ht. pose proof (append_event_tx run_id rt actor p Hu s Ht) as Hx. by rewrite Ha in Hx. Qed.

Lemma request_approval_inv c rt p d action_id s rt' id s' :
  tx_of (le_run_id (pp_lease p)) rt s -> get_lease (le_lease_id (pp_lease p)) s <> None ->
  request_approval c rt p d action_id s = (Ok (rt', id), s') ->
  tx_of (le_run_id (pp_lease p)) rt' s' /\ ended (le_lease_id (pp_lease p)) s' /\
  rs_state (rt_state rt') = RParked /\ rs_park_reason (rt_state rt') = Some "approval" /\
  exists a, get_approval id s' = Some a /\ apr_state a = "pending" /\ apr_run_id a = le_run_id (pp_lease p) /\
    apr_step_id a = le_step_id (pp_lease p) /\ apr_action a = pp_action p /\ apr_action_hash a = pp_hash p.
Proof.
  intros Ht Hg Hr. unfold request_approval in Hr.
  apply kbind_ok in Hr as (rt1 & s1 & H1' & Hr). apply kbind_ok in Hr as (rt2 & s2 & H2' & Hr).
  apply kbind_ok in Hr as (rt3 & s3 & H3' & Hr). apply kbind_ok in Hr as (u & s4 & H4' & Hr).
  apply kbind_ok in Hr as (u' & s5 & H5' & Hr). apply kret_ok in Hr as [[= -> ->] ->].
  assert (tx_of (le_run_id (pp_lease p)) rt3 s3) as Ht3.
  { apply (append_tx_ok _ _ _ _ _ _ _ H3' I), (append_tx_ok _ _ _ _ _ _ _ H2' I), (append_tx_ok _ _ _ _ _ _ _ H1' I).
    exact Ht. }
  split. { eapply tx_of_stable; [|exact Ht3]. transitivity s4.
    - exact (evolves_ok _ _ _ _ _ (frames_end_lease _ _) H4').
    - exact (evolves_ok _ _ _ _ _ (frames_insert_approval _) H5'). }
  split. { eapply hi_leases; [exact (evolves_ok _ _ _ _ _ (insert_approval_history _) H5')|].
    eapply end_lease_ended; [|rewrite (get_lease_ext _ s); [exact Hg|]|exact H4']; [done|].
    by rewrite (append_leases _ _ _ _ _ _ H3'), (append_leases _ _ _ _ _ _ H2'), (append_leases _ _ _ _ _ _ H1'). }
  apply append_applied in H3' as (e & st & Hp & Hst & _); [|done]. cbn [apply_payload] in Hp. injection Hp as <-.
  rewrite Hst. split; [done|]. split; [done|]. by apply insert_approval_get in H5' as (a & Ha & Hrest); exists a; intuition.
Qed.

Lemma append_event_leases rt actor p s e rt' s' :
  append_event rt actor p s = (Ok (e, rt'), s') -> t_leases s' = t_leases s.
Proof. unfold append_event. by intros (_ & -> & _)%append_raw_inv. Qed.

Lemma upsert_leases a s u s' : upsert_action a s = (Ok u, s') -> t_leases s' = t_leases s.
Proof. unfold upsert_action, kput. intros [= _ <-]. by destruct (any _ _). Qed.

(** The outcome of [decide_action] is the decision, carried out. *)
Lemma decide_action_inv c rt p d refs s o s' :
  tx_of (le_run_id (pp_lease p)) rt s -> get_lease (le_lease_id (pp_lease p)) s <> None ->
  pp_hash p = hash_value (pp_action p) -> small s' -> decide_action c rt p d refs s = (Ok o, s') ->
  ao_decision o = decision d /\ ao_rule o = d_rule d /\
  match decision d with
  | DApprovalRequired => exists id, ao_approval_id o = Some id /\ waits s' (pp_lease p) (pp_action p) id
  | _ => ao_approval_id o = None
  end.
Proof.
  intros Ht Hg Hh Hs' Hd. unfold decide_action, propose in Hd.
  apply kbind_ok in Hd as (rt1 & s1 & H1' & Hd). apply kbind_ok in Hd as ([e rt2] & s2 & H2' & Hd).
  apply kbind_ok in Hd as ([rt3 ap] & s3 & H3' & Hd). apply kbind_ok in Hd as (u & s4 & H4' & Hd).
  apply kbind_ok in Hd as (u' & s5 & H5' & Hd). apply kret_ok in Hd as [-> ->]. cbn.
  split; [done|]. split; [done|]. destruct (decision d); try (by apply kret_ok in H3' as [[= _ ->] _]).
  apply kbind_ok in H3' as ([rt4 id] & s6 & H3' & H6'). apply kret_ok in H6' as [[= -> ->] ->].
  exists id. split; [done|].
  assert (tx_of (le_run_id (pp_lease p)) rt2 s2) as Ht2.
  { apply (append_event_tx_ok _ _ _ _ _ _ _ _ H2' I), (append_tx_ok _ _ _ _ _ _ _ H1' I). exact Ht. }
  apply request_approval_inv in H3' as ([Ht3 Hid3] & He & Hrs & Hpr & a & Ha & Hrest); [|done|].
  2: { rewrite (get_lease_ext _ s); [done|]. by rewrite (append_event_leases _ _ _ _ _ _ _ H2'), (append_leases _ _ _ _ _ _ H1'). }
  assert (TXF True rt4 s4) as Ht4
    by (eapply TXF_stable; [exact (evolves_ok _ _ _ _ _ (frames_upsert_action _) H4') | exact Ht3]).
  destruct (persist_logged _ _ _ _ _ Ht4 H5' Hs') as (st & Hlog & Hsim). split; [|split].
  - eapply hi_leases; [|exact He]. transitivity s4; [exact (evolves_ok _ _ _ _ _ (upsert_action_history _) H4') |
      exact (evolves_ok _ _ _ _ _ (persist_history _) H5')].
  - exists st. rewrite Hid3 in Hlog. rewrite (sim_state _ _ Hsim), (sim_park_reason _ _ Hsim). auto.
  - exists a. rewrite (get_approval_ext id s6), Ha, <- Hh; [by intuition|].
    transitivity s4; [exact (evolves_ok _ _ _ _ _ (upsert_action_approvals _) H4') |
      exact (evolves_ok _ _ _ _ _ (persist_approvals _) H5')].
Qed.

Lemma approved_in_run_in run_id a s :
  In a (approved_in_run run_id s) -> In a (t_approvals s) /\ apr_run_id a = run_id /\ apr_state a = "approved".
Proof.
  unfold approved_in_run. intros [Hin [E1 E2]%andb_true_iff]%order_by_in%filter_In.
  by apply String.eqb_eq in E1, E2.
Qed.

(** C6: an action goes through only under policy or under an approval of that very action.
    Only the holder of the step proposes; the answer is either an earlier human approval, in
    this run, of an action with the same idempotency key or the same content, or exactly
    what the policies of the run's remit decide on it; and when they ask for a human the run
    is parked, the lease is given up and a pending approval for this action is filed. *)
Theorem action_needs_policy_or_human c id action s o s' :
  reachable s -> small s' -> propose_action c id action s = (Ok o, s') ->
  exists l st step row child, le_lease_id l = id /\ holder (c_now c) s l st step /\
    require_run (le_run_id l) s = Ok row /\ get_remit (row_child_remit_id row) s = Ok (Some child) /\
    ((ao_decision o = DAllow /\ exists a, In a (t_approvals s) /\ apr_run_id a = le_run_id l /\
        apr_state a = "approved" /\ same_action (jget_str "idempotency_key" action) (hash_value action) a = true /\
        ao_approval_id o = Some (apr_approval_id a)) \/
     exists policies refs, load_policy_set (policy_set (rmrow_payload child)) s = Ok (policies, refs) /\
       let d := evaluate policies (policy_context st (rmrow_payload child) action) in
       ao_decision o = decision d /\ ao_rule o = d_rule d /\
       match decision d with
       | DApprovalRequired => exists apr, ao_approval_id o = Some apr /\ waits s' l action apr
       | _ => ao_approval_id o = None
       end).
Proof.
  intros Hi%reachable_INV Hs' Hp. pose proof (evolves_small _ _ _ _ _ Hp Hs') as Hs.
  unfold propose_action in Hp. peel Hp. apply commit_ok in Hp as ([l rt] & s1 & Hl & Hp).
  pose proof Hl as (_ & Hg & _ & _ & Hrow & _)%leased_run_ok.
  apply leased_run_holder in Hl as (-> & Hid & Ht & Hrun & st & step & Hh & Hst & Hf); [|done..].
  peel Hp. peel Hp. peel Hp. rewrite Ha1 in Ha0.
  exists l, st, step, (rt_run rt), a1. do 4 (split; [done|]).
  destruct (find_first _ _) as [ap|] eqn:Ef.
  - left. apply find_first_some in Ef as [(Hin & Hr & Hap)%approved_in_run_in Hsame].
    unfold reuse_approval in Hp. apply kbind_ok in Hp as (rt1 & s1 & _ & Hp).
    apply kbind_ok in Hp as ([e rt2] & s2 & _ & Hp). apply kbind_ok in Hp as (u & s3 & _ & Hp).
    apply kbind_ok in Hp as (u' & s4 & _ & Hp). apply kret_ok in Hp as [-> _]. cbn. split; [done|]. eauto 10.
  - right. apply kbind_ok in Hp as ([policies refs] & s1 & Hload & Hp). apply kread_ok in Hload as [Hload ->].
    exists policies, refs. split; [done|]. rewrite Hst in Hp.
    apply decide_action_inv in Hp; cbn [pp_lease pp_action pp_hash] in *; [exact Hp | by split | | done | done].
    by rewrite Hid, Hg.
Qed.

(** ** Deciding *)

Lemma record_decision_get id d actor reason t s u s' a :
  get_approval id s = Some a -> record_decision id d actor reason t s = (Ok u, s') ->
  exists a', get_approval id s' = Some a' /\ apr_state a' = d /\ apr_actor a' = Some actor /\ apr_reason a' = Some reason.
Proof.
  intros Hg. unfold record_decision, set_approval, kput. intros [= _ <-]. unfold get_approval in *. cbn.
  rewrite find_first_update_all by done. rewrite Hg. apply find_first_some in Hg as [_ Hg]. cbn. rewrite Hg.
  eexists. split; [reflexivity|]. done.
Qed.

Lemma kguard_bind {A} b e (m : unit -> M A) s : kbind (kguard b e) m s = if b then m tt s else (Err e, s).
Proof. by destruct b. Qed.

(** A second decision finds the approval decided. *)
Lemma decide_decided c id d actor reason s a :
  get_approval id s = Some a -> apr_state a <> "pending" ->
  snd (decide_approval c id d actor reason s) = s /\ is_ok (fst (decide_approval c id d actor reason s)) = false.
Proof.
  intros Hg Hn. apply String.eqb_neq in Hn. unfold decide_approval.
  do 3 (rewrite kguard_bind; match goal with |- context [if ?b then _ else (Err _, s)] => destruct b end; [|done]).
  unfold transaction, kbind, kget, ksome, klift. rewrite Hg. cbn [ok_or]. by rewrite Hn.
Qed.

Lemma after_rejection_failed rt o actor reason s rt' s' :
  after_rejection rt o actor reason s = (Ok rt', s') -> rs_state (rt_state rt') = RFailed.
Proof.
  unfold after_rejection. intros Ha. apply kbind_ok in Ha as (rt1 & s1 & _ & Ha).
  apply append_applied in Ha as (e & st & Hp & -> & _); [|done]. cbn [apply_payload] in Hp. by injection Hp as <-.
Qed.

Lemma after_approval_running rt o s rt' s' :
  step_u32 o -> after_approval rt o s = (Ok rt', s') -> rs_state (rt_state rt) = RParked -> rs_state (rt_state rt') = RRunning.
Proof.
  intros Hu Ha Hp. unfold after_approval in Ha. apply kbind_ok in Ha as (rt1 & s1 & H1' & Ha).
  assert (rs_state (rt_state rt1) = RRunning) as Hr.
  { unfold is_status in H1'. rewrite bool_decide_eq_true_2 in H1' by done.
    apply append_applied in H1' as (e & st & Hx & -> & _); [|done]. cbn [apply_payload] in Hx. by injection Hx as <-. }
  destruct o as [st|]; [|by apply kret_ok in Ha as [-> _]].
  apply append_applied in Ha as (e & st' & Hx & -> & _); [|by apply Hu]. cbn [apply_payload] in Hx. injection Hx as <-.
  unfold is_status. cbn [ss_step]. destruct (find_step (st_id st) _); cbn; rewrite Hr; by rewrite bool_decide_eq_false_2.
Qed.

#[global] Instance after_approval_approvals rt o : Evolves same_approvals (after_approval rt o).
Proof. unfold after_approval. evolve. Qed.
#[global] Instance after_rejection_approvals rt o actor reason :
  Evolves same_approvals (after_rejection rt o actor reason).
Proof. unfold after_rejection. evolve. Qed.
#[global] Instance decide_approval_history c id d actor reason :
  Evolves history (decide_approval c id d actor reason).
Proof. unfold decide_approval. evolve. Qed.

Lemma append_run_id rt actor p s rt' s' :
  append rt actor p s = (Ok rt', s') -> rs_run_id (rt_state rt') = rs_run_id (rt_state rt).
Proof. intros (e & _ & _ & Ha & _)%append_state. by apply apply_frame in Ha as [Ha _]. Qed.

Lemma after_approval_id rt o s rt' s' :
  after_approval rt o s = (Ok rt', s') -> rs_run_id (rt_state rt') = rs_run_id (rt_state rt).
Proof.
  unfold after_approval. intros Ha. apply kbind_ok in Ha as (rt1 & s1 & H1' & Ha).
  assert (rs_run_id (rt_state rt1) = rs_run_id (rt_state rt)) as <-
    by (destruct (is_status _ _); [by apply append_run_id in H1' | by apply kret_ok in H1' as [-> _]]).
  destruct o; [by apply append_run_id in Ha | by apply kret_ok in Ha as [-> _]].
Qed.

Lemma after_rejection_id rt o actor reason s rt' s' :
  after_rejection rt o actor reason s = (Ok rt', s') -> rs_run_id (rt_state rt') = rs_run_id (rt_state rt).
Proof.
  unfold after_rejection. intros Ha. apply kbind_ok in Ha as (rt1 & s1 & H1' & ->%append_run_id).
  destruct o; [by apply append_run_id in H1' | by apply kret_ok in H1' as [-> _]].
Qed.

(** What follows the decision, up to the write. *)
Lemma decide_tail d rt o actor reason s rt' s1 u s' run_id :
  tx_of run_id rt s -> (RunState_wf (rt_state rt) -> step_u32 o) -> small s' ->
  (if String.eqb d "approved" then after_approval rt o else after_rejection rt o actor reason) s = (Ok rt', s1) ->
  persist rt' s1 = (Ok u, s') ->
  same_approvals s s' /\ exists st', logged s' run_id st' /\ rs_state st' = rs_state (rt_state rt') /\
    (d = "rejected" -> rs_state st' = RFailed) /\
    (d = "approved" -> rs_state (rt_state rt) = RParked -> rs_state st' = RRunning).
Proof.
  intros [Ht Hid] Hw Hs' Ha Hp.
  pose proof (evolves_small _ _ _ _ _ Hp Hs') as Hs1.
  assert (small s) as Hs by (eapply evolves_small; [|exact Ha|exact Hs1]; evolve).
  pose proof (TXF_weaken _ (step_u32 o) rt s (fun w _ => Hw w) Ht) as Htu. destruct (Htu Hs) as [_ Hu].
  assert (TXF (step_u32 o) rt' s1 /\ rs_run_id (rt_state rt') = run_id) as [Ht' Hid'].
  { rewrite <- Hid. destruct (String.eqb d "approved").
    - split; [|by eapply after_approval_id]. by apply (hoare_ok _ _ (TXF (step_u32 o)) anything s _ s1 (hoare_after_approval rt o)).
    - split; [|by eapply after_rejection_id].
      by apply (hoare_ok _ _ (TXF (step_u32 o)) anything s _ s1 (hoare_after_rejection _ rt o actor reason)). }
  split.
  { transitivity s1; [|exact (evolves_ok _ _ _ _ _ (persist_approvals _) Hp)].
    eapply evolves_ok; [|exact Ha]. evolve. }
  destruct (persist_logged _ _ _ _ _ Ht' Hp Hs') as (st' & Hlog & Hsim). rewrite Hid' in Hlog.
  exists st'. rewrite (sim_state _ _ Hsim). split; [done|]. split; [done|]. split.
  - intros ->. eapply after_rejection_failed. exact Ha.
  - intros ->. eapply after_approval_running; [exact Hu | exact Ha].
Qed.

End Actions.

(** ** Witnesses *)

Import Demo.

(** The write of the first run, proposed for the first time: the policy asks for a human. *)
Lemma action_needs_policy_or_human_witness : exists o s' l st step,
  propose_action (demo_call 7) (demo_id 6 0 "lse") demo_action (demo 7) = (Ok o, s') /\
  ao_decision o = DApprovalRequired /\ holder (c_now (demo_call 7)) (demo 7) l st step /\
  exists apr, ao_approval_id o = Some apr /\ waits s' l demo_action apr.
Proof.
  set (m := propose_action (demo_call 7) (demo_id 6 0 "lse") demo_action).
  destruct (answered (fun o => match ao_decision o with DApprovalRequired => true | _ => false end) m (demo 7))
    as (o & E & Ho); [vm_compute; reflexivity|].
  assert (small (after m (demo 7))) as Hs by (vm_compute; reflexivity).
  destruct (action_needs_policy_or_human (demo_call 7) (demo_id 6 0 "lse") demo_action (demo 7) o
    (after m (demo 7)) (demo_reachable 7) Hs E)
    as (l & st & step & row & child & _ & Hh & _ & _ & Hd).
  exists o, (after m (demo 7)), l, st, step. split; [exact E|].
  assert (ao_decision o = DApprovalRequired) as Hreq by (destruct (ao_decision o); congruence).
  split; [exact Hreq|]. split; [exact Hh|].
  destruct Hd as [[Ha _]|(policies & refs & _ & Hdec & _ & Hw)]; [congruence|].
  rewrite <- Hdec, Hreq in Hw. exact Hw.
Defined.

