(* ===== verification/StartSpec.v ===== *)
(** * Starting a run

    A remit starts one run: [start_run] succeeds only with a remit that is unbound, unexpired
    and covers the policies the bundle asks for, binds it, and hands the run a child remit
    with no more authority. *)

From S2P Require Import Prelude Text Ids F64 Json Policy Lexer Canonical Time Errors Keys Remit.
From S2P Require Import RemitSpec Payloads PayloadLaws Events Fold RunJson FoldSpec Template Schema.
From S2P Require Import Bundle Store Kernel Scenario Hoare History StoreInv KernelInv Replay.
From S2P Require Import LeaseSpec.
From Stdlib Require Import Ascii.

Local Open Scope string_scope.
Local Open Scope list_scope.
Local Open Scope Z_scope.

Definition same_remits (s s' : Store) : Prop := t_remits s' = t_remits s.

#[export] Instance same_remits_preorder : PreOrder same_remits.
Proof. split; [done|]. intros s1 s2 s3. unfold same_remits. congruence. Qed.

#[export] Instance write_step_remits run_id step def : Evolves same_remits (write_step run_id step def).
Proof. intros s. unfold write_step. destruct (any _ _); [done|]. by destruct def. Qed.
#[export] Instance write_run_remits row : Evolves same_remits (write_run row).
Proof. intros s. unfold write_run, kput. cbn. by destruct (any _ _). Qed.
#[export] Instance insert_event_remits e : Evolves same_remits (insert_event e).
Proof. intros s. unfold insert_event. by destruct (any _ _). Qed.

Section Start.
Context `{FloatFormat, Sha256, JsonPrint, Crypto, JsonText, Regex, UnicodeTables, F64Display}.

#[global] Instance persist_remits rt : Evolves same_remits (persist rt).
Proof. unfold persist. evolve. Qed.
#[global] Instance append_raw_remits rt actor kind payload : Evolves same_remits (append_raw rt actor kind payload).
Proof. unfold append_raw. evolve. Qed.
#[global] Instance append_remits rt actor p : Evolves same_remits (append rt actor p).
Proof. unfold append, append_event. evolve. Qed.
#[global] Instance create_run_remits c run_id child created : Evolves same_remits (create_run c run_id child created).
Proof. unfold create_run. evolve. Qed.
#[global] Instance schedule_step_remits acc step : Evolves same_remits (schedule_step acc step).
Proof. unfold schedule_step. evolve. Qed.

(** ** What is checked *)

Lemma get_remit_row id s r :
  get_remit id s = Ok (Some r) -> exists x, remit_row id s = Some x /\ remit_from_row x = Ok r.
Proof.
  unfold get_remit, query_opt, remit_row. destruct (find_first _ _) as [x|]; [|discriminate].
  unfold rmap. intros Hr. apply rbind_ok in Hr as (r' & Hx & Hr). injection Hr as <-. eauto.
Qed.

Lemma remit_from_row_fields x r :
  remit_from_row x = Ok r -> rmrow_remit_id r = rm_remit_id x /\ rmrow_bound_run_id r = rm_bound_run_id x /\
    de_payload (rm_payload x) = Some (rmrow_payload r).
Proof. unfold remit_from_row, json_col. intros Hr. inv_ok. done. Qed.

(** The conditions on the request. *)
Record startable (c : Call) (request : StartRunRequest) (s : Store) (bundle_row : BundleRow) (remit : RemitRow)
    (rb : json) : Prop := {
  sta_bundle : get_bundle (sq_bundle_id request) s = Some bundle_row;
  sta_workflow : bundle_workflow (sq_workflow request) (from_stored (bn_bundle bundle_row)) <> None;
  sta_input : exists v, validate (input_schema (sq_workflow request) (from_stored (bn_bundle bundle_row)))
                (sq_input request) = Ok v;
  sta_remit : get_remit (sq_remit_id request) s = Ok (Some remit);
  sta_expiry : seconds (c_now c) < exp (rmrow_payload remit);
  sta_unbound : rmrow_bound_run_id remit = None;
  sta_root : run (rmrow_payload remit) = None;
  sta_policies : Forall (fun p => In p (policy_set (rmrow_payload remit)))
                   (bundle_policies (from_stored (bn_bundle bundle_row)));
  sta_loaded : exists l, load_policy_set (policy_set (rmrow_payload remit)) s = Ok l }.

Lemma check_start_ok c request s bundle_row remit rb s' :
  check_start c request s = (Ok (bundle_row, remit, rb), s') -> s' = s /\ startable c request s bundle_row remit rb.
Proof.
  unfold check_start. intros Hc. peel Hc.
  apply kbind_ok in Hc as (b & s1 & [Hb ->]%ksome_ok & Hc). apply kbind_ok in Hc as (u & s1 & [Hw ->]%kguard_ok & Hc).
  apply kbind_ok in Hc as (u1 & s1 & [Hv ->]%klift_ok & Hc). apply kbind_ok in Hc as (o & s1 & [Hr ->]%kread_ok & Hc).
  apply kbind_ok in Hc as (r & s1 & [-> ->]%ksome_ok & Hc). apply kbind_ok in Hc as (u2 & s1 & [He ->]%kguard_ok & Hc).
  apply kbind_ok in Hc as (u3 & s1 & [Hbd ->]%kguard_ok & Hc). apply kbind_ok in Hc as (u4 & s1 & [Hp ->]%klift_ok & Hc).
  apply kbind_ok in Hc as (u5 & s1 & [Hl ->]%kread_ok & Hc). apply kbind_ok in Hc as (u6 & s1 & [_ ->]%klift_ok & Hc).
  apply kret_ok in Hc as [[= -> -> ->] ->]. split; [done|].
  apply negb_true_iff, Z.leb_gt in He. destruct (rmrow_bound_run_id r) eqn:E1; [done|].
  destruct (run (rmrow_payload r)) eqn:E2; [done|]. destruct u4. apply rfor_ok in Hp.
  constructor; auto; try eauto.
  - by destruct (bundle_workflow _ _).
  - destruct (validate _ _); [eauto | discriminate].
  - eapply List.Forall_impl; [|exact Hp]. cbn. intros p Hin. unfold str_in in Hin.
    destruct (any _ _) eqn:E; [|discriminate]. by apply kind_listed.
Qed.

(** ** What is granted *)

Lemma child_attenuates k c remit run_id rb :
  spend_no_nan (spend (rmrow_payload remit)) ->
  attenuates (authority_of (child_remit k c remit run_id rb)) (authority_of (rmrow_payload remit)).
Proof.
  intros Hn. destruct (attenuates_refl (authority_of (rmrow_payload remit)) Hn). constructor; auto. cbn. lia.
Qed.

Lemma insert_remit_row r s u s' :
  insert_remit r s = (Ok u, s') -> remit_row (rmrow_remit_id r) s' = Some (remit_record r) /\
    forall id x, remit_row id s = Some x -> remit_row id s' = Some x.
Proof.
  unfold insert_remit. destruct (any _ _) eqn:E; [discriminate|]. intros [= _ <-]. unfold remit_row. cbn.
  apply not_true_iff_false in E. rewrite any_true in E. split.
  - rewrite find_first_app. destruct (find_first (is_remit (rmrow_remit_id r)) (t_remits s)) as [x|] eqn:Ef.
    + apply find_first_some in Ef as [Hin Hx]. exfalso. eauto.
    + cbn. unfold is_remit. cbn. by rewrite String.eqb_refl.
  - intros id x Hx. by rewrite find_first_app, Hx.
Qed.

Lemma bind_remit_row id run_id s u s' id' x :
  bind_remit id run_id s = (Ok u, s') -> remit_row id' s = Some x ->
  exists x', remit_row id' s' = Some x' /\ rm_payload x' = rm_payload x /\
    (id' = id -> rm_bound_run_id x' = Some run_id).
Proof.
  unfold bind_remit, kput. intros [= _ <-] Hx. unfold remit_row in *. cbn. rewrite find_first_update_all by done.
  rewrite Hx. apply find_first_some in Hx as [_ Hx]. cbn. eexists. split; [reflexivity|].
  split; [by destruct (is_remit id x)|]. intros ->. by rewrite Hx.
Qed.

(** A bound remit starts nothing. *)
Lemma start_bound k c request s x :
  remit_row (sq_remit_id request) s = Some x -> rm_bound_run_id x <> None ->
  snd (start_run k c request s) = s /\ is_ok (fst (start_run k c request s)) = false.
Proof.
  intros Hx Hb. unfold start_run, transaction.
  match goal with |- context [let (_, _) := ?m s in _] => destruct (m s) as [[r|e] s'] eqn:E end; [|done].
  exfalso. apply kbind_ok in E as ([[b remit] rb] & s1 & [_ Hst]%check_start_ok & _).
  destruct (get_remit_row _ _ _ (sta_remit _ _ _ _ _ _ Hst)) as (x' & Hx' & Hr).
  apply remit_from_row_fields in Hr as (_ & Hbr & _). rewrite (sta_unbound _ _ _ _ _ _ Hst) in Hbr. congruence.
Qed.

Lemma start_run_rest k c request s r s' :
  start_run k c request s = (Ok r, s') -> exists bundle_row remit rb s1 s2 u u',
    startable c request s bundle_row remit rb /\
    let child := child_remit k c remit (started_run_id r) rb in
    insert_remit
      {| rmrow_remit_id := rid child; rmrow_parent_id := parent child; rmrow_run_id := Some (started_run_id r);
         rmrow_bound_run_id := None; rmrow_payload := child; rmrow_token := encode_token child (k_key k);
         rmrow_expires_at_ms := i64_wrap (exp child * 1000); rmrow_created_at := format_ms (c_now c) |} s = (Ok u, s1) /\
    bind_remit (rmrow_remit_id remit) (started_run_id r) s1 = (Ok u', s2) /\ same_remits s2 s'.
Proof.
  intros Hs. unfold start_run in Hs. apply transaction_ok in Hs.
  apply kbind_ok in Hs as ([[b remit] rb] & s0 & [-> Hst]%check_start_ok & Hs).
  apply kbind_ok in Hs as (u & s1 & Hins & Hs). apply kbind_ok in Hs as (u' & s2 & Hbind & Hs).
  exists b, remit, rb, s1, s2, u, u'. split; [done|].
  assert (same_remits s2 s') as Hsame by (eapply evolves_ok; [|exact Hs]; evolve).
  apply kbind_ok in Hs as (rt & s3 & _ & Hs). apply kbind_ok in Hs as ([rt' n] & s4 & _ & Hs).
  apply kbind_ok in Hs as (u'' & s5 & _ & Hs). apply kret_ok in Hs as [-> ->]. cbn. auto.
Qed.

(** C11: a remit starts one run.  A start succeeds only with a workflow the bundle has, an
    input its schema accepts, and a remit that is unbound, not expired, not itself a run's
    remit, and that holds every policy the bundle asks for; the run gets a child remit that
    attenuates it; and from then on, whatever happens in between, every start with that
    remit is refused and changes nothing. *)
Theorem remit_starts_one_run k c request s r s1 :
  start_run k c request s = (Ok r, s1) -> exists bundle_row remit rb,
    startable c request s bundle_row remit rb /\
    (let child := child_remit k c remit (started_run_id r) rb in
     (exists x, remit_row (rid child) s1 = Some x /\ rm_payload x = ser_payload child) /\
     (spend_no_nan (spend (rmrow_payload remit)) ->
      attenuates (authority_of child) (authority_of (rmrow_payload remit)))) /\
    forall s2, later s1 s2 -> forall k2 c2 request2, sq_remit_id request2 = sq_remit_id request ->
      snd (start_run k2 c2 request2 s2) = s2 /\ is_ok (fst (start_run k2 c2 request2 s2)) = false.
Proof.
  intros (b & remit & rb & sa & sb & u & u' & Hst & Hins & Hbind & Hsame)%start_run_rest.
  exists b, remit, rb. split; [done|]. apply insert_remit_row in Hins as [Hchild Hold]. split; [split|].
  - destruct (bind_remit_row _ _ _ _ _ _ _ Hbind Hchild) as (x & Hx & Hp & _). exists x.
    unfold remit_row in *. by rewrite Hsame.
  - apply child_attenuates.
  - intros s2 Hl k2 c2 request2 Hreq.
    destruct (get_remit_row _ _ _ (sta_remit _ _ _ _ _ _ Hst)) as (x & Hx & Hr).
    assert (rmrow_remit_id remit = sq_remit_id request) as Hid.
    { apply remit_from_row_fields in Hr as (-> & _). by apply find_first_some in Hx as [_ Hx%String.eqb_eq]. }
    destruct (bind_remit_row _ _ _ _ _ (sq_remit_id request) x Hbind (Hold _ _ Hx)) as (x1 & Hx1 & _ & Hb).
    assert (remit_row (sq_remit_id request) s1 = Some x1) as Hx1' by (unfold remit_row in *; by rewrite Hsame).
    destruct (hi_remits _ _ (later_history _ _ Hl) _ _ Hx1') as (x2 & Hx2 & Hsr).
    apply (start_bound _ _ _ _ x2); [by rewrite Hreq|]. apply Hsr. by rewrite (Hb (eq_sym Hid)).
Qed.
End Start.

(** ** Witnesses *)

Import Demo.

(** The first run of the scenario; a second start with its remit is refused. *)
Lemma remit_starts_one_run_witness : exists r s1 bundle_row remit rb,
  start_run demo_kernel (demo_call 3) (demo_start 2) (demo 3) = (Ok r, s1) /\
  startable (demo_call 3) (demo_start 2) (demo 3) bundle_row remit rb /\
  is_ok (fst (start_run demo_kernel (demo_call 4) (demo_start 2) s1)) = false.
Proof.
  set (m := start_run demo_kernel (demo_call 3) (demo_start 2)).
  destruct (answered anyway m (demo 3)) as (r & E & _); [vm_compute; reflexivity|].
  destruct (remit_starts_one_run _ _ _ _ _ _ E) as (bundle_row & remit & rb & Hst & _ & Hagain).
  exists r, (after m (demo 3)), bundle_row, remit, rb. split; [exact E|]. split; [exact Hst|].
  apply (Hagain _ (later_now _) demo_kernel (demo_call 4) (demo_start 2) eq_refl).
Defined.
