(* ===== verification/RevokeSpec.v ===== *)
(** * Taking work back

    Abandoning a run leaves nobody at work on it; sweeping leaves no lease past its time;
    compensation steps get identifiers of their own. *)

From S2P Require Import Prelude Text Ids F64 Json Policy Lexer Canonical Time Errors Keys Remit.
From S2P Require Import Payloads PayloadLaws Events Fold RunJson FoldSpec Template Schema Bundle.
From S2P Require Import Store Kernel Scenario Hoare History StoreInv KernelInv Replay LeaseSpec.
From S2P Require Import StepSpec ActionSpec.
From Stdlib Require Import Ascii.

Local Open Scope string_scope.
Local Open Scope list_scope.
Local Open Scope Z_scope.

(** ** Leases and approvals untouched *)

Definition same_holds (s s' : Store) : Prop :=
  t_leases s' = t_leases s /\ t_approvals s' = t_approvals s.

#[export] Instance same_holds_preorder : PreOrder same_holds.
Proof. split; [done|]. unfold same_holds. intros s1 s2 s3 [] []. split; congruence. Qed.

#[export] Instance write_step_holds run_id step def : Evolves same_holds (write_step run_id step def).
Proof. intros s. unfold write_step. destruct (any _ _); [done|]. by destruct def. Qed.
#[export] Instance write_run_holds row : Evolves same_holds (write_run row).
Proof. intros s. unfold write_run, kput. cbn. by destruct (any _ _). Qed.
#[export] Instance insert_event_holds e : Evolves same_holds (insert_event e).
Proof. intros s. unfold insert_event. by destruct (any _ _). Qed.

(** Everything [abandon] does after revoking. *)
Abbreviation giving_up run_id reason actor rt :=
  (let! rt := append rt (Act.user (operator_id actor)) (PRunAbandoned {| ra_reason := reason; ra_actor := actor |}) in
   let state := rt_state rt in
   let completed := List.filter (step_is SCompleted) (workflow_steps state) in
   let! u := kfold (rev completed)
               {| uw_rt := rt; uw_next_index := max_index (rs_steps state); uw_scheduled := 0; uw_failed := None |}
               (unwind_step run_id state) in
   let! rt := match uw_failed u with
              | Some error => append (uw_rt u) Act.kernel (PRunFailed {| rf_error := error; rf_needs_human := true |})
              | None => kret (uw_rt u)
              end in
   let! _ := persist rt in
   kret (uw_scheduled u)).

Section Revoke.
Context `{FloatFormat, Sha256, JsonPrint, Crypto, JsonText, Regex, UnicodeTables, F64Display}.

#[global] Instance persist_holds rt : Evolves same_holds (persist rt).
Proof. unfold persist. evolve. Qed.
#[global] Instance append_holds rt actor p : Evolves same_holds (append rt actor p).
Proof. unfold append, append_event, append_raw. evolve. Qed.
#[global] Instance load_run_holds now id : Evolves same_holds (load_run now id).
Proof. unfold load_run. evolve. Qed.
#[global] Instance unwind_step_holds run_id state u step : Evolves same_holds (unwind_step run_id state u step).
Proof. unfold unwind_step. evolve. Qed.

(** ** Ending leases and cancelling approvals in a loop *)

Lemma end_lease_rows id st s u s' x :
  end_lease id st s = (Ok u, s') -> In x (t_leases s') ->
  In x (t_leases s) /\ le_lease_id x <> id \/
  le_state x = st /\ exists y, In y (t_leases s) /\ le_lease_id x = le_lease_id y.
Proof.
  unfold end_lease, set_lease, kput. intros [= _ <-]. cbn. unfold update_all. intros (y & Hy & Hin)%in_map_iff.
  unfold is_lease in Hy. destruct (String.eqb_spec (le_lease_id y) id); subst x; [right; cbn; eauto | left; auto].
Qed.

(** A loop that ends every lease of a list, and otherwise keeps the leases. *)
Lemma end_all (body : LeaseRow -> M unit) (l : list LeaseRow) : forall s u s',
  (forall x s u s', body x s = (Ok u, s') -> forall y, In y (t_leases s') ->
     In y (t_leases s) /\ le_lease_id y <> le_lease_id x \/ le_state y <> "active") ->
  kfor l body s = (Ok u, s') -> forall y, In y (t_leases s') -> le_state y = "active" ->
  In y (t_leases s) /\ ~ In (le_lease_id y) (map le_lease_id l).
Proof.
  induction l as [|x l IH]; intros s u s' Hb Hf y Hy Hact.
  - apply kret_ok in Hf as [_ ->]. split; [done | by intros []].
  - cbn [kfor] in Hf. apply kbind_ok in Hf as (u1 & s1 & H1' & Hf).
    destruct (IH s1 u s' Hb Hf y Hy Hact) as [Hy1 Hn]. destruct (Hb x s u1 s1 H1' y Hy1) as [[Hin Hne]|Hbad]; [|done].
    split; [done|]. cbn. intros [E|E]; [by apply Hne | by apply Hn].
Qed.

Lemma cancel_all (l : list ApprovalRow) actor reason t : forall s u s',
  kfor l (fun a => record_decision (apr_approval_id a) "cancelled" actor reason t) s = (Ok u, s') ->
  forall y, In y (t_approvals s') -> apr_state y = "pending" ->
  In y (t_approvals s) /\ ~ In (apr_approval_id y) (map apr_approval_id l).
Proof.
  induction l as [|x l IH]; intros s u s' Hf y Hy Hact.
  - apply kret_ok in Hf as [_ ->]. split; [done | by intros []].
  - cbn [kfor] in Hf. apply kbind_ok in Hf as (u1 & s1 & H1' & Hf).
    destruct (IH s1 u s' Hf y Hy Hact) as [Hy1 Hn].
    unfold record_decision, set_approval, kput in H1'. injection H1' as _ <-. cbn in Hy1. unfold update_all in Hy1.
    apply in_map_iff in Hy1 as (z & Hz & Hin). unfold is_approval in Hz.
    destruct (String.eqb_spec (apr_approval_id z) (apr_approval_id x)); subst y; [by cbn in Hact|].
    split; [done|]. cbn. intros [E|E]; [by apply n | by apply Hn].
Qed.

Lemma cancel_leases (l : list ApprovalRow) actor reason t s u s' :
  kfor l (fun a => record_decision (apr_approval_id a) "cancelled" actor reason t) s = (Ok u, s') ->
  t_leases s' = t_leases s.
Proof.
  revert s. induction l as [|x l IH]; intros s Hf; [by apply kret_ok in Hf as [_ ->]|].
  cbn [kfor] in Hf. apply kbind_ok in Hf as (u1 & s1 & H1' & Hf). rewrite (IH _ Hf).
  unfold record_decision, set_approval, kput in H1'. by injection H1' as _ <-.
Qed.

(** ** Abandoning *)

Lemma apply_abandoning s e s' : apply s e = Ok s' -> rs_abandoning s = true -> rs_abandoning s' = true.
Proof.
  intros (p & Hp & _)%apply_inv Hs. destruct p; cbn [apply_payload] in Hp; try discriminate Hp; injection Hp as <-; try done;
    repeat match goal with
    | |- context [if ?b then _ else _] => destruct b
    | |- context [match find_step ?a ?b with _ => _ end] => destruct (find_step a b)
    | |- context [match rs_pending_approval ?b with _ => _ end] => destruct (rs_pending_approval b)
    end; done.
Qed.

(** The run of the transaction, being abandoned. *)
Definition given_up (run_id : string) (rt : RunTx) : Prop :=
  rs_run_id (rt_state rt) = run_id /\ rs_abandoning (rt_state rt) = true.

Lemma append_given_up run_id rt actor p s rt' s' : append rt actor p s = (Ok rt', s') -> given_up run_id rt -> given_up run_id rt'.
Proof.
  intros (e & _ & _ & Ha & _)%append_state [Hid Hab]. split; [|by eapply apply_abandoning].
  apply apply_frame in Ha as (-> & _). done.
Qed.

Lemma unwind_step_given_up run_id id state u step s u' s' :
  unwind_step id state u step s = (Ok u', s') -> given_up run_id (uw_rt u) -> given_up run_id (uw_rt u').
Proof.
  unfold unwind_step. intros Hu Hg. destruct (any _ _); [by apply kret_ok in Hu as [-> _]|].
  apply kbind_ok in Hu as (row & s1 & _ & Hu). destruct row as [row|]; [|by apply kret_ok in Hu as [-> _]].
  destruct (declared_compensation _) as [[tool template]|]; [|by apply kret_ok in Hu as [-> _]].
  destruct (resolve _ _).
  - apply kbind_ok in Hu as (rt1 & s2 & H1' & Hu). apply kbind_ok in Hu as (rt2 & s3 & H2' & Hu).
    apply kret_ok in Hu as [-> _]. cbn. eapply append_given_up; [exact H2'|]. exact (append_given_up _ _ _ _ _ _ _ H1' Hg).
  - apply kbind_ok in Hu as (rt1 & s2 & H1' & Hu). apply kret_ok in Hu as [-> _]. by eapply append_given_up.
Qed.

Lemma unwind_given_up run_id id state l : forall u s u' s',
  kfold l u (unwind_step id state) s = (Ok u', s') -> given_up run_id (uw_rt u) -> given_up run_id (uw_rt u').
Proof.
  induction l as [|x l IH]; intros u s u' s' Hf Hg; [by apply kret_ok in Hf as [-> _]|].
  cbn [kfold] in Hf. apply kbind_ok in Hf as (u1 & s1 & H1' & Hf). eapply IH; [exact Hf|]. by eapply unwind_step_given_up.
Qed.

#[global] Instance abandon_history c run_id reason actor : Evolves history (abandon c run_id reason actor).
Proof. unfold abandon. evolve. Qed.

Lemma release_holds l s u s' :
  kfor l (fun x => end_lease (le_lease_id x) "released") s = (Ok u, s') -> t_approvals s' = t_approvals s.
Proof.
  revert s. induction l as [|x l IH]; intros s Hf; [by apply kret_ok in Hf as [_ ->]|].
  cbn [kfor] in Hf. apply kbind_ok in Hf as (u1 & s1 & H1' & Hf). rewrite (IH _ Hf).
  unfold end_lease, set_lease, kput in H1'. by injection H1' as _ <-.
Qed.

Lemma release_ends x s u s' :
  end_lease (le_lease_id x) "released" s = (Ok u, s') -> forall y, In y (t_leases s') ->
  In y (t_leases s) /\ le_lease_id y <> le_lease_id x \/ le_state y <> "active".
Proof. intros He y Hy. destruct (end_lease_rows _ _ _ _ _ _ He Hy) as [?|[-> _]]; [by left | by right]. Qed.

(** The parts of an abandonment that succeeds: revoking, then giving up. *)
Lemma abandon_parts c run_id reason actor s n s' :
  reachable s -> small s' -> abandon c run_id reason actor s = (Ok n, s') ->
  exists st row u1 s1 u2 s2, let rt := {| rt_ts := format_ms (c_now c); rt_run := row; rt_defs := [] |} in
    logged s run_id st /\ row_state row = norm_state st /\ rs_run_id (row_state row) = run_id /\
    abandonable st = true /\ unwind_pending st = false /\
    kfor (active_leases_of_run run_id s) (fun l => end_lease (le_lease_id l) "released") s = (Ok u1, s1) /\
    kfor (pending_in_run run_id s1) (fun a =>
      record_decision (apr_approval_id a) "cancelled" JNull "run abandoned" (format_ms (c_now c))) s1 = (Ok u2, s2) /\
    TXF True rt s2 /\ giving_up run_id reason actor rt s2 = (Ok n, s').
Proof.
  intros Hi%reachable_INV Hs' Ha. pose proof (evolves_small _ _ _ _ _ Ha Hs') as Hs.
  unfold abandon in Ha. apply transaction_ok in Ha. apply kbind_ok in Ha as (rt & s0 & Hload & Ha).
  unfold load_run in Hload. apply kbind_ok in Hload as (row & s1 & [Hrow ->]%kread_ok & [-> ->]%kret_ok).
  apply kbind_ok in Ha as (u1 & s1 & [Hab ->]%kguard_ok & Ha). apply kbind_ok in Ha as (u2 & s1 & [Hpend ->]%kguard_ok & Ha).
  apply negb_true_iff in Hpend. peel Ha. apply kbind_ok in Ha as (u3 & s1 & Hrel & Ha). peel Ha.
  apply kbind_ok in Ha as (u4 & s2 & Hcan & Ha).
  destruct (loaded_logged _ _ _ (Hi Hs) Hs Hrow) as (st & Hlog & Hst). unfold rt_state in Hab, Hpend. cbn in Hab, Hpend.
  rewrite Hst in Hab, Hpend. exists st, row, u3, s1, u4, s2. split; [done|]. split; [done|].
  split; [by destruct (require_run_ok _ _ _ (Hi Hs) Hrow)|]. split; [done|]. split; [done|]. split; [done|]. split; [done|].
  split; [|done]. eapply TXF_stable; [|by eapply load_tx]. transitivity s1.
  - eapply evolves_ok; [|exact Hrel]. evolve.
  - eapply evolves_ok; [|exact Hcan]. evolve.
Qed.

(** The parts of giving up: the event, the unwinding, the failure it may end in, and the rows. *)
Lemma giving_up_parts run_id reason actor rt s n s' :
  TXF True rt s -> rs_run_id (rt_state rt) = run_id -> giving_up run_id reason actor rt s = (Ok n, s') ->
  exists rt1 s1 u s2 rt2 s3 v,
    append rt (Act.user (operator_id actor)) (PRunAbandoned {| ra_reason := reason; ra_actor := actor |}) s = (Ok rt1, s1) /\
    kfold (rev (List.filter (step_is SCompleted) (workflow_steps (rt_state rt1))))
      {| uw_rt := rt1; uw_next_index := max_index (rs_steps (rt_state rt1)); uw_scheduled := 0; uw_failed := None |}
      (unwind_step run_id (rt_state rt1)) s1 = (Ok u, s2) /\
    match uw_failed u with
    | Some error => append (uw_rt u) Act.kernel (PRunFailed {| rf_error := error; rf_needs_human := true |})
    | None => kret (uw_rt u)
    end s2 = (Ok rt2, s3) /\
    persist rt2 s3 = (Ok v, s') /\ n = uw_scheduled u /\ TXF True rt2 s3 /\ given_up run_id rt2.
Proof.
  intros Ht Hid Ha.
  apply kbind_ok in Ha as (rt1 & s1 & H1' & Ha). apply kbind_ok in Ha as (u & s2 & Hun & Ha).
  apply kbind_ok in Ha as (rt2 & s3 & H2' & Ha). apply kbind_ok in Ha as (v & s4 & Hp & Ha). apply kret_ok in Ha as [-> ->].
  pose proof (hoare_append True rt (Act.user (operator_id actor)) (PRunAbandoned {| ra_reason := reason; ra_actor := actor |})
    (fun _ => I) s Ht) as Ht1. rewrite H1' in Ht1.
  assert (given_up run_id rt1) as Hg1.
  { split; [by rewrite (append_run_id _ _ _ _ _ _ H1')|]. apply append_applied in H1' as (e & x & Hx & -> & _); [|done].
    cbn [apply_payload] in Hx. by injection Hx as <-. }
  pose proof (unwind_given_up run_id _ _ _ _ _ _ _ Hun Hg1) as Hg2.
  assert (unwinding True u s2) as [_ Hw].
  { refine (hoare_ok _ _ (unwinding True) anything s1 u s2 _ _ Hun).
    - apply hoare_fold. intros. apply hoare_unwind_step.
    - split; [apply max_index_ok | exact Ht1]. }
  exists rt1, s1, u, s2, rt2, s3, v. split; [done|]. split; [done|]. split; [done|]. split; [done|]. split; [done|].
  destruct (uw_failed u) as [e|].
  - split; [|by eapply append_given_up].
    pose proof (hoare_append True (uw_rt u) Act.kernel (PRunFailed {| rf_error := e; rf_needs_human := true |})
      (fun _ => I) s2 Hw) as Hx. by rewrite H2' in Hx.
  - by apply kret_ok in H2' as [-> ->].
Qed.

Lemma giving_up_keeps run_id reason actor rt s n s' :
  giving_up run_id reason actor rt s = (Ok n, s') -> same_holds s s'.
Proof. intros Ha. eapply evolves_ok; [|exact Ha]. evolve. Qed.

(** C13: abandoning a run leaves nobody at work on it.  It succeeds only for a run that is
    running, parked or failed, by its log, and has no compensation pending; afterwards no
    lease of the run is active, no approval of it is pending, and the log has the run being
    abandoned, so that only its compensation steps may still be handed out. *)
Theorem abandon_revokes c run_id reason actor s n s' :
  reachable s -> small s' -> abandon c run_id reason actor s = (Ok n, s') ->
  (exists st, logged s run_id st /\ abandonable st = true /\ unwind_pending st = false) /\
  (forall l, In l (t_leases s') -> le_run_id l = run_id -> le_state l <> "active") /\
  (forall a, In a (t_approvals s') -> apr_run_id a = run_id -> apr_state a <> "pending") /\
  exists st', logged s' run_id st' /\ rs_abandoning st' = true /\
    forall kinds now step, may_run kinds now st' step -> is_compensation step = true.
Proof.
  intros Hr Hs' Ha. destruct (abandon_parts _ _ _ _ _ _ _ Hr Hs' Ha)
    as (st & row & u1 & s1 & u2 & s2 & Hlog & Hst & Hid & Hab & Hpend & Hrel & Hcan & Ht & Hg).
  split; [by exists st|]. pose proof (giving_up_keeps _ _ _ _ _ _ _ Hg) as [Hl Hap].
  split; [|split].
  - rewrite Hl, (cancel_leases _ _ _ _ _ _ _ Hcan). intros l Hin Hrn Hact.
    destruct (end_all _ _ _ _ _ release_ends Hrel l Hin Hact) as [Hin0 Hn].
    apply Hn, in_map, filter_In. split; [done|]. by rewrite Hact, Hrn, !String.eqb_refl.
  - rewrite Hap. intros a Hin Hrn Hp. destruct (cancel_all _ _ _ _ _ _ _ Hcan a Hin Hp) as [Hin0 Hn].
    apply Hn, in_map, filter_In. split; [done|]. by rewrite Hp, Hrn, !String.eqb_refl.
  - destruct (giving_up_parts _ _ _ _ _ _ _ Ht Hid Hg) as (rt1 & s3 & u & s4 & rt2 & s5 & v & _ & _ & _ & Hp & _ & Ht2 & Hid2 & Hup).
    destruct (persist_logged _ _ _ _ _ Ht2 Hp Hs') as (st' & Hlog' & Hsim). rewrite Hid2 in Hlog'.
    assert (rs_abandoning st' = true) as Hab' by by rewrite (sim_abandoning _ _ Hsim).
    exists st'. split; [done|]. split; [done|]. intros kinds now step Hm. by rewrite (mr_class _ _ _ _ Hm).
Qed.

(** ** Sweeping *)

Lemma expire_ends now x s u s' :
  expire_lease now x s = (Ok u, s') -> forall y, In y (t_leases s') ->
  In y (t_leases s) /\ le_lease_id y <> le_lease_id x \/ le_state y <> "active".
Proof.
  unfold expire_lease. intros He y Hy. apply kbind_ok in He as (rt & s1 & Hl & He).
  apply kbind_ok in He as (v & s2 & Hm & He).
  assert (same_holds s s2) as [Hls _].
  { transitivity s1; [exact (evolves_ok _ _ _ _ _ (load_run_holds _ _) Hl)|].
    eapply evolves_ok; [|exact Hm]. evolve. }
  destruct (end_lease_rows _ _ _ _ _ _ He Hy) as [[Hin Hne]|[-> _]]; [|by right]. left. by rewrite <- Hls.
Qed.

(** After the lease sweep no active lease is past its time. *)
Theorem sweep_leaves_no_expired c s n s' :
  sweep_leases c s = (Ok n, s') ->
  forall l, In l (t_leases s') -> le_state l = "active" -> c_now c < le_expires_at_ms l.
Proof.
  intros Hs l Hin Hact. unfold sweep_leases in Hs. apply transaction_ok in Hs. peel Hs.
  apply kbind_ok in Hs as (u & s1 & Hf & [_ ->]%kret_ok).
  destruct (end_all _ _ _ _ _ (expire_ends (c_now c)) Hf l Hin Hact) as [Hin0 Hn].
  destruct (Z.ltb_spec (c_now c) (le_expires_at_ms l)) as [|Hle]; [done|]. exfalso.
  apply Hn, in_map, order_by_in, filter_In. split; [done|]. rewrite Hact, String.eqb_refl. by apply Z.leb_le.
Qed.
End Revoke.

(** ** Identifiers of compensation steps *)

Lemma append_length_str a b : String.length (a +:+ b) = (String.length a + String.length b)%nat.
Proof. induction a as [|x a IH]; cbn; [done|]. by rewrite IH. Qed.

Definition candidate (base : string) (n : Z) : string := base +:+ "_" +:+ dec n.

Lemma app_inj_l a b c : a +:+ b = a +:+ c -> b = c.
Proof. induction a as [|x a IH]; cbn; [done|]. intros [= E]. auto. Qed.

Lemma candidate_inj base n m : candidate base n = candidate base m -> n = m.
Proof. intros E%app_inj_l. cbn in E. injection E as E. by apply dec_inj_all. Qed.

Lemma candidate_base base n : candidate base n <> base.
Proof.
  intros E. apply (f_equal String.length) in E. unfold candidate in E.
  rewrite !append_length_str in E. cbn in E. lia.
Qed.

Lemma find_step_in id s : In id (map st_id (rs_steps s)) <-> find_step id s <> None.
Proof.
  unfold find_step. split.
  - intros (st & <- & Hin)%in_map_iff E%find_first_none. rewrite List.Forall_forall in E.
    specialize (E st Hin). by rewrite String.eqb_refl in E.
  - intros Hf. destruct (find_first _ _) as [st|] eqn:E; [|done]. apply find_first_some in E as [Hin <-%String.eqb_eq].
    by apply in_map.
Qed.

(** Either the search ends on a free identifier, or everything it tried is taken. *)
Lemma comp_id_from_free fuel : forall n base s,
  find_step (comp_id_from fuel n base s) s = None \/
  Forall (fun i => In (candidate base (n + Z.of_nat i)) (map st_id (rs_steps s))) (seq 0 fuel).
Proof.
  induction fuel as [|fuel IH]; intros n base s; [right; constructor|]. cbn [comp_id_from].
  fold (candidate base n). destruct (find_step (candidate base n) s) eqn:E; [|by left].
  destruct (IH (n + 1) base s) as [|Hf]; [by left|]. right. cbn [seq]. constructor.
  - rewrite Z.add_0_r. apply find_step_in. by rewrite E.
  - rewrite <- List.seq_shift, List.Forall_map. eapply List.Forall_impl; [|exact Hf]. cbn beta. intros i Hi.
    by replace (n + Z.of_nat (S i)) with (n + 1 + Z.of_nat i) by lia.
Qed.

(** A compensation step never takes the identifier of a step that exists: the search for
    a free one always finds it. *)
Theorem compensation_step_id_fresh s for_step : find_step (compensation_step_id s for_step) s = None.
Proof.
  unfold compensation_step_id. set (base := "comp_" +:+ for_step).
  destruct (find_step base s) eqn:Eb; [|done].
  destruct (comp_id_from_free (length (rs_steps s)) 2 base s) as [|Hf]; [done|]. exfalso.
  set (tried := map (fun i => candidate base (2 + Z.of_nat i)) (seq 0 (length (rs_steps s)))).
  assert (List.NoDup (base :: tried)) as Hnd.
  { constructor.
    - intros (i & E & _)%in_map_iff. by apply candidate_base in E.
    - apply List.NoDup_map_NoDup_ForallPairs; [|apply List.seq_NoDup]. intros x y _ _ E%candidate_inj. lia. }
  assert (List.incl (base :: tried) (map st_id (rs_steps s))) as Hincl.
  { intros x [<-|(i & <- & Hi)%in_map_iff]; [apply find_step_in; by rewrite Eb|].
    rewrite List.Forall_forall in Hf. by apply Hf. }
  pose proof (List.NoDup_incl_length Hnd Hincl) as Hlen. cbn in Hlen. unfold tried in Hlen.
  rewrite !length_map, List.length_seq in Hlen. lia.
Qed.

(** ** Witnesses *)

Import Demo.

(** The first run of the scenario is abandoned while its action waits for the manager. *)
Lemma abandon_revokes_witness : exists n s' st',
  abandon (demo_call 8) (demo_id 3 0 "run") "changed plans" (obj [("id", JStr "u.boss")]) (demo 8) = (Ok n, s') /\
  logged s' (demo_id 3 0 "run") st' /\ rs_abandoning st' = true /\
  forall a, In a (t_approvals s') -> apr_run_id a = demo_id 3 0 "run" -> apr_state a <> "pending".
Proof.
  set (m := abandon (demo_call 8) (demo_id 3 0 "run") "changed plans" (obj [("id", JStr "u.boss")])).
  destruct (answered anyway m (demo 8)) as (n & E & _); [vm_compute; reflexivity|].
  assert (small (after m (demo 8))) as Hs by (vm_compute; reflexivity).
  destruct (abandon_revokes (demo_call 8) (demo_id 3 0 "run") "changed plans" (obj [("id", JStr "u.boss")]) (demo 8) n
    (after m (demo 8)) (demo_reachable 8) Hs E) as (_ & _ & Ha & st' & Hl & Hab & _).
  exists n, (after m (demo 8)), st'. split; [exact E|]. split; [exact Hl|]. split; [exact Hab | exact Ha].
Defined.

(** The sweep of the scenario, which finds one lease past its time. *)
Lemma sweep_leaves_no_expired_witness : exists s',
  sweep_leases (demo_call 60) (demo 15) = (Ok 1, s') /\
  forall l, In l (t_leases s') -> le_state l = "active" -> c_now (demo_call 60) < le_expires_at_ms l.
Proof.
  destruct (answered (Z.eqb 1) (sweep_leases (demo_call 60)) (demo 15)) as (n & E & Hn); [vm_compute; reflexivity|].
  apply Z.eqb_eq in Hn. subst n.
  exists (after (sweep_leases (demo_call 60)) (demo 15)). split; [exact E|].
  exact (sweep_leaves_no_expired _ _ _ _ E).
Defined.
