(* ===== verification/Paging.v ===== *)
(** * Paging

    A client that follows the cursors of [run_events] and [list_runs] sees the whole log of
    a run, and every run its filter selects, in order, once each, and comes to an end. *)

From S2P Require Import Prelude Text Ids F64 Json Policy Lexer Canonical Time Errors Keys Remit.
From S2P Require Import Payloads PayloadLaws Events Fold RunJson FoldSpec Template Schema Bundle.
From S2P Require Import Store Kernel Reads Scenario Hoare History StoreInv KernelInv Replay LeaseSpec.
From Stdlib Require Import Ascii.

Local Open Scope string_scope.
Local Open Scope list_scope.
Local Open Scope Z_scope.

(** ** Events *)

Section Events.
Context `{FloatFormat, Sha256, JsonPrint, Crypto, JsonText, Regex, UnicodeTables, F64Display}.

(** Reading pages from [from_seq] until there is no next one, at most [fuel] pages. *)
Fixpoint follow_events (fuel : nat) (run_id : string) (from_seq limit : Z) (s : Store) : KernelResult (list Event) :=
  match fuel with
  | O => Err Internal
  | S fuel =>
      let? page := fst (run_events run_id from_seq limit s) in
      match page_next_seq page with
      | None => Ok (page_events page)
      | Some next => let? rest := follow_events fuel run_id next limit s in Ok (page_events page ++ rest)
      end
  end.

Lemma last_of_page {A} (l : list A) x : head (rev l) = Some x -> exists l', l = l' ++ [x].
Proof.
  destruct l as [|y l _] using rev_ind; [done|]. rewrite rev_app_distr. cbn. intros [= ->]. eauto.
Qed.

Lemma run_events_log s run_id row last evs st from limit :
  small s -> require_run run_id s = Ok row -> row_state row = norm_state st -> log_ok s run_id last evs st ->
  0 <= from <= i64_max ->
  fst (run_events run_id from limit s) =
    let page := firstn (Z.to_nat (clamp limit 1 5000)) (skipn (Z.to_nat (from - 1)) evs) in
    Ok {| page_events := page;
          page_next_seq := match head (rev page) with
                           | Some e => if ev_seq e <? Z.of_nat (length evs) then Some (ev_seq e + 1) else None
                           | None => None end |}.
Proof.
  intros Hs Hr Hst Hl Hf. unfold run_events, kbind, kread, kret. rewrite Hr.
  rewrite (events_from_log _ _ _ _ _ _ _ Hs Hl) by (unfold clamp, i64_max in *; lia).
  replace (Z.to_nat (Z.max from 1 - 1)) with (Z.to_nat (from - 1)) by lia.
  set (page := firstn _ _). cbn [fst]. rewrite Hst. change (rs_last_seq (norm_state st)) with (rs_last_seq st).
  rewrite (lo_seq _ _ _ _ _ Hl). do 2 f_equal. destruct (head (rev page)) as [e|] eqn:E; [|done].
  assert (In e evs) as Hin.
  { apply last_of_page in E as [l' E]. apply (skipn_in (Z.to_nat (from - 1))), (firstn_in (Z.to_nat (clamp limit 1 5000))).
    fold page. rewrite E. apply in_or_app. right. by left. }
  destruct (Z.ltb_spec (ev_seq e) (Z.of_nat (length evs))); [|done].
  pose proof (chain_seqs _ _ _ (lo_chain _ _ _ _ _ Hl)) as [Hseq _]. rewrite List.Forall_forall in Hseq.
  specialize (Hseq e Hin). cbn in Hseq. f_equal. pose proof (log_length _ _ _ _ _ Hl). unfold small, i64_max in Hs.
  apply u64_add_small; unfold u64_max; lia.
Qed.

(** The last event of a page, and what is left behind it. *)
Lemma page_last evs k n : chain_ok 1 ZERO_HASH evs -> (0 < n)%nat ->
  let page := firstn n (skipn k evs) in
  match head (rev page) with
  | Some e => ev_seq e = Z.of_nat (k + length page) /\ page ++ skipn (k + length page) evs = skipn k evs /\ page <> []
  | None => skipn k evs = []
  end.
Proof.
  intros Hc Hn page. destruct (head (rev page)) as [e|] eqn:E.
  - apply last_of_page in E as [l' E]. split; [|split; [|by rewrite E; destruct l']].
    + assert (evs = (firstn k evs ++ l') ++ e :: skipn n (skipn k evs)) as Hsplit.
      { rewrite <- app_assoc. change (l' ++ e :: skipn n (skipn k evs)) with (l' ++ [e] ++ skipn n (skipn k evs)).
        rewrite (app_assoc l'), <- E. unfold page. by rewrite !firstn_skipn. }
      assert (k < length evs)%nat as Hk.
      { destruct (Nat.lt_ge_cases k (length evs)) as [|Hge]; [done|]. unfold page in E.
        rewrite List.skipn_all2, List.firstn_nil in E by done. by destruct l'. }
      rewrite Hsplit in Hc. apply chain_ok_app in Hc as [_ (-> & _)].
      rewrite E, !length_app, List.length_firstn. cbn. lia.
    + rewrite Nat.add_comm, <- List.skipn_skipn. rewrite <- (firstn_skipn n (skipn k evs)) at 2. fold page. f_equal.
      unfold page. rewrite List.length_firstn.
      destruct (Nat.min_spec n (length (skipn k evs))) as [[_ E1]|[Hle E1]]; rewrite E1; [done|].
      by rewrite !List.skipn_all2.
  - destruct page as [|x l] eqn:Ep; [|cbn in E; destruct (rev l); discriminate]. unfold page in Ep.
    destruct n; [lia|]. by destruct (skipn k evs).
Qed.

Lemma follow_events_log s run_id row last evs st limit :
  small s -> require_run run_id s = Ok row -> row_state row = norm_state st -> log_ok s run_id last evs st ->
  forall fuel from, 0 <= from <= i64_max -> (length (skipn (Z.to_nat (from - 1)) evs) < fuel)%nat ->
  follow_events fuel run_id from limit s = Ok (skipn (Z.to_nat (from - 1)) evs).
Proof.
  intros Hs Hr Hst Hl. pose proof (log_length _ _ _ _ _ Hl) as Hlen. unfold small in Hs.
  induction fuel as [|fuel IH]; intros from Hf Hfuel; [lia|]. cbn [follow_events].
  rewrite (run_events_log s run_id row last evs st) by done. cbn [rbind].
  set (n := Z.to_nat (clamp limit 1 5000)). set (k := Z.to_nat (from - 1)) in *.
  assert (0 < n)%nat as Hn by (unfold n, clamp; lia).
  pose proof (page_last evs k n (lo_chain _ _ _ _ _ Hl) Hn) as Hp. cbn zeta in Hp.
  set (page := firstn n (skipn k evs)) in *. cbn [page_next_seq page_events].
  destruct (head (rev page)) as [e|] eqn:E.
  - destruct Hp as (Hseq & Hrest & Hne).
    destruct (Z.ltb_spec (ev_seq e) (Z.of_nat (length evs))) as [Hlt|Hge].
    + assert (Z.to_nat (ev_seq e + 1 - 1) = (k + length page)%nat) as Hk by lia.
      rewrite IH; rewrite ?Hk; [by cbn; rewrite Hrest|lia|].
      rewrite <- Hrest, length_app in Hfuel. destruct page; [done|]. cbn in *. lia.
    + rewrite <- Hrest, (List.skipn_all2 evs) by lia. by rewrite app_nil_r.
  - unfold page. rewrite Hp. by rewrite List.firstn_nil.
Qed.

(** Following the cursor of [run_events] from any sequence number reads the rest of the
    log, whole, in order and without repetition, and ends: on any store the kernel wrote, with
    any page size, after at most one page more than there are events. *)
Theorem event_pages_cover s run_id row evs from limit :
  reachable s -> small s -> require_run run_id s = Ok row -> all_events run_id s = Ok evs ->
  0 <= from <= i64_max ->
  follow_events (S (length evs)) run_id from limit s = Ok (skipn (Z.to_nat (from - 1)) evs).
Proof.
  intros Hi%reachable_INV Hs Hr He Hf.
  destruct (require_run_ok _ _ _ (Hi Hs) Hr) as (_ & evs' & st & _ & _ & Hl & Hst & _).
  rewrite (all_events_log _ _ _ _ _ Hs Hl) in He. injection He as ->.
  eapply follow_events_log; [done..|]. rewrite List.length_skipn. lia.
Qed.
End Events.

(** ** Sorting *)

Section Order.
Context {A : Type} (leb : A -> A -> bool).
Hypothesis leb_total : forall x y, leb x y = true \/ leb y x = true.
Hypothesis leb_trans : forall x y z, leb x y = true -> leb y z = true -> leb x z = true.

Abbreviation sorted := (List.ForallOrdPairs (fun x y => leb x y = true)).

Lemma insert_by_sorted x l : sorted l -> sorted (insert_by leb x l).
Proof.
  induction 1 as [|y l Hy Hl IH]; cbn; [by repeat constructor|]. destruct (leb x y) eqn:E.
  - constructor; [|by constructor]. constructor; [done|]. eapply List.Forall_impl; [|exact Hy]. cbn. eauto.
  - constructor; [|done]. apply List.Forall_forall. intros z [->|Hz]%insert_by_in.
    + destruct (leb_total x y); congruence.
    + rewrite List.Forall_forall in Hy. auto.
Qed.

Lemma order_by_is_sorted l : sorted (order_by leb l).
Proof. unfold order_by. induction l as [|x l IH]; cbn; [constructor | by apply insert_by_sorted]. Qed.

Lemma filter_insert p x l : sorted l ->
  List.filter p (insert_by leb x l) = if p x then insert_by leb x (List.filter p l) else List.filter p l.
Proof.
  induction 1 as [|y l Hy Hl IH]; cbn; [by destruct (p x)|]. destruct (leb x y) eqn:E; cbn.
  - destruct (p x) eqn:Ex; [|done]. destruct (p y) eqn:Ey; cbn; [by rewrite E|].
    symmetry. apply insert_by_le. intros z [Hz _]%filter_In. rewrite List.Forall_forall in Hy. eauto.
  - rewrite IH. destruct (p y) eqn:Ey; [|done]. destruct (p x) eqn:Ex; [|done]. cbn. by rewrite E.
Qed.

Lemma order_by_perm l : Permutation l (order_by leb l).
Proof.
  unfold order_by. induction l as [|x l IH]; cbn; [done|]. rewrite IH at 1. generalize (foldr (insert_by leb) [] l).
  clear. intros l. induction l as [|y l IH]; cbn; [done|]. destruct (leb x y); [done|]. by rewrite perm_swap, IH.
Qed.

Lemma order_by_filter p l : order_by leb (List.filter p l) = List.filter p (order_by leb l).
Proof.
  induction l as [|x l IH]; [done|]. change (order_by leb (x :: l)) with (insert_by leb x (order_by leb l)).
  rewrite filter_insert by apply order_by_is_sorted. cbn. rewrite <- IH. by destruct (p x).
Qed.

Lemma nodup_filter_map {B} (g : A -> B) p l : List.NoDup (map g l) -> List.NoDup (map g (List.filter p l)).
Proof.
  induction l as [|x l IH]; cbn; [done|]. intros Hnd. inversion Hnd as [|? ? Hni Hl]; subst.
  destruct (p x); cbn; [|auto]. constructor; [|auto]. intros (y & Hy & [Hin _]%filter_In)%in_map_iff.
  apply Hni. rewrite <- Hy. by apply in_map.
Qed.

(** What is past an element of the list is what follows it. *)
Lemma filter_past l1 a l2 :
  sorted (l1 ++ a :: l2) -> (forall y, In y l2 -> leb y a = false) ->
  List.filter (fun r => negb (leb r a)) (l1 ++ a :: l2) = l2.
Proof.
  intros Hs Hl2. rewrite List.filter_app.
  assert (List.filter (fun r => negb (leb r a)) l1 = []) as ->.
  { induction l1 as [|x l1 IH]; [done|]. cbn in *. inversion Hs as [|? ? Hx Hs']; subst.
    rewrite List.Forall_forall in Hx. rewrite (Hx a) by (apply in_or_app; right; by left). auto. }
  cbn. assert (leb a a = true) as -> by (by destruct (leb_total a a)). cbn.
  apply filter_true, List.Forall_forall. intros y Hy. by rewrite Hl2.
Qed.
End Order.

Lemma str_leb_total x y : str_leb x y = true \/ str_leb y x = true.
Proof. unfold str_leb. rewrite (String.compare_antisym y x). destruct (String.compare x y); cbn; auto. Qed.

Lemma str_leb_antisym x y : str_leb x y = true -> str_leb y x = true -> x = y.
Proof.
  unfold str_leb. rewrite (String.compare_antisym y x). destruct (String.compare x y) eqn:E; cbn; try done.
  intros _ _. by apply String.compare_eq_iff.
Qed.

Lemma str_leb_cons a x b y :
  str_leb (String a x) (String b y) = match Ascii.compare a b with Eq => str_leb x y | Lt => true | Gt => false end.
Proof. unfold str_leb. cbn. by destruct (Ascii.compare a b). Qed.

Lemma str_leb_trans : forall x y z, str_leb x y = true -> str_leb y z = true -> str_leb x z = true.
Proof.
  induction x as [|a x IH]; intros y z; [by destruct y, z|]. destruct y as [|b y]; [done|].
  destruct z as [|c z]; [done|]. rewrite !str_leb_cons. unfold Ascii.compare.
  destruct (N.compare_spec (N_of_ascii a) (N_of_ascii b)), (N.compare_spec (N_of_ascii b) (N_of_ascii c)),
    (N.compare_spec (N_of_ascii a) (N_of_ascii c)); try done; try lia. eauto.
Qed.

(** ** Runs *)

Lemma run_leb_total x y : run_leb x y = true \/ run_leb y x = true.
Proof.
  unfold run_leb. rewrite (String.eqb_sym (rr_created_at y)). destruct (String.eqb _ _); apply str_leb_total.
Qed.

Lemma run_leb_trans x y z : run_leb x y = true -> run_leb y z = true -> run_leb x z = true.
Proof.
  unfold run_leb. destruct (String.eqb_spec (rr_created_at x) (rr_created_at y)) as [E1|N1],
    (String.eqb_spec (rr_created_at y) (rr_created_at z)) as [E2|N2],
    (String.eqb_spec (rr_created_at x) (rr_created_at z)) as [E3|N3]; try congruence; eauto using str_leb_trans.
  rewrite <- E3 in *. intros H1 H2. by destruct N1; apply str_leb_antisym.
Qed.

Lemma run_leb_antisym x y : run_leb x y = true -> run_leb y x = true -> rr_run_id x = rr_run_id y.
Proof.
  unfold run_leb. rewrite (String.eqb_sym (rr_created_at y)).
  destruct (String.eqb_spec (rr_created_at x) (rr_created_at y)) as [E|N]; [apply str_leb_antisym|].
  intros H1 H2. by destruct N; apply str_leb_antisym.
Qed.

Lemma run_past_leb a r : run_past (rr_created_at a) (rr_run_id a) r = negb (run_leb r a).
Proof.
  unfold run_past, run_leb. destruct (String.eqb_spec (rr_created_at r) (rr_created_at a)) as [E|N].
  - rewrite E. unfold str_leb at 1. by rewrite string_compare_refl.
  - by rewrite orb_false_r.
Qed.

Section Runs.
Context `{FloatFormat, Sha256, JsonPrint, Crypto, JsonText, Regex, UnicodeTables, F64Display}.

Definition after_run (run_id : string) (f : RunFilter) : RunFilter :=
  {| rf_state := rf_state f; rf_department := rf_department f; rf_limit := rf_limit f; rf_after := Some run_id |}.

(** Reading pages of runs until there is no next one, at most [fuel] pages. *)
Fixpoint follow_runs (fuel : nat) (f : RunFilter) (s : Store) : KernelResult (list RunState) :=
  match fuel with
  | O => Err Internal
  | S fuel =>
      let? page := Read.list_runs f s in
      match rp_next page with
      | None => Ok (rp_runs page)
      | Some next => let? rest := follow_runs fuel (after_run next f) s in Ok (rp_runs page ++ rest)
      end
  end.

(** Every run a filter selects, in creation order. *)
Definition selected_runs (f : RunFilter) (s : Store) : list RunRecord :=
  order_by run_leb (List.filter (run_selected f) (t_runs s)).

(** What a row of a run reads as. *)
Definition shown_run (r : RunRecord) (row : RunRow) : Prop :=
  run_row_from_row r = Ok row /\ rs_run_id (row_state row) = rr_run_id r /\ row_created_at row = rr_created_at r.

Lemma run_reads s r : consistent s -> In r (t_runs s) -> exists row, shown_run r row.
Proof.
  intros Hc Hin. pose proof (co_runs s Hc) as Hf. rewrite List.Forall_forall in Hf.
  destruct (Hf r Hin) as (evs & st & Hl & Hm & _). unfold shown_run, run_row_from_row, json_col.
  rewrite (mi_json _ _ Hm). cbn. eexists. split; [reflexivity|]. cbn. split; [|done]. apply (lo_id _ _ _ _ _ Hl).
Qed.

Lemma runs_read s l : consistent s -> (forall r, In r l -> In r (t_runs s)) ->
  exists rows, rmapM run_row_from_row l = Ok rows /\ Forall2 shown_run l rows.
Proof.
  intros Hc. induction l as [|r l IH]; intros Hl; [exists []; by split|].
  destruct (run_reads s r Hc (Hl r (or_introl eq_refl))) as (row & Hrow).
  destruct IH as (rows & Hrows & Hall); [intros; apply Hl; by right|].
  exists (row :: rows). split; [|by constructor]. cbn. destruct Hrow as (-> & _). cbn. by rewrite Hrows.
Qed.

Lemma rmapM_app {E A B} (g : A -> result E B) l1 l2 :
  rmapM g (l1 ++ l2) = (let? a := rmapM g l1 in let? b := rmapM g l2 in Ok (a ++ b)).
Proof.
  induction l1 as [|x l1 IH]; cbn; [by destruct (rmapM g l2)|]. destruct (g x); cbn; [|done]. rewrite IH.
  destruct (rmapM g l1); cbn; [|done]. by destruct (rmapM g l2).
Qed.

Lemma selected_in f s r : In r (selected_runs f s) -> In r (t_runs s).
Proof. by intros [? _]%order_by_in%filter_In. Qed.

Lemma get_run_row s r : consistent s -> In r (t_runs s) ->
  exists row, get_run (rr_run_id r) s = Ok (Some row) /\ shown_run r row.
Proof.
  intros Hc Hin. destruct (run_reads s r Hc Hin) as (row & Hrow). exists row. split; [|done].
  unfold get_run, query_opt. destruct (find_first (is_run (rr_run_id r)) (t_runs s)) as [r'|] eqn:E.
  - apply find_run_in in E as [Hin' Hid].
    rewrite (nodup_map_inj rr_run_id (t_runs s) r' r (co_nodup _ Hc) Hin' Hin Hid). by destruct Hrow as (-> & _).
  - exfalso. apply find_first_none in E. rewrite List.Forall_forall in E. specialize (E r Hin).
    unfold is_run in E. by rewrite String.eqb_refl in E.
Qed.

(** A page after [l1 ++ [a]], or the first one. *)
Lemma list_runs_page s f l1 a l2 : consistent s ->
  selected_runs f s = l1 ++ a :: l2 -> rf_after f = Some (rr_run_id a) ->
  Store.list_runs f s = rmapM run_row_from_row (limit_rows (u64_as_i64 (Z.max (rf_limit f) 1)) l2).
Proof.
  intros Hc Hl Ha. assert (In a (t_runs s)) as Hin by (eapply selected_in; rewrite Hl; apply in_elt).
  destruct (get_run_row s a Hc Hin) as (row & Hget & _ & _ & Hcr).
  unfold Store.list_runs. rewrite Ha, Hget. cbn [rbind]. rewrite Hcr. unfold decode_rows. do 2 f_equal.
  rewrite <- filter_filter, (order_by_filter _ run_leb_total run_leb_trans).
  rewrite (filter_ext _ (fun r => negb (run_leb r a))) by (intros; apply run_past_leb).
  change (order_by run_leb (List.filter (run_selected f) (t_runs s))) with (selected_runs f s).
  pose proof (order_by_is_sorted run_leb run_leb_total run_leb_trans (List.filter (run_selected f) (t_runs s))) as Hs.
  fold (selected_runs f s) in Hs. rewrite Hl in Hs |- *. apply filter_past; [apply run_leb_total|done|].
  intros y Hy. apply not_true_iff_false. intros Hya. apply ordpairs_app_r in Hs. inversion Hs as [|? ? Hf _]; subst.
  rewrite List.Forall_forall in Hf. specialize (run_leb_antisym _ _ Hya (Hf y Hy)) as Hid.
  assert (List.NoDup (map rr_run_id (selected_runs f s))) as Hnd.
  { eapply Permutation.Permutation_NoDup; [apply Permutation.Permutation_map, (order_by_perm run_leb)|].
    apply nodup_filter_map, (co_nodup _ Hc). }
  rewrite Hl, map_app in Hnd. apply List.NoDup_app_remove_l in Hnd. cbn in Hnd. inversion Hnd as [|? ? Hni _]; subst.
  apply Hni. rewrite <- Hid. by apply in_map.
Qed.

Lemma follow_runs_rest s f : consistent s -> 0 <= rf_limit f <= i64_max ->
  forall fuel l2 l0 rows f',
    rf_limit f' = rf_limit f -> (forall id, selected_runs (after_run id f') s = selected_runs f s) ->
    selected_runs f s = l0 ++ l2 ->
    Store.list_runs f' s = rmapM run_row_from_row (limit_rows (u64_as_i64 (Z.max (rf_limit f) 1)) l2) ->
    (length l2 < fuel)%nat -> rmapM run_row_from_row l2 = Ok rows ->
    follow_runs fuel f' s = Ok (map row_state rows).
Proof.
  intros Hc Hlim. set (n := Z.max (rf_limit f) 1).
  assert (1 <= n <= i64_max) as Hn1 by (unfold n, i64_max in *; lia).
  assert (u64_as_i64 n = n) as Hn by (apply u64_as_i64_small; lia).
  rewrite Hn. induction fuel as [|fuel IH]; intros l2 l0 rows f' Hf Hsame Hsel Hpage Hfuel Hrows; [lia|].
  cbn [follow_runs]. unfold Read.list_runs. rewrite Hpage, Hf. fold n. rewrite limit_rows_firstn by lia.
  assert (forall r, In r l2 -> In r (t_runs s)) as Hin.
  { intros r Hr. apply (selected_in f). rewrite Hsel. apply in_or_app. by right. }
  set (page := firstn (Z.to_nat n) l2). set (rest := skipn (Z.to_nat n) l2).
  assert (l2 = page ++ rest) as Hsplit by (symmetry; apply firstn_skipn).
  assert ((length page < Z.to_nat n)%nat -> rest = []) as Hend.
  { unfold page, rest. rewrite List.length_firstn. intros. apply List.skipn_all2. lia. }
  clearbody page rest.
  destruct (runs_read s page Hc) as (prows & Hp & Hshown); [intros; apply Hin; rewrite Hsplit; apply in_or_app; by left|].
  destruct (runs_read s rest Hc) as (rrows & Hr & _); [intros; apply Hin; rewrite Hsplit; apply in_or_app; by right|].
  rewrite Hsplit, rmapM_app, Hp, Hr in Hrows. cbn in Hrows. injection Hrows as <-. rewrite Hp. cbn.
  pose proof (Forall2_length Hshown) as Hlen.
  destruct (Z.leb_spec n (Z.of_nat (length prows))) as [Hfull|Hshort].
  - destruct page as [|x q _] using rev_ind; [cbn in Hlen; lia|].
    apply Forall2_app_inv_l in Hshown as (q' & x' & Hq & Hx & ->).
    inversion Hx as [|? row ? y (_ & Hid & _) Hy]; subst. inversion Hy; subst.
    rewrite rev_app_distr. cbn. rewrite Hid.
    rewrite (IH rest (l0 ++ q ++ [x]) rrows (after_run (rr_run_id x) f')); cbn; [by rewrite !map_app|done| | | | |done].
    + done.
    + rewrite Hsel. by rewrite <- !app_assoc.
    + rewrite (list_runs_page s (after_run (rr_run_id x) f') (l0 ++ q) x rest Hc);
        [cbn; by rewrite Hf; fold n; rewrite Hn| |done].
      rewrite Hsame, Hsel. by rewrite <- !app_assoc.
    + rewrite !length_app in Hfuel. cbn in Hfuel. lia.
  - rewrite Hend in Hr by lia. injection Hr as <-. by rewrite app_nil_r.
Qed.

(** Following the cursor of [list_runs] from the start lists every run the filter
    selects, in creation order and once each, and ends: on any store the kernel wrote, with
    any page size, after at most one page more than there are runs. *)
Theorem run_pages_cover s f :
  reachable s -> small s -> rf_after f = None -> 0 <= rf_limit f <= i64_max ->
  exists rows, rmapM run_row_from_row (selected_runs f s) = Ok rows /\
    follow_runs (S (length (t_runs s))) f s = Ok (map row_state rows) /\
    Permutation (map (fun row => rs_run_id (row_state row)) rows) (map rr_run_id (List.filter (run_selected f) (t_runs s))) /\
    List.NoDup (map (fun row => rs_run_id (row_state row)) rows).
Proof.
  intros Hi%reachable_INV Hs Ha Hlim. pose proof (Hi Hs) as Hc.
  destruct (runs_read s (selected_runs f s) Hc) as (rows & Hrows & Hshown); [intros; by eapply selected_in|].
  exists rows. split; [done|]. split.
  - eapply (follow_runs_rest s f Hc Hlim _ (selected_runs f s) []); [done..| | |done].
    + unfold Store.list_runs. rewrite Ha. cbn. unfold decode_rows, selected_runs. do 3 f_equal.
      apply filter_ext. intros r. apply andb_true_r.
    + unfold selected_runs. rewrite <- (Permutation_length (order_by_perm run_leb _)).
      pose proof (filter_length_le (run_selected f) (t_runs s)). lia.
  - assert (map (fun row => rs_run_id (row_state row)) rows = map rr_run_id (selected_runs f s)) as Hids.
    { clear -Hshown. induction Hshown as [|r row l rows' (_ & Hid & _) _ IH]; [done|]. cbn. by rewrite Hid, IH. }
    assert (Permutation (map (fun row => rs_run_id (row_state row)) rows)
              (map rr_run_id (List.filter (run_selected f) (t_runs s)))) as Hperm.
    { rewrite Hids. apply Permutation_map. symmetry. apply order_by_perm. }
    split; [done|]. eapply Permutation.Permutation_NoDup; [symmetry; exact Hperm|].
    apply nodup_filter_map, (co_nodup _ Hc).
Qed.
End Runs.

(** ** Witnesses *)

Import Demo.

Lemma is_ok_inv {E A} (r : result E A) : is_ok r = true -> exists a, r = Ok a.
Proof. destruct r; [eauto | discriminate]. Qed.

(** The log of the second run, three events at a time, from the second event on. *)
Lemma event_pages_cover_witness : exists row evs,
  require_run (demo_id 13 0 "run") (demo 22) = Ok row /\ all_events (demo_id 13 0 "run") (demo 22) = Ok evs /\
  follow_events (S (length evs)) (demo_id 13 0 "run") 2 3 (demo 22) = Ok (skipn (Z.to_nat (2 - 1)) evs).
Proof.
  destruct (is_ok_inv (require_run (demo_id 13 0 "run") (demo 22))) as [row Hr]; [vm_compute; reflexivity|].
  destruct (is_ok_inv (all_events (demo_id 13 0 "run") (demo 22))) as [evs He]; [vm_compute; reflexivity|].
  exists row, evs. split; [exact Hr|]. split; [exact He|].
  exact (event_pages_cover (demo 22) _ row evs 2 3 (demo_reachable 22) demo_small Hr He ltac:(unfold i64_max; lia)).
Defined.

(** Both runs of the scenario, one at a time. *)
Lemma run_pages_cover_witness : exists rows,
  follow_runs (S (length (t_runs (demo 22))))
    {| rf_state := Some "completed"; rf_department := None; rf_limit := 1; rf_after := None |} (demo 22) =
    Ok (map row_state rows) /\ List.NoDup (map (fun row => rs_run_id (row_state row)) rows).
Proof.
  destruct (run_pages_cover (demo 22)
    {| rf_state := Some "completed"; rf_department := None; rf_limit := 1; rf_after := None |}
    (demo_reachable 22) demo_small eq_refl ltac:(cbn; unfold i64_max; lia)) as (rows & _ & Hf & _ & Hn).
  exists rows. split; [exact Hf | exact Hn].
Defined.
