(* ===== verification/Progress.v ===== *)
(** * Nothing gets stuck

    Total triples: from a store the kernel wrote, with room left in the sequence numbers, the
    sweepers always finish, and the holder of a step can always report on it.  The references
    between tables that this needs (a lease and an approval name a run that exists) are an
    invariant of every operation. *)

From S2P Require Import Prelude Text Ids F64 Json Policy Lexer Parser PolicyTools Canonical Time.
From S2P Require Import Errors Keys Remit Payloads PayloadLaws Events Fold RunJson FoldSpec.
From S2P Require Import Template Schema Bundle Store Kernel Scenario Hoare History StoreInv KernelInv.
From S2P Require Import Replay LeaseSpec StepSpec Paging.
From Stdlib Require Import Ascii.

Local Open Scope string_scope.
Local Open Scope list_scope.
Local Open Scope Z_scope.

(** ** Total triples *)

Definition total {A} (P : Store -> Prop) (m : M A) (Q : A -> Store -> Prop) : Prop :=
  forall s, P s -> exists a s', m s = (Ok a, s') /\ Q a s'.

#[warnings="-closed-notation-not-level-0"]
Notation "'[{' P '}]' m '[{' Q '}]'" := (total P m Q)
  (at level 90, P at level 99, m at level 99, Q at level 99) : kernos_scope.

Section Rules.
Context {A B : Type}.

Lemma total_ret (a : A) (Q : A -> Store -> Prop) : [{ Q a }] kret a [{ Q }].
Proof. intros s Hs. by exists a, s. Qed.

Lemma total_bind P (m : M A) (R : A -> Store -> Prop) (k : A -> M B) (Q : B -> Store -> Prop) :
  [{ P }] m [{ R }] -> (forall a, [{ R a }] k a [{ Q }]) -> [{ P }] kbind m k [{ Q }].
Proof.
  intros Hm Hk s Hs. destruct (Hm s Hs) as (a & s1 & E & Hr). destruct (Hk a s1 Hr) as (b & s2 & E2 & Hq).
  exists b, s2. unfold kbind. by rewrite E.
Qed.

Lemma total_conseq P P' (m : M A) (Q Q' : A -> Store -> Prop) :
  (forall s, P s -> P' s) -> (forall a s, Q' a s -> Q a s) -> [{ P' }] m [{ Q' }] -> [{ P }] m [{ Q }].
Proof. intros Hp Hq Hm s Hs. destruct (Hm s (Hp s Hs)) as (a & s1 & E & Hr). exists a, s1. auto. Qed.

Lemma total_pure (F : Prop) P (m : M A) (Q : A -> Store -> Prop) :
  (F -> [{ P }] m [{ Q }]) -> [{ fun s => F /\ P s }] m [{ Q }].
Proof. intros Hm s [Hf Hs]. by apply Hm. Qed.

Lemma total_transaction P (m : M A) (Q : A -> Store -> Prop) : [{ P }] m [{ Q }] -> [{ P }] transaction m [{ Q }].
Proof.
  intros Hm s Hs. destruct (Hm s Hs) as (a & s1 & E & Hr). exists a, s1. unfold transaction. by rewrite E.
Qed.
End Rules.

(** A loop whose invariant may use how much of the list is left. *)
Lemma total_for {A} (body : A -> M unit) (I : list A -> Store -> Prop) :
  (forall x l, [{ I (x :: l) }] body x [{ fun _ => I l }]) -> forall l, [{ I l }] kfor l body [{ fun _ => I [] }].
Proof.
  intros Hb. induction l as [|x l IH]; [apply (total_ret tt (fun _ => I []))|]. cbn [kfor]. eapply total_bind; [apply Hb|]. by intros u.
Qed.

(** ** A transaction that can go on *)

(** Room for [n] more events. *)
Definition room (n : Z) (s : Store) : Prop := Z.of_nat (length (t_events s)) + n < i64_max.

Lemma room_small n s : 0 <= n -> room n s -> small s.
Proof. unfold room, small. lia. Qed.

Lemma room_core n s s' : same_core s s' -> room n s -> room n s'.
Proof. intros (He & _). unfold room. by rewrite He. Qed.

(** ** Rows that name a run *)

(** Leases and approvals of [s'] come from [s], or are new and of a run in [X]. *)
Definition refs_in (X : string -> Prop) (s s' : Store) : Prop :=
  Forall (fun l => (exists l0, In l0 (t_leases s) /\ le_run_id l0 = le_run_id l /\ le_attempt l0 = le_attempt l) \/
                   X (le_run_id l) /\ u32_ok (le_attempt l)) (t_leases s') /\
  Forall (fun a => (exists a0, In a0 (t_approvals s) /\ apr_run_id a0 = apr_run_id a) \/ X (apr_run_id a)) (t_approvals s').

#[export] Instance refs_in_preorder X : PreOrder (refs_in X).
Proof.
  split.
  - intros s. split; apply List.Forall_forall; eauto.
  - intros s1 s2 s3 [L1 A1] [L2 A2]. rewrite !List.Forall_forall in *. split; apply List.Forall_forall.
    + intros l Hl. destruct (L2 l Hl) as [(l0 & Hin & E1 & E2)|]; [|by right].
      destruct (L1 l0 Hin) as [(l1 & Hin1 & E3 & E4)|[Hx Hu]].
      * left. exists l1. split; [done|]. split; congruence.
      * right. by rewrite <- E1, <- E2.
    + intros a Ha. destruct (A2 a Ha) as [(a0 & Hin & E)|]; [|by right].
      destruct (A1 a0 Hin) as [(a1 & Hin1 & E1)|Hx]; [left; exists a1; split; [done|congruence] | right; by rewrite <- E].
Qed.

Lemma refs_in_same X s s' : t_leases s' = t_leases s -> t_approvals s' = t_approvals s -> refs_in X s s'.
Proof. intros H1 H2. split; rewrite ?H1, ?H2; apply List.Forall_forall; eauto. Qed.

Section Writes.
Context (X : string -> Prop).

Lemma set_lease_refs f id :
  (forall l, le_run_id (f l) = le_run_id l /\ le_attempt (f l) = le_attempt l) -> Evolves (refs_in X) (set_lease f id).
Proof.
  intros Hf s. split; cbn; [|apply List.Forall_forall; eauto].
  apply List.Forall_forall. intros l (l0 & <- & Hin)%in_map_iff. left. exists l0. split; [done|].
  destruct (Hf l0). by destruct (is_lease id l0).
Qed.

Lemma set_approval_refs f id : (forall a, apr_run_id (f a) = apr_run_id a) -> Evolves (refs_in X) (set_approval f id).
Proof.
  intros Hf s. split; cbn; [apply List.Forall_forall; eauto|].
  apply List.Forall_forall. intros a (a0 & <- & Hin)%in_map_iff. left. exists a0. split; [done|].
  by destruct (is_approval id a0).
Qed.

#[global] Instance end_lease_refs id st : Evolves (refs_in X) (end_lease id st).
Proof. by apply set_lease_refs. Qed.
#[global] Instance set_lease_expiry_refs id t : Evolves (refs_in X) (set_lease_expiry id t).
Proof. by apply set_lease_refs. Qed.
#[global] Instance record_decision_refs id d a r t : Evolves (refs_in X) (record_decision id d a r t).
Proof. by apply set_approval_refs. Qed.
#[global] Instance escalate_approval_refs id a t : Evolves (refs_in X) (escalate_approval id a t).
Proof. by apply set_approval_refs. Qed.
#[global] Instance park_approval_refs id : Evolves (refs_in X) (park_approval id).
Proof. by apply set_approval_refs. Qed.
#[global] Instance write_step_refs run_id step def : Evolves (refs_in X) (write_step run_id step def).
Proof. intros s. unfold write_step. destruct (any _ _); [by apply refs_in_same|]. destruct def; by apply refs_in_same. Qed.
#[global] Instance write_run_refs row : Evolves (refs_in X) (write_run row).
Proof. intros s. apply refs_in_same; unfold write_run, kput; cbn; by destruct (any _ _). Qed.
#[global] Instance insert_event_refs e : Evolves (refs_in X) (insert_event e).
Proof. intros s. unfold insert_event. destruct (any _ _); by apply refs_in_same. Qed.
#[global] Instance insert_bundle_refs b : Evolves (refs_in X) (insert_bundle b).
Proof. intros s. unfold insert_bundle. destruct (_ || _); by apply refs_in_same. Qed.
#[global] Instance insert_policy_refs p : Evolves (refs_in X) (insert_policy p).
Proof. intros s. unfold insert_policy. destruct (_ || _); by apply refs_in_same. Qed.
#[global] Instance insert_remit_refs r : Evolves (refs_in X) (insert_remit r).
Proof. intros s. unfold insert_remit. destruct (any _ _); by apply refs_in_same. Qed.
#[global] Instance bind_remit_refs id run_id : Evolves (refs_in X) (bind_remit id run_id).
Proof. intros s. by apply refs_in_same. Qed.
#[global] Instance upsert_action_refs a : Evolves (refs_in X) (upsert_action a).
Proof. intros s. apply refs_in_same; unfold upsert_action, kput; cbn; by destruct (any _ _). Qed.

Lemma insert_lease_refs l : X (le_run_id l) -> u32_ok (le_attempt l) -> Evolves (refs_in X) (insert_lease l).
Proof.
  intros Hx Hu s. unfold insert_lease. destruct (any _ _); [by apply refs_in_same|].
  split; cbn; [|apply List.Forall_forall; eauto]. apply Forall_app. split; [apply List.Forall_forall; eauto 6|].
  constructor; [by right | constructor].
Qed.

Lemma insert_approval_refs a : X (apr_run_id a) -> Evolves (refs_in X) (insert_approval a).
Proof.
  intros Hx s. unfold insert_approval. destruct (any _ _); [by apply refs_in_same|].
  split; cbn; [apply List.Forall_forall; eauto 6|]. apply Forall_app. split; [apply List.Forall_forall; eauto 6|].
  constructor; [by right | constructor].
Qed.
End Writes.

Create HintDb kernel_ops discriminated.
#[export] Hint Unfold persist load_run append_raw append_event append park store_remit check_start create_run
  schedule_step authorise unwind_step grant expire_lease live_lease leased_run record_usage for_step_of after_completion
  quarantine after_failure propose reuse_approval request_approval decide_action after_approval after_rejection
  sweep_approval apply_bundle apply_policy issue_remit derive_remit start_run post_external_event abandon resume lease
  heartbeat complete fail propose_action decide_approval sweep_leases sweep_approvals : kernel_ops.

(** Walks a whole operation down to its writes. *)
Ltac evolve_op := autounfold with kernel_ops; evolve.

Section Refs.
Context `{FloatFormat, Sha256, JsonPrint, Crypto, JsonText, Regex, UnicodeTables, F64Display}.

Definition refs_known (s : Store) : Prop :=
  Forall (fun l => known s (le_run_id l) /\ u32_ok (le_attempt l)) (t_leases s) /\
  Forall (fun a => known s (apr_run_id a)) (t_approvals s).

Lemma refs_step (X : string -> Prop) s s' :
  refs_in X s s' -> history s s' -> (forall x, X x -> known s' x) -> refs_known s -> refs_known s'.
Proof.
  intros [Hl Ha] Hh Hx [Kl Ka]. rewrite !List.Forall_forall in *. split; apply List.Forall_forall.
  - intros l Hin. destruct (Hl l Hin) as [(l0 & Hin0 & <- & <-)|[? ?]]; [|auto].
    destruct (Kl l0 Hin0). split; [|done]. by apply (hi_runs _ _ Hh).
  - intros a Hin. destruct (Ha a Hin) as [(a0 & Hin0 & <-)|?]; [|auto]. by apply (hi_runs _ _ Hh), Ka.
Qed.

Lemma loaded_known run_id s row : require_run run_id s = Ok row -> known s run_id.
Proof.
  unfold require_run, get_run, query_opt. destruct (find_first _ _) as [r|] eqn:E; [|discriminate].
  intros _. apply find_run_in in E as [Hin <-]. by apply in_map.
Qed.

#[local] Hint Extern 1 (Evolves (refs_in (eq _)) (insert_lease _)) =>
  (apply insert_lease_refs; [reflexivity | apply u32_add_ok]) : typeclass_instances.
#[local] Hint Extern 1 (Evolves (refs_in (eq _)) (insert_approval _)) =>
  (apply insert_approval_refs; reflexivity) : typeclass_instances.

Lemma grant_refs c request ttl run_id id : Evolves (refs_in (eq run_id)) (grant c request ttl run_id id).
Proof. evolve_op. Qed.

Lemma reuse_refs run_id c rt p a :
  le_run_id (pp_lease p) = run_id -> Evolves (refs_in (eq run_id)) (reuse_approval c rt p a).
Proof. intros <-. evolve_op. Qed.

Lemma decide_action_refs run_id c rt p d refs :
  le_run_id (pp_lease p) = run_id -> Evolves (refs_in (eq run_id)) (decide_action c rt p d refs).
Proof. intros <-. evolve_op. Qed.

#[local] Hint Extern 1 (Evolves (refs_in (eq _)) (reuse_approval _ _ _ _)) =>
  (apply reuse_refs; reflexivity) : typeclass_instances.
#[local] Hint Extern 1 (Evolves (refs_in (eq _)) (decide_action _ _ _ _ _)) =>
  (apply decide_action_refs; reflexivity) : typeclass_instances.

Lemma lease_refs k c request s : refs_known s -> refs_known (after (lease k c request) s).
Proof.
  intros Hk. unfold after, lease, kbind at 1, kguard. destruct (negb _); [|done].
  unfold transaction, kret at 1. unfold kbind at 1. unfold kget.
  destruct (pick_runnable _ _ s) as [[run_id id]|]; [|done]. unfold kbind.
  destruct (grant _ _ _ run_id id s) as [[g|] s'] eqn:E; [|done]. cbn [snd fst kret].
  assert (history s s') as Hh by (eapply evolves_ok; [|exact E]; apply _).
  apply (refs_step (eq run_id) s); [exact (evolves_ok _ _ _ _ _ (grant_refs _ _ _ _ _) E)|done| |done].
  intros x <-. apply grant_inv in E as (row & step & Hrow & _). eapply hi_runs; [exact Hh|]. by eapply loaded_known.
Qed.

Lemma evolves_history_refs {A} (m : M A) X s :
  Evolves (refs_in X) m -> Evolves history m -> (forall x, X x -> known s x) -> refs_known s -> refs_known (snd (m s)).
Proof.
  intros Hr Hh Hx. apply (refs_step X s); [apply Hr | apply Hh|]. intros x Hk. by apply (hi_runs _ _ (Hh s)), Hx.
Qed.

Lemma commit_refs {A B} (first : M A) (rest : A -> M B) s :
  Evolves (refs_in (fun _ => False)) first -> Evolves history first ->
  (forall a s1, first s = (Ok a, s1) -> refs_known s1 -> refs_known (snd (rest a s1))) ->
  refs_known s -> refs_known (snd (commit_failure first rest s)).
Proof.
  intros Hf Hh Hr Hk. pose proof (evolves_history_refs first (fun _ => False) s Hf Hh ltac:(done) Hk) as H1'.
  unfold commit_failure. destruct (first s) as [[a|e] s1] eqn:E; [|done]. specialize (Hr a s1 eq_refl H1').
  by destruct (rest a s1) as [[b|e] s2].
Qed.

Lemma propose_refs c id action s : refs_known s -> refs_known (after (propose_action c id action) s).
Proof.
  intros Hk. unfold after, propose_action, kbind at 1, kguard. destruct (_ && _); [|done].
  apply commit_refs; [evolve_op|evolve_op| |done].
  intros [l rt] s1 (-> & _ & _ & _ & Hrow & _)%leased_run_ok _.
  apply (evolves_history_refs _ (eq (le_run_id l))); [| |by intros x <-; eapply loaded_known|done].
  - evolve.
  - evolve.
Qed.

Lemma exec_refs k c op s : refs_known s -> refs_known (exec k c op s).
Proof.
  intros Hk. destruct op; cbn [exec]; first [by apply lease_refs | by apply propose_refs | idtac]; unfold after;
    apply (evolves_history_refs _ (fun _ => False)); try done; evolve_op.
Qed.

Lemma reachable_refs s : reachable s -> refs_known s.
Proof. induction 1; [by split | by apply exec_refs]. Qed.
End Refs.

Section Ready.
Context `{FloatFormat, Sha256, JsonPrint, Crypto, JsonText, Regex, UnicodeTables, F64Display}.

Record ready (n : Z) (rt : RunTx) (s : Store) : Prop := {
  rd_room : room n s;
  rd_tx : tx_ok s rt;
  rd_rows : incl (map st_id (rs_steps (rt_state rt))) (map sr_step_id (step_rows (rs_run_id (rt_state rt)) s));
  rd_read : Forall (fun r => is_ok (step_row_from_row r) = true) (step_rows (rs_run_id (rt_state rt)) s) }.

Lemma ready_core n rt s s' : same_core s s' -> ready n rt s -> ready n rt s'.
Proof.
  intros Hc [H1' H2' H3' H4']. pose proof Hc as (_ & _ & Hs). constructor.
  - by eapply room_core.
  - by eapply tx_ok_core.
  - unfold step_rows in *. by rewrite Hs.
  - unfold step_rows in *. by rewrite Hs.
Qed.

Lemma ready_less n m rt s : m <= n -> ready n rt s -> ready m rt s.
Proof. intros Hm [H1' H2' H3' H4']. constructor; [|done..]. unfold room in *. lia. Qed.

Lemma total_frame {A} n rt (m : M A) :
  Frames m -> (forall s, is_ok (fst (m s)) = true) -> [{ ready n rt }] m [{ fun _ => ready n rt }].
Proof.
  intros Hf Hm s Hs. specialize (Hf s). specialize (Hm s). destruct (m s) as [[a|] s'] eqn:E; [|done].
  exists a, s'. split; [done|]. by eapply ready_core.
Qed.

Lemma shown_rows_read run_id steps rows :
  Forall2 (shows run_id) steps rows -> Forall (fun r => is_ok (step_row_from_row r) = true) rows.
Proof.
  induction 1 as [|st r steps rows [def ->] _ IH]; constructor; [|done].
  unfold step_row_from_row. cbn. by destruct (st_state st).
Qed.

(** Loading a run that exists. *)
Lemma load_ready n now run_id s :
  consistent s -> room n s -> known s run_id -> exists rt,
    load_run now run_id s = (Ok rt, s) /\ ready n rt s /\ rs_run_id (rt_state rt) = run_id /\
    require_run run_id s = Ok (rt_run rt).
Proof.
  intros Hc Hr (r & <- & Hin)%in_map_iff. destruct (get_run_row s r Hc Hin) as (row & Hget & _).
  assert (require_run (rr_run_id r) s = Ok row) as Hreq by (unfold require_run; by rewrite Hget).
  destruct (require_run_ok _ _ _ Hc Hreq) as (Hid & evs & st & r' & _ & Hl & Hst & _ & Hs).
  eexists. split; [unfold load_run, kbind, kread; by rewrite Hreq|]. cbn. split; [|done].
  constructor; [done | by eapply consistent_tx | |]; unfold rt_state; cbn; rewrite Hid.
  - rewrite Hst, (sim_ids _ _ (sim_norm st)), (shows_ids _ _ _ Hs). apply incl_refl.
  - by eapply shown_rows_read.
Qed.

(** The next event of the run is new. *)
Lemma next_event_fresh s rt e :
  tx_ok s rt -> small s -> ev_run_id e = rs_run_id (rt_state rt) -> ev_seq e = u64_add (rs_last_seq (rt_state rt)) 1 ->
  any (same_event_key (event_row e)) (t_events s) = false.
Proof.
  intros Ht Hs Hid Hseq. destruct (tx_run _ _ Ht) as (evs & st & Hl & Hsim & _).
  rewrite <- (sim_last_seq _ _ Hsim), (lo_seq _ _ _ _ _ Hl) in Hseq.
  pose proof (log_length _ _ _ _ _ Hl) as Hlen. unfold small, i64_max in Hs.
  rewrite u64_add_small in Hseq by (unfold u64_max; lia).
  apply not_true_iff_false. intros (x & Hin & [Hx Hk]%andb_true_iff)%any_true. cbn in Hx, Hk.
  apply String.eqb_eq in Hx. apply Z.eqb_eq in Hk.
  assert (In x (event_rows (rs_run_id (rt_state rt)) s)) as Hrow.
  { apply filter_In. split; [done|]. apply String.eqb_eq. congruence. }
  rewrite (lo_rows _ _ _ _ _ Hl) in Hrow. apply in_map_iff in Hrow as (y & <- & Hy).
  pose proof (chain_seqs _ _ _ (lo_chain _ _ _ _ _ Hl)) as [Hall _]. rewrite List.Forall_forall in Hall.
  specialize (Hall y Hy). cbn in Hk, Hall. rewrite !u64_as_i64_small in Hk by (unfold i64_max; lia). lia.
Qed.

(** An event that applies is accepted. *)
Lemma append_raw_accepted n rt actor kind payload s :
  0 <= n -> room (n + 1) s -> tx_ok s rt -> nums_ok kind payload ->
  (forall e, ev_kind e = kind -> ev_payload e = payload -> exists st, apply (rt_state rt) e = Ok st) ->
  exists e rt', append_raw rt actor kind payload s = (Ok (e, rt'), with_events (t_events s ++ [event_row e]) s) /\
    room n (with_events (t_events s ++ [event_row e]) s) /\ tx_ok (with_events (t_events s ++ [event_row e]) s) rt' /\
    apply (rt_state rt) e = Ok (rt_state rt') /\ ev_kind e = kind /\ ev_payload e = payload.
Proof.
  intros Hn Hroom Htx Hnums Hap. assert (small s) as Hs by (eapply (room_small (n + 1)); [lia|done]).
  destruct (append_raw rt actor kind payload s) as [r s'] eqn:E. pose proof E as E'.
  unfold append_raw, kbind, klift, kret in E.
  set (e := build _ _ _ _ _ _ _) in E. destruct (Hap e eq_refl eq_refl) as (st & Hst).
  unfold insert_event in E. rewrite (next_event_fresh s rt e Htx Hs eq_refl eq_refl), Hst in E.
  injection E as <- <-. do 2 eexists. split; [reflexivity|].
  assert (room n (with_events (t_events s ++ [event_row e]) s)) as Hr by (unfold room in *; cbn; rewrite length_app; cbn; lia).
  split; [done|]. split; [|by split].
  apply (append_raw_tx _ _ _ _ _ _ _ _ E' (fun _ _ => Hnums) (fun _ => Htx)). by eapply room_small.
Qed.

Lemma total_append_raw n rt actor kind payload :
  0 <= n -> nums_ok kind payload ->
  (forall e, ev_kind e = kind -> ev_payload e = payload -> exists st,
     apply (rt_state rt) e = Ok st /\ map st_id (rs_steps st) = map st_id (rs_steps (rt_state rt))) ->
  [{ ready (n + 1) rt }] append_raw rt actor kind payload
  [{ fun p s => ready n p.2 s /\ rs_run_id (rt_state p.2) = rs_run_id (rt_state rt) /\
                apply (rt_state rt) p.1 = Ok (rt_state p.2) /\ ev_kind p.1 = kind /\ ev_payload p.1 = payload }].
Proof.
  intros Hn Hnums Hap s [Hroom Htx Hrows Hread].
  destruct (append_raw_accepted n rt actor kind payload s Hn Hroom Htx Hnums) as (e & rt' & E & Hr' & Htx' & Ha & Hk & Hp).
  { intros e Hk Hp. destruct (Hap e Hk Hp) as (st & Hst & _). by exists st. }
  exists (e, rt'), (with_events (t_events s ++ [event_row e]) s). split; [done|]. cbn [fst snd].
  destruct (apply_frame _ _ _ Ha) as (Hid & _ & _). destruct (Hap e Hk Hp) as (st & Hst & Hids).
  assert (st = rt_state rt') as -> by congruence. split; [|by split].
  constructor; [done|done| |]; rewrite Hid; [by rewrite Hids | done].
Qed.

(** Payloads that always apply and add no step. *)
Definition plain (p : payload) (s : RunState) : Prop :=
  payload_wf p /\ payload_kind p <> Kind.RunCreated /\
  match p with PStepScheduled q => find_step (ss_step q) s <> None | _ => True end.

Lemma plain_applies p s e : plain p s -> ev_kind e = payload_kind p -> ev_payload e = payload_value p ->
  exists st, apply s e = Ok st /\ map st_id (rs_steps st) = map st_id (rs_steps s).
Proof.
  intros (Hw & Hk & Hp) Hke Hpe. destruct (apply_accepts s e p Hw Hk Hke Hpe) as (st & Hst & _). exists st. split; [done|].
  rewrite (apply_decoded s e p) in Hst by (rewrite Hke, Hpe; by apply decode_encode_payload).
  destruct (apply_payload _ _ _) as [st'|] eqn:E; [|done]. injection Hst as ->.
  destruct p; try done; cbn [apply_payload] in E; injection E as <-;
    repeat match goal with
    | |- context [match find_step ?a (set_last_seq ?n ?b) with _ => _ end] =>
        change (find_step a (set_last_seq n b)) with (find_step a b); destruct (find_step a b) eqn:?
    | |- context [match rs_pending_approval ?b with _ => _ end] => destruct (rs_pending_approval b)
    | |- context [if ?b then _ else _] => destruct b
    end; try done; try (unfold update_step; cbn; by apply map_update_first); congruence.
Qed.

Lemma total_append n rt actor p :
  0 <= n -> payload_u32 p -> plain p (rt_state rt) ->
  [{ ready (n + 1) rt }] append rt actor p
  [{ fun rt' s => ready n rt' s /\ rs_run_id (rt_state rt') = rs_run_id (rt_state rt) /\
                  exists e, apply (rt_state rt) e = Ok (rt_state rt') /\
                    ev_kind e = payload_kind p /\ ev_payload e = payload_value p }].
Proof.
  intros Hn Hu Hp. unfold append, append_event. eapply total_bind.
  - apply total_append_raw; [done | intros q; by apply payload_value_nums | intros e; by apply plain_applies].
  - intros [e rt'] s (Hr & Hid & Ha & Hk & Hv). exists rt', s. split; [done|]. eauto 10.
Qed.

(** The same, where nothing more is asked of the state. *)
Lemma total_append_plain n run_id rt actor p :
  0 <= n -> payload_u32 p -> plain p (rt_state rt) ->
  [{ fun s => ready (n + 1) rt s /\ rs_run_id (rt_state rt) = run_id }] append rt actor p
  [{ fun rt' s => ready n rt' s /\ rs_run_id (rt_state rt') = run_id }].
Proof.
  intros Hn Hu Hp s [Hr Hid]. destruct (total_append n rt actor p Hn Hu Hp s Hr) as (rt' & s' & E & Hr' & Hid' & _).
  exists rt', s'. split; [done|]. split; [done|]. congruence.
Qed.

(** What is left behind by an operation that persisted its run. *)
Definition settled (n : Z) (s : Store) : Prop := consistent s /\ room n s.

Lemma total_persist n rt : [{ ready n rt }] persist rt [{ fun _ => settled n }].
Proof.
  intros s [Hroom Htx Hrows _]. destruct (persist rt s) as [r s'] eqn:E.
  pose proof (persist_events _ _ _ _ E) as Hev.
  destruct (persist_inv _ _ _ _ E Htx) as [_ Hp]. destruct r as [u|err].
  - exists u, s'. split; [done|]. split; [done|]. unfold room in *. by rewrite Hev.
  - destruct Hp as (id & Hin & Hni). by destruct Hni; apply Hrows.
Qed.

Lemma settled_core n s s' : same_core s s' -> settled n s -> settled n s'.
Proof. intros Hc [H1' H2']. split; [by eapply consistent_core | by eapply room_core]. Qed.

Lemma settled_less n m s : m <= n -> settled n s -> settled m s.
Proof. intros Hm [H1' H2']. split; [done|]. unfold room in *. lia. Qed.

(** ** The sweepers *)

Lemma total_expire_lease n now l :
  0 <= n -> [{ fun s => settled (n + 1) s /\ known s (le_run_id l) }] expire_lease now l [{ fun _ => settled n }].
Proof.
  intros Hn s [[Hc Hr] Hk]. destruct (load_ready _ now _ s Hc Hr Hk) as (rt & Hload & Hrd & Hid & _).
  unfold expire_lease, kbind at 1. rewrite Hload. unfold kbind at 1. destruct (lease_held _ _).
  - set (p := PStepLeaseExpired _).
    destruct (total_append n rt (Act.system "lease-sweeper") p Hn I ltac:(done) s Hrd) as (rt' & s1 & E1 & Hr1 & _).
    destruct (total_persist n rt' s1 Hr1) as (u & s2 & E2 & Hset). unfold kbind. rewrite E1, E2.
    do 2 eexists. split; [reflexivity|]. by eapply (settled_core _ s2).
  - do 2 eexists. split; [reflexivity|]. eapply (settled_core _ s); [done|]. apply (settled_less (n + 1)); [lia|done].
Qed.

Lemma total_sweep_approval k n now a :
  0 <= n -> [{ fun s => settled (n + 1) s /\ known s (apr_run_id a) }] sweep_approval k now a [{ fun _ => settled n }].
Proof.
  intros Hn s [[Hc Hr] Hk]. destruct (load_ready _ now _ s Hc Hr Hk) as (rt & Hload & Hrd & Hid & _).
  unfold sweep_approval, kbind at 1. rewrite Hload. unfold kbind at 1. destruct (_ =? 0).
  - set (p := PApprovalEscalated _).
    destruct (total_append n rt (Act.system "approval-sweeper") p Hn I ltac:(done) s Hrd) as (rt' & s1 & E1 & Hr1 & _).
    unfold kbind, escalate_approval, park_approval, set_approval, kput, kret. rewrite E1. cbv beta iota.
    apply (total_persist n). by eapply (ready_core _ _ s1).
  - set (p := PRunParked _).
    destruct (total_append n rt (Act.system "approval-sweeper") p Hn I ltac:(done) s Hrd) as (rt' & s1 & E1 & Hr1 & _).
    unfold kbind, escalate_approval, park_approval, set_approval, kput, kret. rewrite E1. cbv beta iota.
    apply (total_persist n). by eapply (ready_core _ _ s1).
Qed.

(** A loop over rows that all name a run. *)
Lemma total_sweep {A} (body : A -> M unit) (run_of : A -> string) :
  (forall x, Evolves history (body x)) ->
  (forall n x, 0 <= n -> [{ fun s => settled (n + 1) s /\ known s (run_of x) }] body x [{ fun _ => settled n }]) ->
  forall l, [{ fun s => settled (Z.of_nat (length l)) s /\ Forall (fun x => known s (run_of x)) l }]
    kfor l body [{ fun _ => settled 0 }].
Proof.
  intros Hev Hb l. eapply total_conseq; [| |apply (total_for body
    (fun l s => settled (Z.of_nat (length l)) s /\ Forall (fun x => known s (run_of x)) l))]; [done|by intros ? ? []|].
  intros x l' s [Hs Hf]. apply Forall_cons_1 in Hf as [Hx Hf]. cbn [length] in Hs.
  destruct (Hb (Z.of_nat (length l')) x ltac:(lia) s) as (u & s' & E & Hs').
  { split; [|done]. eapply settled_less; [|exact Hs]. lia. }
  exists u, s'. split; [done|]. split; [done|].
  eapply List.Forall_impl; [|exact Hf]. intros y Hy. eapply hi_runs; [|exact Hy]. exact (evolves_ok _ _ _ _ _ (Hev x) E).
Qed.

Lemma reachable_settled n s : reachable s -> room n s -> 0 <= n -> settled n s.
Proof. intros Hr Hm Hn. split; [|done]. apply reachable_INV; [done|]. by eapply room_small. Qed.

Lemma lease_sweep_total c s :
  reachable s -> room (Z.of_nat (length (t_leases s))) s ->
  exists s', sweep_leases c s = (Ok (Z.of_nat (length (expired_leases (c_now c) s))), s') /\ consistent s'.
Proof.
  intros Hr Hroom. pose proof (reachable_settled _ s Hr Hroom ltac:(lia)) as Hs.
  destruct (reachable_refs s Hr) as [Hl _]. rewrite List.Forall_forall in Hl.
  assert (settled (Z.of_nat (length (expired_leases (c_now c) s))) s) as Hs'.
  { eapply settled_less; [|exact Hs]. unfold expired_leases. rewrite <- (Permutation_length (order_by_perm _ _)).
    pose proof (filter_length_le (fun l => String.eqb (le_state l) "active" && (le_expires_at_ms l <=? c_now c)) (t_leases s)).
    lia. }
  destruct (total_sweep (expire_lease (c_now c)) le_run_id ltac:(intros; apply _)
    ltac:(intros; by apply total_expire_lease) (expired_leases (c_now c) s) s) as (u & s' & E & [Hc _]).
  { split; [done|]. apply List.Forall_forall. intros l [Hin _]%order_by_in%filter_In. by destruct (Hl l Hin). }
  exists s'. split; [|done]. unfold sweep_leases, transaction, kbind, kget, kret. by rewrite E.
Qed.

Lemma approval_sweep_total k c s :
  reachable s -> room (Z.of_nat (length (t_approvals s))) s ->
  exists s', sweep_approvals k c s = (Ok (Z.of_nat (length (overdue_approvals (c_now c) s))), s') /\ consistent s'.
Proof.
  intros Hr Hroom. pose proof (reachable_settled _ s Hr Hroom ltac:(lia)) as Hs.
  destruct (reachable_refs s Hr) as [_ Ha]. rewrite List.Forall_forall in Ha.
  assert (settled (Z.of_nat (length (overdue_approvals (c_now c) s))) s) as Hs'.
  { eapply settled_less; [|exact Hs]. unfold overdue_approvals. rewrite <- (Permutation_length (order_by_perm _ _)).
    match goal with |- context [List.filter ?p (t_approvals s)] => pose proof (filter_length_le p (t_approvals s)) end.
    lia. }
  destruct (total_sweep (sweep_approval k (c_now c)) apr_run_id ltac:(intros; apply _)
    ltac:(intros; by apply total_sweep_approval) (overdue_approvals (c_now c) s) s) as (u & s' & E & [Hc _]).
  { split; [done|]. apply List.Forall_forall. intros a [Hin _]%order_by_in%filter_In. by apply Ha. }
  exists s'. split; [|done]. unfold sweep_approvals, transaction, kbind, kget, kret. by rewrite E.
Qed.


(** ** Reporting *)

(** Inside a transaction on one run. *)
Definition going (n : Z) (run_id : string) (rt : RunTx) (s : Store) : Prop :=
  ready n rt s /\ rs_run_id (rt_state rt) = run_id.

Lemma going_wf n run_id rt s : going n run_id rt s -> 0 <= n -> RunState_wf (rt_state rt).
Proof.
  intros [[_ Htx _ _] _] _. destruct (tx_run _ _ Htx) as (evs & st & Hl & Hsim & _). eapply sim_wf; [exact Hsim|]. apply Hl.
Qed.

Lemma going_core n run_id rt s s' : same_core s s' -> going n run_id rt s -> going n run_id rt s'.
Proof. intros Hc [Hr Hid]. split; [by eapply ready_core | done]. Qed.

Lemma for_step_reads n run_id rt id : [{ going n run_id rt }] for_step_of run_id id [{ fun _ => going n run_id rt }].
Proof.
  intros s Hg. pose proof Hg as [[_ _ _ Hread] Hid]. unfold for_step_of, kbind, kread, get_step, query_opt.
  destruct (find_first (is_step run_id id) (t_steps s)) as [r|] eqn:E; [|do 2 eexists; by split].
  apply find_first_some in E as [Hin Hr]. rewrite List.Forall_forall in Hread.
  assert (In r (step_rows (rs_run_id (rt_state rt)) s)) as Hrow.
  { apply filter_In. split; [done|]. apply is_step_run in Hr. rewrite Hid. by apply String.eqb_eq. }
  specialize (Hread r Hrow). unfold rmap. destruct (step_row_from_row r) as [row|]; [|done]. do 2 eexists. by split.
Qed.

Ltac plainly := first [done | split; [done|]; split; done].
Ltac say := apply total_append_plain; [lia | done | plainly].

Lemma total_end_lease n run_id rt id st : [{ going n run_id rt }] end_lease id st [{ fun _ => going n run_id rt }].
Proof. intros s Hg. do 2 eexists. split; [reflexivity|]. by eapply (going_core _ _ _ s). Qed.

Lemma total_quarantine n run_id rt step error det :
  0 <= n -> u32_ok (st_attempts step) ->
  [{ going (n + 1 + 1 + 1) run_id rt }] quarantine rt run_id step error det [{ going n run_id }].
Proof.
  intros Hn Hu. unfold quarantine. eapply total_bind.
  - apply (total_append_plain (n + 1 + 1)); [lia | done | by split].
  - intros rt1. destruct (is_compensation step).
    + eapply total_bind; [apply (for_step_reads (n + 1 + 1))|]. intros for_step. eapply total_bind.
      * apply (total_append_plain (n + 1)); [lia | done | plainly].
      * intros rt2. apply total_append_plain; [lia | done | plainly].
    + eapply total_conseq; [| |apply (total_append_plain n run_id); [lia | done | plainly]]; [|done].
      intros s [Hr Hid]. split; [|done]. eapply ready_less; [|exact Hr]. lia.
Qed.

Lemma going_less n m run_id rt s : m <= n -> going n run_id rt s -> going m run_id rt s.
Proof. intros Hm [Hr Hid]. split; [by eapply ready_less | done]. Qed.

Lemma total_after_failure k c n run_id rt step error det :
  0 <= n -> u32_ok (st_attempts step) ->
  [{ going (n + 1 + 1 + 1) run_id rt }] after_failure k c rt run_id step error det [{ fun p => going n run_id p.1 }].
Proof.
  intros Hn Hu. unfold after_failure. destruct (_ && _); [|destruct (_ <=? _)].
  - eapply total_bind.
    + eapply total_conseq; [| |apply (total_append_plain n run_id); [lia | done | plainly]]; [|done].
      intros s. apply going_less. lia.
    + intros rt1. apply (total_ret (rt1, _) (fun p => going n run_id p.1)).
  - eapply total_bind; [by apply (total_quarantine n)|]. intros rt1. apply (total_ret (rt1, _) (fun p => going n run_id p.1)).
  - eapply total_bind.
    + eapply total_conseq; [| |apply (total_append_plain n run_id); [lia | done | split; [apply u32_add_ok | done]]]; [|done].
      intros s. apply going_less. lia.
    + intros rt1. apply (total_ret (rt1, _) (fun p => going n run_id p.1)).
Qed.

(** The holder's lease opens its run. *)
Lemma holder_leased_run n c s l st step :
  settled n s -> 0 <= n -> refs_known s -> holder (c_now c) s l st step -> exists rt,
    leased_run (c_now c) (le_lease_id l) s = (Ok (l, rt), s) /\ going n (le_run_id l) rt s /\
    rt_state rt = norm_state st /\ find_step (le_step_id l) (rt_state rt) = Some (norm_step step) /\
    u32_ok (le_attempt l) /\ u32_ok (st_attempts step) /\ st_id step = le_step_id l.
Proof.
  intros [Hc Hr] Hn [Hk _] (Hget & Hact & Hexp & Hlog & Hf & Hst & i & Hi & Hid).
  assert (In l (t_leases s)) as Hin by by apply find_first_some in Hget as [? _].
  rewrite List.Forall_forall in Hk. destruct (Hk l Hin) as [Hkn Hu].
  destruct (load_ready n (c_now c) _ s Hc Hr Hkn) as (rt & Hload & Hrd & Hrid & Hreq).
  destruct (loaded_logged _ _ _ Hc (room_small _ _ Hn Hr) Hreq) as (st' & Hlog' & Hst').
  rewrite (logged_unique _ _ _ _ Hlog' Hlog) in Hst'. change (row_state (rt_run rt)) with (rt_state rt) in Hst'.
  assert (find_step (le_step_id l) (rt_state rt) = Some (norm_step step)) as Hfs
    by (rewrite Hst', find_step_norm; by rewrite Hf).
  exists rt. split.
  { unfold leased_run, live_lease, kbind, kget, ksome, klift. rewrite Hget. cbn [ok_or]. rewrite Hact.
    change (String.eqb "active" "active") with true. destruct (Z.leb_spec (le_expires_at_ms l) (c_now c)); [lia|].
    cbn [andb kguard kret]. unfold kret. rewrite Hload. unfold step_held. rewrite Hfs. unfold step_is. cbn.
    rewrite Hst, Hi, Hid, String.eqb_refl. by case_bool_decide. }
  assert (RunState_wf (rt_state rt)) as [Hw _] by (eapply (going_wf n (le_run_id l)); [by split | done]).
  apply find_first_some in Hfs as [Hin' Hsid%String.eqb_eq]. rewrite List.Forall_forall in Hw.
  destruct (Hw _ Hin') as (_ & Hua & _). split; [by split|]. split; [done|]. split; [|done].
  rewrite Hst', find_step_norm. by rewrite Hf.
Qed.

Lemma total_fail k c s l st step error det :
  settled 4 s -> refs_known s -> holder (c_now c) s l st step ->
  exists r s', fail k c (le_lease_id l) error det s = (Ok r, s').
Proof.
  intros Hs Hk Hh. destruct (holder_leased_run 4 c s l st step Hs ltac:(lia) Hk Hh)
    as (rt & Hl & Hg & Hst & Hf & Hu & Hua & _).
  unfold fail, commit_failure. rewrite Hl, Hf. unfold ksome, klift, ok_or, kbind at 1.
  assert ([{ going (3 + 1) (le_run_id l) rt }]
    (let! rt := append rt (Act.worker (le_worker_id l))
       (PStepFailed {| sf_step := st_id (norm_step step); sf_lease_id := Some (le_lease_id l);
                       sf_attempt := le_attempt l; sf_error := error; sf_deterministic := det |}) in
     let! _ := end_lease (le_lease_id l) "failed" in
     let! (rt, result) := after_failure k c rt (le_run_id l) (norm_step step) error det in
     let! _ := persist rt in kret result) [{ fun _ _ => True }]) as Hm.
  { eapply total_bind; [apply (total_append_plain 3 (le_run_id l)); [lia | done | by split]|]. intros rt1.
    eapply total_bind; [apply (total_end_lease 3)|]. intros u.
    eapply total_bind; [by apply (total_after_failure k c 0)|]. intros [rt2 r]. cbn [fst].
    eapply total_bind; [|intros u'; apply (total_ret r (fun _ _ => True))].
    eapply total_conseq; [| |apply (total_persist 0)]; [by intros ? []|done]. }
  destruct (Hm s Hg) as (r & s' & E & _). exists r, s'. by rewrite E.
Qed.

(** Reported usage that stays within the floats: JSON has no infinity and no NaN, so an event
    with one would not read back. *)
Definition usage_fits (b : BudgetState) (usage : option Usage) : Prop :=
  match usage with
  | None => True
  | Some u =>
      let cumulative_usd := f64_add (bu_used_usd b) (us_usd u) in
      f64_is_finite (us_usd u) = true /\ f64_is_finite cumulative_usd = true /\
      forall t, soft_threshold b (u64_add (bu_used_tokens b) (us_tokens u)) cumulative_usd = Some t ->
        f64_is_finite (bs_ratio t) = true
  end.

Lemma when_some_inv {A B} (x : option A) (y : option B) b : when_some x y = Some b -> y = Some b.
Proof. by destruct x. Qed.

Lemma soft_threshold_wf b tokens usd t :
  BudgetState_wf b -> f64_is_finite usd = true -> soft_threshold b tokens usd = Some t ->
  f64_is_finite (bs_ratio t) = true -> BudgetSoftThreshold_wf t.
Proof.
  intros (Hc & _ & _) Hu Ht Hr. unfold soft_threshold in Ht. destruct (bu_soft_hit b); [discriminate|].
  split; [|split; [|done]]; intros a Ha;
    destruct (soft_usd b usd), (soft_tokens b tokens); try discriminate; injection Ht as <-; cbn in Ha; try discriminate.
  all: try (by injection Ha as <-). all: by apply Hc.
Qed.

Lemma total_record_usage n run_id rt id usage :
  0 <= n -> usage_fits (rs_budget (rt_state rt)) usage ->
  [{ going (n + 1 + 1) run_id rt }] record_usage rt id usage [{ fun p => going n run_id p.1 }].
Proof.
  intros Hn Hfit s Hg. pose proof (going_wf _ _ _ _ Hg ltac:(lia)) as [_ Hb]. revert s Hg.
  change ([{ going (n + 1 + 1) run_id rt }] record_usage rt id usage [{ fun p => going n run_id p.1 }]).
  unfold record_usage. destruct usage as [u|].
  - destruct Hfit as (Hu & Hcum & Hratio). eapply total_bind.
    + apply (total_append_plain (n + 1) run_id); [lia | done | by split].
    + intros rt1. eapply (total_bind _ _ (going n run_id)).
      * destruct (soft_threshold _ _ _) as [t|] eqn:Et.
        -- apply (total_append_plain n run_id); [lia | done|]. split; [|done].
           eapply soft_threshold_wf; [exact Hb | exact Hcum | exact Et | by apply Hratio].
        -- intros s Hg. exists rt1, s. split; [done|]. eapply going_less; [|exact Hg]. lia.
      * intros rt2. apply (total_ret (rt2, _) (fun p => going n run_id p.1)).
  - intros s Hg. exists (rt, false), s. split; [done|]. eapply going_less; [|exact Hg]. lia.
Qed.

Lemma total_after_completion n run_id rt step output exceeded :
  0 <= n -> [{ going (n + 1 + 1) run_id rt }] after_completion rt run_id step output exceeded [{ going n run_id }].
Proof.
  intros Hn s Hg. pose proof (going_wf _ _ _ _ Hg ltac:(lia)) as [_ Hb]. unfold after_completion.
  destruct (is_compensation step); [|destruct (negb _); [|destruct (_ && _)]].
  - eapply (total_bind (going (n + 1 + 1) run_id rt)); [apply (for_step_reads (n + 1 + 1))| |exact Hg]. intros for_step.
    eapply total_conseq; [| |apply (total_append_plain n run_id); [lia | done | plainly]]; [|done].
    intros s'. apply going_less. lia.
  - eapply (total_conseq (going (n + 1 + 1) run_id rt));
      [| |apply (total_append_plain n run_id); [lia | done | plainly]|exact Hg]; [|done].
    intros s'. apply going_less. lia.
  - eapply (total_bind (going (n + 1 + 1) run_id rt)); [|intros rt1; apply (total_append_plain n run_id);
      [lia | done | plainly]|exact Hg].
    apply (total_append_plain (n + 1) run_id); [lia | done|]. split; [|done]. destruct Hb as (Hceil & _ & Hused).
    split; intros a Ha; [|by apply Hceil]. apply when_some_inv in Ha. by injection Ha as <-.
  - exists rt, s. split; [done|]. eapply going_less; [|exact Hg]. lia.
Qed.

Lemma total_complete c s l st step output usage :
  settled 5 s -> refs_known s -> holder (c_now c) s l st step ->
  text_size (completion l step output) <= MAX_PAYLOAD_BYTES -> usage_fits (rs_budget st) usage ->
  exists r s', complete c (le_lease_id l) output usage s = (Ok r, s').
Proof.
  intros Hs Hk Hh Hsize Hfit. destruct (holder_leased_run 5 c s l st step Hs ltac:(lia) Hk Hh)
    as (rt & Hl & [Hrd Hrid] & Hst & Hf & Hu & Hua & _).
  unfold complete, commit_failure. rewrite Hl, Hf. unfold ksome, klift, ok_or. unfold kbind at 1. unfold kbind at 1.
  change (ser_StepCompleted _) with (completion l step output).
  unfold truncate_payload. apply Z.leb_le in Hsize. rewrite Hsize.
  set (p := {| sc_step := st_id step; sc_lease_id := le_lease_id l; sc_attempt := le_attempt l; sc_output := output |}).
  assert (plain (PStepCompleted p) (rt_state rt)) as Hplain by by split.
  assert (nums_ok Kind.StepCompleted (completion l step output)) as Hnums by (apply nums_free; by intros []).
  destruct (total_append_raw 4 rt (Act.worker (le_worker_id l)) _ _ ltac:(lia) Hnums
    (fun e => plain_applies (PStepCompleted p) (rt_state rt) e Hplain) s Hrd) as ([e rt1] & s1 & E1 & Hrd1 & Hid1 & Hap & Hke & Hpe).
  cbn [fst snd] in *. unfold kbind at 1. rewrite E1.
  assert (rs_budget (rt_state rt1) = rs_budget st) as Hbud.
  { rewrite (apply_decoded _ e (PStepCompleted p)) in Hap
      by (rewrite Hke, Hpe; by apply (decode_encode_payload (PStepCompleted p))).
    cbn in Hap. injection Hap as Hap. rewrite <- Hap. cbn. by rewrite Hst. }
  rewrite <- Hbud in Hfit. set (stored := match jget "output" _ with Some o => o | None => JNull end).
  assert ([{ going 4 (le_run_id l) rt1 }]
    (let! _ := end_lease (le_lease_id l) "completed" in
     let! (rt, exceeded) := record_usage rt1 (st_id (norm_step step)) usage in
     let! rt := after_completion rt (le_run_id l) (norm_step step) stored exceeded in
     let! _ := persist rt in
     kret {| cr_run_state := rs_state (rt_state rt);
             cr_next_step := match next_step (rt_state rt) with Some s => Some (st_id s) | None => None end |})
    [{ fun _ _ => True }]) as Hm.
  { eapply total_bind; [apply (total_end_lease 4)|]. intros u.
    eapply total_bind; [by apply (total_record_usage 2)|]. intros [rt2 exceeded]. cbn [fst].
    eapply total_bind; [by apply (total_after_completion 0)|]. intros rt3.
    eapply total_bind; [|intros u'; apply (total_ret _ (fun _ _ => True))].
    eapply total_conseq; [| |apply (total_persist 0)]; [by intros ? []|done]. }
  destruct (Hm s1 ltac:(split; [done|congruence])) as (r & s' & E & _). exists r, s'. by rewrite E.
Qed.

End Ready.

(** ** Witnesses *)

Import Demo.


