(* ===== verification/Supply.v ===== *)
(** * Work is handed out

    A worker that asks for work gets some whenever there is any: what a run needs to be worked
    on (its bundle and the remit for its workers) stays in the store, so a step that may run
    is granted. *)

From S2P Require Import Prelude Text Ids F64 Json Policy Lexer Parser PolicyTools Canonical Time.
From S2P Require Import Errors Keys Remit Payloads PayloadLaws Events Fold RunJson FoldSpec.
From S2P Require Import Template Schema Bundle Store Kernel Scenario Hoare History StoreInv KernelInv.
From S2P Require Import Replay LeaseSpec StepSpec ActionSpec StartSpec Paging Progress.
From Stdlib Require Import Ascii.

Local Open Scope string_scope.
Local Open Scope list_scope.
Local Open Scope Z_scope.

(** ** What becomes of runs *)

Definition run_record_of (id : string) (s : Store) : option RunRecord := find_first (is_run id) (t_runs s).

(** The log grows, a run keeps the remit of its workers, and what is created is in [X]. *)
Record runs_kept (X : EventRow -> Prop) (s s' : Store) : Prop := {
  rk_events : exists more, t_events s' = t_events s ++ more /\
                Forall (fun e => er_kind e = "run.created" -> X e) more;
  rk_rows : forall id r, run_record_of id s = Some r ->
              exists r', run_record_of id s' = Some r' /\ rr_child_remit_id r' = rr_child_remit_id r }.

#[export] Instance runs_kept_preorder X : PreOrder (runs_kept X).
Proof.
  split.
  - intros s. split; [exists []; by rewrite app_nil_r | eauto].
  - intros s1 s2 s3 [(m1 & E1 & F1) R1] [(m2 & E2 & F2) R2]. split.
    + exists (m1 ++ m2). rewrite E2, E1, app_assoc. split; [done|]. by apply Forall_app.
    + intros id r (r1 & H1 & C1)%R1. destruct (R2 id r1 H1) as (r2 & H2 & C2). exists r2. split; [done|congruence].
Qed.

Lemma runs_kept_same X s s' : t_events s' = t_events s -> t_runs s' = t_runs s -> runs_kept X s s'.
Proof.
  intros He Hr. split; [exists []; by rewrite app_nil_r|]. intros id r. unfold run_record_of. rewrite Hr. eauto.
Qed.

Section Writes.
Context (X : EventRow -> Prop).

#[global] Instance frames_kept {A} (m : M A) : Frames m -> Evolves (runs_kept X) m.
Proof. intros Hf s. destruct (Hf s) as (He & Hr & _). by apply runs_kept_same. Qed.

#[global] Instance write_step_kept run_id step def : Evolves (runs_kept X) (write_step run_id step def).
Proof. intros s. unfold write_step. destruct (any _ _); [by apply runs_kept_same|]. destruct def; by apply runs_kept_same. Qed.

#[global] Instance write_run_kept row : Evolves (runs_kept X) (write_run row).
Proof.
  intros s. unfold write_run, kput. cbn. split; [exists []; rewrite app_nil_r; by destruct (any _ _)|].
  intros id r Hr. unfold run_record_of in *. destruct (any _ _); cbn; [|exists r; by rewrite find_first_app, Hr].
  set (p := is_run (rs_run_id (row_state row))). set (f := update_run_record _).
  assert (find_first (is_run id) (update_first p f (t_runs s)) = Some r \/
          find_first (is_run id) (update_first p f (t_runs s)) = Some (f r)) as [E|E];
    [|exists r; by rewrite E | exists (f r); by rewrite E].
  revert Hr. induction (t_runs s) as [|x l IH]; [done|]. cbn. destruct (p x) eqn:Ep; cbn.
  - unfold is_run at 1. change (rr_run_id (f x)) with (rr_run_id x).
    destruct (String.eqb _ _); [intros [= <-]; by right | auto].
  - destruct (is_run id x); auto.
Qed.

Lemma insert_event_kept e : (ev_kind e = Kind.RunCreated -> X (event_row e)) -> Evolves (runs_kept X) (insert_event e).
Proof.
  intros Hx s. unfold insert_event. destruct (any _ _); [by apply runs_kept_same|]. split; cbn; [|eauto].
  eexists. split; [reflexivity|]. constructor; [|constructor]. cbn. intros E. apply Hx. by destruct (ev_kind e).
Qed.
End Writes.

Section Kept.
Context `{FloatFormat, Sha256, JsonPrint, Crypto, JsonText, Regex, UnicodeTables, F64Display}.

#[local] Hint Extern 1 (Evolves (runs_kept _) (insert_event _)) =>
  (apply insert_event_kept; first [discriminate | by intros _ | cbn; congruence]) : typeclass_instances.

(** The run an operation may create. *)
Definition creates (c : Call) (op : Op) (e : EventRow) : Prop :=
  match op with OStartRun _ => er_run_id e = new c 0 "run" | _ => False end.

Lemma post_external_kept k c run_id kind payload actor auth :
  Evolves (runs_kept (fun _ => False)) (post_external_event k c run_id kind payload actor auth).
Proof.
  intros s. unfold post_external_event. unfold kbind at 1, ksome, klift. destruct (Kind.parse kind) as [kd|]; [|reflexivity].
  cbn [ok_or]. unfold kbind at 1, kguard. destruct (Kind.is_external kd) eqn:E; [|reflexivity]. cbn [kret].
  assert (kd <> Kind.RunCreated) as Hk by by intros ->. revert s.
  match goal with |- forall s, runs_kept _ s (snd (?m s)) => change (Evolves (runs_kept (fun _ => False)) m) end.
  evolve_op.
Qed.

Lemma exec_kept k c op s : runs_kept (creates c op) s (exec k c op s).
Proof.
  revert s. destruct op; unfold exec, after;
    match goal with |- forall s, runs_kept ?X s (snd (?m s)) => change (Evolves (runs_kept X) m) end;
    first [apply post_external_kept | evolve_op].
Qed.
End Kept.

(** ** What a run is created with *)

Lemma apply_payload_bundle e p s s' : apply_payload e p s = Some s' -> rs_bundle s' = rs_bundle s.
Proof.
  intros H. destruct p; cbn [apply_payload] in H; try discriminate H; injection H as <-; try done;
    repeat match goal with |- context [if ?b then _ else _] => destruct b end; try done;
    match goal with |- context [match ?x with Some _ => _ | None => _ end] => destruct x end; try done;
    by destruct (String.eqb _ _).
Qed.

Lemma apply_bundle_kept s e s' : apply s e = Ok s' -> rs_bundle s' = rs_bundle s.
Proof. intros (p & Hp & _)%apply_inv. by apply apply_payload_bundle in Hp. Qed.

Lemma apply_all_bundle l : forall s s', apply_all s l = Ok s' -> rs_bundle s' = rs_bundle s.
Proof.
  induction l as [|e l IH]; intros s s' Ha; cbn in Ha; [by injection Ha as <-|].
  apply rbind_ok in Ha as (s1 & H1%apply_bundle_kept & Ha). rewrite <- H1. by apply IH.
Qed.

Lemma from_created_bundle e s : from_created e = Ok s ->
  ev_kind e = Kind.RunCreated /\ option_map rc_bundle_id (de_RunCreated (ev_payload e)) = Some (br_id (rs_bundle s)).
Proof.
  unfold from_created. destruct (bool_decide_reflect (ev_kind e = Kind.RunCreated)) as [Hk|]; [|discriminate].
  cbn [negb]. intros (rc & Hrc%ok_or_ok & [= <-])%rbind_ok. split; [done|].
  change (typed e) with (de_RunCreated (ev_payload e)) in Hrc. by rewrite Hrc.
Qed.

Section Created.
Context `{FloatFormat, Sha256}.

(** The first row of a log and the bundle it names. *)
Definition created_row (id : string) (bundle_id : string) (row : EventRow) : Prop :=
  er_run_id row = id /\ er_kind row = "run.created" /\
  option_map rc_bundle_id (de_RunCreated (er_payload row)) = Some bundle_id.

Lemma log_created s run_id last evs st :
  log_ok s run_id last evs st -> exists row rest, event_rows run_id s = row :: rest /\
    created_row run_id (br_id (rs_bundle st)) row.
Proof.
  intros [Hrows Hown _ Hne _ Hf _ _ _]. destruct evs as [|e evs]; [done|].
  exists (event_row e), (map event_row evs). split; [done|].
  inversion Hown as [|? ? [Hid _] _]; subst. cbn in Hf. apply rbind_ok in Hf as (s0 & [Hk Hb]%from_created_bundle & Ha).
  rewrite (apply_all_bundle _ _ _ Ha). repeat split; [cbn; by rewrite Hk | done].
Qed.

(** A log that only grew starts as it did. *)
Lemma grown_rows s s' more run_id :
  t_events s' = t_events s ++ more ->
  event_rows run_id s' = event_rows run_id s ++ List.filter (fun e => String.eqb (er_run_id e) run_id) more.
Proof. intros E. unfold event_rows. by rewrite E, List.filter_app. Qed.

(** ** What a run needs *)

(** Its bundle and the remit for its workers. *)
Definition has_supply (s : Store) (row : RunRow) : Prop :=
  get_bundle (br_id (rs_bundle (row_state row))) s <> None /\ remit_row (row_child_remit_id row) s <> None.

Definition supplied (s : Store) : Prop :=
  forall run_id row, require_run run_id s = Ok row -> has_supply s row.

Lemma supply_kept s s' row row' :
  history s s' -> br_id (rs_bundle (row_state row')) = br_id (rs_bundle (row_state row)) ->
  row_child_remit_id row' = row_child_remit_id row -> has_supply s row -> has_supply s' row'.
Proof.
  intros Hh Eb Ec [Hb Hr]. split; rewrite ?Eb, ?Ec.
  - destruct (hi_bundles _ _ Hh) as [more E]. unfold get_bundle in *. rewrite E, find_first_app. by destruct (find_first _ _).
  - destruct (remit_row _ s) as [r|] eqn:E; [|done]. by destruct (hi_remits _ _ Hh _ _ E) as (r' & -> & _).
Qed.

Lemma row_child run_id s row : require_run run_id s = Ok row ->
  exists r, run_record_of run_id s = Some r /\ row_child_remit_id row = rr_child_remit_id r.
Proof.
  unfold require_run, get_run, query_opt, run_record_of. destruct (find_first _ _) as [r|]; [|discriminate].
  unfold rmap, run_row_from_row, json_col. intros Hr. inv_ok. injection Hr as <-. by exists r.
Qed.

(** A new run is created by one of the new events. *)
Lemma new_run_created X s s' run_id last evs st :
  consistent s -> ~ known s run_id -> runs_kept X s s' -> log_ok s' run_id last evs st ->
  exists e, X e /\ created_row run_id (br_id (rs_bundle st)) e.
Proof.
  intros Hc Hn [(more & E & Hx) _] (row & rest & Er & Hrow)%log_created. exists row. split; [|done].
  assert (In row (t_events s')) as Hin.
  { assert (In row (event_rows run_id s')) as Hin by (rewrite Er; by left). by apply filter_In in Hin as [? _]. }
  destruct Hrow as (Hid & Hk & _). rewrite E in Hin. apply in_app_iff in Hin as [Hin|Hin].
  - exfalso. apply Hn. rewrite <- Hid. pose proof (co_events _ Hc) as He. rewrite List.Forall_forall in He. by apply He.
  - rewrite List.Forall_forall in Hx. by apply Hx.
Qed.

Lemma supplied_step X s s' :
  consistent s -> consistent s' -> history s s' -> runs_kept X s s' -> supplied s ->
  (forall run_id row, (exists e, X e /\ created_row run_id (br_id (rs_bundle (row_state row))) e) ->
     ~ known s run_id -> require_run run_id s' = Ok row -> has_supply s' row) -> supplied s'.
Proof.
  intros Hc Hc' Hh Hk Hs Hnew run_id row' Hrow'.
  destruct (require_run_ok _ _ _ Hc' Hrow') as (_ & evs' & st' & _ & _ & Hl' & Hst' & _).
  destruct (in_dec String.string_dec run_id (map rr_run_id (t_runs s))) as [Hin|Hn].
  - pose proof Hin as (r & <- & Hr)%in_map_iff. destruct (get_run_row s r Hc Hr) as (row & Hget & _).
    assert (require_run (rr_run_id r) s = Ok row) as Hrow by (unfold require_run; by rewrite Hget).
    apply (supply_kept s s' row row' Hh); [| |by eapply Hs].
    + destruct (require_run_ok _ _ _ Hc Hrow) as (_ & evs & st & _ & _ & Hl & Hst & _). rewrite Hst, Hst'. cbn.
      apply log_created in Hl as (e & rest & Ee & _ & _ & Eb). apply log_created in Hl' as (e' & rest' & Ee' & _ & _ & Eb').
      destruct Hk as [(more & Em & _) _]. rewrite (grown_rows _ _ _ _ Em), Ee in Ee'. injection Ee' as <- _. congruence.
    + apply row_child in Hrow as (r0 & Hr0 & ->). apply row_child in Hrow' as (r1 & Hr1 & ->).
      destruct (rk_rows _ _ _ Hk _ _ Hr0) as (r2 & Hr2 & <-). congruence.
  - eapply Hnew; [|exact Hn|exact Hrow']. rewrite Hst'. cbn. exact (new_run_created X s s' run_id _ evs' st' Hc Hn Hk Hl').
Qed.
End Created.

(** ** Starting a run supplies it *)

Lemma de_RunCreated_bundle m p : de_RunCreated (JObj m) = Some p -> map_get "bundle_id" m = Some (JStr (rc_bundle_id p)).
Proof.
  unfold de_RunCreated. cbn [struct_fields]. intros Hd. unbind Hd. injection Hv as <-. injection Hd as <-.
  unfold req in *. cbn [field_map] in *. destruct (map_get "bundle_id" m) as [[]|]; try discriminate. cbn in *. congruence.
Qed.

Lemma created_bundle_id p b : option_map rc_bundle_id (de_RunCreated (ser_RunCreated p)) = Some b -> b = rc_bundle_id p.
Proof.
  destruct (de_RunCreated (ser_RunCreated p)) as [q|] eqn:E; [|discriminate]. intros [= <-].
  unfold ser_RunCreated, obj in E. apply de_RunCreated_bundle in E. rewrite map_get_mk_map in E.
  destruct (rc_department p); cbv [get_last String.eqb Ascii.eqb Bool.eqb app skip_none] in E; congruence.
Qed.

(** The runs table is left alone. *)
Definition same_runs (s s' : Store) : Prop := t_runs s' = t_runs s.

#[export] Instance same_runs_preorder : PreOrder same_runs.
Proof. split; [done|]. intros s1 s2 s3. unfold same_runs. congruence. Qed.
#[export] Instance frames_runs {A} (m : M A) : Frames m -> Evolves same_runs m.
Proof. intros Hf s. by destruct (Hf s) as (_ & Hr & _). Qed.
#[export] Instance insert_event_runs e : Evolves same_runs (insert_event e).
Proof. intros s. unfold insert_event. by destruct (any _ _). Qed.

Section Started.
Context `{FloatFormat, Sha256, JsonPrint, Crypto, JsonText, Regex, UnicodeTables, F64Display}.

#[local] Hint Extern 1 (Evolves (runs_kept _) (insert_event _)) =>
  (apply insert_event_kept; first [discriminate | by intros _ | cbn; congruence]) : typeclass_instances.

Definition child_of (rt : RunTx) : string := row_child_remit_id (rt_run rt).

Lemma append_child rt actor p s rt' s' : append rt actor p s = (Ok rt', s') -> child_of rt' = child_of rt.
Proof.
  unfold append, append_event. intros Ha. apply kbind_ok in Ha as ([e rt1] & s1 & Ha & Hr).
  apply kret_ok in Hr as [-> _]. by apply append_raw_inv in Ha as (_ & _ & _ & _ & _ & _ & Hc).
Qed.

Lemma scheduled_child steps rt s acc s' :
  kfold steps (rt, 0) schedule_step s = (Ok acc, s') ->
  child_of acc.1 = child_of rt /\ rs_run_id (rt_state acc.1) = rs_run_id (rt_state rt).
Proof.
  apply (hoare_ok (fun _ => True) _
    (fun acc _ => child_of acc.1 = child_of rt /\ rs_run_id (rt_state acc.1) = rs_run_id (rt_state rt)) anything); [|done].
  apply (hoare_pre _ (fun _ => child_of (rt, 0).1 = child_of rt /\ rs_run_id (rt_state (rt, 0).1) = rs_run_id (rt_state rt)));
    [done|].
  apply (hoare_fold steps (rt, 0) schedule_step (fun acc _ => child_of acc.1 = child_of rt /\
    rs_run_id (rt_state acc.1) = rs_run_id (rt_state rt))). intros [rt1 n] x _ s1 [Hc Hi]. cbn in Hc, Hi.
  destruct (schedule_step (rt1, n) x s1) as [[acc1|e] s2] eqn:E; [|done]. unfold schedule_step in E.
  apply kbind_ok in E as (rt2 & s3 & Ha & E). apply kret_ok in E as [-> _]. cbn.
  pose proof (append_child _ _ _ _ _ _ Ha) as Hc2. pose proof (append_run_id _ _ _ _ _ _ Ha) as Hi2.
  split; [by rewrite Hc2 | by rewrite Hi2].
Qed.

(** The row of a new run. *)
Lemma persist_new rt s u s' :
  persist rt s = (Ok u, s') -> run_record_of (rs_run_id (rt_state rt)) s = None ->
  exists r, run_record_of (rs_run_id (rt_state rt)) s' = Some r /\ rr_child_remit_id r = child_of rt.
Proof.
  intros Hp Hn. unfold persist in Hp. apply kbind_ok in Hp as (u1 & s1 & Hw & Hp).
  assert (runs_kept (fun _ => False) s1 s') as Hk by (eapply evolves_ok; [|exact Hp]; evolve).
  unfold write_run, kput in Hw. injection Hw as _ <-. apply (rk_rows _ _ _ Hk _ (run_record
    {| row_state := rt_state rt; row_child_remit_id := row_child_remit_id (rt_run rt);
       row_created_at := row_created_at (rt_run rt); row_updated_at := rt_ts rt;
       row_last_hash := row_last_hash (rt_run rt) |})).
  unfold run_record_of in *. cbn [rr_run_id run_record row_state]. destruct (any _ _) eqn:E.
  - apply any_true in E as (x & Hin & Hx). apply find_first_none in Hn. rewrite List.Forall_forall in Hn.
    by rewrite Hn in Hx.
  - cbn. rewrite find_first_app, Hn. cbn. unfold is_run. cbn. by rewrite String.eqb_refl.
Qed.

Lemma create_run_child c run_id child_id created s rt s' :
  create_run c run_id child_id created s = (Ok rt, s') -> child_of rt = child_id /\ rs_run_id (rt_state rt) = run_id.
Proof.
  unfold create_run. intros Hc. apply kbind_ok in Hc as (u & s1 & _ & Hc). apply kbind_ok in Hc as (st & s2 & Hst & Hc).
  apply kret_ok in Hc as [-> _]. split; [done|]. apply klift_ok in Hst as [Hst _]. unfold rt_state. cbn.
  unfold from_created in Hst. destruct (negb _); [discriminate|]. destruct (typed _); [|discriminate]. by injection Hst as <-.
Qed.

(** The events and rows of a run that started. *)
Lemma start_supplies k c request s r s' :
  consistent s -> consistent s' -> supplied s -> start_run k c request s = (Ok r, s') -> supplied s'.
Proof.
  intros Hc Hc' Hsup Hs. assert (history s s') as Hh by (eapply evolves_ok; [|exact Hs]; evolve_op).
  unfold start_run in Hs. apply transaction_ok in Hs.
  apply kbind_ok in Hs as ([[b remit] rb] & s0 & [-> Hst]%check_start_ok & Hs).
  assert (runs_kept (fun e => er_run_id e = new c 0 "run" /\ er_payload e = ser_RunCreated (created_payload k request b remit rb)) s s')
    as Hk by (eapply evolves_ok; [|exact Hs]; evolve_op).
  apply (supplied_step _ s s' Hc Hc' Hh Hk Hsup).
  intros run_id row (e & [Hid Hpay] & Hcr & _ & Hb) Hn Hrow. rewrite Hid in Hcr. subst run_id. split.
  - rewrite Hpay in Hb. apply created_bundle_id in Hb. rewrite Hb. cbn.
    pose proof (sta_bundle _ _ _ _ _ _ Hst) as Hget. destruct (hi_bundles _ _ Hh) as [more E].
    unfold get_bundle in *. pose proof Hget as [_ Eb%String.eqb_eq]%find_first_some. rewrite Eb, E, find_first_app. by rewrite Hget.
  - apply row_child in Hrow as (rec & Hrec & ->).
    apply kbind_ok in Hs as (u & s1 & Hins & Hs).
    assert (history s1 s') as Hh1 by (eapply evolves_ok; [|exact Hs]; evolve_op).
    assert (t_runs s1 = t_runs s) as R1 by exact (evolves_ok same_runs _ _ _ _ _ Hins).
    apply insert_remit_row in Hins as [Hchild _]. destruct (hi_remits _ _ Hh1 _ _ Hchild) as (x & Hx & _).
    apply kbind_ok in Hs as (u' & s2 & Hbind & Hs). apply kbind_ok in Hs as (rt & s3 & Hcreate & Hs).
    apply kbind_ok in Hs as ([rt' n] & s4 & Hfold & Hs). apply kbind_ok in Hs as (u'' & s5 & Hper & Hs).
    apply kret_ok in Hs as [_ ->].
    assert (t_runs s2 = t_runs s1) as R2 by exact (evolves_ok same_runs _ _ _ _ _ Hbind).
    assert (same_runs s2 s3) as R3 by (eapply evolves_ok; [|exact Hcreate]; evolve_op).
    assert (same_runs s3 s4) as R4 by (eapply evolves_ok; [|exact Hfold]; evolve_op).
    apply create_run_child in Hcreate as [Hch Hrid]. apply scheduled_child in Hfold as [Hch' Hrid']. cbn in Hch', Hrid'.
    destruct (persist_new _ _ _ _ Hper) as (rec' & Hrec' & Hcc).
    + unfold run_record_of. rewrite R4, R3, R2, R1, Hrid', Hrid. apply find_first_none, List.Forall_forall.
      intros y Hy. apply String.eqb_neq. intros E. apply Hn. rewrite <- E. by apply in_map.
    + rewrite Hrid', Hrid in Hrec'. rewrite Hrec in Hrec'. injection Hrec' as <-. rewrite Hcc, Hch', Hch. cbn in Hx |- *. by rewrite Hx.
Qed.

Lemma exec_supplied k c op s :
  consistent s -> consistent (exec k c op s) -> supplied s -> supplied (exec k c op s).
Proof.
  intros Hc Hc' Hs. pose proof (exec_kept k c op s) as Hk. pose proof (exec_history k c op s) as Hh.
  destruct op; try (apply (supplied_step _ _ _ Hc Hc' Hh Hk Hs); by intros ? ? (? & [] & _)).
  cbn [exec] in *. unfold after in *. destruct (start_run k c request s) as [[r|e] s'] eqn:E;
    [exact (start_supplies k c request s r s' Hc Hc' Hs E)|].
  unfold start_run, transaction in E.
  match type of E with context [let (_, _) := ?m s in _] => destruct (m s) as [[?|?] ?] end; [discriminate|].
  by injection E as _ <-.
Qed.

Lemma reachable_supplied s : reachable s -> small s -> supplied s.
Proof.
  induction 1 as [|k c op s Hr IH]; intros Hs; [by intros run_id row|].
  pose proof (history_small _ _ (exec_history k c op s) Hs) as Hs0.
  apply exec_supplied; [by apply reachable_INV| |by apply IH].
  apply reachable_INV; [|done]. by constructor.
Qed.
End Started.

(** ** A step that may run is granted *)

Lemma kbind_run {A B} (m : M A) (k : A -> M B) s a s1 : m s = (Ok a, s1) -> kbind m k s = k a s1.
Proof. intros E. unfold kbind. by rewrite E. Qed.

(** Every remit row reads back; the types of the fields see to that, as a row holds what was
    in range when it was written. *)
Definition remits_readable (s : Store) : Prop := Forall (fun r => is_ok (remit_from_row r) = true) (t_remits s).

Section Serve.
Context `{FloatFormat, Sha256, JsonPrint, Crypto, JsonText, Regex, UnicodeTables, F64Display}.

Lemma get_step_reads n rt s id : ready n rt s -> find_step id (rt_state rt) <> None ->
  exists row, get_step (rs_run_id (rt_state rt)) id s = Ok (Some row).
Proof.
  intros [_ _ Hrows Hread] Hf. unfold get_step, query_opt.
  destruct (find_first _ _) as [x|] eqn:E.
  - apply find_first_some in E as [Hin Hx]. rewrite List.Forall_forall in Hread.
    unfold is_step in Hx. apply andb_true_iff in Hx as [Hr%String.eqb_eq _].
    specialize (Hread x ltac:(by apply step_rows_in)). unfold rmap. destruct (step_row_from_row x); [by eexists | discriminate].
  - exfalso. destruct (find_step id (rt_state rt)) as [st|] eqn:Es; [|done].
    apply find_first_some in Es as [Hin Hid%String.eqb_eq].
    specialize (Hrows (st_id st) ltac:(by apply in_map)). apply in_map_iff in Hrows as (x & Ex & [Hx Hr]%step_rows_in).
    apply find_first_none in E. rewrite List.Forall_forall in E. specialize (E x Hx). unfold is_step in E.
    by rewrite Hr, Ex, Hid, !String.eqb_refl in E.
Qed.

Lemma child_reads s row : has_supply s row -> remits_readable s ->
  exists child, get_remit (row_child_remit_id row) s = Ok (Some child).
Proof.
  intros [_ Hr] Hread. unfold get_remit, query_opt. unfold remit_row in Hr. destruct (find_first _ _) as [r|] eqn:E; [|done].
  apply find_first_some in E as [Hin _]. unfold remits_readable in Hread. rewrite List.Forall_forall in Hread. specialize (Hread r Hin).
  unfold rmap. destruct (remit_from_row r); [by eexists | discriminate].
Qed.

Lemma log_reads n rt s : 0 <= n -> ready n rt s -> exists evs, all_events (rs_run_id (rt_state rt)) s = Ok evs.
Proof.
  intros Hn [Hroom Htx _ _]. destruct (tx_run _ _ Htx) as (evs & st & Hl & _). exists evs.
  eapply all_events_log; [by eapply room_small | exact Hl].
Qed.

Lemma total_grant c request ttl run_id id s row :
  settled 1 s -> supplied s -> remits_readable s -> require_run run_id s = Ok row ->
  find_step id (row_state row) <> None -> get_lease (new c 0 "lse") s = None ->
  exists g s', grant c request ttl run_id id s = (Ok g, s').
Proof.
  intros [Hc Hroom] Hsup Hread Hrow Hstep Hfresh.
  destruct (load_ready 1 (c_now c) run_id s Hc Hroom (loaded_known _ _ _ Hrow)) as (rt & Hload & Hrd & Hrid & Hreq).
  rewrite Hrow in Hreq. injection Hreq as ->. change (row_state (rt_run rt)) with (rt_state rt) in Hstep.
  destruct (get_step_reads _ _ _ _ Hrd Hstep) as (step_row & Hget). rewrite Hrid in Hget.
  pose proof (Hsup _ _ Hrow) as Hsu. destruct (child_reads _ _ Hsu Hread) as (child & Hchild). destruct Hsu as [Hb _].
  destruct (find_step id (rt_state rt)) as [step|] eqn:Es; [|done].
  change (row_state (rt_run rt)) with (rt_state rt) in Hb. destruct (get_bundle _ s) as [b|] eqn:Eb; [|done].
  unfold grant. rewrite (kbind_run _ _ _ _ _ Hload). rewrite Es. cbn [ksome klift ok_or].
  rewrite (kbind_run _ _ s step s) by done.
  rewrite (kbind_run _ _ s (Some step_row) s) by (unfold kread; by rewrite Hget).
  rewrite (kbind_run _ _ s step_row s) by done. rewrite (kbind_run kget _ s s s) by done. rewrite Eb.
  rewrite (kbind_run _ _ s b s) by done.
  rewrite (kbind_run _ _ s (Some child) s) by (unfold kread; by rewrite Hchild). rewrite (kbind_run _ _ s child s) by done.
  cbv zeta.
  match goal with |- context [append rt Act.kernel ?p] => destruct (total_append 0 rt Act.kernel p ltac:(lia)
    ltac:(apply u32_add_ok) ltac:(by split; [apply u32_add_ok|]) s Hrd) as (rt1 & s1 & Ha & Hrd1 & Hid1 & _) end.
  rewrite (kbind_run _ _ _ _ _ Ha). pose proof (append_leases _ _ _ _ _ _ Ha) as Hl1.
  match goal with |- context [insert_lease ?l] => set (lrow := l) end.
  assert (insert_lease lrow s1 = (Ok tt, with_leases (t_leases s1 ++ [lrow]) s1)) as Hins.
  { unfold insert_lease. rewrite Hl1. destruct (any _ _) eqn:E; [|done]. apply any_true in E as (x & Hin & Hx).
    unfold get_lease in Hfresh. apply find_first_none in Hfresh. rewrite List.Forall_forall in Hfresh.
    specialize (Hfresh x Hin). change (is_lease (new c 0 "lse") x = true) in Hx. congruence. }
  rewrite (kbind_run _ _ _ _ _ Hins). set (s2 := with_leases _ s1).
  assert (ready 0 rt1 s2) as Hrd2 by (eapply (ready_core 0 rt1 s1); [|done]; by repeat split).
  rewrite (kbind_run kget _ s2 s2 s2) by done. destruct (log_reads 0 rt1 s2 ltac:(lia) Hrd2) as (evs & Hevs).
  rewrite Hid1, Hrid in Hevs.
  match goal with |- context [kread (step_events ?r ?i ?ks)] =>
    assert (exists l, step_events r i ks s2 = Ok l) as (prior & Hprior)
      by (unfold step_events; rewrite Hevs; cbn [rbind]; eauto) end.
  rewrite (kbind_run _ _ s2 prior s2) by (unfold kread; by rewrite Hprior).
  destruct (total_persist 0 rt1 s2 Hrd2) as (u & s3 & Hper & _). rewrite (kbind_run _ _ _ _ _ Hper).
  by do 2 eexists.
Qed.

Lemma filter_none {A} (p : A -> bool) l : (forall x, In x l -> p x = false) -> List.filter p l = [].
Proof. induction l as [|x l IH]; intros Hp; [done|]. cbn. rewrite Hp by by left. apply IH. intros y Hy. apply Hp. by right. Qed.

(** A run with a log has a row. *)
Lemma logged_known s run_id st : consistent s -> logged s run_id st -> known s run_id.
Proof.
  intros Hc (evs & He & Hf). destruct (in_dec String.string_dec run_id (map rr_run_id (t_runs s))) as [|Hn]; [done|]. exfalso.
  unfold all_events, events_from in He.
  match type of He with context [List.filter ?p (t_events s)] => assert (List.filter p (t_events s) = []) as E end.
  { apply filter_none. intros e Hin. apply andb_false_iff. left. apply String.eqb_neq. intros <-. apply Hn.
    pose proof (co_events _ Hc) as Hev. rewrite List.Forall_forall in Hev. by apply Hev. }
  rewrite E in He. injection He as <-. discriminate.
Qed.

(** What [pick_runnable] picks is a step of a run that may run. *)
Lemma picked_may_run kinds now s run_id id :
  consistent s -> small s -> pick_runnable kinds now s = Some (run_id, id) ->
  exists row st step, require_run run_id s = Ok row /\ row_state row = norm_state st /\ logged s run_id st /\
    may_run kinds now st step /\ st_id step = id.
Proof.
  intros Hc Hs (r & x & Hr & Hx & Hrun & Hxr & Hxs)%pick_in.
  assert (rr_run_id r = run_id) as Hrid.
  { unfold runnable in Hrun. rewrite !andb_true_iff in Hrun.
    destruct Hrun as ((((((E & _) & _) & _) & _) & _) & _). apply String.eqb_eq in E. congruence. }
  destruct (run_logged _ _ Hc Hs Hr) as (st & Hlog & Hm & Hsh & _).
  destruct (shows_row _ _ _ x Hsh) as (step & def & Hin & ->); [apply step_rows_in; split; [done | congruence]|].
  apply (runnable_spec _ _ _ _ _ _ _ Hm Hsh Hin) in Hrun.
  destruct (get_run_row s r Hc Hr) as (row & Hget & _).
  assert (require_run (rr_run_id r) s = Ok row) as Hrow by (unfold require_run; by rewrite Hget).
  destruct (loaded_logged _ _ _ Hc Hs Hrow) as (st2 & Hlog2 & Hst2). rewrite (logged_unique _ _ _ _ Hlog2 Hlog) in Hst2.
  rewrite <- Hrid. exists row, st, step. auto.
Qed.

Lemma may_run_picked kinds now s run_id st step :
  consistent s -> small s -> logged s run_id st -> may_run kinds now st step -> pick_runnable kinds now s <> None.
Proof.
  intros Hc Hs Hlog Hmay Hp. pose proof (logged_known _ _ _ Hc Hlog) as (r & <- & Hr)%in_map_iff.
  destruct (run_logged _ _ Hc Hs Hr) as (st' & Hlog' & Hm & Hsh & _). rewrite (logged_unique _ _ _ _ Hlog' Hlog) in *.
  destruct (shows_step _ _ _ step Hsh (mr_step _ _ _ _ Hmay)) as [def Hd].
  pose proof Hd as [Hd' _]%step_rows_in. pose proof (pick_none _ _ _ _ _ Hp Hr Hd') as Hno.
  apply (runnable_spec _ _ _ _ _ _ def Hm Hsh (mr_step _ _ _ _ Hmay)) in Hmay. congruence.
Qed.

End Serve.

(** ** Witness *)

Import Demo.

Lemma remits_readable_b s : forallb (fun r => is_ok (remit_from_row r)) (t_remits s) = true -> remits_readable s.
Proof. intros Hb. rewrite forallb_forall in Hb. by apply List.Forall_forall. Qed.

Definition some_work (kinds : list string) (now : Z) (s : Store) : bool :=
  match pick_runnable kinds now s with Some _ => true | None => false end.

Lemma some_work_may_run kinds now s : consistent s -> small s -> some_work kinds now s = true ->
  exists run_id st step, logged s run_id st /\ may_run kinds now st step.
Proof.
  intros Hc Hs. unfold some_work. destruct (pick_runnable kinds now s) as [[rid id]|] eqn:E; [|discriminate]. intros _.
  destruct (picked_may_run _ _ _ _ _ Hc Hs E) as (_ & st & step & _ & _ & Hlog & Hmay & _). eauto.
Qed.

