(* ===== verification/Turns.v ===== *)
(** * Whose turn it is

    The part of a run's state that decides what happens next, as a machine of its own: the
    status, whether the run is being abandoned, and for each step its state and lease.  The
    fold refines it ([apply_view]).  [live] says that a run which is not being abandoned is
    never stuck: its steps take turns in order; while it runs, the step whose turn it is waits
    for a worker or is held under an active lease; while it is parked, that step waits for a
    human.  The transitions of the kernel keep it. *)

From stdpp Require Import relations.
From S2P Require Import Prelude Text F64 Json Canonical Payloads PayloadLaws Events Fold RunJson FoldSpec.
From Stdlib Require Import Sorting.Sorted.

Local Open Scope string_scope.
Local Open Scope list_scope.
Local Open Scope Z_scope.

(** ** The machine *)

Record Card := {
  cd_id : string; cd_index : Z; cd_kind : string; cd_state : StepStatus; cd_lease : option string;
  cd_output : option json }.

Record View := { v_status : RunStatus; v_reason : option string; v_abandoning : bool; v_cards : list Card }.

Definition card (x : StepState) : Card :=
  {| cd_id := st_id x; cd_index := st_index x; cd_kind := st_kind x; cd_state := st_state x;
     cd_lease := option_map li_lease_id (st_lease x); cd_output := drop_null (st_output x) |}.

(** Why a run is parked is part of the view while it is. *)
Definition view (s : RunState) : View :=
  {| v_status := rs_state s; v_reason := match rs_state s with RParked => rs_park_reason s | _ => None end;
     v_abandoning := rs_abandoning s; v_cards := map card (rs_steps s) |}.

(** A card put into a state, under a lease or none. *)
Definition put (state : StepStatus) (lease : option string) (x : Card) : Card :=
  {| cd_id := cd_id x; cd_index := cd_index x; cd_kind := cd_kind x; cd_state := state; cd_lease := lease;
     cd_output := cd_output x |}.

(** A card that is done, with its output; an output that is null is stored as none. *)
Definition finish_card (output : json) (x : Card) : Card :=
  {| cd_id := cd_id x; cd_index := cd_index x; cd_kind := cd_kind x; cd_state := SCompleted; cd_lease := None;
     cd_output := drop_null (Some output) |}.

Definition is_card (id : string) (x : Card) : bool := String.eqb (cd_id x) id.

Definition set_card (id : string) (f : Card -> Card) (v : View) : View :=
  {| v_status := v_status v; v_reason := v_reason v; v_abandoning := v_abandoning v;
     v_cards := update_first (is_card id) f (v_cards v) |}.

Definition set_status (st : RunStatus) (v : View) : View :=
  {| v_status := st; v_reason := None; v_abandoning := v_abandoning v; v_cards := v_cards v |}.

Definition set_parked (reason : string) (v : View) : View :=
  {| v_status := RParked; v_reason := Some reason; v_abandoning := v_abandoning v; v_cards := v_cards v |}.

Definition new_card (p : StepScheduled) : Card :=
  {| cd_id := ss_step p; cd_index := ss_index p; cd_kind := ss_kind p; cd_state := SScheduled; cd_lease := None;
     cd_output := None |}.

Definition schedule_card (p : StepScheduled) (v : View) : View :=
  let v := if any (is_card (ss_step p)) (v_cards v) then set_card (ss_step p) (put SScheduled None) v
           else {| v_status := v_status v; v_reason := v_reason v; v_abandoning := v_abandoning v;
                   v_cards := v_cards v ++ [new_card p] |} in
  match v_status v with RCreated => set_status RRunning v | _ => v end.

(** The payloads whose effect the view determines. *)
Definition viewed (p : payload) : bool :=
  match p with
  | PRunCreated _ | PStepCompleted _ | PRunAbandoned _ | PCompensationScheduled _ | PCompensationCompleted _ => false
  | _ => true
  end.

Definition effect (p : payload) (v : View) : View :=
  match p with
  | PStepScheduled p => schedule_card p v
  | PStepLeased p => set_card (sl_step p) (put SLeased (Some (sl_lease_id p))) v
  | PStepLeaseExpired p => set_card (sle_step p) (put SScheduled None) v
  | PStepFailed p => set_card (sf_step p) (put SFailed None) v
  | PStepRetryScheduled p => set_card (sr_step p) (put SScheduled None) v
  | PStepQuarantined p => set_card (sq_step p) (put SQuarantined None) v
  | PStepWaitingApproval p => set_card (sw_step p) (put SWaitingApproval None) v
  | PRunParked p => set_parked (rp_reason p) v
  | PRunResumed _ => set_status RRunning v
  | PRunCompleted _ => set_status RCompleted v
  | PRunFailed _ => set_status RFailed v
  | _ => v
  end.

(** ** The fold refines it *)

Lemma map_update_first_card id f g l :
  (forall x, card (f x) = g (card x)) ->
  map card (update_first (fun st => String.eqb (st_id st) id) f l) = update_first (is_card id) g (map card l).
Proof.
  intros Hf. induction l as [|x l IH]; [done|]. cbn. unfold is_card at 1. cbn. destruct (String.eqb _ _); cbn; [by rewrite Hf | by rewrite IH].
Qed.

Lemma view_update id f g s : (forall x, card (f x) = g (card x)) -> view (update_step id f s) = set_card id g (view s).
Proof. intros Hf. unfold view, set_card, update_step. cbn. by rewrite (map_update_first_card id f g). Qed.

Lemma find_step_card id s : any (is_card id) (v_cards (view s)) = match find_step id s with Some _ => true | None => false end.
Proof.
  unfold find_step, view. cbn. induction (rs_steps s) as [|x l IH]; [done|]. cbn. unfold is_card at 1. cbn.
  by destruct (String.eqb _ _).
Qed.

(** A card that keeps everything is left as it is. *)
Lemma update_first_same {A} (p : A -> bool) (f : A -> A) l : (forall x, f x = x) -> update_first p f l = l.
Proof. intros Hf. induction l as [|x l IH]; [done|]. cbn. destruct (p x); [by rewrite Hf | by rewrite IH]. Qed.

Lemma apply_view e p s s' : viewed p = true -> apply_payload e p s = Some s' -> view s' = effect p (view s).
Proof.
  intros Hv Ha. destruct p; try discriminate Hv; cbn [apply_payload] in Ha; injection Ha as <-; cbn [effect];
    try (by apply view_update); try done.
  - unfold schedule_card. rewrite find_step_card. destruct (find_step (ss_step p) s).
    + rewrite <- (view_update _ reschedule) by done. unfold is_status. case_bool_decide as E.
      * unfold view at 2. cbn [v_status]. by rewrite E.
      * unfold view at 2. cbn [v_status]. destruct (rs_state _); done.
    + cbn. unfold is_status. cbn. case_bool_decide as E; unfold view, set_status; cbn; rewrite map_app, ?E; [done|].
      destruct (rs_state s); done.
  - unfold view, update_step. cbn. f_equal. induction (rs_steps s) as [|x l IH]; [done|].
    cbn. destruct (String.eqb _ _); cbn; [done | by rewrite IH].
  - destruct (rs_pending_approval s); [|done]. by destruct (String.eqb _ _).
  - by destruct (String.eqb _ _).
Qed.

Lemma view_last_seq n s : view (set_last_seq n s) = view s.
Proof. done. Qed.

Lemma card_norm x : card (norm_step x) = card x.
Proof. unfold card. cbn. by rewrite drop_null_idem. Qed.

(** States that agree once written and read back have the same view. *)
Lemma view_sim s t : sim s t -> view s = view t.
Proof.
  intros H. unfold view. rewrite (sim_state _ _ H), (sim_abandoning _ _ H), (sim_park_reason _ _ H). f_equal.
  assert (forall l, map card (map norm_step l) = map card l) as E by (intros l; rewrite map_map; apply map_ext, card_norm).
  by rewrite <- (E (rs_steps s)), (sim_steps _ _ H), E.
Qed.

(** ** The desk of a run *)

(** What the kernel keeps of a run besides its log: the approvals that wait for a human and the
    leases that are active, each with the step it is about. *)
Record Desk := { d_view : View; d_pending : list (string * string); d_held : list (string * string) }.

Definition drop_id (id : string) (l : list (string * string)) : list (string * string) :=
  List.filter (fun p => negb (String.eqb p.1 id)) l.

Definition work_kinds : list string := ["model"; "tool"; "action"].

Definition card_done (x : Card) : bool := bool_decide (cd_state x = SCompleted).
Definition card_comp (x : Card) : bool := String.eqb (cd_kind x) "compensation".
Definition finished (v : View) : bool :=
  negb (any (fun x => negb (card_done x)) (List.filter (fun x => negb (card_comp x)) (v_cards v))).

(** The step is worked on under the lease, which is active. *)
Record at_work (d : Desk) (x : Card) (lease : string) : Prop := {
  aw_card : In x (v_cards (d_view d));
  aw_state : cd_state x = SLeased;
  aw_lease : cd_lease x = Some lease;
  aw_held : In (lease, cd_id x) (d_held d) }.

Definition wake (x : Card) : Card :=
  match cd_state x with SFailed | SQuarantined => put SScheduled None x | _ => x end.
Definition wake_all (v : View) : View :=
  {| v_status := v_status v; v_reason := v_reason v; v_abandoning := v_abandoning v; v_cards := map wake (v_cards v) |}.

(** A step was completed: the run ends, goes on, or parks because its budget is spent. *)
Definition completes (v v' : View) : Prop :=
  if finished v then v' = set_status RCompleted v else v' = v \/ v' = set_parked "budget" v.

(** Why a run is parked that waits for no approval, by the state of the step whose turn it is. *)
Definition halted (reason : option string) (state : StepStatus) : Prop :=
  match state with
  | SScheduled => reason = Some "budget"
  | SFailed => reason = Some "refusal"
  | SQuarantined => reason = Some "quarantine" \/ reason = Some "connector_quarantined"
  | _ => False
  end.

(** What requests do to the desk of a run.  Once a run is given up nothing more is said of it. *)
Inductive desk_step (d : Desk) : Desk -> Prop :=
| desk_given_up d' : v_abandoning (d_view d') = true -> desk_step d d'
| desk_lease x i :
    v_status (d_view d) = RRunning -> In x (v_cards (d_view d)) -> cd_state x = SScheduled ->
    (forall y, In y (v_cards (d_view d)) -> card_comp y = card_comp x -> cd_index y < cd_index x ->
       cd_state y = SCompleted) ->
    desk_step d {| d_view := set_card (cd_id x) (put SLeased (Some i)) (d_view d);
                   d_pending := d_pending d; d_held := d_held d ++ [(i, cd_id x)] |}
| desk_complete x i output v :
    at_work d x i -> completes (set_card (cd_id x) (finish_card output) (d_view d)) v ->
    desk_step d {| d_view := v; d_pending := d_pending d; d_held := drop_id i (d_held d) |}
| desk_again x i :
    at_work d x i ->
    desk_step d {| d_view := set_card (cd_id x) (put SScheduled None) (d_view d);
                   d_pending := d_pending d; d_held := drop_id i (d_held d) |}
| desk_fail x i state reason :
    at_work d x i -> state = SFailed \/ state = SQuarantined -> halted (Some reason) state ->
    desk_step d {| d_view := set_parked reason (set_card (cd_id x) (put state None) (d_view d));
                   d_pending := d_pending d; d_held := drop_id i (d_held d) |}
| desk_ask x i a :
    at_work d x i ->
    desk_step d {| d_view := set_parked "approval" (set_card (cd_id x) (put SWaitingApproval None) (d_view d));
                   d_pending := d_pending d ++ [(a, cd_id x)]; d_held := drop_id i (d_held d) |}
| desk_release i :
    (forall x, In x (v_cards (d_view d)) -> In (i, cd_id x) (d_held d) -> cd_lease x <> Some i) ->
    desk_step d {| d_view := d_view d; d_pending := d_pending d; d_held := drop_id i (d_held d) |}
| desk_approve a id :
    In (a, id) (d_pending d) -> v_status (d_view d) = RParked ->
    desk_step d {| d_view := set_card id (put SScheduled None) (set_status RRunning (d_view d));
                   d_pending := drop_id a (d_pending d); d_held := d_held d |}
| desk_reject a id :
    In (a, id) (d_pending d) ->
    desk_step d {| d_view := set_status RFailed (set_card id (put SFailed None) (d_view d));
                   d_pending := drop_id a (d_pending d); d_held := d_held d |}
| desk_resume :
    v_status (d_view d) = RParked -> d_pending d = [] -> v_reason (d_view d) <> Some "budget" ->
    desk_step d {| d_view := wake_all (set_status RRunning (d_view d));
                   d_pending := d_pending d; d_held := d_held d |}
| desk_unanswered :
    d_pending d <> [] ->
    desk_step d {| d_view := set_parked "human" (d_view d); d_pending := d_pending d; d_held := d_held d |}.

(** The desk of a run that was just started. *)
Record opened (d : Desk) : Prop := {
  op_status : v_status (d_view d) = RRunning;
  op_some : v_cards (d_view d) <> [];
  op_cards : Forall (fun x => cd_state x = SScheduled /\ In (cd_kind x) work_kinds) (v_cards (d_view d));
  op_ids : List.NoDup (map cd_id (v_cards (d_view d)));
  op_order : StronglySorted Z.lt (map cd_index (v_cards (d_view d)));
  op_pending : d_pending d = [] }.

Lemma completes_keeps v v' : completes v v' -> v_abandoning v' = v_abandoning v /\ v_cards v' = v_cards v.
Proof. unfold completes. destruct (finished v); [by intros ->|]. by intros [->| ->]. Qed.

(** ** No run is stuck *)

(** It is the turn of [x]: the steps before it are done, those after it have not begun. *)
Definition turn (l : list Card) (x : Card) : Prop :=
  exists pre post, l = pre ++ x :: post /\ Forall (fun y => cd_state y = SCompleted) pre /\
    Forall (fun y => cd_state y = SScheduled) post /\ cd_state x <> SCompleted.

Record proper (l : list Card) : Prop := {
  pr_kinds : Forall (fun x => In (cd_kind x) work_kinds) l;
  pr_ids : List.NoDup (map cd_id l);
  pr_order : StronglySorted Z.lt (map cd_index l) }.

Definition working (d : Desk) (x : Card) : Prop := exists i, at_work d x i.

Definition live_by_status (d : Desk) : Prop :=
  let l := v_cards (d_view d) in
  match v_status (d_view d) with
  | RRunning => d_pending d = [] /\ exists x, turn l x /\ (cd_state x = SScheduled \/ working d x)
  | RParked => exists x, turn l x /\
      ((exists a, d_pending d = [(a, cd_id x)] /\ cd_state x = SWaitingApproval) \/
       (d_pending d = [] /\ halted (v_reason (d_view d)) (cd_state x)))
  | _ => d_pending d = [] /\ Forall (fun x => cd_state x <> SLeased) l
  end.

Definition live (d : Desk) : Prop :=
  v_abandoning (d_view d) = false -> proper (v_cards (d_view d)) /\ live_by_status d.

(** *** Changing the card whose turn it is *)

Lemma update_at_turn f (pre post : list Card) x :
  List.NoDup (map cd_id (pre ++ x :: post)) ->
  update_first (is_card (cd_id x)) f (pre ++ x :: post) = pre ++ f x :: post.
Proof.
  induction pre as [|y pre IH]; cbn; intros Hn.
  - unfold is_card. by rewrite String.eqb_refl.
  - inversion Hn as [|? ? Hni Hn']; subst. unfold is_card at 1. destruct (String.eqb_spec (cd_id y) (cd_id x)) as [E|].
    + exfalso. apply Hni. rewrite E, map_app, in_app_iff. right. by left.
    + by rewrite IH.
Qed.

Lemma map_at {A B} (g : A -> B) f (pre post : list A) x : g (f x) = g x -> map g (pre ++ f x :: post) = map g (pre ++ x :: post).
Proof. intros E. rewrite !map_app. cbn. by rewrite E. Qed.

(** A change that leaves a card where it is. *)
Definition in_place (f : Card -> Card) : Prop :=
  forall x, cd_id (f x) = cd_id x /\ cd_index (f x) = cd_index x /\ cd_kind (f x) = cd_kind x.

Lemma put_in_place st i : in_place (put st i).
Proof. done. Qed.

Lemma finish_in_place output : in_place (finish_card output).
Proof. done. Qed.
#[local] Hint Resolve put_in_place finish_in_place : core.

Lemma proper_at f pre post x : in_place f -> proper (pre ++ x :: post) -> proper (pre ++ f x :: post).
Proof.
  intros Hf [Hk Hn Hs]. destruct (Hf x) as (Ei & En & Ek).
  split; [|by rewrite (map_at cd_id f)|by rewrite (map_at cd_index f)].
  apply Forall_app in Hk as [Hk1 Hk2]. apply Forall_app. split; [done|]. inversion Hk2; subst. constructor; [by rewrite Ek | done].
Qed.

Lemma turn_at st i pre post x :
  Forall (fun y => cd_state y = SCompleted) pre -> Forall (fun y => cd_state y = SScheduled) post -> st <> SCompleted ->
  turn (pre ++ put st i x :: post) (put st i x).
Proof. intros Hp Hq Hs. exists pre, post. auto. Qed.

Lemma turn_next pre post x y :
  cd_state x = SCompleted ->
  Forall (fun y => cd_state y = SCompleted) pre -> Forall (fun y => cd_state y = SScheduled) (y :: post) ->
  turn (pre ++ x :: y :: post) y.
Proof.
  intros Hx Hp Hq. inversion Hq as [|? ? Hy Hq']; subst. exists (pre ++ [x]), post.
  split; [by rewrite <- app_assoc|]. split; [apply Forall_app; split; [done|]; by constructor|]. split; [done|]. by rewrite Hy.
Qed.

(** Where a card that is neither done nor waiting its turn stands. *)
Lemma turn_card l x y : turn l y -> In x l -> cd_state x <> SCompleted -> cd_state x <> SScheduled -> x = y.
Proof.
  intros (pre & post & -> & Hp & Hq & _) Hin Hc Hs. rewrite in_app_iff in Hin. rewrite List.Forall_forall in Hp, Hq.
  destruct Hin as [Hin|[->|Hin]]; [|done|]; exfalso; [by apply Hc, Hp | by apply Hs, Hq].
Qed.

(** The card a lease is on is the one whose turn it is, and the run is running. *)
Lemma live_worker d x :
  live d -> v_abandoning (d_view d) = false -> In x (v_cards (d_view d)) -> cd_state x = SLeased ->
  v_status (d_view d) = RRunning /\ d_pending d = [] /\ exists pre post,
    v_cards (d_view d) = pre ++ x :: post /\ proper (pre ++ x :: post) /\
    Forall (fun y => cd_state y = SCompleted) pre /\ Forall (fun y => cd_state y = SScheduled) post.
Proof.
  intros Hl Ha Hin Hx. destruct (Hl Ha) as [Hp Hs]. unfold live_by_status in Hs.
  destruct (v_status (d_view d)) eqn:E.
  - destruct Hs as [_ Hs]. rewrite List.Forall_forall in Hs. by specialize (Hs x Hin).
  - destruct Hs as [Hpe (y & Ht & _)]. assert (x = y) as -> by (eapply turn_card; [exact Ht | done | by rewrite Hx..]).
    split; [done|]. split; [done|]. destruct Ht as (pre & post & El & H1 & H2 & _). rewrite El in Hp. eauto 8.
  - destruct Hs as (y & Ht & Hs). assert (x = y) as -> by (eapply turn_card; [exact Ht | done | by rewrite Hx..]).
    exfalso. destruct Hs as [(a & _ & Hw)|[_ Hw]]; [congruence|]. by rewrite Hx in Hw.
  - destruct Hs as [_ Hs]. rewrite List.Forall_forall in Hs. by specialize (Hs x Hin).
  - destruct Hs as [_ Hs]. rewrite List.Forall_forall in Hs. by specialize (Hs x Hin).
  - destruct Hs as [_ Hs]. rewrite List.Forall_forall in Hs. by specialize (Hs x Hin).
Qed.

(** What follows from [at_work] on a live desk: where the card is and what changing it gives. *)
Lemma live_at_work d x i :
  live d -> v_abandoning (d_view d) = false -> at_work d x i ->
  v_status (d_view d) = RRunning /\ d_pending d = [] /\ exists pre post,
    Forall (fun y => cd_state y = SCompleted) pre /\ Forall (fun y => cd_state y = SScheduled) post /\
    forall f, in_place f -> proper (pre ++ f x :: post) /\
      v_cards (set_card (cd_id x) f (d_view d)) = pre ++ f x :: post.
Proof.
  intros Hl Ha [Hin Hx _ _]. destruct (live_worker d x Hl Ha Hin Hx) as (Hs & Hp & pre & post & El & Hpr & H1 & H2).
  split; [done|]. split; [done|]. exists pre, post. split; [done|]. split; [done|]. intros f Hf. split; [by apply proper_at|].
  cbn. rewrite El. apply update_at_turn. apply Hpr.
Qed.

Lemma finished_at pre post x v :
  cd_state x = SCompleted -> v_cards v = pre ++ x :: post -> Forall (fun y => cd_state y = SCompleted) pre ->
  Forall (fun y => cd_state y = SScheduled) post -> proper (pre ++ x :: post) ->
  finished v = match post with [] => true | _ => false end.
Proof.
  intros Hx E H1 H2 [Hk _ _]. unfold finished. rewrite E.
  assert (List.filter (fun x => negb (card_comp x)) (pre ++ x :: post) = pre ++ x :: post) as ->.
  { clear Hx E H1 H2. induction Hk as [|y l Hy Hk IH]; [done|]. cbn. unfold card_comp at 1.
    destruct Hy as [<-|[<-|[<-|[]]]]; cbn; by rewrite IH. }
  destruct post as [|y post].
  - apply negb_true_iff, not_true_iff_false. intros (z & Hin & Hz)%any_true. unfold card_done in Hz.
    apply negb_true_iff, bool_decide_eq_false in Hz. apply Hz. rewrite List.Forall_forall in H1.
    apply in_app_iff in Hin as [Hin|[<-|[]]]; [by apply H1 | done].
  - apply negb_false_iff, any_true. exists y. split; [rewrite in_app_iff; right; right; by left|].
    inversion H2 as [|? ? Hy]; subst. unfold card_done. by rewrite Hy.
Qed.

Lemma complete_live d x i output v :
  live d -> v_abandoning (d_view d) = false -> at_work d x i ->
  completes (set_card (cd_id x) (finish_card output) (d_view d)) v ->
  live {| d_view := v; d_pending := d_pending d; d_held := drop_id i (d_held d) |}.
Proof.
  intros Hl Ha Hw Hs _. destruct (live_at_work d x i Hl Ha Hw) as (Hr & Hp & pre & post & H1 & H2 & Hu).
  destruct (Hu (finish_card output) (finish_in_place _)) as [Hpr E]. unfold completes in Hs.
  rewrite (finished_at pre post (finish_card output x) _ eq_refl E H1 H2 Hpr) in Hs.
  set (w := set_card (cd_id x) (finish_card output) (d_view d)) in *.
  assert (v_cards v = v_cards w) as Ev by (unfold w in *; destruct post; [by rewrite Hs | by destruct Hs as [->| ->]]).
  cbn [d_view]. rewrite Ev, E. split; [done|]. unfold live_by_status. cbn [d_view d_pending]. rewrite Ev, E, Hp.
  destruct post as [|y post].
  - subst v. split; [done|]. apply Forall_app. split; [|by repeat constructor].
    eapply List.Forall_impl; [|exact H1]. cbn. by intros y ->.
  - pose proof (turn_next pre post (finish_card output x) y eq_refl H1 H2) as Ht. inversion H2 as [|? ? Hy]; subst. destruct Hs as [->| ->].
    + change (v_status w) with (v_status (d_view d)). rewrite Hr. split; [done|]. exists y. auto.
    + exists y. split; [done|]. right. split; [done|]. by rewrite Hy.
Qed.

(** The card goes back to the schedule, or stops the run. *)
Lemma again_live d x i :
  live d -> v_abandoning (d_view d) = false -> at_work d x i ->
  live {| d_view := set_card (cd_id x) (put SScheduled None) (d_view d);
          d_pending := d_pending d; d_held := drop_id i (d_held d) |}.
Proof.
  intros Hl Ha Hw _. destruct (live_at_work d x i Hl Ha Hw) as (Hr & Hp & pre & post & H1 & H2 & Hu).
  destruct (Hu (put SScheduled None) (put_in_place _ _)) as [Hpr E]. cbn [d_view]. rewrite E. split; [done|].
  unfold live_by_status. cbn [d_view]. rewrite E. cbn. rewrite Hr. split; [done|].
  exists (put SScheduled None x). split; [by apply turn_at | by left].
Qed.

Lemma stop_live d x i st reason pending :
  live d -> v_abandoning (d_view d) = false -> at_work d x i ->
  (pending = [] /\ In st [SFailed; SQuarantined] /\ halted (Some reason) st) \/
  ((exists a, pending = [(a, cd_id x)]) /\ st = SWaitingApproval) ->
  live {| d_view := set_parked reason (set_card (cd_id x) (put st None) (d_view d));
          d_pending := pending; d_held := drop_id i (d_held d) |}.
Proof.
  intros Hl Ha Hw Hc _. destruct (live_at_work d x i Hl Ha Hw) as (Hr & Hp & pre & post & H1 & H2 & Hu).
  destruct (Hu (put st None) (put_in_place _ _)) as [Hpr E]. cbn [d_view set_parked v_cards]. rewrite E. split; [done|].
  unfold live_by_status. cbn [d_view set_parked v_cards v_status v_reason d_pending]. rewrite E. exists (put st None x). cbn.
  destruct Hc as [(-> & Hin & Hh)|[[a ->] ->]].
  - split; [apply turn_at; try done; cbn in Hin; intuition (subst; done)|]. by right.
  - split; [by apply turn_at|]. left. eauto.
Qed.

Lemma lease_live d x i :
  live d -> v_abandoning (d_view d) = false -> v_status (d_view d) = RRunning -> In x (v_cards (d_view d)) ->
  cd_state x = SScheduled ->
  (forall y, In y (v_cards (d_view d)) -> card_comp y = card_comp x -> cd_index y < cd_index x -> cd_state y = SCompleted) ->
  live {| d_view := set_card (cd_id x) (put SLeased (Some i)) (d_view d);
          d_pending := d_pending d; d_held := d_held d ++ [(i, cd_id x)] |}.
Proof.
  intros Hl Ha Hr Hin Hx Hord _. destruct (Hl Ha) as [Hpr Hs]. unfold live_by_status in Hs. rewrite Hr in Hs.
  destruct Hs as [Hp (y & (pre & post & El & H1 & H2 & Hy) & _)].
  assert (x = y) as ->.
  { rewrite El in Hin. rewrite in_app_iff in Hin. rewrite List.Forall_forall in H1, H2.
    destruct Hin as [Hin|[->|Hin]]; [by rewrite (H1 x Hin) in Hx | done|]. exfalso. apply Hy, Hord.
    - rewrite El, in_app_iff. right. by left.
    - destruct Hpr as [Hk _ _]. rewrite El, List.Forall_forall in Hk. unfold card_comp.
      assert (forall z, In z (pre ++ y :: post) -> String.eqb (cd_kind z) "compensation" = false) as Hc.
      { intros z Hz. specialize (Hk z Hz). destruct Hk as [<-|[<-|[<-|[]]]]; done. }
      rewrite !Hc; [done|..]; rewrite in_app_iff; right; [by right | by left].
    - destruct Hpr as [_ _ Hso]. rewrite El, map_app in Hso. cbn in Hso.
      assert (StronglySorted Z.lt (cd_index y :: map cd_index post)) as Hs2.
      { clear -Hso. induction (map cd_index pre) as [|a l IH]; [done|]. apply IH. by inversion Hso. }
      inversion Hs2 as [|? ? _ Hf]; subst. rewrite List.Forall_forall in Hf. apply Hf. by apply in_map. }
  rewrite El in Hpr. cbn [d_view]. cbn. rewrite El, update_at_turn by apply Hpr. split; [by apply proper_at|].
  unfold live_by_status. cbn. rewrite El, update_at_turn by apply Hpr. rewrite Hr. split; [done|].
  exists (put SLeased (Some i) y). split; [by apply turn_at|]. right. exists i. split; try done; cbn.
  - rewrite El, update_at_turn by apply Hpr. rewrite in_app_iff. right. by left.
  - rewrite in_app_iff. right. by left.
Qed.

Lemma drop_id_in i j id l : In (j, id) (drop_id i l) <-> In (j, id) l /\ j <> i.
Proof. unfold drop_id. rewrite filter_In, negb_true_iff, String.eqb_neq. done. Qed.

Lemma release_live d i :
  live d -> (forall x, In x (v_cards (d_view d)) -> In (i, cd_id x) (d_held d) -> cd_lease x <> Some i) ->
  live {| d_view := d_view d; d_pending := d_pending d; d_held := drop_id i (d_held d) |}.
Proof.
  intros Hl Hno Ha. destruct (Hl Ha) as [Hpr Hs]. split; [done|]. unfold live_by_status in *. cbn [d_view d_pending] in *.
  destruct (v_status (d_view d)); try done. destruct Hs as [Hp (x & Ht & Hx)]. split; [done|]. exists x. split; [done|].
  destruct Hx as [Hx|(j & [Hin Hst Hle Hheld])]; [by left|]. right. exists j. split; try done. cbn. apply drop_id_in.
  split; [done|]. intros ->. by apply (Hno x).
Qed.

(** A human decides on the card, which is the one that waits. *)
Lemma live_pending d a id :
  live d -> v_abandoning (d_view d) = false -> In (a, id) (d_pending d) ->
  v_status (d_view d) = RParked /\ d_pending d = [(a, id)] /\ exists x pre post,
    Forall (fun y => cd_state y = SCompleted) pre /\ Forall (fun y => cd_state y = SScheduled) post /\
    forall st l, proper (pre ++ put st l x :: post) /\
      update_first (is_card id) (put st l) (v_cards (d_view d)) = pre ++ put st l x :: post.
Proof.
  intros Hl Ha Hin. destruct (Hl Ha) as [Hpr Hs]. unfold live_by_status in Hs.
  destruct (v_status (d_view d)) eqn:E; try (by destruct Hs as [Hp _]; rewrite Hp in Hin).
  destruct Hs as (x & (pre & post & El & H1 & H2 & Hn) & [(b & Hp & Hx)|[Hp _]]); [|by rewrite Hp in Hin].
  rewrite Hp in Hin. destruct Hin as [[= <- <-]|[]]. split; [done|]. split; [done|]. exists x, pre, post.
  split; [done|]. split; [done|]. intros st l. rewrite El in *. split; [by apply proper_at|]. apply update_at_turn. apply Hpr.
Qed.

Lemma drop_only a id : drop_id a [(a, id)] = [].
Proof. unfold drop_id. cbn. by rewrite String.eqb_refl. Qed.

Lemma approve_live d a id :
  live d -> v_abandoning (d_view d) = false -> In (a, id) (d_pending d) ->
  live {| d_view := set_card id (put SScheduled None) (set_status RRunning (d_view d));
          d_pending := drop_id a (d_pending d); d_held := d_held d |}.
Proof.
  intros Hl Ha Hin _. destruct (live_pending d a id Hl Ha Hin) as (Hs & Hp & x & pre & post & H1 & H2 & Hu).
  destruct (Hu SScheduled None) as [Hpr E]. cbn [d_view]. unfold live_by_status. cbn. rewrite E, Hp, drop_only.
  split; [done|]. split; [done|]. exists (put SScheduled None x). split; [by apply turn_at | by left].
Qed.

Lemma reject_live d a id :
  live d -> v_abandoning (d_view d) = false -> In (a, id) (d_pending d) ->
  live {| d_view := set_status RFailed (set_card id (put SFailed None) (d_view d));
          d_pending := drop_id a (d_pending d); d_held := d_held d |}.
Proof.
  intros Hl Ha Hin _. destruct (live_pending d a id Hl Ha Hin) as (Hs & Hp & x & pre & post & H1 & H2 & Hu).
  destruct (Hu SFailed None) as [Hpr E]. cbn [d_view]. unfold live_by_status. cbn. rewrite E, Hp, drop_only.
  split; [done|]. split; [done|]. apply Forall_app. split; [|constructor; [done|]].
  - eapply List.Forall_impl; [|exact H1]. cbn. by intros y ->.
  - eapply List.Forall_impl; [|exact H2]. cbn. by intros y ->.
Qed.

Lemma wake_same l st : st = SCompleted \/ st = SScheduled -> Forall (fun y => cd_state y = st) l -> map wake l = l.
Proof. intros Hs. induction 1 as [|y l Hy _ IH]; [done|]. cbn. rewrite IH. unfold wake. rewrite Hy. by destruct Hs as [->| ->]. Qed.

Lemma resume_live d :
  live d -> v_abandoning (d_view d) = false -> v_status (d_view d) = RParked -> d_pending d = [] ->
  v_reason (d_view d) <> Some "budget" ->
  live {| d_view := wake_all (set_status RRunning (d_view d)); d_pending := d_pending d; d_held := d_held d |}.
Proof.
  intros Hl Ha Hs Hp Hre _. destruct (Hl Ha) as [Hpr Hb]. unfold live_by_status in Hb. rewrite Hs, Hp in Hb.
  destruct Hb as (x & (pre & post & El & H1 & H2 & Hn) & [(a & Hf & _)|[_ Hx]]); [done|].
  assert (map wake (pre ++ x :: post) = pre ++ wake x :: post) as Ew.
  { rewrite map_app. cbn. by rewrite (wake_same pre SCompleted), (wake_same post SScheduled) by auto. }
  assert (wake x = put SScheduled (cd_lease (wake x)) x) as Ex.
  { unfold wake, put. destruct x as [xi xn xk xs xl]; cbn in *. by destruct xs. }
  cbn [d_view]. unfold live_by_status. cbn. rewrite El in *. rewrite Ew, Ex. split; [by apply proper_at|]. split; [done|].
  eexists. split; [by apply turn_at | by left].
Qed.

(** A warning changes nothing but why the run is parked. *)
Lemma unanswered_live d :
  live d -> v_abandoning (d_view d) = false -> d_pending d <> [] ->
  live {| d_view := set_parked "human" (d_view d); d_pending := d_pending d; d_held := d_held d |}.
Proof.
  intros Hl Ha Hp _. destruct (Hl Ha) as [Hpr Hb]. split; [done|].
  assert (exists a id, In (a, id) (d_pending d)) as (a & id & Hin) by (destruct (d_pending d) as [|[a id] l]; [done|]; exists a, id; by left).
  destruct (live_pending d a id Hl Ha Hin) as (Hs & _). unfold live_by_status in *. rewrite Hs in Hb. cbn.
  destruct Hb as (x & Ht & [Hx|[Hf _]]); [|done]. exists x. auto.
Qed.

Lemma live_step d d' : live d -> v_abandoning (d_view d) = false -> desk_step d d' -> live d'.
Proof.
  intros Hl Ha Hs. destruct Hs as [d' Hg|x i Hr Hin Hx Ho|x i out v Hw Hv|x i Hw|x i st re Hw Hst Hre|x i a Hw|i Hno|a id Hin Hp|a id Hin|Hr Hp Hre|Hp].
  - intros Hf. congruence.
  - by apply lease_live.
  - by eapply complete_live.
  - by apply again_live.
  - apply stop_live; [done..|]. left. destruct (live_at_work d x i Hl Ha Hw) as (_ & -> & _). split; [done|].
    split; [|done]. destruct Hst as [->| ->]; cbn; auto.
  - apply stop_live; [done..|]. right. destruct (live_at_work d x i Hl Ha Hw) as (_ & -> & _). cbn. eauto.
  - by apply release_live.
  - by apply approve_live.
  - by apply reject_live.
  - by apply resume_live.
  - by apply unanswered_live.
Qed.

Lemma opened_live d : opened d -> live d.
Proof.
  intros [Hs Hne Hc Hn Ho Hp] _. split.
  - split; [|done..]. eapply List.Forall_impl; [|exact Hc]. by intros x [].
  - unfold live_by_status. rewrite Hs. split; [done|]. destruct (v_cards (d_view d)) as [|x l] eqn:E; [done|].
    inversion Hc as [|? ? [Hx _] Hl]; subst. exists x. split; [|by left]. exists [], l. split; [done|]. split; [constructor|].
    split; [|by rewrite Hx]. eapply List.Forall_impl; [|exact Hl]. by intros y [].
Qed.

Lemma step_abandoning d d' : desk_step d d' -> v_abandoning (d_view d) = true -> v_abandoning (d_view d') = true.
Proof. intros [|?|? ? ? ? _ Hv| | | | | | | |] Ha; try done. cbn. by rewrite (proj1 (completes_keeps _ _ Hv)). Qed.

Lemma live_steps d d' : rtc desk_step d d' -> live d -> live d'.
Proof.
  induction 1 as [|d d1 d2 Hs _ IH]; [done|]. intros Hl. apply IH. destruct (v_abandoning (d_view d)) eqn:E.
  - intros Hf. by rewrite (step_abandoning _ _ Hs E) in Hf.
  - by eapply live_step.
Qed.
