(* ===== verification/Desks.v ===== *)
(** * Every request moves the desks

    The kernel refines the machine of [Turns]: whatever a request does, and whether it succeeds
    or not, each run that is not being given up moves by steps of that machine, and a new run
    starts at its beginning.  So no run is ever stuck. *)

From stdpp Require Import relations.
From S2P Require Import Prelude Text Ids F64 Json Policy Lexer Parser PolicyTools Canonical Time.
From S2P Require Import Errors Keys Remit Payloads PayloadLaws Events Fold RunJson FoldSpec.
From S2P Require Import Template Schema Bundle BundleSpec Store Kernel Scenario Hoare History StoreInv KernelInv.
From S2P Require Import Replay LeaseSpec StepSpec RevokeSpec ActionSpec StartSpec Paging Progress Supply Turns.
From Stdlib Require Import Ascii Sorting.Sorted.

Local Open Scope string_scope.
Local Open Scope list_scope.
Local Open Scope Z_scope.

(** ** The effect of what is written *)

(** The field of a payload that was written and read back. *)
Ltac field_kept Hd :=
  cbn [struct_fields] in Hd; unbind Hd;
  repeat match goal with E : Some _ = Some _ |- _ => injection E as E; try subst end;
  repeat match goal with E : req _ _ _ = Some _ |- _ => apply req_obj in E as (? & ? & ?) end;
  repeat match goal with E : get_last _ _ = Some _ |- _ =>
    try match type of E with context [skip_none _ ?x] => destruct x end;
    cbv [skip_none option_map app get_last String.eqb Ascii.eqb Bool.eqb] in E; injection E as E; try subst end;
  cbn in *; repeat split; congruence.

Lemma StepLeased_kept p q : de_StepLeased (ser_StepLeased p) = Some q -> sl_step q = sl_step p /\ sl_lease_id q = sl_lease_id p.
Proof. unfold de_StepLeased, ser_StepLeased, obj. intros Hd. field_kept Hd. Qed.

Lemma StepRetryScheduled_kept p q : de_StepRetryScheduled (ser_StepRetryScheduled p) = Some q -> sr_step q = sr_step p.
Proof. unfold de_StepRetryScheduled, ser_StepRetryScheduled, obj. intros Hd. field_kept Hd. Qed.

Lemma StepQuarantined_kept p q : de_StepQuarantined (ser_StepQuarantined p) = Some q -> sq_step q = sq_step p.
Proof. unfold de_StepQuarantined, ser_StepQuarantined, obj. intros Hd. field_kept Hd. Qed.

Lemma encoded_effect p q v :
  payload_u32 p -> decode_payload (payload_kind p) (payload_value p) = Some q -> effect q v = effect p v /\ viewed q = viewed p.
Proof.
  intros Hu Hd. pose proof (decode_payload_kind _ _ _ Hd) as Hk.
  destruct p; cbn [payload_kind payload_value decode_payload] in *; apply fmap_inv in Hd as (a & Ha & ->);
    cbn [from_value to_value] in Ha; cbn [effect viewed]; split; try done.
  - rewrite de_ser_StepScheduled in Ha by done. by injection Ha as <-.
  - by destruct (StepLeased_kept _ _ Ha) as [-> ->].
  - rewrite de_ser_StepLeaseExpired in Ha by done. by injection Ha as <-.
  - by rewrite (de_StepFailed_step _ _ Ha).
  - by rewrite (StepRetryScheduled_kept _ _ Ha).
  - by rewrite (StepQuarantined_kept _ _ Ha).
  - rewrite de_ser_StepWaitingApproval in Ha by done. by injection Ha as <-.
  - rewrite de_ser_RunParked in Ha. by injection Ha as <-.
Qed.

Lemma dummy_effect k v : payload_free k = true -> effect (dummy_payload k) v = v /\ viewed (dummy_payload k) = true.
Proof. by destruct k. Qed.

(** An event that was appended has its effect on the view. *)
Lemma apply_effect s e s' p :
  ev_kind e = payload_kind p -> ev_payload e = payload_value p -> viewed p = true -> payload_u32 p ->
  apply s e = Ok s' -> view s' = effect p (view s).
Proof.
  intros Hk Hp Hv Hu (q & Hq & [[Hf ->]|[Hf Hd]])%apply_inv.
  - destruct (dummy_effect _ (view s) Hf) as [Ed Ev]. rewrite (apply_view _ _ _ _ Ev Hq), view_last_seq, Ed.
    rewrite Hk in Hf. by destruct p.
  - rewrite Hk, Hp in Hd. destruct (encoded_effect _ _ (view s) Hu Hd) as [Ee Ev]. rewrite Hv in Ev.
    by rewrite (apply_view _ _ _ _ Ev Hq), view_last_seq, Ee.
Qed.

(** ** The desk of a run in the store *)

Definition pending_of (run_id : string) (s : Store) : list (string * string) :=
  map (fun a => (apr_approval_id a, apr_step_id a)) (pending_in_run run_id s).
Definition held_of (run_id : string) (s : Store) : list (string * string) :=
  map (fun l => (le_lease_id l, le_step_id l)) (active_leases_of_run run_id s).

Definition desk (run_id : string) (s : Store) (st : RunState) : Desk :=
  {| d_view := view st; d_pending := pending_of run_id s; d_held := held_of run_id s |}.

(** The log of the other runs is left alone. *)
Definition logs_kept (run_id : string) (s s' : Store) : Prop :=
  forall r, r <> run_id -> event_rows r s' = event_rows r s.

(** In a transaction on [run_id], begun at [s0]: the state is given up or its view is [v], and
    the leases and approvals of each run are [H] and [P]. *)
Record track `{FloatFormat, Sha256} (run_id : string) (s0 : Store) (v : View) (H P : string -> list (string * string))
    (rt : RunTx) (s : Store) : Prop := {
  tr_tx : TXF True rt s;
  tr_id : rs_run_id (rt_state rt) = run_id;
  tr_view : v_abandoning (view (rt_state rt)) = true \/ view (rt_state rt) = v;
  tr_logs : logs_kept run_id s0 s;
  tr_held : forall r, held_of r s = H r;
  tr_pending : forall r, pending_of r s = P r }.

(** ** How the tables change *)

Lemma held_same s s' r : t_leases s' = t_leases s -> held_of r s' = held_of r s.
Proof. intros E. unfold held_of, active_leases_of_run. by rewrite E. Qed.

Lemma pending_same s s' r : t_approvals s' = t_approvals s -> pending_of r s' = pending_of r s.
Proof. intros E. unfold pending_of, pending_in_run. by rewrite E. Qed.

(** Rows of one identifier that stop matching, and rows that change without it showing. *)
Lemma update_drops {A} (g : A -> string * string) (keep p : A -> bool) f id l :
  (forall x, p x = String.eqb (g x).1 id) -> (forall x, keep (f x) = false) ->
  map g (List.filter keep (update_all p f l)) = drop_id id (map g (List.filter keep l)).
Proof.
  intros Hp Hk. unfold drop_id. induction l as [|x l IH]; [done|]. cbn. rewrite (Hp x). destruct (String.eqb _ id) eqn:E.
  - rewrite Hk. destruct (keep x); cbn; rewrite ?E; done.
  - destruct (keep x); cbn; rewrite ?E; cbn; by rewrite <- IH.
Qed.

Lemma update_shows {A B} (g : A -> B) (keep p : A -> bool) f l :
  (forall x, g (f x) = g x) -> (forall x, keep (f x) = keep x) ->
  map g (List.filter keep (update_all p f l)) = map g (List.filter keep l).
Proof.
  intros Hg Hk. induction l as [|x l IH]; [done|]. cbn. destruct (p x); rewrite ?Hk; destruct (keep x); cbn; rewrite ?Hg; by rewrite <- IH.
Qed.

Lemma held_end id st s u s' r : st <> "active" -> end_lease id st s = (Ok u, s') -> held_of r s' = drop_id id (held_of r s).
Proof.
  intros Hst%String.eqb_neq. unfold end_lease, set_lease, kput. intros [= _ <-]. apply update_drops; [done|].
  intros x. cbn. by rewrite Hst.
Qed.

Lemma held_insert l s u s' r :
  insert_lease l s = (Ok u, s') -> le_state l = "active" ->
  held_of r s' = held_of r s ++ if String.eqb (le_run_id l) r then [(le_lease_id l, le_step_id l)] else [].
Proof.
  unfold insert_lease. destruct (any _ _); [discriminate|]. intros [= _ <-] Ha. unfold held_of, active_leases_of_run. cbn.
  rewrite List.filter_app, map_app. cbn. rewrite Ha. cbn. by destruct (String.eqb _ r).
Qed.

Lemma held_expiry id t s u s' r : set_lease_expiry id t s = (Ok u, s') -> held_of r s' = held_of r s.
Proof.
  unfold set_lease_expiry, set_lease, kput. intros [= _ <-]. by apply update_shows.
Qed.

Lemma pending_decide id d a x t s u s' r :
  d <> "pending" -> record_decision id d a x t s = (Ok u, s') -> pending_of r s' = drop_id id (pending_of r s).
Proof.
  intros Hd%String.eqb_neq. unfold record_decision, set_approval, kput. intros [= _ <-]. apply update_drops; [done|].
  intros y. cbn. by rewrite Hd, andb_false_r.
Qed.

Lemma pending_insert a s u s' r :
  insert_approval a s = (Ok u, s') -> apr_state a = "pending" ->
  pending_of r s' = pending_of r s ++ if String.eqb (apr_run_id a) r then [(apr_approval_id a, apr_step_id a)] else [].
Proof.
  unfold insert_approval. destruct (any _ _); [discriminate|]. intros [= _ <-] Ha. unfold pending_of, pending_in_run. cbn.
  rewrite List.filter_app, map_app. cbn. rewrite Ha. cbn. rewrite andb_true_r. by destruct (String.eqb _ r).
Qed.

Lemma pending_set f id s r :
  (forall a, apr_approval_id (f a) = apr_approval_id a /\ apr_run_id (f a) = apr_run_id a /\
             apr_step_id (f a) = apr_step_id a /\ apr_state (f a) = apr_state a) ->
  pending_of r (snd (set_approval f id s)) = pending_of r s.
Proof.
  intros Hf. apply update_shows; intros a; destruct (Hf a) as (E1 & E2 & E3 & E4); by rewrite ?E1, ?E2, ?E3, ?E4.
Qed.

(** *** Identifiers are not reused, and bundles were checked *)

Record unique `{FloatFormat, JsonPrint} (s : Store) : Prop := {
  un_leases : List.NoDup (map le_lease_id (t_leases s));
  un_approvals : List.NoDup (map apr_approval_id (t_approvals s));
  un_bundles : Forall (fun b => validate_bundle (bn_bundle b) = Ok tt) (t_bundles s) }.

Lemma update_all_ids {A B} (g : A -> B) p f l : (forall x, g (f x) = g x) -> map g (update_all p f l) = map g l.
Proof. intros Hf. unfold update_all. rewrite map_map. apply map_ext. intros x. by destruct (p x). Qed.

Lemma fresh_id {A} (g : A -> string) (a : A) l :
  any (fun x => String.eqb (g x) (g a)) l = false -> List.NoDup (map g l) -> List.NoDup (map g (l ++ [a])).
Proof.
  intros Ha Hn. rewrite map_app. apply List.NoDup_app; [done | by repeat constructor; auto|].
  intros x (y & <- & Hy)%in_map_iff [E|[]]. apply not_true_iff_false in Ha. apply Ha, any_true.
  exists y. split; [done|]. by apply String.eqb_eq.
Qed.

Section Unique.
Context `{FloatFormat, JsonPrint}.

Definition stays_unique (s s' : Store) : Prop := unique s -> unique s'.

#[global] Instance stays_unique_preorder : PreOrder stays_unique.
Proof. split; [by intros s Hu|]. intros s1 s2 s3 R12 R23 Hu. by apply R23, R12. Qed.

Lemma unique_same s s' :
  t_leases s' = t_leases s -> t_approvals s' = t_approvals s -> t_bundles s' = t_bundles s -> stays_unique s s'.
Proof. intros E1 E2 E3 []. split; by rewrite ?E1, ?E2, ?E3. Qed.

#[global] Instance insert_lease_unique l : Evolves stays_unique (insert_lease l).
Proof.
  intros s. unfold insert_lease. destruct (any _ _) eqn:E; [by apply unique_same|]. intros [Hl Ha Hb]. split; [|done..].
  by apply (fresh_id le_lease_id).
Qed.
#[global] Instance insert_approval_unique a : Evolves stays_unique (insert_approval a).
Proof.
  intros s. unfold insert_approval. destruct (any _ _) eqn:E; [by apply unique_same|]. intros [Hl Ha Hb]. split; [done| |done].
  cbn. rewrite map_app. cbn. change [apr_approval_id a] with (map apr_approval_id [a]). rewrite <- map_app.
  by apply (fresh_id apr_approval_id).
Qed.
Lemma set_lease_unique f id : (forall x, le_lease_id (f x) = le_lease_id x) -> Evolves stays_unique (set_lease f id).
Proof. intros Hf s [Hl Ha Hb]. split; [|done..]. eapply eq_ind; [exact Hl|]. symmetry. by apply update_all_ids. Qed.
Lemma set_approval_unique f id : (forall x, apr_approval_id (f x) = apr_approval_id x) -> Evolves stays_unique (set_approval f id).
Proof. intros Hf s [Hl Ha Hb]. split; [done| |done]. eapply eq_ind; [exact Ha|]. symmetry. by apply update_all_ids. Qed.
#[global] Instance end_lease_unique id st : Evolves stays_unique (end_lease id st).
Proof. by apply set_lease_unique. Qed.
#[global] Instance set_lease_expiry_unique id t : Evolves stays_unique (set_lease_expiry id t).
Proof. by apply set_lease_unique. Qed.
#[global] Instance record_decision_unique id d a r t : Evolves stays_unique (record_decision id d a r t).
Proof. by apply set_approval_unique. Qed.
#[global] Instance escalate_approval_unique id a t : Evolves stays_unique (escalate_approval id a t).
Proof. by apply set_approval_unique. Qed.
#[global] Instance park_approval_unique id : Evolves stays_unique (park_approval id).
Proof. by apply set_approval_unique. Qed.
#[global] Instance write_step_unique run_id step def : Evolves stays_unique (write_step run_id step def).
Proof. intros s. apply unique_same; unfold write_step; (destruct (any _ _); [done|by destruct def]). Qed.
#[global] Instance write_run_unique row : Evolves stays_unique (write_run row).
Proof. intros s. apply unique_same; unfold write_run, kput; cbn; by destruct (any _ _). Qed.
#[global] Instance insert_event_unique e : Evolves stays_unique (insert_event e).
Proof. intros s. apply unique_same; unfold insert_event; by destruct (any _ _). Qed.
Lemma insert_bundle_unique b : validate_bundle (bn_bundle b) = Ok tt -> Evolves stays_unique (insert_bundle b).
Proof.
  intros Hv s. unfold insert_bundle. destruct (_ || _); [by apply unique_same|]. intros [Hl Ha Hb]. split; [done..|].
  cbn. apply Forall_app. split; [done|]. by constructor.
Qed.
#[global] Instance insert_policy_unique p : Evolves stays_unique (insert_policy p).
Proof. intros s. apply unique_same; unfold insert_policy; by destruct (_ || _). Qed.
#[global] Instance insert_remit_unique r : Evolves stays_unique (insert_remit r).
Proof. intros s. apply unique_same; unfold insert_remit; by destruct (any _ _). Qed.
#[global] Instance bind_remit_unique id run_id : Evolves stays_unique (bind_remit id run_id).
Proof. intros s. by apply unique_same. Qed.
#[global] Instance upsert_action_unique a : Evolves stays_unique (upsert_action a).
Proof. intros s. apply unique_same; unfold upsert_action, kput; cbn; by destruct (any _ _). Qed.
End Unique.

Section Desks.
Context `{FloatFormat, Sha256, JsonPrint, Crypto, JsonText, Regex, UnicodeTables, F64Display}.

Lemma apply_bundle_unique k c bundle signature : Evolves stays_unique (apply_bundle k c bundle signature).
Proof.
  intros s. unfold apply_bundle, klift. unfold kbind at 1. destruct (verify_bundle_signature _ _ _); [|reflexivity].
  unfold kbind at 1. destruct (bundle_new bundle) as [b|] eqn:Eb; [|reflexivity].
  assert (validate_bundle bundle = Ok tt) as Hv by (unfold bundle_new in Eb; by destruct (validate_bundle bundle) as [[]|]).
  unfold kbind at 1, kget. destruct (find_bundle _ _ s); [destruct (String.eqb _ _); reflexivity|].
  revert s. match goal with |- forall s, stays_unique s (snd (?m s)) => change (Evolves stays_unique m) end.
  eapply evolves_bind; [apply _ | by apply insert_bundle_unique | apply _].
Qed.

Lemma exec_unique k c op s : stays_unique s (exec k c op s).
Proof.
  revert s. destruct op; unfold exec, after;
    match goal with |- forall s, stays_unique s (snd (?m s)) => change (Evolves stays_unique m) end;
    first [apply apply_bundle_unique | evolve_op].
Qed.

Lemma reachable_unique s : reachable s -> unique s.
Proof. induction 1 as [|k c op s _ IH]; [split; constructor | by apply exec_unique]. Qed.

(** ** Inside a transaction *)

Implicit Types (Hd P : string -> list (string * string)).

Lemma event_rows_other r e s : er_run_id e <> r -> event_rows r (with_events (t_events s ++ [e]) s) = event_rows r s.
Proof. intros Hn. rewrite event_rows_app. apply String.eqb_neq in Hn. by rewrite Hn, app_nil_r. Qed.

Lemma view_stays_up s e s' : apply s e = Ok s' -> v_abandoning (view s) = true -> v_abandoning (view s') = true.
Proof. apply apply_abandoning. Qed.

Lemma append_raw_track run_id s0 v v' Hd P rt actor kind payload s e rt' s' :
  track run_id s0 v Hd P rt s -> append_raw rt actor kind payload s = (Ok (e, rt'), s') -> nums_ok kind payload ->
  (view (rt_state rt) = v -> v_abandoning (view (rt_state rt')) = true \/ view (rt_state rt') = v') ->
  track run_id s0 v' Hd P rt' s'.
Proof.
  intros [Ht Hid Hv Hl Hh Hp] Ha Hn Hview.
  pose proof (hoare_append_raw True rt actor kind payload (fun _ => Hn) s Ht) as Htx. rewrite Ha in Htx.
  apply append_raw_inv in Ha as (He & -> & Ha & _). destruct (apply_frame _ _ _ Ha) as (Hid' & _ & _).
  split; [exact Htx | congruence | | | exact Hh | exact Hp].
  - destruct Hv as [Hup|Hv]; [left; by eapply view_stays_up | by apply Hview].
  - intros r Hr. rewrite event_rows_other; [by apply Hl|]. rewrite He. cbn. congruence.
Qed.

(** Appending moves the view by the effect of the payload. *)
Lemma append_event_track run_id s0 v Hd P rt actor p s e rt' s' :
  track run_id s0 v Hd P rt s -> append_event rt actor p s = (Ok (e, rt'), s') -> viewed p = true -> payload_u32 p ->
  track run_id s0 (effect p v) Hd P rt' s'.
Proof.
  intros Ht Ha Hv Hu. pose proof (append_raw_inv _ _ _ _ _ _ _ _ Ha) as (He & _ & Hap & _).
  eapply append_raw_track; [exact Ht | exact Ha | intros q; by apply payload_value_nums |].
  intros <-. right. eapply apply_effect; [| | exact Hv | exact Hu | exact Hap]; by rewrite He.
Qed.

Lemma append_track run_id s0 v Hd P rt actor p s rt' s' :
  track run_id s0 v Hd P rt s -> append rt actor p s = (Ok rt', s') -> viewed p = true -> payload_u32 p ->
  track run_id s0 (effect p v) Hd P rt' s'.
Proof.
  unfold append. intros Ht Ha. apply kbind_ok in Ha as ([e rt1] & s1 & Ha & Hr). apply kret_ok in Hr as [-> ->].
  by eapply append_event_track.
Qed.

(** Whatever is appended to a run that is given up. *)
Lemma append_up run_id s0 v Hd P rt actor p s rt' s' :
  track run_id s0 v Hd P rt s -> append rt actor p s = (Ok rt', s') -> v_abandoning v = true -> payload_u32 p ->
  track run_id s0 v Hd P rt' s'.
Proof.
  unfold append. intros Ht Ha Hv Hu. apply kbind_ok in Ha as ([e rt1] & s1 & Ha & Hr). apply kret_ok in Hr as [-> ->].
  pose proof (append_raw_inv _ _ _ _ _ _ _ _ Ha) as (_ & _ & Hap & _).
  eapply append_raw_track; [exact Ht | exact Ha | intros q; by apply payload_value_nums |].
  intros E. left. eapply view_stays_up; [exact Hap | by rewrite E].
Qed.

(** Writes to the other tables. *)
Lemma track_frame {A} run_id s0 v Hd Hd' P P' rt (m : M A) s a s' :
  track run_id s0 v Hd P rt s -> Frames m -> m s = (Ok a, s') ->
  (forall r, held_of r s = Hd r -> held_of r s' = Hd' r) -> (forall r, pending_of r s = P r -> pending_of r s' = P' r) ->
  track run_id s0 v Hd' P' rt s'.
Proof.
  intros [Ht Hid Hv Hl Hh Hp] Hf Hm Hh' Hp'. pose proof (evolves_ok _ _ _ _ _ Hf Hm) as Hc.
  split; auto; [by eapply TXF_stable|]. intros r Hr. rewrite <- (Hl r Hr). unfold event_rows. by rewrite (proj1 Hc).
Qed.

Lemma track_row run_id s0 v Hd P rt rt' s : rt_run rt' = rt_run rt -> track run_id s0 v Hd P rt s -> track run_id s0 v Hd P rt' s.
Proof.
  intros E [Ht Hid Hv Hl Hh Hp]. assert (rt_state rt' = rt_state rt) as Es by (unfold rt_state; by rewrite E).
  split; rewrite ?Es; auto. by eapply TXF_row.
Qed.

Lemma end_lease_track run_id s0 v Hd P rt id st s u s' :
  track run_id s0 v Hd P rt s -> end_lease id st s = (Ok u, s') -> st <> "active" ->
  track run_id s0 v (fun r => drop_id id (Hd r)) P rt s'.
Proof.
  intros Ht He Hst. eapply (track_frame _ _ _ _ _ _ _ _ _ _ _ _ Ht); [|exact He|..]; [apply _| |].
  - intros r <-. by eapply held_end.
  - intros r <-. apply pending_same. exact (evolves_ok _ _ _ _ _ (end_lease_approvals id st) He).
Qed.

(** Beginning and ending a transaction. *)
Lemma load_track now run_id s rt s' :
  INV s -> load_run now run_id s = (Ok rt, s') -> small s ->
  s' = s /\ track run_id s (view (rt_state rt)) (fun r => held_of r s) (fun r => pending_of r s) rt s /\
  require_run run_id s = Ok (rt_run rt) /\ rt_defs rt = [].
Proof.
  intros Hi Hl Hs. unfold load_run in Hl. peel Hl. apply kret_ok in Hl as [-> ->]. split; [done|]. split; [|done].
  split; try done; [by eapply load_tx | | by right]. by destruct (require_run_ok _ _ _ (Hi Hs) Ha).
Qed.

(** The state in the log at the beginning. *)
Lemma loaded_view s run_id row : INV s -> small s -> require_run run_id s = Ok row ->
  exists st, logged s run_id st /\ view st = view (row_state row) /\ rs_steps (row_state row) = map norm_step (rs_steps st) /\ state_inv st.
Proof.
  intros Hi Hs Hr. destruct (loaded_logged _ _ _ (Hi Hs) Hs Hr) as (st & Hl & Est). exists st. split; [done|].
  rewrite Est. split; [apply view_sim; symmetry; apply sim_norm|]. split; [done|].
  destruct Hl as (evs & _ & Hf). by eapply fold_inv.
Qed.

(** What a transaction leaves. *)
Record landed (run_id : string) (s0 : Store) (v : View) (Hd P : string -> list (string * string)) (s : Store) : Prop := {
  ld_view : forall st, logged s run_id st -> v_abandoning (view st) = true \/ view st = v;
  ld_logs : logs_kept run_id s0 s;
  ld_held : forall r, held_of r s = Hd r;
  ld_pending : forall r, pending_of r s = P r }.

Lemma persist_track run_id s0 v Hd P rt s u s' :
  track run_id s0 v Hd P rt s -> persist rt s = (Ok u, s') -> small s' -> landed run_id s0 v Hd P s'.
Proof.
  intros [Ht Hid Hv Hl Hh Hp] Hper Hs. pose proof (persist_events _ _ _ _ Hper) as He.
  pose proof (persist_leases _ _ _ _ Hper) as Hle. pose proof (evolves_ok _ _ _ _ _ (persist_approvals rt) Hper) as Hap.
  destruct (persist_logged _ _ _ _ _ Ht Hper Hs) as (st & Hlog & Hsim). rewrite Hid in Hlog.
  split.
  - intros st' Hst'. rewrite (logged_unique _ _ _ _ Hst' Hlog). by rewrite (view_sim _ _ Hsim).
  - intros r Hr. rewrite <- (Hl r Hr). unfold event_rows. by rewrite He.
  - intros r. rewrite <- Hh. by apply held_same.
  - intros r. rewrite <- Hp. by apply pending_same.
Qed.

(** ** Moving the desks *)

Lemma logged_same r s s' st : event_rows r s' = event_rows r s -> logged s' r st -> logged s r st.
Proof.
  intros E (evs & He & Hf). exists evs. split; [|done]. rewrite <- He. unfold all_events, events_from.
  assert (forall s p, List.filter (fun e => String.eqb (er_run_id e) r && p e) (t_events s) = List.filter p (event_rows r s)) as Hr.
  { intros x p. unfold event_rows. induction (t_events x) as [|e l IH]; [done|]. cbn. destruct (String.eqb _ r); cbn; by rewrite IH. }
  by rewrite !Hr, E.
Qed.

(** Every run of [s'] was there in [s], and got where it is by steps of the machine. *)
Definition moves (s s' : Store) : Prop :=
  forall run_id st', logged s' run_id st' ->
    exists st, logged s run_id st /\ rtc desk_step (desk run_id s st) (desk run_id s' st').

#[global] Instance moves_preorder : PreOrder moves.
Proof.
  split; [intros s r st Hl; exists st; by split|]. intros s1 s2 s3 M12 M23 r st3 L3.
  destruct (M23 r st3 L3) as (st2 & L2 & M2). destruct (M12 r st2 L2) as (st1 & L1 & M1). exists st1. split; [done|]. by etrans.
Qed.

(** Nothing a desk shows has changed. *)
Lemma moves_same s s' :
  (forall r, event_rows r s' = event_rows r s) -> (forall r, held_of r s' = held_of r s) ->
  (forall r, pending_of r s' = pending_of r s) -> moves s s'.
Proof.
  intros He Hh Hp r st Hl. exists st. split; [eapply logged_same; [apply He | done]|]. unfold desk. by rewrite Hh, Hp.
Qed.

Lemma landed_moves run_id s v Hd P s' st :
  landed run_id s v Hd P s' -> logged s run_id st ->
  (forall r, r <> run_id -> Hd r = held_of r s) -> (forall r, r <> run_id -> P r = pending_of r s) ->
  rtc desk_step (desk run_id s st) {| d_view := v; d_pending := P run_id; d_held := Hd run_id |} -> moves s s'.
Proof.
  intros [Hv Hl Hh Hp] Hlog Ho Hop Hs r st' Hst'. destruct (String.eqb_spec r run_id) as [->|Hr].
  - exists st. split; [done|]. destruct (Hv _ Hst') as [Hup|E].
    + apply rtc_once, desk_given_up. exact Hup.
    + unfold desk at 2. by rewrite E, Hp, Hh.
  - exists st'. split; [eapply logged_same; [by apply Hl | done]|]. unfold desk. by rewrite Hh, Hp, Ho, Hop.
Qed.

(** Dropping an identifier of this run does not show in the others. *)
Lemma drop_absent id l : (forall p, In p l -> p.1 <> id) -> drop_id id l = l.
Proof.
  intros Hn. unfold drop_id. induction l as [|x l IH]; [done|]. cbn. pose proof (Hn x ltac:(by left)) as Hx.
  apply String.eqb_neq in Hx. rewrite Hx. cbn. by rewrite IH by (intros p Hp; apply Hn; by right).
Qed.

Lemma nodup_inj {A B} (g : A -> B) l x y : List.NoDup (map g l) -> In x l -> In y l -> g x = g y -> x = y.
Proof.
  induction l as [|z l IH]; [done|]. cbn. intros Hn Hx Hy E. inversion Hn as [|? ? Hz Hn']; subst.
  destruct Hx as [->|Hx], Hy as [->|Hy]; try done; [exfalso; apply Hz; rewrite E; by apply in_map |
    exfalso; apply Hz; rewrite <- E; by apply in_map | by apply IH].
Qed.

Lemma held_row s r p : In p (held_of r s) ->
  exists l, In l (t_leases s) /\ le_run_id l = r /\ p = (le_lease_id l, le_step_id l) /\ le_state l = "active".
Proof.
  intros (l & <- & [Hin Hl]%filter_In)%in_map_iff. exists l. apply andb_true_iff in Hl as [?%String.eqb_eq ?%String.eqb_eq]. done.
Qed.

Lemma held_in s r p : In p (held_of r s) -> exists l, In l (t_leases s) /\ le_run_id l = r /\ p = (le_lease_id l, le_step_id l).
Proof. intros (l & ? & ? & ? & _)%held_row. eauto. Qed.

Lemma pending_in s r p : In p (pending_of r s) ->
  exists a, In a (t_approvals s) /\ apr_run_id a = r /\ p = (apr_approval_id a, apr_step_id a).
Proof.
  intros (l & <- & [Hin Hl]%filter_In)%in_map_iff. exists l. split; [done|]. apply andb_true_iff in Hl as [?%String.eqb_eq _]. done.
Qed.

Lemma get_lease_in id s l : get_lease id s = Some l -> In l (t_leases s) /\ le_lease_id l = id.
Proof. intros [Hin Hl%String.eqb_eq]%find_first_some. done. Qed.

Lemma get_approval_in id s a : get_approval id s = Some a -> In a (t_approvals s) /\ apr_approval_id a = id.
Proof. intros [Hin Hl%String.eqb_eq]%find_first_some. done. Qed.

Lemma other_held s l r : unique s -> In l (t_leases s) -> r <> le_run_id l -> drop_id (le_lease_id l) (held_of r s) = held_of r s.
Proof.
  intros [Hu _ _] Hl Hr. apply drop_absent. intros p (x & Hx & Hxr & ->)%held_in E. cbn in E.
  rewrite (nodup_inj _ _ _ _ Hu Hx Hl E) in Hxr. congruence.
Qed.

Lemma other_pending s a r : unique s -> In a (t_approvals s) -> r <> apr_run_id a ->
  drop_id (apr_approval_id a) (pending_of r s) = pending_of r s.
Proof.
  intros [_ Hu _] Hl Hr. apply drop_absent. intros p (x & Hx & Hxr & ->)%pending_in E. cbn in E.
  rewrite (nodup_inj _ _ _ _ Hu Hx Hl E) in Hxr. congruence.
Qed.

Lemma active_held s l : In l (t_leases s) -> le_state l = "active" -> In (le_lease_id l, le_step_id l) (held_of (le_run_id l) s).
Proof.
  intros Hin Ha. apply (in_map (fun l => (le_lease_id l, le_step_id l))), filter_In. split; [done|]. by rewrite Ha, !String.eqb_refl.
Qed.

Lemma is_pending s a : In a (t_approvals s) -> apr_state a = "pending" ->
  In (apr_approval_id a, apr_step_id a) (pending_of (apr_run_id a) s).
Proof.
  intros Hin Ha. apply (in_map (fun a => (apr_approval_id a, apr_step_id a))), filter_In. split; [done|]. by rewrite Ha, !String.eqb_refl.
Qed.
End Desks.
