(* ===== verification/DeskSteps.v ===== *)
(** * Each operation, as steps of the desks

    Every operation of the kernel moves the desks of the runs: by no step, by one, or, for a
    sweep, by several; a run that is started begins at the beginning. *)

From stdpp Require Import relations.
From S2P Require Import Prelude Text Ids F64 Json Policy Lexer Parser PolicyTools Canonical Time.
From S2P Require Import Errors Keys Remit Payloads PayloadLaws Events Fold RunJson FoldSpec.
From S2P Require Import Template Schema Bundle BundleSpec Store Kernel Scenario Hoare History StoreInv KernelInv.
From S2P Require Import Replay LeaseSpec StepSpec RevokeSpec ActionSpec StartSpec Paging Progress Supply Turns Desks.
From Stdlib Require Import Ascii Sorting.Sorted.

Local Open Scope string_scope.
Local Open Scope list_scope.
Local Open Scope Z_scope.

Lemma found_card id s step : find_step id s = Some step -> In (card step) (v_cards (view s)) /\ cd_id (card step) = id.
Proof. intros [Hin Hid%String.eqb_eq]%find_first_some. split; [by apply in_map | done]. Qed.

Lemma leased_card st x i : state_inv st -> In x (v_cards (view st)) -> cd_lease x = Some i -> cd_state x = SLeased.
Proof.
  intros [[_ Hs] _] (step & <- & Hin)%in_map_iff Hl. rewrite List.Forall_forall in Hs. destruct (Hs step Hin) as [Hi _].
  apply Hi. cbn in Hl. by destruct (st_lease step).
Qed.

(** Whether the state still has the step under the lease, on the cards. *)
Lemma lease_held_card s l : lease_held s l = true <->
  exists x, find_first (is_card (le_step_id l)) (v_cards (view s)) = Some x /\ cd_lease x = Some (le_lease_id l).
Proof.
  unfold lease_held, find_step, view. cbn. rewrite find_first_map.
  change (fun x => is_card (le_step_id l) (card x)) with (fun st => String.eqb (st_id st) (le_step_id l)).
  destruct (find_first _ (rs_steps s)) as [st|]; cbn; [|split; [discriminate | by intros (x & ? & _)]].
  split.
  - intros Hl. exists (card st). split; [done|]. cbn. destruct (st_lease st); [|done]. cbn. by apply String.eqb_eq in Hl as ->.
  - intros (x & [= <-] & Hx). cbn in Hx. destruct (st_lease st); [|done]. injection Hx as ->. apply String.eqb_refl.
Qed.

Section Steps.
Context `{FloatFormat, Sha256, JsonPrint, Crypto, JsonText, Regex, UnicodeTables, F64Display}.

(** *** The end of a lease *)

Lemma working_card s l st x :
  In l (t_leases s) -> le_state l = "active" -> In x (v_cards (view st)) -> cd_id x = le_step_id l ->
  cd_state x = SLeased -> cd_lease x = Some (le_lease_id l) -> at_work (desk (le_run_id l) s st) x (le_lease_id l).
Proof. intros Hin Ha Hx Hid Hs Hl. split; try done. cbn. rewrite Hid. by apply active_held. Qed.

Lemma landed_end run_id s0 v Hd P id st s u s' :
  landed run_id s0 v Hd P s -> end_lease id st s = (Ok u, s') -> st <> "active" ->
  landed run_id s0 v (fun r => drop_id id (Hd r)) P s'.
Proof.
  intros [Lv Ll Lh Lp] He Hst. split.
  - intros x Hx. apply Lv. eapply logged_same; [|exact Hx]. by injection He as _ <-.
  - intros r Hr. rewrite <- (Ll r Hr). by injection He as _ <-.
  - intros r. by rewrite (held_end _ _ _ _ _ r Hst He), Lh.
  - intros r. rewrite <- Lp. by injection He as _ <-.
Qed.

(** Nothing happened so far. *)
Lemma landed_start run_id s st : logged s run_id st ->
  landed run_id s (view st) (fun r => held_of r s) (fun r => pending_of r s) s.
Proof. intros Hl. split; try done. intros st' Hst'. right. by rewrite (logged_unique _ _ _ _ Hst' Hl). Qed.

(** A lease that holds nothing is put away. *)
Lemma release_moves l how s u s' st :
  unique s -> In l (t_leases s) -> logged s (le_run_id l) st -> how <> "active" ->
  (forall x, In x (v_cards (view st)) -> cd_id x = le_step_id l -> cd_lease x <> Some (le_lease_id l)) ->
  end_lease (le_lease_id l) how s = (Ok u, s') -> moves s s'.
Proof.
  intros Hu Hin Hlog Hhow Hno He.
  pose proof (landed_end _ _ _ _ _ _ _ _ _ _ (landed_start _ _ _ Hlog) He Hhow) as Hl.
  eapply (landed_moves _ _ _ _ _ _ _ Hl Hlog); [intros r Hr; by apply other_held | done |].
  apply rtc_once. apply (desk_release (desk (le_run_id l) s st)). cbn. intros x Hx (y & Hy & _ & [= E1 E2])%held_in.
  apply Hno; [done|]. by rewrite (nodup_inj le_lease_id _ _ _ (un_leases _ Hu) Hy Hin (eq_sym E1)) in E2.
Qed.

(** The one card a lease can be on. *)
Lemma not_held_card s l st : state_inv st -> view st = view s -> lease_held s l = false ->
  forall x, In x (v_cards (view st)) -> cd_id x = le_step_id l -> cd_lease x <> Some (le_lease_id l).
Proof.
  intros [[Hn _] _] Hv Hh x Hx Hid Hle. apply not_true_iff_false in Hh. apply Hh, lease_held_card. rewrite <- Hv. exists x.
  split; [|done]. destruct (find_first _ _) as [y|] eqn:Ef.
  - apply find_first_some in Ef as [Hy Hyid%String.eqb_eq]. f_equal.
    apply (nodup_inj cd_id (v_cards (view st))); [cbn; by rewrite map_map | done | done | congruence].
  - apply find_first_none in Ef. rewrite List.Forall_forall in Ef. specialize (Ef x Hx). unfold is_card in Ef.
    apply String.eqb_neq in Ef. congruence.
Qed.

Lemma load_failed now run_id s e s' : load_run now run_id s = (Err e, s') -> s' = s.
Proof. unfold load_run, kbind, kread. destruct (require_run _ s); [done|]. by intros [= _ <-]. Qed.

Lemma expire_moves now l s r s' :
  INV s -> unique s -> In l (t_leases s) -> le_state l = "active" -> expire_lease now l s = (r, s') -> small s' -> moves s s'.
Proof.
  intros Hi Hu Hin Ha He Hs'.
  assert (small s) as Hs by (eapply history_small; [|exact Hs'];
    pose proof (evolves (R := history) (m := expire_lease now l) s) as Hh; by rewrite He in Hh).
  unfold expire_lease in He. unfold kbind at 1 in He. destruct (load_run now (le_run_id l) s) as [[rt|e] s1] eqn:El;
    [|injection He as _ <-; rewrite (load_failed _ _ _ _ _ El); reflexivity].
  destruct (load_track _ _ _ _ _ Hi El Hs) as (-> & Ht & Hreq & _).
  destruct (loaded_view _ _ _ Hi Hs Hreq) as (st & Hlog & Hv & _ & Hst). change (row_state (rt_run rt)) with (rt_state rt) in Hv.
  unfold kbind at 1 in He. destruct (lease_held (rt_state rt) l) eqn:Eh; unfold kret in He.
  - apply lease_held_card in Eh as (x & Hx & Hle). apply find_first_some in Hx as [Hxin Hxid%String.eqb_eq]. rewrite <- Hv in Hxin.
    unfold kbind in He. set (p := {| sle_step := _; sle_lease_id := _; sle_worker_id := _ |}) in He.
    pose proof (append_expired rt (Act.system "lease-sweeper") p s) as Hap.
    destruct (append rt _ _ s) as [[rt1|e] s1] eqn:Ea; [|injection He as _ <-; rewrite Hap; reflexivity].
    pose proof (append_track _ _ _ _ _ _ _ _ _ _ _ Ht Ea ltac:(done) ltac:(done)) as Ht1.
    destruct (persist rt1 s1) as [[u|e] s2] eqn:Ep.
    + destruct r as [u'|]; [|discriminate]. assert (small s2) as Hs2 by (by injection He as _ <-).
      pose proof (landed_end _ _ _ _ _ _ _ _ _ _ (persist_track _ _ _ _ _ _ _ _ _ Ht1 Ep Hs2) He ltac:(done)) as Hl.
      eapply (landed_moves _ _ _ _ _ _ _ Hl Hlog); [intros r Hr; by apply other_held | done |].
      apply rtc_once. cbn [effect sle_step p]. rewrite <- Hv, <- Hxid.
      apply (desk_again (desk (le_run_id l) s st) x (le_lease_id l)), working_card; try done. by eapply leased_card.
    + exfalso. eapply (expired_persists rt); [exact Hi | | exact Ea | exact Ep | by injection He as _ <-].
      by rewrite (tr_id _ _ _ _ _ _ _ Ht).
  - destruct r as [u|]; [|discriminate]. apply (release_moves l "expired" s u s' st); try done. by eapply not_held_card.
Qed.

Lemma evolved_small {A} (m : M A) s r s' : Evolves history m -> m s = (r, s') -> small s' -> small s.
Proof. intros Hm E. eapply history_small. specialize (Hm s). by rewrite E in Hm. Qed.

Lemma live_lease_moves now id s e s' :
  INV s -> unique s -> live_lease now id s = (Err e, s') -> small s' -> moves s s'.
Proof.
  intros Hi Hu. unfold live_lease. unfold kbind at 1, kget. unfold kbind at 1, ksome, klift.
  destruct (get_lease id s) as [l|] eqn:El; cbn [ok_or]; [|by intros [= _ <-]]. apply get_lease_in in El as [Hin _].
  destruct (_ && _) eqn:Eb; [|destruct (String.eqb _ _); unfold kguard, kret, kbind, kfail; by intros [= _ <-]].
  apply andb_true_iff in Eb as [Ha%String.eqb_eq _]. unfold kbind, kfail.
  destruct (expire_lease now l s) as [[u|e'] s1] eqn:E; intros [= _ <-] Hs'; by eapply expire_moves.
Qed.

Lemma step_held_lease s l st : state_inv st -> view st = view s -> step_held s l = false -> lease_held s l = false.
Proof.
  intros Hst Hv Hh. destruct (lease_held s l) eqn:E; [|done]. exfalso. unfold step_held, lease_held in *.
  destruct (find_step (le_step_id l) s) as [x|] eqn:Ef; [|done]. apply found_card in Ef as [Hin _]. rewrite <- Hv in Hin.
  destruct (st_lease x) as [i|] eqn:Ei; [|done]. rewrite E, andb_true_r in Hh.
  assert (st_state x = SLeased) as Hs by (apply (leased_card st (card x) (li_lease_id i)); [done..|]; cbn; by rewrite Ei).
  unfold step_is in Hh. by rewrite Hs in Hh.
Qed.

Lemma leased_run_moves now id s e s' :
  INV s -> unique s -> leased_run now id s = (Err e, s') -> small s' -> moves s s'.
Proof.
  intros Hi Hu He Hs'. unfold leased_run in He. unfold kbind at 1 in He.
  destruct (live_lease now id s) as [[l|e'] s1] eqn:El; [|injection He as <- <-; by eapply live_lease_moves].
  apply live_lease_ok in El as (-> & [Hin <-]%get_lease_in & Ha & _). unfold kbind at 1 in He.
  destruct (load_run now _ s) as [[rt|e'] s1] eqn:Eload; [|injection He as _ <-; rewrite (load_failed _ _ _ _ _ Eload); reflexivity].
  unfold load_run in Eload. peel Eload. apply kret_ok in Eload as [-> ->]. unfold rt_state in He. cbn [rt_run] in He.
  destruct (step_held _ _) eqn:Eh; [discriminate|]. unfold kbind in He.
  destruct (end_lease (le_lease_id l) "released" s) as [[u|] s1] eqn:Ee; [|discriminate]. injection He as _ <-.
  assert (small s) as Hs by (by eapply (evolved_small (end_lease (le_lease_id l) "released")); [apply _ | exact Ee | done]).
  destruct (loaded_view _ _ _ Hi Hs Ha0) as (st & Hlog & Hv & _ & Hst).
  apply (release_moves l "released" s u s1 st); try done. eapply not_held_card; [done | exact Hv|]. by eapply step_held_lease.
Qed.

(** *** Under a lease *)

Lemma commit_moves {A B} (first : M A) (rest : A -> M B) s :
  (forall e s', first s = (Err e, s') -> small s' -> moves s s') ->
  (forall a s1 b s', first s = (Ok a, s1) -> rest a s1 = (Ok b, s') -> small s' -> moves s s') ->
  small (snd (commit_failure first rest s)) -> moves s (snd (commit_failure first rest s)).
Proof.
  intros He Hok. unfold commit_failure. destruct (first s) as [[a|e] s1]; [|by eapply He].
  destruct (rest a s1) as [[b|e] s2] eqn:E; cbn; [by eapply Hok | reflexivity].
Qed.

Lemma transaction_moves {A} (m : M A) s :
  (forall a s', m s = (Ok a, s') -> small s' -> moves s s') -> small (snd (transaction m s)) -> moves s (snd (transaction m s)).
Proof. intros Hok. unfold transaction. destruct (m s) as [[a|e] s1] eqn:E; cbn; [by eapply Hok | reflexivity]. Qed.

(** What a worker that holds its step starts from. *)
Record begun (l : LeaseRow) (s : Store) (rt : RunTx) (st : RunState) (step : StepState) : Prop := {
  bg_track : track (le_run_id l) s (view st) (fun r => held_of r s) (fun r => pending_of r s) rt s;
  bg_logged : logged s (le_run_id l) st;
  bg_inv : state_inv st;
  bg_step : find_step (le_step_id l) (rt_state rt) = Some step;
  bg_id : st_id step = le_step_id l;
  bg_work : at_work (desk (le_run_id l) s st) (card step) (le_lease_id l);
  bg_others : forall r, r <> le_run_id l -> drop_id (le_lease_id l) (held_of r s) = held_of r s }.

Lemma leased_begun now id s l rt s1 :
  INV s -> unique s -> small s -> leased_run now id s = (Ok (l, rt), s1) ->
  s1 = s /\ le_lease_id l = id /\ exists st step, begun l s rt st step.
Proof.
  intros Hi Hu Hs (-> & [Hin <-]%get_lease_in & Ha & _ & Hreq & Hh & Hts & Hdefs)%leased_run_ok. split; [done|]. split; [done|].
  destruct (loaded_view _ _ _ Hi Hs Hreq) as (st & Hlog & Hv & _ & Hst). change (row_state (rt_run rt)) with (rt_state rt) in Hv.
  unfold step_held in Hh. destruct (find_step (le_step_id l) (rt_state rt)) as [step|] eqn:Ef; [|done].
  apply andb_true_iff in Hh as [Hle Hid]. unfold step_is in Hle. apply bool_decide_eq_true in Hle.
  destruct (found_card _ _ _ Ef) as [Hcard Hcid]. exists st, step. split; try done.
  - destruct (load_track now (le_run_id l) s rt s Hi) as (_ & Ht & _); [|done|by rewrite Hv].
    unfold load_run, kbind, kread. rewrite Hreq. unfold kret. destruct rt as [ts row defs]. cbn in *. by subst.
  - apply working_card; try done; [by rewrite Hv|]. cbn. destruct (st_lease step); [|done]. cbn. by apply String.eqb_eq in Hid as ->.
  - intros r Hr. by apply other_held.
Qed.

(** The store was small before a lease was looked up and before what follows. *)
Lemma leased_small {A} now id (rest : M A) s p s1 b s' :
  leased_run now id s = (Ok p, s1) -> rest s1 = (Ok b, s') -> Evolves history rest -> small s' -> small s.
Proof.
  intros Hrun Hc Hr Hs'. eapply (evolved_small (leased_run now id) s); [evolve_op | exact Hrun|]. by eapply (evolved_small rest s1).
Qed.

(** The worker's step is done with, in one step of its desk. *)
Lemma begun_moves l s rt st step v P s' :
  begun l s rt st step -> landed (le_run_id l) s v (fun r => drop_id (le_lease_id l) (held_of r s)) P s' ->
  (forall r, r <> le_run_id l -> P r = pending_of r s) ->
  desk_step (desk (le_run_id l) s st)
    {| d_view := v; d_pending := P (le_run_id l); d_held := drop_id (le_lease_id l) (held_of (le_run_id l) s) |} -> moves s s'.
Proof.
  intros Hb Hl Hp Hstep. eapply (landed_moves _ _ _ _ _ _ _ Hl (bg_logged _ _ _ _ _ Hb)); [apply Hb | done |]. by apply rtc_once.
Qed.

Lemma track_any run_id s0 v v' Hd P rt s :
  track run_id s0 v Hd P rt s -> v_abandoning v = true \/ v_abandoning (view (rt_state rt)) = true -> track run_id s0 v' Hd P rt s.
Proof. intros [Ht Hid Hv Hl Hh Hp] Hup. split; auto. left. destruct Hup as [Hup|]; [|done]. destruct Hv as [|<-]; done. Qed.

Lemma track_cases run_id s0 v Hd P rt s : track run_id s0 v Hd P rt s ->
  (exists v', v_abandoning v' = true /\ track run_id s0 v' Hd P rt s) \/ view (rt_state rt) = v.
Proof.
  intros [Ht Hid [Hv|Hv] Hl Hh Hp]; [left|by right]. exists (view (rt_state rt)). split; [done|]. split; auto.
Qed.

(** *** Completing *)

Lemma record_usage_track run_id s0 v Hd P rt id usage s rt' x s' :
  track run_id s0 v Hd P rt s -> record_usage rt id usage s = (Ok (rt', x), s') -> track run_id s0 v Hd P rt' s'.
Proof.
  intros Ht Hr. unfold record_usage in Hr. destruct usage as [u|]; [|by apply kret_ok in Hr as [[= -> _] ->]].
  apply kbind_ok in Hr as (rt1 & s1 & Ha & Hr). pose proof (append_track _ _ _ _ _ _ _ _ _ _ _ Ht Ha eq_refl I) as Ht1.
  apply kbind_ok in Hr as (rt2 & s2 & Hb & Hr). apply kret_ok in Hr as [[= -> _] ->].
  destruct (soft_threshold _ _ _); [exact (append_track _ _ _ _ _ _ _ _ _ _ _ Ht1 Hb eq_refl I) | by apply kret_ok in Hb as [-> ->]].
Qed.

Lemma finished_state s : finished (view s) = negb (any (fun st => negb (step_is SCompleted st)) (workflow_steps s)).
Proof.
  unfold finished, workflow_steps, view. cbn [v_cards]. f_equal. induction (rs_steps s) as [|x l IH]; [done|].
  cbn [map List.filter]. change (card_comp (card x)) with (is_compensation x).
  destruct (is_compensation x); [exact IH|]. unfold any in *. cbn. f_equal. exact IH.
Qed.

Lemma completes_somehow v : exists v', completes v v'.
Proof. unfold completes. destruct (finished v); eauto. Qed.

Lemma for_step_same run_id id s r s' : for_step_of run_id id s = (Ok r, s') -> s' = s.
Proof. unfold for_step_of. intros Hf. peel Hf. by apply kret_ok in Hf as [_ ->]. Qed.

Lemma after_completion_up run_id s0 v Hd P rt id step output exceeded s rt' s' :
  track run_id s0 v Hd P rt s -> v_abandoning v = true -> after_completion rt id step output exceeded s = (Ok rt', s') ->
  track run_id s0 v Hd P rt' s'.
Proof.
  intros Ht Hv Ha. unfold after_completion in Ha. destruct (is_compensation step); [|destruct (negb _); [|destruct (_ && _)]].
  - apply kbind_ok in Ha as (for_step & s1 & ->%for_step_same & Ha). exact (append_up _ _ _ _ _ _ _ _ _ _ _ Ht Ha Hv I).
  - exact (append_up _ _ _ _ _ _ _ _ _ _ _ Ht Ha Hv I).
  - apply kbind_ok in Ha as (rt1 & s1 & Hb & Ha). pose proof (append_up _ _ _ _ _ _ _ _ _ _ _ Ht Hb Hv I) as Ht1.
    exact (append_up _ _ _ _ _ _ _ _ _ _ _ Ht1 Ha Hv I).
  - by apply kret_ok in Ha as [-> ->].
Qed.

Lemma after_completion_track run_id s0 v Hd P rt id step output exceeded s rt' s' :
  track run_id s0 v Hd P rt s -> (is_compensation step = true -> v_abandoning v = true) ->
  after_completion rt id step output exceeded s = (Ok rt', s') ->
  exists v', completes v v' /\ track run_id s0 v' Hd P rt' s'.
Proof.
  intros Ht Hc Ha.
  destruct (track_cases _ _ _ _ _ _ _ Ht) as [(v1 & Hup & Ht1)|E]; [|destruct (v_abandoning v) eqn:Hv].
  - destruct (completes_somehow v) as [v' Hs]. exists v'. split; [done|].
    eapply track_any; [by eapply after_completion_up; [exact Ht1 | |exact Ha]|by left].
  - destruct (completes_somehow v) as [v' Hs]. exists v'. split; [done|].
    eapply track_any; [by eapply after_completion_up; [exact Ht | |exact Ha]|by left].
  - unfold after_completion in Ha. destruct (is_compensation step); [by specialize (Hc eq_refl)|].
    rewrite <- finished_state, E in Ha. unfold completes. destruct (finished v).
    + eexists. split; [reflexivity|]. exact (append_track _ _ _ _ _ _ _ _ _ _ _ Ht Ha eq_refl I).
    + destruct (_ && _).
      * eexists. split; [by right|]. apply kbind_ok in Ha as (rt1 & s1 & Hb & Ha).
        exact (append_track _ _ _ _ _ _ _ _ _ _ _ (append_track _ _ _ _ _ _ _ _ _ _ _ Ht Hb eq_refl I) Ha eq_refl I).
      * apply kret_ok in Ha as [-> ->]. exists v. auto.
Qed.

(** A step of a run that is not being given up is no compensation. *)
Definition all_live (s : Store) : Prop := forall run_id st, logged s run_id st -> live (desk run_id s st).

Lemma compensation_up s l rt st step :
  all_live s -> begun l s rt st step -> is_compensation step = true -> v_abandoning (view st) = true.
Proof.
  intros Hl Hb Hc. destruct (v_abandoning (view st)) eqn:E; [done|]. exfalso.
  destruct (Hl _ _ (bg_logged _ _ _ _ _ Hb) E) as [[Hk _ _] _]. rewrite List.Forall_forall in Hk.
  specialize (Hk _ (aw_card _ _ _ (bg_work _ _ _ _ _ Hb))). cbn in Hk. unfold is_compensation in Hc.
  apply String.eqb_eq in Hc. rewrite Hc in Hk. by destruct Hk as [|[|[|[]]]].
Qed.

Lemma complete_moves c id output usage s :
  INV s -> unique s -> all_live s -> small (snd (complete c id output usage s)) -> moves s (snd (complete c id output usage s)).
Proof.
  intros Hi Hu Hl. apply commit_moves; [intros e s' He Hs'; by eapply leased_run_moves|]. intros [l rt] s1 b s' Hrun Hc Hs'.
  assert (small s) as Hs by (eapply (leased_small _ _ _ _ _ _ _ _ Hrun Hc); [evolve_op | done]).
  destruct (leased_begun _ _ _ _ _ _ Hi Hu Hs Hrun) as (-> & <- & st & step & Hb).
  peel Hc. rewrite (bg_step _ _ _ _ _ Hb) in Ha. injection Ha as <-. peel Hc.
  apply kbind_ok in Hc as ([e rt1] & s1 & Ha1 & Hc).
  assert (exists out, track (le_run_id l) s (set_card (cd_id (card step)) (finish_card out) (view st))
            (fun r => held_of r s) (fun r => pending_of r s) rt1 s1) as [out Ht1].
  { pose proof Ha1 as (p & Hp & _ & Happ)%append_completion. exists (sc_output p).
    eapply append_raw_track; [exact (bg_track _ _ _ _ _ Hb) | exact Ha1 | apply nums_free; by intros [] |].
    intros E. right. rewrite Happ. destruct (completion_decoded l step output _ p Ha Hp) as [Hps _].
    rewrite (view_update _ _ (finish_card (sc_output p))) by done. by rewrite view_last_seq, E, Hps. }
  apply kbind_ok in Hc as (u & s2 & He & Hc). pose proof (end_lease_track _ _ _ _ _ _ _ _ _ _ _ Ht1 He ltac:(done)) as Ht2.
  apply kbind_ok in Hc as ([rt2 exceeded] & s3 & Hus & Hc). pose proof (record_usage_track _ _ _ _ _ _ _ _ _ _ _ _ Ht2 Hus) as Ht3.
  apply kbind_ok in Hc as (rt3 & s4 & Haf & Hc).
  destruct (after_completion_track _ _ _ _ _ _ _ _ _ _ _ _ _ Ht3 (compensation_up _ _ _ _ _ Hl Hb) Haf) as (v' & Hv' & Ht4).
  apply kbind_ok in Hc as (u' & s5 & Hp & Hc). apply kret_ok in Hc as [_ ->].
  eapply (begun_moves _ _ _ _ _ _ _ _ Hb (persist_track _ _ _ _ _ _ _ _ _ Ht4 Hp Hs')); [done|].
  by apply (desk_complete (desk (le_run_id l) s st) (card step) _ out); [apply Hb|].
Qed.

(** *** Failing *)

Lemma update_first_twice {A} (p : A -> bool) f g l :
  (forall x, p (g x) = p x) -> update_first p f (update_first p g l) = update_first p (fun x => f (g x)) l.
Proof. intros Hp. induction l as [|x l IH]; [done|]. cbn. destruct (p x) eqn:E; cbn; [by rewrite Hp, E | by rewrite E, IH]. Qed.

Lemma set_card_twice id a la b lb v : set_card id (put a la) (set_card id (put b lb) v) = set_card id (put a la) v.
Proof. unfold set_card. cbn. f_equal. by rewrite update_first_twice. Qed.

(** What a failure leaves: the step is tried again, or it stops the run. *)
Definition failed_view (id : string) (v v' : View) : Prop :=
  v_abandoning v = true /\ v_abandoning v' = true \/ v' = set_card id (put SScheduled None) v \/
  exists state reason, (state = SFailed \/ state = SQuarantined) /\ halted (Some reason) state /\
    v' = set_parked reason (set_card id (put state None) v).

Lemma quarantine_track run_id s0 v Hd P rt id step error det s rt' s' :
  track run_id s0 (set_card (st_id step) (put SFailed None) v) Hd P rt s ->
  (is_compensation step = true -> v_abandoning v = true) ->
  quarantine rt id step error det s = (Ok rt', s') ->
  exists v', track run_id s0 v' Hd P rt' s' /\ failed_view (st_id step) v v'.
Proof.
  intros Ht Hc Ha. unfold quarantine in Ha. apply kbind_ok in Ha as (rt1 & s1 & Hq & Ha).
  pose proof (append_track _ _ _ _ _ _ _ _ _ _ _ Ht Hq eq_refl I) as Ht1. cbn [effect sq_step] in Ht1. rewrite set_card_twice in Ht1.
  destruct (is_compensation step).
  - apply kbind_ok in Ha as (for_step & s2 & ->%for_step_same & Ha). apply kbind_ok in Ha as (rt2 & s2 & Hf & Ha).
    pose proof (append_track _ _ _ _ _ _ _ _ _ _ _ Ht1 Hf eq_refl I) as Ht2.
    pose proof (append_track _ _ _ _ _ _ _ _ _ _ _ Ht2 Ha eq_refl I) as Ht3. eexists. split; [exact Ht3|]. left.
    split; by apply Hc.
  - pose proof (append_track _ _ _ _ _ _ _ _ _ _ _ Ht1 Ha eq_refl I) as Ht2. eexists. split; [exact Ht2|]. right. right.
    exists SQuarantined. eexists. split; [by right|]. split; [|reflexivity]. cbn. destruct (String.eqb _ _); auto.
Qed.

Lemma after_failure_track k c run_id s0 v Hd P rt id step error det s rt' r s' :
  track run_id s0 (set_card (st_id step) (put SFailed None) v) Hd P rt s ->
  (is_compensation step = true -> v_abandoning v = true) ->
  after_failure k c rt id step error det s = (Ok (rt', r), s') ->
  exists v', track run_id s0 v' Hd P rt' s' /\ failed_view (st_id step) v v'.
Proof.
  intros Ht Hc Ha. unfold after_failure in Ha. destruct (_ && _); [|destruct (_ <=? _)];
    apply kbind_ok in Ha as (rt1 & s1 & Hq & Ha); apply kret_ok in Ha as [[= -> _] ->].
  - pose proof (append_track _ _ _ _ _ _ _ _ _ _ _ Ht Hq eq_refl I) as Ht1. eexists. split; [exact Ht1|]. right. right.
    exists SFailed. eexists. split; [by left|]. split; [|reflexivity]. done.
  - by eapply quarantine_track.
  - pose proof (append_track _ _ _ _ _ _ _ _ _ _ _ Ht Hq eq_refl I) as Ht1. eexists. split; [exact Ht1|]. right. left.
    cbn [effect sr_step]. by rewrite set_card_twice.
Qed.

Lemma failed_step d x i v' :
  at_work d x i -> failed_view (cd_id x) (d_view d) v' ->
  desk_step d {| d_view := v'; d_pending := d_pending d; d_held := drop_id i (d_held d) |}.
Proof.
  intros Hw [[_ Hup]|[->|(state & reason & Hs & Hr & ->)]]; [by apply desk_given_up | by apply desk_again | by apply desk_fail].
Qed.

Lemma fail_moves k c id error det s :
  INV s -> unique s -> all_live s -> small (snd (fail k c id error det s)) -> moves s (snd (fail k c id error det s)).
Proof.
  intros Hi Hu Hl. apply commit_moves; [intros e s' He Hs'; by eapply leased_run_moves|]. intros [l rt] s1 b s' Hrun Hc Hs'.
  assert (small s) as Hs by (eapply (leased_small _ _ _ _ _ _ _ _ Hrun Hc); [evolve_op | done]).
  destruct (leased_begun _ _ _ _ _ _ Hi Hu Hs Hrun) as (-> & <- & st & step & Hb).
  peel Hc. rewrite (bg_step _ _ _ _ _ Hb) in Ha. injection Ha as <-.
  apply kbind_ok in Hc as (rt1 & s1 & Ha & Hc).
  pose proof (append_track _ _ _ _ _ _ _ _ _ _ _ (bg_track _ _ _ _ _ Hb) Ha eq_refl I) as Ht1.
  apply kbind_ok in Hc as (u & s2 & He & Hc). pose proof (end_lease_track _ _ _ _ _ _ _ _ _ _ _ Ht1 He ltac:(done)) as Ht2.
  apply kbind_ok in Hc as ([rt2 r] & s3 & Haf & Hc).
  destruct (after_failure_track _ _ _ _ _ _ _ _ _ _ _ _ _ _ _ _ Ht2 (compensation_up _ _ _ _ _ Hl Hb) Haf) as (v' & Ht3 & Hv').
  apply kbind_ok in Hc as (u' & s4 & Hp & Hc). apply kret_ok in Hc as [_ ->].
  eapply (begun_moves _ _ _ _ _ _ _ _ Hb (persist_track _ _ _ _ _ _ _ _ _ Ht3 Hp Hs')); [done|].
  by apply (failed_step (desk (le_run_id l) s st) (card step)); [apply Hb|].
Qed.

(** *** Proposing an action *)

(** The other tables, where a write does not show on the desks. *)
Lemma track_quiet {A} run_id s0 v Hd P rt (m : M A) s a s' :
  track run_id s0 v Hd P rt s -> Frames m -> m s = (Ok a, s') -> t_leases s' = t_leases s -> t_approvals s' = t_approvals s ->
  track run_id s0 v Hd P rt s'.
Proof.
  intros Ht Hf Hm El Ea. eapply (track_frame _ _ _ _ _ _ _ _ _ _ _ _ Ht Hf Hm).
  - intros r <-. by apply held_same.
  - intros r <-. by apply pending_same.
Qed.

Lemma upsert_track run_id s0 v Hd P rt a s u s' :
  track run_id s0 v Hd P rt s -> upsert_action a s = (Ok u, s') -> track run_id s0 v Hd P rt s'.
Proof.
  intros Ht Ha. eapply (track_quiet _ _ _ _ _ _ _ _ _ _ Ht _ Ha); [by eapply upsert_leases|].
  exact (evolves_ok _ _ _ _ _ (upsert_action_approvals a) Ha).
Qed.

Lemma insert_approval_track run_id s0 v Hd P rt a s u s' :
  track run_id s0 v Hd P rt s -> insert_approval a s = (Ok u, s') -> apr_state a = "pending" ->
  track run_id s0 v Hd (fun r => P r ++ if String.eqb (apr_run_id a) r then [(apr_approval_id a, apr_step_id a)] else []) rt s'.
Proof.
  intros Ht Ha Hp. eapply (track_frame _ _ _ _ _ _ _ _ _ _ _ _ Ht _ Ha).
  - intros r <-. apply held_same. unfold insert_approval in Ha. destruct (any _ _); [discriminate|]. by injection Ha as _ <-.
  - intros r <-. by eapply pending_insert.
Qed.

(** The run is left as it is. *)
Lemma idle_moves run_id s st s' :
  logged s run_id st -> landed run_id s (view st) (fun r => held_of r s) (fun r => pending_of r s) s' -> moves s s'.
Proof. intros Hlog Hl. by eapply (landed_moves _ _ _ _ _ _ _ Hl Hlog). Qed.

Lemma request_approval_track c run_id s0 v rt p d action_id s rt' id s' :
  let l := pp_lease p in
  track run_id s0 v (fun r => held_of r s0) (fun r => pending_of r s0) rt s ->
  request_approval c rt p d action_id s = (Ok (rt', id), s') ->
  track run_id s0 (set_parked "approval" (set_card (le_step_id l) (put SWaitingApproval None) v))
    (fun r => drop_id (le_lease_id l) (held_of r s0))
    (fun r => pending_of r s0 ++ if String.eqb (le_run_id l) r then [(id, le_step_id l)] else []) rt' s'.
Proof.
  intros l Ht Hr. unfold request_approval in Hr.
  apply kbind_ok in Hr as (rt1 & s1 & Ha & Hr). pose proof (append_track _ _ _ _ _ _ _ _ _ _ _ Ht Ha eq_refl I) as Ht1.
  apply kbind_ok in Hr as (rt2 & s2 & Hw & Hr). pose proof (append_track _ _ _ _ _ _ _ _ _ _ _ Ht1 Hw eq_refl I) as Ht2.
  apply kbind_ok in Hr as (rt3 & s3 & Hp & Hr). pose proof (append_track _ _ _ _ _ _ _ _ _ _ _ Ht2 Hp eq_refl I) as Ht3.
  apply kbind_ok in Hr as (u & s4 & He & Hr). pose proof (end_lease_track _ _ _ _ _ _ _ _ _ _ _ Ht3 He ltac:(done)) as Ht4.
  apply kbind_ok in Hr as (u' & s5 & Hi & Hr). apply kret_ok in Hr as [[= -> ->] ->].
  exact (insert_approval_track _ _ _ _ _ _ _ _ _ _ Ht4 Hi eq_refl).
Qed.

Lemma decide_action_moves c rt p d refs s st step o s' :
  begun (pp_lease p) s rt st step -> decide_action c rt p d refs s = (Ok o, s') -> small s' -> moves s s'.
Proof.
  intros Hb Hd Hs'. unfold decide_action, propose in Hd.
  apply kbind_ok in Hd as (rt1 & s1 & Ha & Hd). pose proof (append_track _ _ _ _ _ _ _ _ _ _ _ (bg_track _ _ _ _ _ Hb) Ha eq_refl I) as Ht1.
  apply kbind_ok in Hd as ([e rt2] & s2 & Hdec & Hd). pose proof (append_event_track _ _ _ _ _ _ _ _ _ _ _ _ Ht1 Hdec eq_refl I) as Ht2.
  apply kbind_ok in Hd as ([rt3 o3] & s3 & Hreq & Hd). apply kbind_ok in Hd as (u & s4 & Hup & Hd).
  apply kbind_ok in Hd as (u' & s5 & Hper & Hd). apply kret_ok in Hd as [_ ->].
  destruct (decision d);
    try (apply kret_ok in Hreq as [[= -> _] ->];
         exact (idle_moves _ _ _ _ (bg_logged _ _ _ _ _ Hb) (persist_track _ _ _ _ _ _ _ _ _ (upsert_track _ _ _ _ _ _ _ _ _ _ Ht2 Hup) Hper Hs'))).
  apply kbind_ok in Hreq as ([rt4 id] & s6 & Hreq & Hr). apply kret_ok in Hr as [[= -> _] ->].
  pose proof (upsert_track _ _ _ _ _ _ _ _ _ _ (request_approval_track _ _ _ _ _ _ _ _ _ _ _ _ Ht2 Hreq) Hup) as Ht3.
  eapply (begun_moves _ _ _ _ _ _ _ _ Hb (persist_track _ _ _ _ _ _ _ _ _ Ht3 Hper Hs')).
  - intros r Hr. cbn. destruct (String.eqb_spec (le_run_id (pp_lease p)) r); [congruence|]. by rewrite app_nil_r.
  - rewrite String.eqb_refl, <- (bg_id _ _ _ _ _ Hb).
    apply (desk_ask (desk (le_run_id (pp_lease p)) s st) (card step)). apply Hb.
Qed.

Lemma propose_moves c id action s :
  INV s -> unique s -> small (snd (propose_action c id action s)) -> moves s (snd (propose_action c id action s)).
Proof.
  intros Hi Hu. unfold propose_action. unfold kbind at 1 3, kguard, kret, kfail. destruct (_ && _); [|reflexivity].
  apply commit_moves; [intros e s' He Hs'; by eapply leased_run_moves|]. intros [l rt] s1 b s' Hrun Hc Hs'.
  assert (small s) as Hs by (eapply (leased_small _ _ _ _ _ _ _ _ Hrun Hc); [evolve_op | done]).
  destruct (leased_begun _ _ _ _ _ _ Hi Hu Hs Hrun) as (-> & <- & st & step & Hb).
  peel Hc. peel Hc. peel Hc. destruct (find_first _ _) as [approval|]; [|peel Hc; destruct a1 as [policies refs]; by eapply decide_action_moves; [|exact Hc|]].
  unfold reuse_approval, propose in Hc.
  apply kbind_ok in Hc as (rt1 & s1 & Hp & Hc). pose proof (append_track _ _ _ _ _ _ _ _ _ _ _ (bg_track _ _ _ _ _ Hb) Hp eq_refl I) as Ht1.
  apply kbind_ok in Hc as ([e rt2] & s2 & Hdec & Hc). pose proof (append_event_track _ _ _ _ _ _ _ _ _ _ _ _ Ht1 Hdec eq_refl I) as Ht2.
  apply kbind_ok in Hc as (u & s3 & Hup & Hc). pose proof (upsert_track _ _ _ _ _ _ _ _ _ _ Ht2 Hup) as Ht3.
  apply kbind_ok in Hc as (u' & s4 & Hper & Hc). apply kret_ok in Hc as [_ ->].
  exact (idle_moves _ _ _ _ (bg_logged _ _ _ _ _ Hb) (persist_track _ _ _ _ _ _ _ _ _ Ht3 Hper Hs')).
Qed.

Lemma heartbeat_moves c id s :
  INV s -> unique s -> small (snd (heartbeat c id s)) -> moves s (snd (heartbeat c id s)).
Proof.
  intros Hi Hu. apply commit_moves; [intros e s' He Hs'; by eapply live_lease_moves|].
  intros l s1 b s' (-> & _)%live_lease_ok Hc Hs'. apply kbind_ok in Hc as (u & s1 & He & Hc). apply kret_ok in Hc as [_ ->].
  apply moves_same; intros r; [by injection He as _ <- | by eapply held_expiry | by injection He as _ <-].
Qed.

(** *** Deciding on an approval *)

Lemma track_wf run_id s0 v Hd P rt s : track run_id s0 v Hd P rt s -> small s -> RunState_wf (rt_state rt).
Proof.
  intros Ht Hs. destruct (tr_tx _ _ _ _ _ _ _ Ht Hs) as [Hx _]. destruct (tx_run _ _ Hx) as (evs & st & Hl & Hsim & _).
  eapply sim_wf; [exact Hsim|]. apply Hl.
Qed.

Lemma decision_track run_id s0 v Hd P rt id d a x t s u s' :
  track run_id s0 v Hd P rt s -> record_decision id d a x t s = (Ok u, s') -> d <> "pending" ->
  track run_id s0 v Hd (fun r => drop_id id (P r)) rt s'.
Proof.
  intros Ht He Hd'. eapply (track_frame _ _ _ _ _ _ _ _ _ _ _ _ Ht _ He).
  - intros r <-. apply held_same. by injection He as _ <-.
  - intros r <-. by eapply pending_decide.
Qed.

Lemma set_absent id f v : any (is_card id) (v_cards v) = false -> set_card id f v = v.
Proof.
  intros Ha. destruct v as [st re ab l]. unfold set_card. cbn in *. f_equal. induction l as [|x l IH]; [done|]. cbn in *.
  apply orb_false_iff in Ha as [-> Ha]. by rewrite (IH Ha).
Qed.

(** Scheduling a step that is there. *)
Lemma schedule_effect st v : any (is_card (st_id st)) (v_cards v) = true -> v_status v <> RCreated ->
  effect (schedule_payload st) v = set_card (st_id st) (put SScheduled None) v.
Proof.
  intros Ha Hs. unfold schedule_payload. cbn [effect]. unfold schedule_card. cbn [ss_step]. rewrite Ha. cbn. by destruct (v_status v).
Qed.

Lemma after_approval_track run_id s0 v Hd P rt id s rt' s' :
  track run_id s0 v Hd P rt s -> view (rt_state rt) = v -> v_status v = RParked -> RunState_wf (rt_state rt) ->
  after_approval rt (find_step id (rt_state rt)) s = (Ok rt', s') ->
  track run_id s0 (set_card id (put SScheduled None) (set_status RRunning v)) Hd P rt' s'.
Proof.
  intros Ht E Hv Hw Ha. unfold after_approval in Ha. apply kbind_ok in Ha as (rt1 & s1 & Hr & Ha).
  assert (is_status RParked (rt_state rt) = true) as Hp.
  { unfold is_status. apply bool_decide_eq_true. rewrite <- E in Hv. exact Hv. }
  rewrite Hp in Hr. pose proof (append_track _ _ _ _ _ _ _ _ _ _ _ Ht Hr eq_refl I) as Ht1. cbn [effect] in Ht1.
  pose proof (find_step_card id (rt_state rt)) as Hc. rewrite E in Hc.
  pose proof (wf_step_u32 _ id Hw) as Hu. destruct (find_step id (rt_state rt)) as [st|] eqn:Ef.
  - destruct (found_card _ _ _ Ef) as [_ Hid]. cbn in Hid. subst id.
    pose proof (append_track _ _ _ _ _ _ _ _ _ _ _ Ht1 Ha eq_refl (Hu st eq_refl)) as Ht2. by rewrite schedule_effect in Ht2.
  - apply kret_ok in Ha as [-> ->]. by rewrite set_absent.
Qed.

Lemma after_rejection_track run_id s0 v Hd P rt id actor reason s rt' s' :
  track run_id s0 v Hd P rt s -> view (rt_state rt) = v ->
  after_rejection rt (find_step id (rt_state rt)) actor reason s = (Ok rt', s') ->
  track run_id s0 (set_status RFailed (set_card id (put SFailed None) v)) Hd P rt' s'.
Proof.
  intros Ht E Ha. unfold after_rejection in Ha. apply kbind_ok in Ha as (rt1 & s1 & Hr & Ha).
  pose proof (find_step_card id (rt_state rt)) as Hc. rewrite E in Hc.
  destruct (find_step id (rt_state rt)) as [st|] eqn:Ef.
  - destruct (found_card _ _ _ Ef) as [_ Hid]. cbn in Hid. subst id.
    exact (append_track _ _ _ _ _ _ _ _ _ _ _ (append_track _ _ _ _ _ _ _ _ _ _ _ Ht Hr eq_refl I) Ha eq_refl I).
  - apply kret_ok in Hr as [-> ->]. rewrite set_absent by done. exact (append_track _ _ _ _ _ _ _ _ _ _ _ Ht Ha eq_refl I).
Qed.

(** A run that is given up stays so. *)
Lemma after_decision_up run_id s0 v Hd P rt (b : bool) o actor reason s rt' s' :
  track run_id s0 v Hd P rt s -> v_abandoning v = true -> step_u32 o ->
  (if b then after_approval rt o else after_rejection rt o actor reason) s = (Ok rt', s') -> track run_id s0 v Hd P rt' s'.
Proof.
  intros Ht Hv Ho Ha. destruct b.
  - unfold after_approval in Ha. apply kbind_ok in Ha as (rt1 & s1 & Hr & Ha).
    assert (track run_id s0 v Hd P rt1 s1) as Ht1.
    { destruct (is_status _ _); [exact (append_up _ _ _ _ _ _ _ _ _ _ _ Ht Hr Hv I) | by apply kret_ok in Hr as [-> ->]]. }
    destruct o as [st|]; [exact (append_up _ _ _ _ _ _ _ _ _ _ _ Ht1 Ha Hv (Ho st eq_refl)) | by apply kret_ok in Ha as [-> ->]].
  - unfold after_rejection in Ha. apply kbind_ok in Ha as (rt1 & s1 & Hr & Ha).
    assert (track run_id s0 v Hd P rt1 s1) as Ht1.
    { destruct o; [exact (append_up _ _ _ _ _ _ _ _ _ _ _ Ht Hr Hv I) | by apply kret_ok in Hr as [-> ->]]. }
    exact (append_up _ _ _ _ _ _ _ _ _ _ _ Ht1 Ha Hv I).
Qed.

Lemma decide_moves c id d actor reason s :
  INV s -> unique s -> all_live s ->
  small (snd (decide_approval c id d actor reason s)) -> moves s (snd (decide_approval c id d actor reason s)).
Proof.
  intros Hi Hu Hl. unfold decide_approval. rewrite !kguard_bind.
  destruct (_ || _) eqn:Ed; [|reflexivity]. do 2 (destruct (negb _); [|reflexivity]).
  apply transaction_moves. intros out s' Hm Hs'. peel Hm. peel Hm. peel Hm. peel Hm.
  assert (d <> "pending") as Hd by (intros ->; done). apply get_approval_in in Ha as [Hain <-]. apply String.eqb_eq in Ha0.
  assert (small s) as Hs.
  { match type of Hm with ?m _ = _ => eapply (evolved_small m s); [evolve_op | exact Hm | done] end. }
  apply kbind_ok in Hm as (rt & s1 & Hload & Hm). destruct (load_track _ _ _ _ _ Hi Hload Hs) as (-> & Ht & Hreq & _).
  destruct (loaded_view _ _ _ Hi Hs Hreq) as (st & Hlog & Hv & _). change (row_state (rt_run rt)) with (rt_state rt) in Hv. rewrite <- Hv in Ht.
  apply kbind_ok in Hm as (u & s1 & Hdec & Hm). pose proof (decision_track _ _ _ _ _ _ _ _ _ _ _ _ _ _ Ht Hdec Hd) as Ht1.
  apply kbind_ok in Hm as (rt1 & s2 & Hap & Hm). pose proof (append_track _ _ _ _ _ _ _ _ _ _ _ Ht1 Hap eq_refl I) as Ht2. cbn [effect] in Ht2.
  assert (small s2) as Hs2.
  { match type of Hm with ?m _ = _ => eapply (evolved_small m s2); [evolve_op | exact Hm | done] end. }
  pose proof (track_wf _ _ _ _ _ _ _ Ht2 Hs2) as Hw.
  apply kbind_ok in Hm as (rt2 & s3 & Haf & Hm). apply kbind_ok in Hm as (u' & s4 & Hper & Hm). apply kret_ok in Hm as [_ ->].
  assert (exists v, track (apr_run_id a) s v (fun r => held_of r s) (fun r => drop_id (apr_approval_id a) (pending_of r s)) rt2 s3 /\
    desk_step (desk (apr_run_id a) s st) {| d_view := v; d_pending := drop_id (apr_approval_id a) (pending_of (apr_run_id a) s);
                                            d_held := held_of (apr_run_id a) s |}) as (v & Ht3 & Hstep).
  { destruct (track_cases _ _ _ _ _ _ _ Ht2) as [(v1 & Hup & Htu)|E]; [|destruct (v_abandoning (view st)) eqn:Eup].
    - exists v1. split; [eapply after_decision_up; [exact Htu | done | by apply wf_step_u32 | exact Haf] | by apply desk_given_up].
    - exists (view st). split; [eapply after_decision_up; [exact Ht2 | done | by apply wf_step_u32 | exact Haf] | by apply desk_given_up].
    - pose proof (is_pending s a Hain Ha0) as Hpe. destruct (String.eqb d "approved").
      + destruct (live_pending _ _ _ (Hl _ _ Hlog) Eup Hpe) as (Hpark & _).
        eexists. split; [eapply after_approval_track; [exact Ht2 | done..| exact Haf]|].
        by apply (desk_approve (desk (apr_run_id a) s st)).
      + eexists. split; [eapply after_rejection_track; [exact Ht2 | done | exact Haf]|].
        by apply (desk_reject (desk (apr_run_id a) s st)). }
  eapply (landed_moves _ _ _ _ _ _ _ (persist_track _ _ _ _ _ _ _ _ _ Ht3 Hper Hs') Hlog); [done | |by apply rtc_once].
  intros r Hr. by apply other_pending.
Qed.

(** *** Resuming *)

Lemma append_view rt actor p s rt' s' :
  append rt actor p s = (Ok rt', s') -> viewed p = true -> payload_u32 p -> view (rt_state rt') = effect p (view (rt_state rt)).
Proof. intros (e & Hk & Hp & Ha & _)%append_state Hv Hu. by eapply apply_effect. Qed.

Lemma update_first_ids id f l : List.NoDup (map cd_id l) ->
  update_first (is_card id) f l = map (fun x => if is_card id x then f x else x) l.
Proof.
  induction l as [|x l IH]; [done|]. cbn. intros Hn. inversion Hn as [|? ? Hx Hn']; subst.
  destruct (is_card id x) eqn:E; [|by rewrite IH]. f_equal. rewrite <- (map_id l) at 1. apply map_ext_in. intros y Hy.
  destruct (is_card id y) eqn:Ey; [|done]. exfalso. apply Hx. apply String.eqb_eq in E, Ey. rewrite E, <- Ey. by apply in_map.
Qed.

Definition reschedule_all (ids : list string) (v : View) : View :=
  fold_left (fun v id => set_card id (put SScheduled None) v) ids v.

Lemma reschedule_all_cards ids v : List.NoDup (map cd_id (v_cards v)) ->
  reschedule_all ids v = {| v_status := v_status v; v_reason := v_reason v; v_abandoning := v_abandoning v;
    v_cards := map (fun x => if str_in (cd_id x) ids then put SScheduled None x else x) (v_cards v) |}.
Proof.
  revert v. induction ids as [|id ids IH]; intros v Hn.
  - cbn. rewrite map_id. by destruct v.
  - cbn [reschedule_all fold_left]. fold (reschedule_all ids (set_card id (put SScheduled None) v)).
    assert (map cd_id (v_cards (set_card id (put SScheduled None) v)) = map cd_id (v_cards v)) as Hids.
    { cbn. rewrite update_first_ids, map_map by done. apply map_ext. intros x. by destruct (is_card id x). }
    rewrite IH by by rewrite Hids. cbn. f_equal. rewrite update_first_ids, map_map by done. apply map_ext. intros x.
    unfold is_card. unfold str_in. cbn. destruct (String.eqb (cd_id x) id); cbn; [|done].
    by destruct (any _ _).
Qed.

Lemma reschedule_track run_id s0 Hd P stuck : forall v rt s rt' s',
  track run_id s0 v Hd P rt s -> v_status v = RRunning -> steps_u32 stuck ->
  Forall (fun st => any (is_card (st_id st)) (v_cards v) = true) stuck ->
  kfold stuck rt (fun rt st => append rt Act.kernel (schedule_payload st)) s = (Ok rt', s') ->
  track run_id s0 (reschedule_all (map st_id stuck) v) Hd P rt' s'.
Proof.
  induction stuck as [|st l IH]; intros v rt s rt' s' Ht Hv Hu Hin Hf; cbn [kfold] in Hf; [by apply kret_ok in Hf as [-> ->]|].
  inversion Hu as [|? ? Hu1 Hu2]; subst. inversion Hin as [|? ? Hin1 Hin2]; subst. apply kbind_ok in Hf as (rt1 & s1 & Ha & Hf).
  pose proof (append_track _ _ _ _ _ _ _ _ _ _ _ Ht Ha eq_refl Hu1) as Ht1. rewrite schedule_effect in Ht1 by (done || by rewrite Hv).
  cbn [map reschedule_all fold_left]. eapply IH; [exact Ht1 | done | done | | exact Hf].
  eapply List.Forall_impl; [|exact Hin2]. cbn. intros x Hx. apply any_true in Hx as (y & Hy & Hyx). apply any_true.
  clear -Hy Hyx. induction (v_cards v) as [|z l IH]; [done|]. cbn. destruct (is_card (st_id st) z) eqn:E.
  - destruct Hy as [->|Hy]; [exists (put SScheduled None y); split; [by left | done] | exists y; split; [by right | done]].
  - destruct Hy as [->|Hy]; [exists y; split; [by left | done]|]. destruct (IH Hy) as (w & Hw & Hwx). exists w. split; [by right | done].
Qed.

Lemma reschedule_up run_id s0 v Hd P stuck : forall rt s rt' s',
  track run_id s0 v Hd P rt s -> v_abandoning v = true -> steps_u32 stuck ->
  kfold stuck rt (fun rt st => append rt Act.kernel (schedule_payload st)) s = (Ok rt', s') -> track run_id s0 v Hd P rt' s'.
Proof.
  induction stuck as [|st l IH]; intros rt s rt' s' Ht Hv Hu Hf; cbn [kfold] in Hf; [by apply kret_ok in Hf as [-> ->]|].
  inversion Hu as [|? ? Hu1 Hu2]; subst. apply kbind_ok in Hf as (rt1 & s1 & Ha & Hf).
  exact (IH _ _ _ _ (append_up _ _ _ _ _ _ _ _ _ _ _ Ht Ha Hv Hu1) Hv Hu2 Hf).
Qed.

(** The steps that are woken are those whose cards are. *)
Lemma stuck_cards s v :
  view s = v -> proper (v_cards v) ->
  reschedule_all (map st_id (List.filter (fun st => step_is SQuarantined st || step_is SFailed st) (workflow_steps s))) v = wake_all v.
Proof.
  intros <- [Hk Hn _]. rewrite reschedule_all_cards by done. unfold wake_all. f_equal. apply map_ext_in. intros x Hx.
  pose proof Hx as (st & <- & Hst)%in_map_iff. unfold wake.
  assert (str_in (cd_id (card st)) (map st_id (List.filter (fun st => step_is SQuarantined st || step_is SFailed st) (workflow_steps s)))
          = (step_is SQuarantined st || step_is SFailed st)) as ->; [|unfold step_is; cbn; by destruct (st_state st)].
  apply eq_true_iff_eq. unfold str_in. rewrite existsb_exists. split.
  - intros (id & (st' & <- & Hst')%in_map_iff & E%String.eqb_eq). cbn in E. apply filter_In in Hst' as [Hw Hb].
    apply filter_In in Hw as [Hw _]. rewrite (nodup_inj st_id (rs_steps s) st st'); try done. cbn in Hn. by rewrite map_map in Hn.
  - intros Hb. exists (st_id st). split; [|apply String.eqb_refl]. apply in_map, filter_In. split; [|done].
    apply filter_In. split; [done|]. rewrite List.Forall_forall in Hk. specialize (Hk _ Hx). cbn in Hk.
    unfold is_compensation. by destruct Hk as [<-|[<-|[<-|[]]]].
Qed.

Lemma resume_moves c run_id actor s :
  INV s -> all_live s -> small (snd (resume c run_id actor s)) -> moves s (snd (resume c run_id actor s)).
Proof.
  intros Hi Hl. apply transaction_moves. intros out s' Hm Hs'.
  assert (small s) as Hs by (match type of Hm with ?m _ = _ => eapply (evolved_small m s); [evolve_op | exact Hm | done] end).
  apply kbind_ok in Hm as (rt & s1 & Hload & Hm). destruct (load_track _ _ _ _ _ Hi Hload Hs) as (-> & Ht & Hreq & _).
  destruct (loaded_view _ _ _ Hi Hs Hreq) as (st & Hlog & Hv & _). change (row_state (rt_run rt)) with (rt_state rt) in Hv. rewrite <- Hv in Ht.
  do 4 peel Hm. unfold is_status in Ha. apply bool_decide_eq_true in Ha.
  assert (v_status (view st) = RParked) as Hpark by by rewrite Hv.
  assert (v_reason (view st) <> Some "budget") as Hwhy.
  { rewrite Hv. cbn. rewrite Ha. intros E. rewrite E in Ha0. discriminate Ha0. }
  assert (pending_of run_id s = []) as Hnone by (unfold pending_of; by destruct (pending_in_run run_id s)).
  apply kbind_ok in Hm as (rt1 & s1 & Hap & Hm). pose proof (append_track _ _ _ _ _ _ _ _ _ _ _ Ht Hap eq_refl I) as Ht1. cbn [effect] in Ht1.
  assert (small s1) as Hs1 by (match type of Hm with ?m _ = _ => eapply (evolved_small m s1); [evolve_op | exact Hm | done] end).
  set (stuck := List.filter _ (workflow_steps (rt_state rt1))) in Hm.
  assert (steps_u32 stuck) as Hu by (eapply wf_steps_u32; [exact (track_wf _ _ _ _ _ _ _ Ht1 Hs1) | apply workflow_steps_in]).
  apply kbind_ok in Hm as (rt2 & s2 & Hf & Hm). apply kbind_ok in Hm as (u & s3 & Hper & Hm). apply kret_ok in Hm as [_ ->].
  assert (exists v, track run_id s v (fun r => held_of r s) (fun r => pending_of r s) rt2 s2 /\
    desk_step (desk run_id s st) {| d_view := v; d_pending := pending_of run_id s; d_held := held_of run_id s |}) as (v & Ht2 & Hstep).
  { destruct (track_cases _ _ _ _ _ _ _ Ht1) as [(v1 & Hup & Htu)|E]; [|destruct (v_abandoning (view st)) eqn:Eup].
    - exists v1. split; [by eapply reschedule_up | by apply desk_given_up].
    - eexists. split; [eapply reschedule_up; [exact Ht1 | done | done | exact Hf] | by apply desk_given_up].
    - destruct (Hl _ _ Hlog Eup) as [Hpr _]. exists (wake_all (set_status RRunning (view st))).
      split; [|by apply (desk_resume (desk run_id s st))]. rewrite <- (stuck_cards (rt_state rt1)) by done.
      eapply reschedule_track; [exact Ht1 | done | done | | exact Hf]. apply List.Forall_forall. intros x Hx%workflow_steps_in.
      rewrite <- E. apply any_true. exists (card x). split; [by apply in_map|]. apply String.eqb_refl. }
  eapply (landed_moves _ _ _ _ _ _ _ (persist_track _ _ _ _ _ _ _ _ _ Ht2 Hper Hs') Hlog); [done..|]. by apply rtc_once.
Qed.

(** *** Leasing *)

Lemma insert_lease_track run_id s0 v Hd P rt l s u s' :
  track run_id s0 v Hd P rt s -> insert_lease l s = (Ok u, s') -> le_state l = "active" ->
  track run_id s0 v (fun r => Hd r ++ if String.eqb (le_run_id l) r then [(le_lease_id l, le_step_id l)] else []) P rt s'.
Proof.
  intros Ht Ha Hp. eapply (track_frame _ _ _ _ _ _ _ _ _ _ _ _ Ht _ Ha).
  - intros r <-. by eapply held_insert.
  - intros r <-. apply pending_same. unfold insert_lease in Ha. destruct (any _ _); [discriminate|]. by injection Ha as _ <-.
Qed.

Lemma grant_moves c request ttl kinds now run_id st step s g s' :
  INV s -> small s -> logged s run_id st -> may_run kinds now st step ->
  grant c request ttl run_id (st_id step) s = (Ok g, s') -> small s' -> moves s s'.
Proof.
  intros Hi Hs Hlog Hmay Hg Hs'.
  apply grant_inv in Hg as (row & x & Hrow & Hstep & Hgr & Hgs & Hatt & rt1 & s1 & l & s2 & u & Hap & Hins & Hl & Hlr & Hls & Hlw & Hla & Hper).
  destruct (load_track (c_now c) run_id s {| rt_ts := format_ms (c_now c); rt_run := row; rt_defs := [] |} s Hi) as (_ & Ht & _);
    [unfold load_run, kbind, kread; by rewrite Hrow | done |].
  destruct (loaded_view _ _ _ Hi Hs Hrow) as (st' & Hlog' & Hv & _). rewrite (logged_unique _ _ _ _ Hlog' Hlog) in *. clear st' Hlog'.
  unfold rt_state in Ht at 1. cbn [rt_run] in Ht. rewrite <- Hv in Ht.
  pose proof (append_track _ _ _ _ _ _ _ _ _ _ _ Ht Hap eq_refl ltac:(cbn; rewrite Hatt; apply u32_add_ok)) as Ht1. cbn [effect sl_step sl_lease_id] in Ht1.
  pose proof (persist_track _ _ _ _ _ _ _ _ _ (insert_lease_track _ _ _ _ _ _ _ _ _ _ Ht1 Hins Hla) Hper Hs') as Hland.
  eapply (landed_moves _ _ _ _ _ _ _ Hland Hlog); [|done|].
  - intros r Hr. cbn. destruct (String.eqb_spec (le_run_id l) r); [congruence|]. by rewrite app_nil_r.
  - apply rtc_once. rewrite Hlr, String.eqb_refl, Hl, Hls.
    apply (desk_lease (desk run_id s st) (card step)); try apply Hmay.
    + apply in_map, Hmay.
    + intros y (e & <- & He)%in_map_iff Hc Hidx. by apply (mr_order _ _ _ _ Hmay).
Qed.

Lemma lease_moves k c request s :
  INV s -> small (snd (lease k c request s)) -> moves s (snd (lease k c request s)).
Proof.
  intros Hi. unfold lease. rewrite !kguard_bind. destruct (negb _); [|reflexivity].
  apply transaction_moves. intros out s' Hm Hs'.
  assert (small s) as Hs by (match type of Hm with ?m _ = _ => eapply (evolved_small m s); [evolve_op | exact Hm | done] end).
  peel Hm. destruct (pick_runnable _ _ s) as [[run_id id]|] eqn:Ep; [|apply kret_ok in Hm as [_ ->]; reflexivity].
  apply kbind_ok in Hm as (g & s1 & Hg & Hm). apply kret_ok in Hm as [_ ->].
  destruct (picked_may_run _ _ _ _ _ (Hi Hs) Hs Ep) as (row & st & step & _ & _ & Hlog & Hmay & <-).
  by eapply grant_moves.
Qed.

(** *** External events *)

Lemma external_view s e s' : Kind.is_external (ev_kind e) = true -> apply s e = Ok s' -> view s' = view s.
Proof.
  intros Hk (q & Hq & [[Hf ->]|[Hf Hd]])%apply_inv.
  - destruct (dummy_effect _ (view s) Hf) as [Ed Ev]. by rewrite (apply_view _ _ _ _ Ev Hq), view_last_seq, Ed.
  - by destruct (ev_kind e).
Qed.

Lemma ksome_bind {A B} (o : option A) e (m : A -> M B) s :
  kbind (ksome o e) m s = match o with Some a => m a s | None => (Err e, s) end.
Proof. by destruct o. Qed.

Lemma post_external_moves k c run_id kind payload actor auth s :
  INV s -> small (snd (post_external_event k c run_id kind payload actor auth s)) ->
  moves s (snd (post_external_event k c run_id kind payload actor auth s)).
Proof.
  intros Hi. unfold post_external_event. rewrite ksome_bind. destruct (Kind.parse kind) as [kd|]; [|reflexivity].
  rewrite kguard_bind. destruct (Kind.is_external kd) eqn:Hk; [|reflexivity].
  rewrite ksome_bind. destruct (de_actor actor) as [act|]; [|reflexivity].
  rewrite kguard_bind. destruct (external_actor act); [|reflexivity].
  rewrite ksome_bind. destruct (truncate_payload payload) as [pl|]; [|reflexivity].
  apply transaction_moves. intros out s' Hm Hs'.
  assert (small s) as Hs by (match type of Hm with ?m _ = _ => eapply (evolved_small m s); [evolve_op | exact Hm | done] end).
  apply kbind_ok in Hm as (rt & s1 & Hload & Hm). destruct (load_track _ _ _ _ _ Hi Hload Hs) as (-> & Ht & Hreq & _).
  destruct (loaded_view _ _ _ Hi Hs Hreq) as (st & Hlog & Hv & _). change (row_state (rt_run rt)) with (rt_state rt) in Hv. rewrite <- Hv in Ht.
  apply kbind_ok in Hm as (u & s1 & Hauth & Hm).
  assert (s1 = s) as ->.
  { unfold authorise in Hauth. peel Hauth. destruct auth; [by apply kguard_ok in Hauth as [_ ->]| |discriminate].
    destruct (verify_remit_token _ _ _); [by apply kguard_ok in Hauth as [_ ->] | discriminate]. }
  apply kbind_ok in Hm as ([e rt1] & s1 & Hap & Hm). apply kbind_ok in Hm as (u' & s2 & Hper & Hm). apply kret_ok in Hm as [_ ->].
  pose proof (append_raw_inv _ _ _ _ _ _ _ _ Hap) as (He & _ & Happ & _).
  assert (track run_id s (view st) (fun r => held_of r s) (fun r => pending_of r s) rt1 s1) as Ht1.
  { eapply append_raw_track; [exact Ht | exact Hap | by apply external_nums |]. intros E. right. rewrite <- E.
    eapply external_view; [|exact Happ]. by rewrite He. }
  exact (idle_moves _ _ _ _ Hlog (persist_track _ _ _ _ _ _ _ _ _ Ht1 Hper Hs')).
Qed.

(** *** Giving a run up *)

Lemma end_leases_track run_id s0 v P rt how (ls : list LeaseRow) : how <> "active" -> forall Hd s u s',
  track run_id s0 v Hd P rt s -> kfor ls (fun l => end_lease (le_lease_id l) how) s = (Ok u, s') ->
  (forall l r, In l ls -> r <> run_id -> drop_id (le_lease_id l) (Hd r) = Hd r) ->
  exists Hd', track run_id s0 v Hd' P rt s' /\ forall r, r <> run_id -> Hd' r = Hd r.
Proof.
  intros Hh. induction ls as [|l ls IH]; intros Hd s u s' Ht Hf Ho; cbn [kfor] in Hf; [apply kret_ok in Hf as [_ ->]; eauto|].
  apply kbind_ok in Hf as (u' & s1 & He & Hf). pose proof (end_lease_track _ _ _ _ _ _ _ _ _ _ _ Ht He Hh) as Ht1.
  destruct (IH _ _ _ _ Ht1 Hf) as (Hd' & Ht' & Hr').
  - intros x r Hx Hr. rewrite (Ho l r ltac:(by left) Hr). apply Ho; [by right | done].
  - exists Hd'. split; [done|]. intros r Hr. rewrite Hr' by done. apply Ho; [by left | done].
Qed.

Lemma cancel_track run_id s0 v Hd rt actor reason t (ls : list ApprovalRow) : forall P s u s',
  track run_id s0 v Hd P rt s ->
  kfor ls (fun a => record_decision (apr_approval_id a) "cancelled" actor reason t) s = (Ok u, s') ->
  (forall a r, In a ls -> r <> run_id -> drop_id (apr_approval_id a) (P r) = P r) ->
  exists P', track run_id s0 v Hd P' rt s' /\ forall r, r <> run_id -> P' r = P r.
Proof.
  induction ls as [|l ls IH]; intros P s u s' Ht Hf Ho; cbn [kfor] in Hf; [apply kret_ok in Hf as [_ ->]; eauto|].
  apply kbind_ok in Hf as (u' & s1 & He & Hf). pose proof (decision_track _ _ _ _ _ _ _ _ _ _ _ _ _ _ Ht He ltac:(done)) as Ht1.
  destruct (IH _ _ _ _ Ht1 Hf) as (P' & Ht' & Hr').
  - intros x r Hx Hr. rewrite (Ho l r ltac:(by left) Hr). apply Ho; [by right | done].
  - exists P'. split; [done|]. intros r Hr. rewrite Hr' by done. apply Ho; [by left | done].
Qed.

Lemma abandoned_track run_id s0 v Hd P rt actor p s rt' s' :
  track run_id s0 v Hd P rt s -> append rt actor (PRunAbandoned p) s = (Ok rt', s') ->
  exists v', v_abandoning v' = true /\ track run_id s0 v' Hd P rt' s'.
Proof.
  intros Ht Ha. exists (view (rt_state rt')).
  assert (v_abandoning (view (rt_state rt')) = true) as Hup.
  { apply append_state in Ha as (e & Hk & Hp & Ha & _). apply apply_inv in Ha as (q & Hq & [[Hf _]|[_ Hd']]); [by rewrite Hk in Hf|].
    rewrite Hk, Hp in Hd'. cbn [payload_kind payload_value decode_payload] in Hd'. apply fmap_inv in Hd' as (x & _ & ->).
    cbn [apply_payload] in Hq. by injection Hq as <-. }
  split; [done|]. unfold append in Ha. apply kbind_ok in Ha as ([e rt1] & s1 & Ha & Hr). apply kret_ok in Hr as [-> ->].
  eapply append_raw_track; [exact Ht | exact Ha | intros q; by apply payload_value_nums | by left].
Qed.

Lemma unwind_track run_id s0 v Hd P id state steps : forall u s u' s',
  track run_id s0 v Hd P (uw_rt u) s -> v_abandoning v = true -> u32_ok (uw_next_index u) ->
  kfold steps u (unwind_step id state) s = (Ok u', s') -> track run_id s0 v Hd P (uw_rt u') s'.
Proof.
  induction steps as [|x l IH]; intros u s u' s' Ht Hv Hu Hf; cbn [kfold] in Hf; [by apply kret_ok in Hf as [-> ->]|].
  apply kbind_ok in Hf as (u1 & s1 & Hs & Hf).
  enough (track run_id s0 v Hd P (uw_rt u1) s1 /\ u32_ok (uw_next_index u1)) as [Ht1 Hu1] by exact (IH _ _ _ _ Ht1 Hv Hu1 Hf).
  clear IH Hf. unfold unwind_step in Hs. destruct (any _ _); [by apply kret_ok in Hs as [-> ->]|]. peel Hs.
  destruct a as [row|]; [|by apply kret_ok in Hs as [-> ->]].
  destruct (declared_compensation _) as [[tool template]|]; [|by apply kret_ok in Hs as [-> ->]].
  destruct (resolve _ _) as [args|e].
  - apply kbind_ok in Hs as (rt1 & s2 & Ha1 & Hs). pose proof (append_up _ _ _ _ _ _ _ _ _ _ _ Ht Ha1 Hv I) as Ht1.
    apply kbind_ok in Hs as (rt2 & s3 & Ha2 & Hs). apply kret_ok in Hs as [-> ->]. cbn. split; [|apply u32_add_ok].
    eapply append_up; [|exact Ha2|done|exact Hu]. eapply track_row; [|exact Ht1]. done.
  - apply kbind_ok in Hs as (rt1 & s2 & Ha1 & Hs). apply kret_ok in Hs as [-> ->]. cbn. split; [|done].
    exact (append_up _ _ _ _ _ _ _ _ _ _ _ Ht Ha1 Hv I).
Qed.

Lemma abandon_moves c run_id reason actor s :
  INV s -> unique s -> small (snd (abandon c run_id reason actor s)) -> moves s (snd (abandon c run_id reason actor s)).
Proof.
  intros Hi Hu. apply transaction_moves. intros out s' Hm Hs'.
  assert (small s) as Hs by (match type of Hm with ?m _ = _ => eapply (evolved_small m s); [evolve_op | exact Hm | done] end).
  apply kbind_ok in Hm as (rt & s1 & Hload & Hm). destruct (load_track _ _ _ _ _ Hi Hload Hs) as (-> & Ht & Hreq & _).
  destruct (loaded_view _ _ _ Hi Hs Hreq) as (st & Hlog & Hv & _). do 3 peel Hm.
  apply kbind_ok in Hm as (u & s1 & Hend & Hm).
  destruct (end_leases_track _ _ _ _ _ "released" _ ltac:(done) _ _ _ _ Ht Hend) as (Hd & Ht1 & Hoh).
  { intros l r [Hin Hl]%filter_In Hr. apply andb_true_iff in Hl as [_ E%String.eqb_eq]. apply other_held; [done..|congruence]. }
  peel Hm. apply kbind_ok in Hm as (u' & s2 & Hcan & Hm).
  destruct (cancel_track _ _ _ _ _ _ _ _ _ _ _ _ _ Ht1 Hcan) as (P & Ht2 & Hop).
  { intros l r [Hin Hl]%filter_In Hr. apply andb_true_iff in Hl as [E%String.eqb_eq _].
    assert (t_approvals s1 = t_approvals s) as Eap
      by exact (evolves_ok same_approvals _ _ _ _ _ Hend).
    rewrite Eap in Hin. apply other_pending; [done..|congruence]. }
  apply kbind_ok in Hm as (rt1 & s3 & Hab & Hm). destruct (abandoned_track _ _ _ _ _ _ _ _ _ _ _ Ht2 Hab) as (v & Hup & Ht3).
  apply kbind_ok in Hm as (uw & s4 & Hf & Hm). 
  assert (track run_id s v Hd P (uw_rt uw) s4) as Ht4
    by (eapply unwind_track; [| | |exact Hf]; [exact Ht3 | exact Hup | apply max_index_ok]).
  apply kbind_ok in Hm as (rt2 & s5 & Hfail & Hm).
  assert (track run_id s v Hd P rt2 s5) as Ht5.
  { destruct (uw_failed uw); [exact (append_up _ _ _ _ _ _ _ _ _ _ _ Ht4 Hfail Hup I) | by apply kret_ok in Hfail as [-> ->]]. }
  apply kbind_ok in Hm as (u'' & s6 & Hper & Hm). apply kret_ok in Hm as [_ ->].
  eapply (landed_moves _ _ _ _ _ _ _ (persist_track _ _ _ _ _ _ _ _ _ Ht5 Hper Hs') Hlog); [done..|].
  by apply rtc_once, desk_given_up.
Qed.

(** *** Sweeping *)

Lemma expire_rows now l s u s' x :
  expire_lease now l s = (Ok u, s') -> In x (t_leases s) -> le_lease_id x <> le_lease_id l -> In x (t_leases s').
Proof.
  intros He Hin Hne. unfold expire_lease in He. apply kbind_ok in He as (rt & s1 & Hl & He). unfold load_run in Hl. peel Hl.
  apply kret_ok in Hl as [-> ->]. apply kbind_ok in He as (u' & s2 & Hm & He).
  assert (t_leases s2 = t_leases s) as El.
  { destruct (lease_held _ _); [|by apply kret_ok in Hm as [_ ->]]. apply kbind_ok in Hm as (rt1 & s3 & Ha1 & Hp).
    rewrite (persist_leases _ _ _ _ Hp). by eapply append_leases. }
  unfold end_lease, set_lease, kput in He. injection He as _ <-. cbn. apply in_map_iff. exists x. rewrite El. split; [|done].
  unfold is_lease. apply String.eqb_neq in Hne. by rewrite Hne.
Qed.

Lemma expire_all_moves now ls : forall s u s',
  INV s -> unique s -> List.NoDup (map le_lease_id ls) -> Forall (fun l => In l (t_leases s) /\ le_state l = "active") ls ->
  kfor ls (expire_lease now) s = (Ok u, s') -> small s' -> moves s s'.
Proof.
  induction ls as [|l ls IH]; intros s u s' Hi Hu Hn Hin Hf Hs'; cbn [kfor] in Hf; [apply kret_ok in Hf as [_ ->]; reflexivity|].
  apply kbind_ok in Hf as (u' & s1 & He & Hf). inversion Hn as [|? ? Hnl Hn']; subst. inversion Hin as [|? ? [Hl Ha] Hin']; subst.
  assert (small s1) as Hs1 by (eapply (evolved_small (kfor ls (expire_lease now)) s1); [evolve_op | exact Hf | done]).
  transitivity s1; [by eapply expire_moves|]. apply (IH s1 u s'); try done.
  - pose proof (expire_lease_keeps now l s Hi) as Hk. by rewrite He in Hk.
  - assert (Evolves stays_unique (expire_lease now l)) as Hev by evolve_op. exact (evolves_ok _ _ _ _ _ Hev He Hu).
  - rewrite List.Forall_forall in *. intros x Hx. destruct (Hin' x Hx) as [Hxin Hxa]. split; [|done].
    eapply expire_rows; [exact He | done|]. intros E. apply Hnl. rewrite <- E. by apply in_map.
Qed.

Lemma sweep_leases_moves c s :
  INV s -> unique s -> small (snd (sweep_leases c s)) -> moves s (snd (sweep_leases c s)).
Proof.
  intros Hi Hu. apply transaction_moves. intros out s' Hm Hs'. peel Hm. apply kbind_ok in Hm as (u & s1 & Hf & Hm).
  apply kret_ok in Hm as [_ ->]. eapply (expire_all_moves _ _ _ _ _ Hi Hu); [| |exact Hf|done].
  - eapply Permutation_NoDup; [apply Permutation_map, order_by_perm|]. destruct Hu as [Hu _ _]. clear -Hu.
    induction (t_leases s) as [|x l IH]; [constructor|]. cbn in *. inversion Hu as [|? ? Hx Hu']; subst. destruct (_ && _); [|by apply IH].
    cbn. constructor; [|by apply IH]. intros (y & E & [Hy _]%filter_In)%in_map_iff. apply Hx. rewrite <- E. by apply in_map.
  - apply List.Forall_forall. intros x [Hx Hb]%order_by_in%filter_In. apply andb_true_iff in Hb as [Hb%String.eqb_eq _]. done.
Qed.

Lemma set_approval_track run_id s0 v Hd P rt f id s u s' :
  track run_id s0 v Hd P rt s -> set_approval f id s = (Ok u, s') ->
  (forall a, apr_approval_id (f a) = apr_approval_id a /\ apr_run_id (f a) = apr_run_id a /\
             apr_step_id (f a) = apr_step_id a /\ apr_state (f a) = apr_state a) ->
  track run_id s0 v Hd P rt s'.
Proof.
  intros Ht He Hf. eapply (track_frame _ _ _ _ _ _ _ _ (set_approval f id) _ _ _ Ht); [by intros x | exact He |..].
  - intros r <-. apply held_same. by injection He as _ <-.
  - intros r <-. pose proof (pending_set f id s r Hf) as Hp. by rewrite He in Hp.
Qed.

Lemma sweep_approval_moves k now a s u s' :
  INV s -> pending_of (apr_run_id a) s <> [] -> sweep_approval k now a s = (Ok u, s') -> small s' ->
  moves s s' /\ forall r, pending_of r s' = pending_of r s.
Proof.
  intros Hi Hpe Hm Hs'.
  assert (small s) as Hs by (eapply (evolved_small (sweep_approval k now a) s); [evolve_op | exact Hm | done]).
  unfold sweep_approval in Hm. apply kbind_ok in Hm as (rt & s1 & Hload & Hm).
  destruct (load_track _ _ _ _ _ Hi Hload Hs) as (-> & Ht & Hreq & _).
  destruct (loaded_view _ _ _ Hi Hs Hreq) as (st & Hlog & Hv & _). change (row_state (rt_run rt)) with (rt_state rt) in Hv. rewrite <- Hv in Ht.
  apply kbind_ok in Hm as (rt1 & s1 & Hm & Hper).
  assert (exists v, track (apr_run_id a) s v (fun r => held_of r s) (fun r => pending_of r s) rt1 s1 /\
    rtc desk_step (desk (apr_run_id a) s st)
      {| d_view := v; d_pending := pending_of (apr_run_id a) s; d_held := held_of (apr_run_id a) s |}) as (v & Ht1 & Hstep).
  { destruct (_ =? _); apply kbind_ok in Hm as (rt2 & s2 & Ha & Hm); apply kbind_ok in Hm as (u' & s3 & He & Hm);
      apply kret_ok in Hm as [-> ->]; pose proof (append_track _ _ _ _ _ _ _ _ _ _ _ Ht Ha eq_refl I) as Ht2;
      eexists; (split; [eapply (set_approval_track _ _ _ _ _ _ _ _ _ _ _ Ht2 He); by intros x|]); [reflexivity|].
    apply rtc_once. by apply (desk_unanswered (desk (apr_run_id a) s st)). }
  pose proof (persist_track _ _ _ _ _ _ _ _ _ Ht1 Hper Hs') as Hland. split; [|apply (ld_pending _ _ _ _ _ _ Hland)].
  by eapply (landed_moves _ _ _ _ _ _ _ Hland Hlog).
Qed.

Lemma sweep_all_moves k now ls : forall s u s',
  INV s -> Forall (fun a => pending_of (apr_run_id a) s <> []) ls ->
  kfor ls (sweep_approval k now) s = (Ok u, s') -> small s' -> moves s s'.
Proof.
  induction ls as [|a ls IH]; intros s u s' Hi Hin Hf Hs'; cbn [kfor] in Hf; [apply kret_ok in Hf as [_ ->]; reflexivity|].
  apply kbind_ok in Hf as (u' & s1 & He & Hf). inversion Hin as [|? ? Ha Hin']; subst.
  assert (small s1) as Hs1 by (eapply (evolved_small (kfor ls (sweep_approval k now)) s1); [evolve_op | exact Hf | done]).
  destruct (sweep_approval_moves _ _ _ _ _ _ Hi Ha He Hs1) as [Hm Hp]. transitivity s1; [done|]. apply (IH s1 u s'); try done.
  - assert ({{ INV }} sweep_approval k now a {{ fun _ => INV }}) as Hk by apply hoare_sweep_approval.
    exact (hoare_ok _ _ _ _ _ _ _ Hk Hi He).
  - eapply List.Forall_impl; [|exact Hin']. cbn. intros x. by rewrite Hp.
Qed.

Lemma sweep_approvals_moves k c s : INV s -> small (snd (sweep_approvals k c s)) -> moves s (snd (sweep_approvals k c s)).
Proof.
  intros Hi. apply transaction_moves. intros out s' Hm Hs'. peel Hm. apply kbind_ok in Hm as (u & s1 & Hf & Hm).
  apply kret_ok in Hm as [_ ->]. eapply (sweep_all_moves _ _ _ _ _ _ Hi); [|exact Hf|done].
  apply List.Forall_forall. intros a [Ha Hb]%order_by_in%filter_In. rewrite !andb_true_iff in Hb. destruct Hb as [[Hb%String.eqb_eq _] _].
  pose proof (is_pending s a Ha Hb) as Hin. by destruct (pending_of _ s).
Qed.

(** *** The rest *)

(** A request that only writes bundles, policies and remits. *)
Definition same_desks (s s' : Store) : Prop :=
  t_events s' = t_events s /\ t_leases s' = t_leases s /\ t_approvals s' = t_approvals s.

#[global] Instance same_desks_preorder : PreOrder same_desks.
Proof. split; [done|]. intros s1 s2 s3 (?&?&?) (?&?&?). repeat split; congruence. Qed.
#[global] Instance insert_bundle_desks b : Evolves same_desks (insert_bundle b).
Proof. intros s. unfold insert_bundle. by destruct (_ || _). Qed.
#[global] Instance insert_policy_desks p : Evolves same_desks (insert_policy p).
Proof. intros s. unfold insert_policy. by destruct (_ || _). Qed.
#[global] Instance insert_remit_desks r : Evolves same_desks (insert_remit r).
Proof. intros s. unfold insert_remit. by destruct (any _ _). Qed.

Lemma same_desks_moves {A} (m : M A) s : Evolves same_desks m -> moves s (snd (m s)).
Proof.
  intros Hm. destruct (Hm s) as (E1 & E2 & E3). apply moves_same; intros r;
    [unfold event_rows; by rewrite E1 | by apply held_same | by apply pending_same].
Qed.
End Steps.
