(* ===== verification/Waking.v ===== *)
(** * Waking a parked run

    Resuming always works on a run that is parked for one of the reasons that can be resumed
    and waits for no approval: a total triple for [resume], on a store the kernel wrote. *)

From stdpp Require Import relations.
From S2P Require Import Prelude Text Ids F64 Json Policy Lexer Parser PolicyTools Canonical Time.
From S2P Require Import Errors Keys Remit Payloads PayloadLaws Events Fold RunJson FoldSpec.
From S2P Require Import Template Schema Bundle BundleSpec Store Kernel Scenario Hoare History StoreInv KernelInv.
From S2P Require Import Replay LeaseSpec StepSpec RevokeSpec ActionSpec StartSpec Paging Progress Supply Turns Desks DeskSteps.
From Stdlib Require Import Ascii.

Local Open Scope string_scope.
Local Open Scope list_scope.
Local Open Scope Z_scope.

Section Waking.
Context `{FloatFormat, Sha256, JsonPrint, Crypto, JsonText, Regex, UnicodeTables, F64Display}.

(** In a transaction on a run that runs, with these steps. *)
Record awake (n : Z) (ids : list string) (rt : RunTx) (s : Store) : Prop := {
  ak_ready : ready n rt s;
  ak_ids : map st_id (rs_steps (rt_state rt)) = ids;
  ak_running : rs_state (rt_state rt) = RRunning }.

(** An append that leaves the run running and its steps where they are. *)
Lemma total_awake n ids rt actor p :
  0 <= n -> payload_u32 p -> plain p (rt_state rt) -> viewed p = true ->
  v_status (effect p (view (rt_state rt))) = RRunning -> map st_id (rs_steps (rt_state rt)) = ids ->
  [{ ready (n + 1) rt }] append rt actor p [{ awake n ids }].
Proof.
  intros Hn Hu Hp Hv Hr Hids s Hs. destruct (total_append n rt actor p Hn Hu Hp s Hs) as (rt' & s' & E & Hr' & _ & e & Ha & Hk & Hval).
  exists rt', s'. split; [done|]. split; [done| |].
  - destruct (plain_applies p _ e Hp Hk Hval) as (st & Hst & Hsame). congruence.
  - pose proof (append_view _ _ _ _ _ _ E Hv Hu) as Hview. by rewrite <- Hview in Hr.
Qed.

Lemma total_reschedule n ids stuck : 0 <= n ->
  Forall (fun st => In (st_id st) ids) stuck -> steps_u32 stuck -> forall rt,
  [{ awake (n + Z.of_nat (length stuck)) ids rt }]
    kfold stuck rt (fun rt st => append rt Act.kernel (schedule_payload st)) [{ awake n ids }].
Proof.
  intros Hn. induction stuck as [|st l IH]; intros Hin Hu rt; cbn [kfold].
  - eapply total_conseq; [| |apply (total_ret rt (awake n ids))]; [|done]. intros s. cbn. by rewrite Z.add_0_r.
  - inversion Hin as [|? ? Hin1 Hin2]; subst. inversion Hu as [|? ? Hu1 Hu2]; subst.
    eapply total_bind; [|intros rt'; apply (IH Hin2 Hu2)]. intros s [Hs Hids Hrun].
    assert (find_step (st_id st) (rt_state rt) <> None) as Hfind by (apply find_step_in; by rewrite Hids).
    assert (any (is_card (st_id st)) (v_cards (view (rt_state rt))) = true) as Hany
      by (rewrite find_step_card; by destruct (find_step _ _)).
    apply (total_awake (n + Z.of_nat (length l)) ids rt Act.kernel (schedule_payload st)); try done.
    + lia.
    + by rewrite schedule_effect by (done || (cbn; by rewrite Hrun)).
    + cbn [length] in Hs. by replace (n + Z.of_nat (length l) + 1) with (n + Z.of_nat (S (length l))) by lia.
Qed.

(** A run that is parked for a reason that can be resumed, with no approval pending, is resumed
    by whoever asks. *)
Lemma resume_accepted c run_id actor s st :
  reachable s -> logged s run_id st -> rs_state st = RParked ->
  str_contains (str_or_empty (rs_park_reason st)) resumable_reasons = true -> pending_in_run run_id s = [] ->
  actor <> JNull -> room (Z.of_nat (length (rs_steps st)) + 1) s ->
  exists s', resume c run_id actor s = (Ok RRunning, s').
Proof.
  intros Hr Hlog Hst Hwhy Hnone Hact Hroom. set (len := Z.of_nat (length (rs_steps st))) in *.
  assert (small s) as Hs by (eapply (room_small (len + 1)); [lia|done]). pose proof (reachable_INV s Hr Hs) as Hc.
  destruct (load_ready (len + 1) (c_now c) run_id s Hc Hroom (logged_known _ _ _ Hc Hlog)) as (rt & Hload & Hrd & Hid & Hreq).
  destruct (loaded_view _ _ _ (reachable_INV s Hr) Hs Hreq) as (st' & Hlog' & Hv & Hsteps & _).
  change (row_state (rt_run rt)) with (rt_state rt) in *. rewrite (logged_unique _ _ _ _ Hlog' Hlog) in *.
  assert (rs_state (rt_state rt) = RParked) as Hpark by (apply (f_equal v_status) in Hv; cbn in Hv; congruence).
  assert (rs_park_reason (rt_state rt) = rs_park_reason st) as Hre.
  { apply (f_equal v_reason) in Hv. cbn in Hv. by rewrite Hst, Hpark in Hv. }
  unfold resume, transaction. unfold kbind at 1. rewrite Hload. rewrite kguard_bind.
  assert (is_status RParked (rt_state rt) = true) as -> by (unfold is_status; by apply bool_decide_eq_true).
  cbn [negb]. rewrite kguard_bind, Hre, Hwhy. rewrite (kbind_run kget _ s s s) by done. rewrite kguard_bind, Hnone.
  set (p := PRunResumed _). set (ids := map st_id (rs_steps (rt_state rt))).
  assert (plain p (rt_state rt)) as Hp by (split; [|done]; cbn; unfold RunResumed_wf; cbn; congruence).
  assert ([{ ready (len + 1) rt }]
    (let! rt := append rt (Act.user (operator_id actor)) p in
     let! rt := kfold (List.filter (fun s => step_is SQuarantined s || step_is SFailed s) (workflow_steps (rt_state rt))) rt
                  (fun rt s => append rt Act.kernel (schedule_payload s)) in
     let! _ := persist rt in kret (rs_state (rt_state rt))) [{ fun r _ => r = RRunning }]) as Hm.
  { eapply total_bind.
    { apply (total_awake len ids); [lia|done|done|done|done|done]. }
    intros rt1. set (stuck := List.filter _ _).
    assert (forall x, In x stuck -> In x (rs_steps (rt_state rt1))) as Hsub by apply workflow_steps_in.
    eapply (total_bind _ _ (awake 0 ids)).
    - intros s1 Hs1. pose proof Hs1 as [Hrd1 Hids1 Hrun1].
      assert (RunState_wf (rt_state rt1)) as Hwf.
      { destruct Hrd1 as [_ Htx _ _]. destruct (tx_run _ _ Htx) as (evs & x & Hl & Hsim & _). eapply sim_wf; [exact Hsim|]. apply Hl. }
      assert (Z.of_nat (length stuck) <= len) as Hlen.
      { unfold len. assert (length (rs_steps (rt_state rt1)) = length (rs_steps st)) as <-.
        { rewrite <- (length_map st_id), Hids1. unfold ids. rewrite Hsteps, !length_map. done. }
        unfold stuck, workflow_steps. etrans; [apply inj_le, filter_length_le | apply inj_le, filter_length_le]. }
      apply (total_reschedule 0 ids stuck); [lia| | |].
      + apply List.Forall_forall. intros x Hx%Hsub. rewrite <- Hids1. by apply in_map.
      + eapply wf_steps_u32; [exact Hwf | exact Hsub].
      + split; [|done..]. eapply ready_less; [|exact Hrd1]. lia.
    - intros rt2 s2 [Hrd2 _ Hrun2]. destruct (total_persist 0 rt2 s2 Hrd2) as (u & s3 & E & _).
      exists RRunning, s3. split; [|done]. unfold kbind, kret. by rewrite E, Hrun2. }
  destruct (Hm s Hrd) as (r & s' & E & ->). exists s'. by rewrite E.
Qed.

(** One that is parked because its budget is spent is not. *)
Lemma resume_refused c run_id actor s st :
  reachable s -> small s -> logged s run_id st -> rs_state st = RParked -> rs_park_reason st = Some "budget" ->
  resume c run_id actor s = (Err (conflict "run_not_resumable"), s).
Proof.
  intros Hr Hs Hlog Hst Hwhy. pose proof (reachable_INV s Hr Hs) as Hc.
  pose proof (logged_known _ _ _ Hc Hlog) as (r & <- & Hin)%in_map_iff. destruct (get_run_row s r Hc Hin) as (row & Hget & _).
  assert (require_run (rr_run_id r) s = Ok row) as Hreq by (unfold require_run; by rewrite Hget).
  destruct (loaded_view _ _ _ (reachable_INV s Hr) Hs Hreq) as (st' & Hlog' & Hv & _).
  rewrite (logged_unique _ _ _ _ Hlog' Hlog) in *.
  assert (rs_state (row_state row) = RParked) as Hpark by (apply (f_equal v_status) in Hv; cbn in Hv; congruence).
  assert (rs_park_reason (row_state row) = Some "budget") as Hre.
  { apply (f_equal v_reason) in Hv. cbn in Hv. rewrite Hst, Hpark in Hv. congruence. }
  unfold resume, transaction, load_run, kbind, kread, kguard, kret. rewrite Hreq. unfold rt_state. cbn [rt_run].
  assert (is_status RParked (row_state row) = true) as -> by (unfold is_status; by apply bool_decide_eq_true).
  by rewrite Hre.
Qed.
End Waking.
