(* ===== verification/GivingUp.v ===== *)
(** * Giving a run up

    Only runs that are given up are ever compensated: an invariant of the log.  And giving up
    is always possible: on a store the kernel wrote, with room in the log, whoever abandons a
    run that is running, parked or failed and has no compensation pending is not refused.  The
    triples here are total and let the run grow by compensation steps, each of which has a row
    or brings its definition. *)

From stdpp Require Import relations.
From S2P Require Import Prelude Text Ids F64 Json Policy Lexer Parser PolicyTools Canonical Time.
From S2P Require Import Errors Keys Remit Payloads PayloadLaws Events Fold RunJson FoldSpec.
From S2P Require Import Template Schema Bundle BundleSpec Store Kernel Scenario Hoare History StoreInv KernelInv.
From S2P Require Import Replay LeaseSpec StepSpec RevokeSpec ActionSpec Paging Progress Supply.
From Stdlib Require Import Ascii.

Local Open Scope string_scope.
Local Open Scope list_scope.
Local Open Scope Z_scope.

(** ** Rows *)

Lemma write_step_row run_id id step o s u s' :
  write_step run_id step o s = (Ok u, s') ->
  find_first (is_step run_id id) (t_steps s') =
    match find_first (is_step run_id id) (t_steps s) with
    | Some r => Some (if is_step run_id (st_id step) r then step_record run_id step (sr_def r) else r)
    | None => if String.eqb (st_id step) id then option_map (step_record run_id step) o else None
    end.
Proof.
  unfold write_step. destruct (any (is_step run_id (st_id step)) (t_steps s)) eqn:Ea.
  - intros [= _ <-]. cbn. rewrite find_first_update_all.
    + destruct (find_first (is_step run_id id) (t_steps s)) as [r|] eqn:Ef; [done|]. cbn.
      destruct (String.eqb_spec (st_id step) id) as [<-|]; [|done]. exfalso. apply find_first_none in Ef.
      apply any_true in Ea as (x & Hx & Hp). rewrite List.Forall_forall in Ef. by rewrite (Ef x Hx) in Hp.
    + unfold is_step. intros x [-> ->%String.eqb_eq]%andb_true_iff. cbn. by rewrite String.eqb_refl.
  - destruct o as [d|]; [|discriminate]. intros [= _ <-]. cbn. rewrite find_first_app.
    destruct (find_first (is_step run_id id) (t_steps s)) as [r|] eqn:Ef.
    + destruct (is_step run_id (st_id step) r) eqn:Er; [|done]. exfalso. apply find_first_some in Ef as [Hin _].
      apply not_true_iff_false in Ea. apply Ea, any_true. by exists r.
    + cbn. unfold is_step. cbn. rewrite String.eqb_refl. cbn. by destruct (String.eqb _ id).
Qed.

(** Writing the steps succeeds when each has a row or a definition. *)
Definition writable (run_id : string) (defs : list (string * json)) (s : Store) (id : string) : Prop :=
  find_first (is_step run_id id) (t_steps s) <> None \/ map_get id defs <> None.

Lemma writes_total run_id defs steps : forall s, Forall (fun st => writable run_id defs s (st_id st)) steps ->
  exists s', kfor steps (fun step => write_step run_id step (map_get (st_id step) defs)) s = (Ok tt, s').
Proof.
  induction steps as [|step l IH]; intros s Hw; [by exists s|]. inversion Hw as [|? ? Hx Hl]; subst.
  assert (exists s1, write_step run_id step (map_get (st_id step) defs) s = (Ok tt, s1)) as (s1 & E).
  { unfold write_step. destruct (any (is_step run_id (st_id step)) (t_steps s)) eqn:Ea; [by eexists|].
    destruct Hx as [Hx|Hx]; [|destruct (map_get _ defs); [by eexists | done]]. exfalso.
    destruct (find_first _ _) as [r|] eqn:Ef; [|done]. apply find_first_some in Ef as [Hin Hr].
    apply not_true_iff_false in Ea. apply Ea, any_true. by exists r. }
  cbn [kfor]. destruct (IH s1) as (s' & E'); [|exists s'; unfold kbind; by rewrite E].
  eapply List.Forall_impl; [|exact Hl]. intros st [Hst|Hst]; [left|by right]. rewrite (write_step_row _ _ _ _ _ _ _ E).
  by destruct (find_first _ (t_steps s)).
Qed.

(** ** Compensations belong to runs that were given up *)

Definition schedules_undo (e : EventRow) : Prop := er_kind e = Kind.as_str Kind.CompensationScheduled.
Definition gives_up_run (run_id : string) (e : EventRow) : Prop :=
  er_run_id e = run_id /\ er_kind e = Kind.as_str Kind.RunAbandoned.

(** The new events are in [X]. *)
Definition adds (X : EventRow -> Prop) (s s' : Store) : Prop :=
  incl (t_events s) (t_events s') /\ forall e, In e (t_events s') -> In e (t_events s) \/ X e.

#[export] Instance adds_preorder X : PreOrder (adds X).
Proof.
  split; [intros s; split; [apply incl_refl | by left]|]. intros s1 s2 s3 [I1 A1] [I2 A2].
  split; [by eapply incl_tran|]. intros e [He|He]%A2; [by apply A1 | by right].
Qed.

Lemma adds_same X s s' : t_events s' = t_events s -> adds X s s'.
Proof. intros E. split; rewrite E; [apply incl_refl | by left]. Qed.

(** An event that schedules no compensation. *)
Abbreviation quiet := (adds (fun e => ~ schedules_undo e)).

Lemma insert_event_adds (X : EventRow -> Prop) e : X (event_row e) -> Evolves (adds X) (insert_event e).
Proof.
  intros Hx s. unfold insert_event. destruct (any _ _); [by apply adds_same|]. split; cbn; [by apply incl_appl, incl_refl|].
  intros e' [He|[<-|[]]]%in_app_iff; [by left | by right].
Qed.

(** A write to another table. *)
Ltac other_table :=
  let s := fresh in intros s; apply adds_same;
  lazymatch goal with |- t_events (snd (?m s)) = _ => let m := eval red in m in change (t_events (snd (m s)) = t_events s) end;
  cbn; repeat case_match; reflexivity.

Section Writes.
Context (X : EventRow -> Prop).

#[global] Instance end_lease_adds id st : Evolves (adds X) (end_lease id st).
Proof. other_table. Qed.
#[global] Instance set_lease_expiry_adds id t : Evolves (adds X) (set_lease_expiry id t).
Proof. other_table. Qed.
#[global] Instance insert_lease_adds l : Evolves (adds X) (insert_lease l).
Proof. other_table. Qed.
#[global] Instance insert_approval_adds a : Evolves (adds X) (insert_approval a).
Proof. other_table. Qed.
#[global] Instance record_decision_adds id d a r t : Evolves (adds X) (record_decision id d a r t).
Proof. other_table. Qed.
#[global] Instance escalate_approval_adds id a t : Evolves (adds X) (escalate_approval id a t).
Proof. other_table. Qed.
#[global] Instance park_approval_adds id : Evolves (adds X) (park_approval id).
Proof. other_table. Qed.
#[global] Instance write_step_adds run_id step def : Evolves (adds X) (write_step run_id step def).
Proof. other_table. Qed.
#[global] Instance write_run_adds row : Evolves (adds X) (write_run row).
Proof. other_table. Qed.
#[global] Instance insert_bundle_adds b : Evolves (adds X) (insert_bundle b).
Proof. other_table. Qed.
#[global] Instance insert_policy_adds p : Evolves (adds X) (insert_policy p).
Proof. other_table. Qed.
#[global] Instance insert_remit_adds r : Evolves (adds X) (insert_remit r).
Proof. other_table. Qed.
#[global] Instance bind_remit_adds id run_id : Evolves (adds X) (bind_remit id run_id).
Proof. other_table. Qed.
#[global] Instance upsert_action_adds a : Evolves (adds X) (upsert_action a).
Proof. other_table. Qed.
End Writes.

Section Quiet.
Context `{FloatFormat, Sha256, JsonPrint, Crypto, JsonText, Regex, UnicodeTables, F64Display}.

Lemma quiet_row e : ev_kind e <> Kind.CompensationScheduled -> ~ schedules_undo (event_row e).
Proof. intros Hk E%as_str_inj. done. Qed.

Lemma insert_event_quiet e : ev_kind e <> Kind.CompensationScheduled -> Evolves quiet (insert_event e).
Proof. intros Hk. by apply insert_event_adds, quiet_row. Qed.
#[local] Hint Extern 1 (Evolves quiet (insert_event _)) => (apply insert_event_quiet; discriminate || assumption) : typeclass_instances.

Lemma post_quiet k c run_id kind payload actor auth : Evolves quiet (post_external_event k c run_id kind payload actor auth).
Proof.
  intros s. unfold post_external_event, ksome, klift, ok_or. unfold kbind at 1. destruct (Kind.parse kind) as [kd|]; [|reflexivity].
  rewrite kguard_bind. destruct (Kind.is_external kd) eqn:Ek; [|reflexivity]. revert s.
  assert (kd <> Kind.CompensationScheduled) as Hk by (by intros ->).
  match goal with |- forall s, adds ?X s (snd (?m s)) => change (Evolves (adds X) m) end.
  autounfold with kernel_ops. evolve.
Qed.

(** Nothing but abandoning schedules compensations. *)
Lemma exec_quiet k c op s :
  match op with OAbandon _ _ _ => False | _ => True end -> quiet s (exec k c op s).
Proof.
  intros Hop. revert s. destruct op; try done; unfold exec, after;
    match goal with |- forall s, adds ?X s (snd (?m s)) => change (Evolves (adds X) m) end;
    first [apply post_quiet | evolve_op].
Qed.

(** While a run is given up, the compensations that are scheduled are its own. *)
Abbreviation own run_id := (adds (fun e => schedules_undo e -> er_run_id e = run_id)).

Lemma append_own run_id rt actor p s rt' s' :
  append rt actor p s = (Ok rt', s') -> rs_run_id (rt_state rt) = run_id -> own run_id s s'.
Proof.
  unfold append, append_event. intros Ha <-. apply kbind_ok in Ha as ([e rt1] & s1 & Ha & Hr).
  apply kret_ok in Hr as [-> ->]. apply append_raw_inv in Ha as (-> & -> & _). split; cbn; [by apply incl_appl, incl_refl|].
  intros e' [He|[<-|[]]]%in_app_iff; [by left | by right].
Qed.

Lemma unwind_step_own run_id st u step s u' s' :
  unwind_step run_id st u step s = (Ok u', s') -> given_up run_id (uw_rt u) -> own run_id s s'.
Proof.
  unfold unwind_step. intros Hu Hg. destruct (any _ _); [by apply kret_ok in Hu as [_ ->]|].
  apply kbind_ok in Hu as (row & s1 & [_ ->]%kread_ok & Hu). destruct row as [row|]; [|by apply kret_ok in Hu as [_ ->]].
  destruct (declared_compensation _) as [[tool template]|]; [|by apply kret_ok in Hu as [_ ->]].
  destruct (resolve _ _).
  - apply kbind_ok in Hu as (rt1 & s2 & H1' & Hu). apply kbind_ok in Hu as (rt2 & s3 & H2' & Hu).
    apply kret_ok in Hu as [_ ->]. etrans; [eapply append_own; [exact H1'|apply Hg]|].
    eapply append_own; [exact H2'|]. by destruct (append_given_up _ _ _ _ _ _ _ H1' Hg).
  - apply kbind_ok in Hu as (rt1 & s2 & H1' & Hu). apply kret_ok in Hu as [_ ->]. eapply append_own; [exact H1'|apply Hg].
Qed.

Lemma unwind_own run_id st l : forall u s u' s',
  kfold l u (unwind_step run_id st) s = (Ok u', s') -> given_up run_id (uw_rt u) -> own run_id s s'.
Proof.
  induction l as [|x l IH]; intros u s u' s' Hf Hg; [by apply kret_ok in Hf as [_ ->]|].
  cbn [kfold] in Hf. apply kbind_ok in Hf as (u1 & s1 & H1' & Hf). etrans; [by eapply unwind_step_own|].
  eapply IH; [exact Hf|]. by eapply unwind_step_given_up.
Qed.

(** A compensation is only ever scheduled for a run that has been given up. *)
Definition undo_follows (s : Store) : Prop := forall e,
  In e (t_events s) -> schedules_undo e -> exists a, In a (t_events s) /\ gives_up_run (er_run_id e) a.

Lemma quiet_follows s s' : quiet s s' -> undo_follows s -> undo_follows s'.
Proof. intros [Hi Ha] Hs e [He|?]%Ha Hu; [|done]. destruct (Hs e He Hu) as (a & Hin & Hg). exists a. auto. Qed.

Lemma abandon_follows c run_id reason actor s :
  reachable s -> undo_follows s -> small (after (abandon c run_id reason actor) s) ->
  undo_follows (after (abandon c run_id reason actor) s).
Proof.
  intros Hr Hs. unfold after. destruct (abandon c run_id reason actor s) as [[n|err] s'] eqn:Ha; cbn [snd]; intros Hs'.
  - destruct (abandon_parts _ _ _ _ _ _ _ Hr Hs' Ha) as (st & row & u1 & s1 & u2 & s2 & _ & _ & Hid & _ & _ & Hrel & Hcan & Ht & Hg).
    destruct (giving_up_parts _ _ _ _ _ _ _ Ht Hid Hg) as (rt1 & s3 & u & s4 & rt2 & s5 & v & H1' & Hun & H2' & Hp & _).
    assert (undo_follows s2) as Hs2.
    { apply (quiet_follows s); [|done]. transitivity s1; [eapply evolves_ok; [|exact Hrel] | eapply evolves_ok; [|exact Hcan]]; evolve. }
    assert (given_up run_id rt1) as Hg1.
    { split; [by rewrite (append_run_id _ _ _ _ _ _ H1')|]. apply append_applied in H1' as (e & x & Hx & -> & _); [|done].
      cbn [apply_payload] in Hx. by injection Hx as <-. }
    assert (exists a, In a (t_events s3) /\ gives_up_run run_id a) as (a & Hin & Hga).
    { unfold append, append_event in H1'. apply kbind_ok in H1' as ([e rt0] & s0 & H1' & Hr1). apply kret_ok in Hr1 as [-> ->].
      apply append_raw_inv in H1' as (-> & -> & _). eexists. cbn. split; [apply in_app_iff; right; by left | by split]. }
    assert (own run_id s2 s') as [_ Hown].
    { transitivity s3; [by eapply append_own|]. transitivity s4; [by eapply unwind_own|]. transitivity s5.
      - destruct (uw_failed u); [|by apply kret_ok in H2' as [_ ->]]. eapply append_own; [exact H2'|].
        by destruct (unwind_given_up run_id _ _ _ _ _ _ _ Hun Hg1).
      - assert (Evolves (own run_id) (persist rt2)) by (unfold persist; evolve). by eapply evolves_ok. }
    assert (history s3 s') as [[more Hmore] _ _ _ _ _].
    { transitivity s4; [eapply evolves_ok; [|exact Hun]; evolve|]. transitivity s5; [|by eapply evolves_ok; [|exact Hp]; evolve].
      destruct (uw_failed u); [by eapply evolves_ok; [|exact H2']; evolve | by apply kret_ok in H2' as [_ ->]]. }
    assert (history s2 s3) as [[more2 Hmore2] _ _ _ _ _] by (eapply evolves_ok; [|exact H1']; evolve).
    intros e [He|He]%Hown Hu.
    + destruct (Hs2 e He Hu) as (b & Hb & Hgb). exists b. split; [|done]. rewrite Hmore, Hmore2. auto using in_or_app.
    + rewrite (He Hu). exists a. split; [|done]. rewrite Hmore. auto using in_or_app.
  - enough (s' = s) as -> by done. unfold abandon, transaction in Ha.
    match type of Ha with context [match ?m with _ => _ end] => destruct m as [[?|?] ?] end; by injection Ha.
Qed.

Lemma reachable_follows s : reachable s -> small s -> undo_follows s.
Proof.
  induction 1 as [|k c op s Hr IH]; intros Hs; [by intros e []|]. pose proof (exec_history k c op s) as Hh.
  assert (small s) as Hs0 by (eapply history_small; [exact Hh|done]). specialize (IH Hs0).
  destruct op; try (eapply quiet_follows; [by apply exec_quiet|done]). by apply abandon_follows.
Qed.

(** ** So a run that has not been given up has none *)

Lemma apply_no_undo s e s' :
  apply s e = Ok s' -> ev_kind e <> Kind.CompensationScheduled -> rs_compensations s = [] -> rs_compensations s' = [].
Proof.
  intros (p & Hp & Hk)%apply_inv Hne Hs.
  assert (forall q, p <> PCompensationScheduled q) as Hnp.
  { intros q ->. destruct Hk as [[_ Hk]|[_ Hk%decode_payload_kind]]; [by destruct (ev_kind e) | by apply Hne]. }
  destruct p; cbn [apply_payload] in Hp; try discriminate Hp; injection Hp as <-; try done;
    repeat match goal with
    | |- context [if ?b then _ else _] => destruct b
    | |- context [match find_step ?a ?b with _ => _ end] => destruct (find_step a b)
    | |- context [match rs_pending_approval ?b with _ => _ end] => destruct (rs_pending_approval b)
    end; try done; try (unfold mark_compensation; cbn; by rewrite Hs).
  all: exfalso; by eapply Hnp.
Qed.

Lemma from_created_no_undo e s : from_created e = Ok s -> ev_kind e = Kind.RunCreated /\ rs_compensations s = [].
Proof.
  unfold from_created. destruct (bool_decide_reflect (ev_kind e = Kind.RunCreated)) as [Hk|]; [|discriminate].
  intros Hf. cbn [negb] in Hf. by inv_ok.
Qed.

Lemma apply_gives_up s e s' : apply s e = Ok s' -> ev_kind e = Kind.RunAbandoned -> rs_abandoning s' = true.
Proof.
  intros (p & Hp & [[Hk _]|[_ Hk]])%apply_inv E; rewrite E in Hk; [done|]. apply decode_payload_kind in Hk.
  destruct p; try discriminate Hk. cbn [apply_payload] in Hp. by injection Hp as <-.
Qed.

Lemma apply_all_abandoning l : forall s s', apply_all s l = Ok s' -> rs_abandoning s = true -> rs_abandoning s' = true.
Proof.
  induction l as [|e l IH]; intros s s' Hl; cbn in Hl; [by injection Hl as <-|].
  destruct (apply s e) as [s1|] eqn:E; [|done]. intros Ha. eapply IH; [exact Hl|]. by eapply apply_abandoning.
Qed.

Lemma apply_all_gives_up l : forall s s' e,
  apply_all s l = Ok s' -> In e l -> ev_kind e = Kind.RunAbandoned -> rs_abandoning s' = true.
Proof.
  induction l as [|x l IH]; intros s s' e Hl Hin He; cbn in Hl; [done|]. destruct (apply s x) as [s1|] eqn:E; [|done].
  destruct Hin as [->|Hin]; [|by eapply IH]. eapply apply_all_abandoning; [exact Hl|]. by eapply apply_gives_up.
Qed.

Lemma apply_all_no_undo l : forall s s',
  apply_all s l = Ok s' -> Forall (fun e => ev_kind e <> Kind.CompensationScheduled) l -> rs_compensations s = [] -> rs_compensations s' = [].
Proof.
  induction l as [|e l IH]; intros s s' Hl Hf Hs; cbn in Hl; [by injection Hl as <-|]. inversion Hf; subst.
  destruct (apply s e) as [s1|] eqn:E; [|done]. eapply IH; [exact Hl|done|]. by eapply apply_no_undo.
Qed.

(** No compensation is known for a run that has not been given up. *)
Lemma unabandoned_no_undo s run_id st :
  reachable s -> small s -> logged s run_id st -> rs_abandoning st = false -> rs_compensations st = [].
Proof.
  intros Hr Hs Hlog Hab. pose proof (reachable_INV s Hr Hs) as Hc. pose proof (reachable_follows s Hr Hs) as Hu.
  pose proof (logged_known _ _ _ Hc Hlog) as (r & <- & Hin)%in_map_iff. destruct (get_run_row s r Hc Hin) as (row & Hget & _).
  assert (require_run (rr_run_id r) s = Ok row) as Hreq by (unfold require_run; by rewrite Hget).
  destruct (require_run_ok _ _ _ Hc Hreq) as (_ & evs & st' & r' & _ & Hl & _).
  assert (st' = st) as ->.
  { eapply logged_unique; [|exact Hlog]. exists evs. split; [by eapply all_events_log | apply Hl]. }
  pose proof (lo_fold _ _ _ _ _ Hl) as Hf. pose proof (lo_rows _ _ _ _ _ Hl) as Hrows.
  destruct evs as [|e evs]; [done|]. cbn in Hf. apply rbind_ok in Hf as (s0 & [Hk0 Hs0]%from_created_no_undo & Hf).
  eapply apply_all_no_undo; [exact Hf| |done].
  assert (forall x, In x (e :: evs) -> In (event_row x) (t_events s) /\ er_run_id (event_row x) = rr_run_id r) as Hrow.
  { intros x Hx. apply (in_map event_row) in Hx. rewrite <- Hrows in Hx. by apply filter_In in Hx as [? ?%String.eqb_eq]. }
  apply List.Forall_forall. intros x Hx Hk. destruct (Hrow x (or_intror Hx)) as [Hxin Hxr].
  destruct (Hu _ Hxin) as (a & Ha & Har & Hak); [by unfold schedules_undo; cbn; rewrite Hk|]. rewrite Hxr in Har.
  assert (In a (event_rows (rr_run_id r) s)) as Hae by (apply filter_In; by rewrite Har, String.eqb_refl).
  rewrite Hrows in Hae. apply in_map_iff in Hae as (y & <- & Hy). apply (as_str_inj (ev_kind y)) in Hak.
  destruct Hy as [->|Hy]; [congruence|]. by rewrite (apply_all_gives_up _ _ _ _ Hf Hy Hak) in Hab.
Qed.
End Quiet.

Section GivingUp.
Context `{FloatFormat, Sha256, JsonPrint, Crypto, JsonText, Regex, UnicodeTables, F64Display}.

(** In a transaction on a run that may have new steps. *)
Record growing (n : Z) (run_id : string) (rt : RunTx) (s : Store) : Prop := {
  gr_room : room n s;
  gr_tx : tx_ok s rt;
  gr_run : rs_run_id (rt_state rt) = run_id;
  gr_rows : Forall (writable run_id (rt_defs rt) s) (map st_id (rs_steps (rt_state rt)));
  gr_read : Forall (fun r => is_ok (step_row_from_row r) = true) (step_rows run_id s) }.

Lemma growing_less n m run_id rt s : m <= n -> growing n run_id rt s -> growing m run_id rt s.
Proof. intros Hm [Hr Ht Hi Hw Hd]. split; try done. unfold room in *. lia. Qed.

Lemma growing_core n run_id rt s s' : same_core s s' -> growing n run_id rt s -> growing n run_id rt s'.
Proof.
  intros Hc [Hr Ht Hi Hw Hd]. pose proof Hc as (_ & _ & Es). split.
  - by eapply room_core.
  - by eapply tx_ok_core.
  - done.
  - unfold writable. by rewrite Es.
  - unfold step_rows. by rewrite Es.
Qed.

Lemma ready_growing n rt s : ready n rt s -> growing n (rs_run_id (rt_state rt)) rt s.
Proof.
  intros [Hr Ht Hrows Hd]. split; try done. apply List.Forall_forall. intros id Hin. left.
  apply Hrows in Hin. apply in_map_iff in Hin as (r & <- & [Hin Hrun]%filter_In).
  destruct (find_first _ _) as [x|] eqn:Ef; [done|]. exfalso. apply find_first_none in Ef. rewrite List.Forall_forall in Ef.
  specialize (Ef r Hin). unfold is_step in Ef. by rewrite Hrun, String.eqb_refl in Ef.
Qed.

(** The payloads of an abandonment. *)
Definition of_unwind (p : payload) : bool :=
  match p with
  | PRunAbandoned _ | PCompensationScheduled _ | PCompensationFailed _ | PStepScheduled _ | PRunFailed _ => true
  | _ => false
  end.

(** The step it adds, if it adds one. *)
Definition added_id (p : payload) : option string :=
  match p with PStepScheduled q => Some (ss_step q) | _ => None end.

(** The steps after such an event: those before it, and the one it may schedule. *)
Lemma applied_ids e p s s' :
  of_unwind p = true -> payload_wf p -> ev_kind e = payload_kind p -> ev_payload e = payload_value p -> apply s e = Ok s' ->
  forall id, In id (map st_id (rs_steps s')) -> In id (map st_id (rs_steps s)) \/ added_id p = Some id.
Proof.
  intros Hu Hw Hk Hp Ha id. rewrite (apply_decoded s e p) in Ha by (rewrite Hk, Hp; by apply decode_encode_payload).
  destruct (apply_payload _ _ _) as [x|] eqn:E; [|done]. injection Ha as <-.
  destruct p; try done; cbn [apply_payload] in E; injection E as <-; cbn [added_id].
  2-5: repeat case_match; by left.
  intros Hin. change (find_step (ss_step ?a) (set_last_seq ?n s)) with (find_step (ss_step a) s) in Hin.
  destruct (find_step _ s); destruct (is_status _ _); cbn in Hin.
  1-2: rewrite map_update_first in Hin by done; by left.
  all: rewrite map_app in Hin; apply in_app_iff in Hin as [Hin|[<-|[]]]; [by left | by right].
Qed.

(** Appending one of them, whose step has a row or brought its definition. *)
Lemma total_grow n run_id rt actor p :
  0 <= n -> of_unwind p = true -> payload_wf p -> payload_u32 p ->
  (forall id, added_id p = Some id -> map_get id (rt_defs rt) <> None) ->
  [{ growing (n + 1) run_id rt }] append rt actor p [{ fun rt' => growing n run_id rt' }].
Proof.
  intros Hn Hu Hw H32 Hadd s [Hroom Htx Hid Hrows Hread].
  destruct (append_raw_accepted n rt actor (payload_kind p) (payload_value p) s Hn Hroom Htx) as (e & rt' & E & Hr' & Htx' & Ha & Hk & Hp).
  { intros q. by apply payload_value_nums. }
  { intros e Hk Hp. destruct (apply_accepts (rt_state rt) e p Hw) as (st & Hst & _); [by destruct p|done|done|by exists st]. }
  exists rt', (with_events (t_events s ++ [event_row e]) s). split; [by unfold append, append_event, kbind; rewrite E|].
  pose proof E as (_ & _ & _ & _ & Hdefs & _)%append_raw_inv. destruct (apply_frame _ _ _ Ha) as (Hid' & _ & _).
  split; [done|done|congruence| |done]. rewrite List.Forall_forall in *. unfold writable. rewrite Hdefs. cbn.
  intros id [Hin|Hin]%(applied_ids e p _ _ Hu Hw Hk Hp Ha); [by apply Hrows | right; by apply Hadd].
Qed.

Lemma growing_def n run_id rt s id d : growing n run_id rt s -> growing n run_id (add_def id d rt) s.
Proof.
  intros [Hr [] Hi Hw Hd]. split; try done. eapply List.Forall_impl; [|exact Hw]. intros x [Hx|Hx]; [by left|right].
  cbn [rt_defs add_def]. rewrite map_get_insert. by destruct (String.eqb _ _).
Qed.

(** What the unwinding keeps. *)
Definition unwinding_on (n : Z) (run_id : string) (u : Unwind) (s : Store) : Prop :=
  u32_ok (uw_next_index u) /\ growing n run_id (uw_rt u) s.

Lemma total_unwind_step n run_id st u step :
  0 <= n -> [{ unwinding_on (n + 2) run_id u }] unwind_step run_id st u step [{ unwinding_on n run_id }].
Proof.
  intros Hn s [Hidx Hg]. assert (forall m, m <= n + 2 -> unwinding_on m run_id u s) as Hless.
  { intros m Hm. split; [done|]. eapply growing_less; [exact Hm|done]. }
  unfold unwind_step. destruct (any _ _); [exists u, s; split; [done|apply Hless; lia]|].
  assert (exists row, get_step run_id (st_id step) s = Ok row) as (row & Hrow).
  { unfold get_step, query_opt. destruct (find_first _ _) as [r|] eqn:Ef; [|by eexists].
    apply find_first_some in Ef as [Hin [Hrun _]%andb_true_iff]. pose proof (gr_read _ _ _ _ Hg) as Hread.
    rewrite List.Forall_forall in Hread. specialize (Hread r). destruct (step_row_from_row r); [by eexists|].
    exfalso. by discriminate (Hread ltac:(by apply filter_In)). }
  rewrite (kbind_run (kread (get_step run_id (st_id step))) _ s row s) by (unfold kread; by rewrite Hrow).
  destruct row as [row|]; [|exists u, s; split; [done|apply Hless; lia]].
  destruct (declared_compensation _) as [[tool template]|]; [|exists u, s; split; [done|apply Hless; lia]].
  destruct (resolve _ _) as [args|err].
  - destruct (total_grow (n + 1) run_id (uw_rt u) Act.kernel
      (PCompensationScheduled {| cs_step := compensation_step_id st (st_id step); cs_for_step := st_id step;
                                 cs_tool := tool; cs_args := args |}) ltac:(lia) eq_refl I I ltac:(done) s) as (rt1 & s1 & E1 & Hg1).
    { eapply growing_less; [|exact Hg]. lia. }
    rewrite (kbind_run _ _ s rt1 s1 E1). set (rt1' := add_def _ _ rt1).
    match goal with |- exists a b, kbind (append rt1' ?x ?p) _ _ = _ /\ _ =>
      destruct (total_grow n run_id rt1' x p ltac:(lia) eq_refl Hidx Hidx) with (s := s1) as (rt2 & s2 & E2 & Hg2) end.
    + cbn [added_id ss_step]. intros id [= <-]. unfold rt1'. cbn [rt_defs add_def]. by rewrite map_get_insert, String.eqb_refl.
    + by apply growing_def.
    + rewrite (kbind_run _ _ s1 rt2 s2 E2). do 2 eexists. split; [reflexivity|]. split; [apply u32_add_ok | done].
  - match goal with |- exists a b, kbind (append ?rt ?x ?p) _ _ = _ /\ _ =>
      destruct (total_grow n run_id rt x p ltac:(lia) eq_refl I I ltac:(done) s) as (rt1 & s1 & E1 & Hg1) end.
    { eapply growing_less; [|exact Hg]. lia. }
    rewrite (kbind_run _ _ s rt1 s1 E1). do 2 eexists. split; [reflexivity|]. by split.
Qed.

Lemma total_unwind n run_id st steps : 0 <= n -> forall u,
  [{ unwinding_on (n + 2 * Z.of_nat (length steps)) run_id u }] kfold steps u (unwind_step run_id st) [{ unwinding_on n run_id }].
Proof.
  intros Hn. induction steps as [|step l IH]; intros u; cbn [kfold length].
  - intros s [Hi Hs]. exists u, s. split; [done|]. split; [done|]. eapply growing_less; [|exact Hs]. lia.
  - eapply total_bind; [|exact IH]. eapply total_conseq; [| |apply (total_unwind_step (n + 2 * Z.of_nat (length l))); lia]; [|done].
    intros s [Hi Hs]. split; [done|]. eapply growing_less; [|exact Hs]. lia.
Qed.

Lemma total_write n run_id rt : [{ growing n run_id rt }] persist rt [{ fun _ _ => True }].
Proof.
  intros s [_ _ Hid Hw _]. unfold persist. rewrite Hid.
  match goal with |- context [write_run ?row] => destruct (write_run row s) as [[[]|] s1] eqn:E end.
  2: { exfalso. revert E. unfold write_run, kput. by destruct (any _ _). }
  assert (t_steps s1 = t_steps s) as Es by (revert E; unfold write_run, kput; by destruct (any _ _) => -[= <-]).
  destruct (writes_total run_id (rt_defs rt) (rs_steps (rt_state rt)) s1) as (s' & E').
  { rewrite List.Forall_forall in *. intros x Hx. unfold writable. rewrite Es. by apply Hw, in_map. }
  exists tt, s'. split; [|done]. unfold kbind. by rewrite E.
Qed.

Lemma total_get P : [{ P }] kget [{ fun _ => P }].
Proof. intros s Hs. by exists s, s. Qed.

Lemma total_calm n run_id rt {A} (body : A -> M unit) (l : list A) :
  (forall x s, exists s', body x s = (Ok tt, s') /\ same_core s s') ->
  [{ growing n run_id rt }] kfor l body [{ fun _ => growing n run_id rt }].
Proof.
  intros Hb. apply (total_for body (fun _ => growing n run_id rt)). intros x l' s Hs.
  destruct (Hb x s) as (s' & E & Hc). exists tt, s'. split; [done|]. by eapply growing_core.
Qed.

(** Giving up, in a transaction with room for two events per step and two more. *)
Lemma total_giving_up run_id reason actor rt len :
  0 <= len -> Z.of_nat (length (rs_steps (rt_state rt))) = len ->
  [{ growing (2 * len + 2) run_id rt }] giving_up run_id reason actor rt [{ fun _ _ => True }].
Proof.
  intros H0len Hlen0. set (p := PRunAbandoned _).
  eapply (total_bind _ _ (fun rt1 s => growing (2 * len + 1) run_id rt1 s /\ Z.of_nat (length (rs_steps (rt_state rt1))) = len)).
  { intros s Hg. destruct (total_grow (2 * len + 1) run_id rt (Act.user (operator_id actor)) p ltac:(lia) eq_refl I I ltac:(done) s)
      as (rt1 & s1 & E & Hg1); [eapply growing_less; [|exact Hg]; lia|]. exists rt1, s1. split; [done|]. split; [done|].
    apply append_applied in E as (ev & x & Ha & -> & _); [|done]. cbn [apply_payload] in Ha. injection Ha as <-. by case_match. }
  intros rt1 s [Hg Hlen]. revert s Hg. cbv zeta. set (completed := List.filter _ _).
  assert (Z.of_nat (length (rev completed)) <= len) as Hle.
  { rewrite length_rev, <- Hlen. unfold completed, workflow_steps. etrans; apply inj_le, filter_length_le. }
  eapply (total_bind _ _ (unwinding_on 1 run_id)).
  { intros s Hg. apply (total_unwind 1 run_id _ (rev completed)); [lia|]. split; [apply max_index_ok|].
    eapply growing_less; [|exact Hg]. lia. }
  intros u. eapply (total_bind _ _ (growing 0 run_id)).
  { intros s [_ Hg]. destruct (uw_failed u) as [err|]; [by apply (total_grow 0)|].
    exists (uw_rt u), s. split; [done|]. eapply growing_less; [|exact Hg]. lia. }
  intros rt2. eapply total_bind; [apply total_write|]. intros _ s _. do 2 eexists. by split.
Qed.

(** A run that is running, parked or failed and has no compensation pending is abandoned by
    whoever asks. *)
Lemma abandon_accepted c run_id reason actor s st :
  reachable s -> logged s run_id st -> abandonable st = true -> unwind_pending st = false ->
  room (2 * Z.of_nat (length (rs_steps st)) + 2) s ->
  exists n s', abandon c run_id reason actor s = (Ok n, s').
Proof.
  intros Hr Hlog Hab Hpend Hroom. set (len := Z.of_nat (length (rs_steps st))) in *.
  assert (small s) as Hs by (eapply (room_small (2 * len + 2)); [lia|done]). pose proof (reachable_INV s Hr Hs) as Hc.
  destruct (load_ready (2 * len + 2) (c_now c) run_id s Hc Hroom (logged_known _ _ _ Hc Hlog)) as (rt & Hload & Hrd & Hid & Hreq).
  destruct (loaded_logged _ _ _ Hc Hs Hreq) as (st' & Hlog' & Est). rewrite (logged_unique _ _ _ _ Hlog' Hlog) in Est.
  change (row_state (rt_run rt)) with (rt_state rt) in Est. apply ready_growing in Hrd. rewrite Hid in Hrd.
  unfold abandon, transaction. unfold kbind at 1. rewrite Hload, kguard_bind.
  assert (abandonable (rt_state rt) = true) as -> by by rewrite Est.
  rewrite kguard_bind. assert (unwind_pending (rt_state rt) = false) as -> by by rewrite Est. cbn [negb].
  assert (Z.of_nat (length (rs_steps (rt_state rt))) = len) as Hlen by (rewrite Est; cbn; by rewrite length_map).
  match goal with |- context [kbind kget ?body s] =>
    assert ([{ growing (2 * len + 2) run_id rt }] kbind kget body [{ fun _ _ => True }]) as Hm end.
  { eapply total_bind; [by apply (total_get (growing (2 * len + 2) run_id rt))|]. intros s0.
    eapply total_bind; [apply total_calm; intros x y; by eexists|]. intros [].
    eapply total_bind; [by apply (total_get (growing (2 * len + 2) run_id rt))|]. intros s1.
    eapply total_bind; [apply total_calm; intros x y; by eexists|]. intros []. by apply total_giving_up; [lia|]. }
  destruct (Hm s Hrd) as (n & s' & E & _). exists n, s'. by rewrite E.
Qed.

(** One that has not been given up has no compensation pending. *)
Lemma can_be_given_up c run_id reason actor s st :
  reachable s -> logged s run_id st -> rs_abandoning st = false -> abandonable st = true ->
  room (2 * Z.of_nat (length (rs_steps st)) + 2) s ->
  exists n s', abandon c run_id reason actor s = (Ok n, s').
Proof.
  intros Hr Hlog Hup Hab Hroom. apply (abandon_accepted c run_id reason actor s st); try done. unfold unwind_pending.
  rewrite (unabandoned_no_undo s run_id st); try done. eapply room_small; [|exact Hroom]. lia.
Qed.
End GivingUp.
