(* ===== verification/NoStuck.v ===== *)
(** * No run is stuck

    Starting a run puts it at the beginning of the machine of [Turns]; with the operations of
    [DeskSteps] this makes every reachable store live: a run that is running and not being
    given up always has a step that is handed out or about to be. *)

From stdpp Require Import relations.
From S2P Require Import Prelude Text Ids F64 Json Policy Lexer Parser PolicyTools Canonical Time.
From S2P Require Import Errors Keys Remit Payloads PayloadLaws Events Fold RunJson FoldSpec.
From S2P Require Import Template Schema Bundle BundleSpec Store Kernel Scenario Hoare History StoreInv KernelInv.
From S2P Require Import Replay LeaseSpec StepSpec RevokeSpec ActionSpec StartSpec Paging Progress Supply Turns Desks DeskSteps Waking GivingUp.
From Stdlib Require Import Ascii Sorting.Sorted.

Local Open Scope string_scope.
Local Open Scope list_scope.
Local Open Scope Z_scope.

(** A log whose length fits 32 bits: the index of a step does, too. *)
Definition short (s : Store) : Prop := Z.of_nat (length (t_events s)) < 2 ^ 32.

Lemma short_small s : short s -> small s.
Proof. unfold short, small, i64_max. lia. Qed.

(** ** Starting a run *)

(** The cards after some steps have been scheduled. *)
Record opening (ids : list string) (v : View) : Prop := {
  og_status : v_status v = match ids with [] => RCreated | _ => RRunning end;
  og_reason : v_reason v = None;
  og_up : v_abandoning v = false;
  og_ids : map cd_id (v_cards v) = ids;
  og_cards : Forall (fun x => cd_state x = SScheduled /\ In (cd_kind x) work_kinds /\
                              cd_index x < Z.of_nat (length ids)) (v_cards v);
  og_order : StronglySorted Z.lt (map cd_index (v_cards v)) }.

Lemma sorted_snoc l x : StronglySorted Z.lt l -> Forall (fun y => y < x) l -> StronglySorted Z.lt (l ++ [x]).
Proof.
  induction 1 as [|y l Hs IH Hy]; intros Hf; [repeat constructor|]. inversion Hf as [|? ? Hyx Hf']; subst. cbn.
  constructor; [by apply IH|]. apply Forall_app. split; [done|]. by constructor.
Qed.

Lemma opening_next ids v id kind :
  opening ids v -> ~ In id ids -> In kind work_kinds ->
  opening (ids ++ [id]) (effect (PStepScheduled {| ss_step := id; ss_index := Z.of_nat (length ids); ss_kind := kind |}) v).
Proof.
  intros [Hs Hre Hu Hi Hc Ho] Hn Hk. cbn [effect]. unfold schedule_card. cbn [ss_step].
  destruct (any (is_card id) (v_cards v)) eqn:E.
  { exfalso. apply any_true in E as (x & Hx & Hid%String.eqb_eq). apply Hn. rewrite <- Hi, <- Hid. by apply in_map. }
  set (v' := {| v_status := _; v_reason := _; v_abandoning := _; v_cards := _ |}).
  assert (match v_status v' with RCreated => set_status RRunning v' | _ => v' end =
          {| v_status := RRunning; v_reason := None; v_abandoning := false; v_cards := v_cards v' |}) as ->.
  { unfold v', set_status. cbn. rewrite Hs, Hre, Hu. by destruct ids. }
  unfold v'. clear v' E. split; cbn; try done.
  - by destruct ids.
  - by rewrite map_app, Hi.
  - rewrite length_app. cbn. apply Forall_app. split.
    + eapply List.Forall_impl; [|exact Hc]. cbn. intros x (? & ? & ?). repeat split; try done. lia.
    + constructor; [|constructor]. cbn. repeat split; try done. lia.
  - rewrite map_app. apply sorted_snoc; [done|]. apply List.Forall_forall. intros i (x & <- & Hx)%in_map_iff.
    rewrite List.Forall_forall in Hc. cbn. apply Hc, Hx.
Qed.

Lemma opening_opened ids v p h : opening ids v -> ids <> [] -> List.NoDup ids -> p = [] ->
  opened {| d_view := v; d_pending := p; d_held := h |}.
Proof.
  intros [Hs _ Hu Hi Hc Ho] Hne Hn ->. split; cbn; try done.
  - rewrite Hs. by destruct ids.
  - intros E. rewrite E in Hi. by destruct ids.
  - eapply List.Forall_impl; [|exact Hc]. cbn. intuition.
  - by rewrite Hi.
Qed.

Section Start.
Context `{FloatFormat, Sha256, JsonPrint, Crypto, JsonText, Regex, UnicodeTables, F64Display}.

Lemma scheduled_events steps : forall acc s acc' s',
  kfold steps acc schedule_step s = (Ok acc', s') -> length (t_events s') = (length (t_events s) + length steps)%nat.
Proof.
  induction steps as [|x l IH]; intros [rt n] s acc' s' Hf; cbn [kfold] in Hf; [apply kret_ok in Hf as [_ ->]; cbn; lia|].
  apply kbind_ok in Hf as ([rt1 n1] & s1 & Hs & Hf). rewrite (IH _ _ _ _ Hf). unfold schedule_step in Hs.
  apply kbind_ok in Hs as (rt2 & s2 & Ha & Hs). apply kret_ok in Hs as [_ ->].
  apply append_state in Ha as (e & _ & _ & _ & ->). cbn. rewrite length_app. cbn. lia.
Qed.

Lemma schedule_track run_id s0 Hd P b ids steps more : steps_ok b ids steps more -> forall v rt s acc s',
  track run_id s0 v Hd P rt s -> view (rt_state rt) = v -> opening ids v ->
  Z.of_nat (length ids) + Z.of_nat (length steps) <= 2 ^ 32 ->
  kfold steps (rt, Z.of_nat (length ids)) schedule_step s = (Ok acc, s') ->
  exists v', track run_id s0 v' Hd P acc.1 s' /\ view (rt_state acc.1) = v' /\ opening (ids ++ more) v'.
Proof.
  induction 1 as [ids|ids step steps id more Hok _ IH]; intros v rt s acc s' Ht Hv Ho Hn Hf; cbn [kfold] in Hf.
  - apply kret_ok in Hf as [-> ->]. rewrite app_nil_r. eauto.
  - apply kbind_ok in Hf as ([rt1 n1] & s1 & Hs & Hf). unfold schedule_step in Hs.
    apply kbind_ok in Hs as (rt2 & s2 & Ha & Hs). apply kret_ok in Hs as [[= -> ->] ->].
    destruct Hok as (_ & Hni & obj & kind & -> & Hid & Hkind & Hk & _). cbn [length] in Hn.
    change (jget_str "id" (JObj obj)) with (member_str "id" obj) in Ha. change (jget_str "kind" (JObj obj)) with (member_str "kind" obj) in Ha.
    rewrite Hid, Hkind in Ha. cbn [str_or_empty] in Ha. rewrite (Z.mod_small (Z.of_nat (length ids))) in Ha by lia.
    assert (u32_ok (Z.of_nat (length ids))) as Hu by (unfold u32_ok, u32_max; lia).
    assert (track run_id s0 v Hd P (add_def id (JObj obj) rt) s) as Ht0 by (eapply track_row; [|exact Ht]; done).
    pose proof (append_track _ _ _ _ _ _ _ _ _ _ _ Ht0 Ha eq_refl Hu) as Ht1.
    pose proof (append_view _ _ _ _ _ _ Ha eq_refl Hu) as Hv1. change (rt_state (add_def id (JObj obj) rt)) with (rt_state rt) in Hv1.
    rewrite Hv in Hv1. assert (Z.of_nat (length ids) + 1 = Z.of_nat (length (ids ++ [id]))) as El by (rewrite length_app; cbn; lia).
    rewrite El in Hf. destruct (IH _ _ _ _ _ Ht1 Hv1 (opening_next _ _ _ _ Ho Hni Hk) ltac:(rewrite <- El; lia) Hf)
      as (v' & Ht' & Hv' & Ho'). rewrite <- app_assoc in Ho'. eauto.
Qed.

(** The first event of a run that did not exist. *)
Lemma create_track c run_id child created s rt s' :
  INV s -> small s' -> create_run c run_id child created s = (Ok rt, s') ->
  ~ known s run_id /\ opening [] (view (rt_state rt)) /\
  track run_id s (view (rt_state rt)) (fun r => held_of r s) (fun r => pending_of r s) rt s'.
Proof.
  intros Hi Hs' Hc. pose proof (hoare_create c run_id child created s Hi) as Ht. rewrite Hc in Ht.
  pose proof (create_run_child _ _ _ _ _ _ _ Hc) as [_ Hid]. unfold create_run in Hc.
  apply kbind_ok in Hc as (u & s1 & Hins & Hc). apply kbind_ok in Hc as (st & s2 & [Hst ->]%klift_ok & Hc). apply kret_ok in Hc as [-> ->].
  set (first := build _ _ _ _ _ _ _) in *. pose proof Hins as E. apply insert_event_inv in E as ->.
  assert (small s) as Hs by by eapply small_shrink. split; [|split].
  - intros (e & Hin & He & Hseq)%known_first; [|by apply Hi]. unfold insert_event in Hins. destruct (any _ _) eqn:Ea; [done|].
    apply not_true_iff_false in Ea. apply Ea, any_true. exists e. split; [done|]. unfold same_event_key. rewrite He, Hseq. cbn.
    by rewrite String.eqb_refl.
  - unfold rt_state. cbn. unfold from_created in Hst. destruct (negb _); [discriminate|]. destruct (typed first); [|discriminate].
    injection Hst as <-. split; cbn; try done; constructor.
  - split; try done; [by right|]. intros r Hr. apply event_rows_other. unfold first. cbn. congruence.
Qed.

Lemma persist_view rt s u s' st : TXF True rt s -> persist rt s = (Ok u, s') -> small s' ->
  logged s' (rs_run_id (rt_state rt)) st -> view st = view (rt_state rt).
Proof.
  intros Ht Hp Hs Hl. destruct (persist_logged _ _ _ _ _ Ht Hp Hs) as (st' & Hl' & Hsim).
  rewrite (logged_unique _ _ _ _ Hl Hl'). by apply view_sim.
Qed.

(** A run that was started begins at the beginning; the others are left alone. *)
Lemma start_opens k c request s r s' :
  INV s -> unique s -> refs_known s -> short s' -> start_run k c request s = (Ok r, s') ->
  forall run_id st', logged s' run_id st' ->
    (exists st, logged s run_id st /\ desk run_id s' st' = desk run_id s st) \/
    (~ known s run_id /\ opened (desk run_id s' st')).
Proof.
  intros Hi Hu Hrefs Hsh Hs run_id st' Hst'. pose proof (short_small _ Hsh) as Hs'.
  unfold start_run in Hs. apply transaction_ok in Hs.
  apply kbind_ok in Hs as ([[b remit] rb] & s0 & [-> Hsta]%check_start_ok & Hs).
  apply kbind_ok in Hs as (u & s1 & Hins & Hs). apply kbind_ok in Hs as (u' & s2 & Hbind & Hs).
  assert (same_core s s2 /\ t_leases s2 = t_leases s /\ t_approvals s2 = t_approvals s) as (Hcore & El & Ea).
  { unfold insert_remit in Hins. destruct (any _ _); [discriminate|]. injection Hins as _ <-. by injection Hbind as _ <-. }
  apply kbind_ok in Hs as (rt & s3 & Hcreate & Hs). apply kbind_ok in Hs as ([rt' n] & s4 & Hfold & Hs).
  apply kbind_ok in Hs as (u'' & s5 & Hper & Hs). apply kret_ok in Hs as [_ ->].
  pose proof (persist_events _ _ _ _ Hper) as Hev. pose proof (scheduled_events _ _ _ _ _ Hfold) as Hlen.
  assert (Z.of_nat (length (t_events s4)) < 2 ^ 32) as Hsh4 by (unfold short in Hsh; by rewrite <- Hev).
  assert (small s3) as Hs3 by (unfold small, i64_max; lia).
  destruct (create_track _ _ _ _ _ _ _ (INV_core _ _ Hcore Hi) Hs3 Hcreate) as (Hnk & Hop & Ht).
  pose proof (sta_bundle _ _ _ _ _ _ Hsta) as [Hbin _]%find_first_some. pose proof (un_bundles _ Hu) as Hval.
  rewrite List.Forall_forall in Hval. 
  destruct (bundle_workflow (sq_workflow request) (from_stored (bn_bundle b))) as [w|] eqn:Ew;
    [|by destruct (sta_workflow _ _ _ _ _ _ Hsta)].
  destruct (validate_bundle_workflow _ _ _ (Hval b Hbin) Ew) as (ids & Hne & Hok).
  destruct (schedule_track _ _ _ _ _ _ _ _ Hok _ _ _ _ _ Ht eq_refl Hop ltac:(cbn; lia) Hfold) as (v & Ht' & Hv & Hopen).
  cbn [fst app] in *. destruct (steps_ok_ids _ [] _ _ ltac:(constructor) Hok) as [Hnd _].
  pose proof (persist_track _ _ _ _ _ _ _ _ _ Ht' Hper Hs') as [_ Ll Lh Lp].
  destruct (String.eqb_spec run_id (new c 0 "run")) as [->|Hne'].
  - right. split; [unfold known in *; by rewrite (proj1 (proj2 Hcore)) in Hnk|].
    unfold desk. rewrite Lp, (persist_view _ _ _ _ _ (tr_tx _ _ _ _ _ _ _ Ht') Hper Hs'), Hv
      by (by rewrite (tr_id _ _ _ _ _ _ _ Ht')).
    eapply opening_opened; [exact Hopen | done..|]. apply incl_l_nil. intros p (a & Hin & Hr & _)%pending_in. exfalso.
    rewrite Ea in Hin. destruct Hrefs as [_ Hra]. rewrite List.Forall_forall in Hra. apply Hnk. unfold known in *.
    rewrite (proj1 (proj2 Hcore)). rewrite <- Hr. by apply Hra.
  - left. exists st'. split; [|unfold desk; by rewrite Lh, Lp, (held_same s s2), (pending_same s s2)].
    eapply logged_same; [|exact Hst']. rewrite (Ll _ Hne'). unfold event_rows. by rewrite (proj1 Hcore).
Qed.
End Start.

(** ** Every request *)

Section Theorems.
Context `{FloatFormat, Sha256, JsonPrint, Crypto, JsonText, Regex, UnicodeTables, F64Display}.

Lemma exec_moves k c op s :
  INV s -> unique s -> refs_known s -> all_live s -> short (exec k c op s) ->
  forall run_id st', logged (exec k c op s) run_id st' ->
    (exists st, logged s run_id st /\ rtc desk_step (desk run_id s st) (desk run_id (exec k c op s) st')) \/
    (~ known s run_id /\ opened (desk run_id (exec k c op s) st')).
Proof.
  intros Hi Hu Hrefs Hl Hsh run_id st' Hlog. pose proof (short_small _ Hsh) as Hs.
  destruct (match op with OStartRun _ => true | _ => false end) eqn:E.
  - destruct op; try discriminate. cbn [exec] in *. unfold after in *.
    destruct (start_run k c request s) as [[r|e] s'] eqn:Es.
    + destruct (start_opens _ _ _ _ _ _ Hi Hu Hrefs Hsh Es _ _ Hlog) as [(st & Hst & Hd)|Hnew]; [left|by right].
      exists st. split; [done|]. cbn [snd] in *. by rewrite Hd.
    + left. exists st'. unfold start_run, transaction in Es.
      match type of Es with context [let (_, _) := ?m s in _] => destruct (m s) as [[?|?] ?] end; [discriminate|].
      injection Es as _ <-. done.
  - left. revert run_id st' Hlog. change (moves s (exec k c op s)).
    destruct op; try discriminate; cbn [exec] in *; unfold after in *;
      [ apply same_desks_moves; evolve_op | apply same_desks_moves; evolve_op | apply same_desks_moves; evolve_op
      | apply same_desks_moves; evolve_op | by apply post_external_moves | by apply abandon_moves | by apply resume_moves
      | by apply lease_moves | by apply heartbeat_moves | by apply complete_moves | by apply fail_moves
      | by apply propose_moves | by apply decide_moves | by apply sweep_leases_moves | by apply sweep_approvals_moves ].
Qed.

Lemma history_short s s' : history s s' -> short s' -> short s.
Proof. intros Hh. destruct (hi_events _ _ Hh) as [more E]. unfold short. rewrite E, length_app. lia. Qed.

Lemma reachable_live s : reachable s -> short s -> all_live s.
Proof.
  induction 1 as [|k c op s Hr IH]; intros Hs; [by intros run_id st (evs & He & Hf); cbn in He; injection He as <-|].
  specialize (IH (history_short _ _ (exec_history k c op s) Hs)). intros run_id st' Hlog.
  destruct (exec_moves k c op s (reachable_INV s Hr) (reachable_unique s Hr) (reachable_refs s Hr) IH Hs _ _ Hlog)
    as [(st & Hst & Hm)|[_ Ho]]; [|by apply opened_live]. eapply live_steps; [exact Hm | by apply IH].
Qed.

(** C3: the kernel refines the machine of turns.  Whatever the request and its answer, every run
    that existed moves by steps of the machine ([desk_step]: a step is leased when its turn has
    come, completed, put back, failed or sent to a human; a human approves, rejects or resumes),
    and a run that did not exist begins at its beginning, with every step scheduled. *)
Theorem requests_follow_turns k c op s run_id st' :
  reachable s -> short (exec k c op s) -> logged (exec k c op s) run_id st' ->
  (exists st, logged s run_id st /\ rtc desk_step (desk run_id s st) (desk run_id (exec k c op s) st')) \/
  (~ known s run_id /\ opened (desk run_id (exec k c op s) st')).
Proof.
  intros Hr Hs. apply exec_moves; [by apply reachable_INV | by apply reachable_unique | by apply reachable_refs | | done].
  apply reachable_live; [done|]. eapply history_short; [apply exec_history | exact Hs].
Qed.

(** The step whose turn it is: those before it are done, those after it have not begun. *)
Record in_turn (st : RunState) (step : StepState) : Prop := {
  it_step : In step (rs_steps st);
  it_open : st_state step <> SCompleted;
  it_before : forall e, In e (rs_steps st) -> st_index e < st_index step -> st_state e = SCompleted;
  it_after : forall e, In e (rs_steps st) -> st_index step < st_index e -> st_state e = SScheduled }.

Lemma sorted_app l1 l2 : StronglySorted Z.lt (l1 ++ l2) -> forall x y, In x l1 -> In y l2 -> x < y.
Proof.
  induction l1 as [|z l1 IH]; [done|]. cbn. intros Hs x y [->|Hx] Hy; inversion Hs as [|? ? Hs' Hz]; subst; [|by eapply IH].
  rewrite List.Forall_forall in Hz. apply Hz. apply in_app_iff. by right.
Qed.

Lemma turn_step st x :
  proper (v_cards (view st)) -> turn (v_cards (view st)) x -> exists step, card step = x /\ in_turn st step.
Proof.
  intros [_ _ Ho] (pre & post & E & Hp & Hq & Hn).
  assert (In x (map card (rs_steps st))) as (step & Hx & Hin)%in_map_iff by (cbn in E; rewrite E, in_app_iff; right; by left).
  exists step. split; [done|]. rewrite List.Forall_forall in Hp, Hq. rewrite E in Ho. subst x.
  assert (forall e, In e (rs_steps st) -> In (card e) (pre ++ card step :: post)) as Hc by (intros e He; rewrite <- E; by apply in_map).
  rewrite map_app in Ho. split; try done.
  - intros e He Hlt. specialize (Hc e He). apply in_app_iff in Hc as [Hc|Hc]; [by apply (Hp _ Hc)|]. exfalso.
    destruct Hc as [Hc|Hc]; [apply (f_equal cd_index) in Hc; cbn in Hc; lia|].
    change (StronglySorted Z.lt (map cd_index pre ++ [st_index step] ++ map cd_index post)) in Ho. rewrite app_assoc in Ho.
    pose proof (sorted_app _ _ Ho (st_index step) (st_index e)) as Hs. assert (st_index step < st_index e); [|lia].
    apply Hs; [apply in_app_iff; right; by left | by apply (in_map cd_index) in Hc].
  - intros e He Hlt. specialize (Hc e He). apply in_app_iff in Hc as [Hc|[Hc|Hc]]; [|apply (f_equal cd_index) in Hc; cbn in Hc; lia | by apply (Hq _ Hc)].
    exfalso. assert (st_index e < st_index step); [|lia]. apply (sorted_app _ _ Ho); [by apply (in_map cd_index) in Hc | by left].
Qed.

(** What a run that is not being given up waits for. *)
Definition has_work (s : Store) (st : RunState) (step : StepState) : Prop :=
  (forall now_ms, (forall t, (x ← st_not_before step; parse_rfc3339 x) = Some t -> t <= now_ms) ->
     may_run all_kinds now_ms st step) \/
  (exists l, In l (t_leases s) /\ forall now_ms, now_ms < le_expires_at_ms l -> holder now_ms s l st step).

(** A human is asked about the step; or can resume the run, and then the step is tried again; or
    the run has spent its budget and cannot be resumed. *)
Inductive awaits_human (s : Store) (run_id : string) (st : RunState) (step : StepState) : Prop :=
| awaits_decision a :
    pending_in_run run_id s = [a] -> apr_step_id a = st_id step -> st_state step = SWaitingApproval ->
    awaits_human s run_id st step
| awaits_resume :
    In (st_state step) [SFailed; SQuarantined] ->
    (forall c actor, actor <> JNull -> room (Z.of_nat (length (rs_steps st)) + 1) s ->
       exists s', resume c run_id actor s = (Ok RRunning, s')) ->
    awaits_human s run_id st step
| awaits_budget :
    st_state step = SScheduled -> rs_park_reason st = Some "budget" ->
    (forall c actor, resume c run_id actor s = (Err (conflict "run_not_resumable"), s)) ->
    awaits_human s run_id st step.

Lemma scheduled_has_work s st step :
  rs_state st = RRunning -> rs_abandoning st = false -> proper (v_cards (view st)) -> in_turn st step ->
  st_state step = SScheduled -> has_work s st step.
Proof.
  intros Hr Ha [Hk _ _] [Hin _ Hb _] Hs. rewrite List.Forall_forall in Hk. left. intros now Hd.
  assert (In (st_kind step) work_kinds) as Hki by apply (Hk (card step)), in_map, Hin. split; try done.
  - unfold all_kinds. destruct Hki as [<-|[<-|[<-|[]]]]; cbn; tauto.
  - rewrite Ha. unfold is_compensation. by destruct Hki as [<-|[<-|[<-|[]]]].
  - intros e He _. by apply Hb.
Qed.

Lemma leased_has_work s run_id st step i :
  unique s -> logged s run_id st -> state_inv st -> In step (rs_steps st) -> at_work (desk run_id s st) (card step) i -> has_work s st step.
Proof.
  intros Hu Hlog [[Hn _] _] Hin [_ Hst Hle Hh]. apply held_row in Hh as (l & Hl & <- & [= -> Hid] & Hact). cbn in Hst, Hle, Hid.
  right. exists l. split; [done|]. intros now Hnow. repeat split; try done.
  - unfold get_lease. destruct (find_first _ _) as [y|] eqn:Ef.
    + apply find_first_some in Ef as [Hy Ey%String.eqb_eq]. f_equal. by apply (nodup_inj le_lease_id (t_leases s)); try apply Hu.
    + apply find_first_none in Ef. rewrite List.Forall_forall in Ef. specialize (Ef l Hl). unfold is_lease in Ef.
      by rewrite String.eqb_refl in Ef.
  - unfold find_step. destruct (find_first _ _) as [y|] eqn:Ef.
    + apply find_first_some in Ef as [Hy Ey%String.eqb_eq]. f_equal. apply (nodup_inj st_id (rs_steps st)); try done. congruence.
    + apply find_first_none in Ef. rewrite List.Forall_forall in Ef. specialize (Ef step Hin). cbn in Ef.
      apply String.eqb_neq in Ef. congruence.
  - destruct (st_lease step) as [i|]; [|discriminate]. exists i. split; [done|]. by injection Hle.
Qed.

Lemma running_has_work s run_id st :
  reachable s -> short s -> logged s run_id st -> rs_abandoning st = false -> rs_state st = RRunning ->
  exists step, in_turn st step /\ has_work s st step.
Proof.
  intros Hr Hs Hlog Ha Hst. destruct (reachable_live s Hr Hs run_id st Hlog Ha) as [Hp Hl].
  assert (state_inv st) as Hinv by (destruct Hlog as (evs & _ & Hf); by eapply fold_inv).
  unfold live_by_status in Hl. cbn [desk d_view] in Hl, Hp. change (v_status (view st)) with (rs_state st) in Hl. rewrite Hst in Hl.
  destruct Hl as [_ (x & Ht & Hx)]. destruct (turn_step st x Hp Ht) as (step & <- & Hit). exists step. split; [done|].
  destruct Hx as [Hx|[i Hx]]; [by apply scheduled_has_work|].
  eapply leased_has_work; [by apply reachable_unique | exact Hlog | done | apply Hit | exact Hx].
Qed.

Lemma parked_awaits_human s run_id st :
  reachable s -> short s -> logged s run_id st -> rs_abandoning st = false -> rs_state st = RParked ->
  exists step, in_turn st step /\ awaits_human s run_id st step.
Proof.
  intros Hr Hs Hlog Ha Hst. destruct (reachable_live s Hr Hs run_id st Hlog Ha) as [Hp Hl].
  unfold live_by_status in Hl. cbn [desk d_view] in Hl, Hp. change (v_status (view st)) with (rs_state st) in Hl. rewrite Hst in Hl.
  destruct Hl as (x & Ht & Hx). destruct (turn_step st x Hp Ht) as (step & <- & Hit). exists step. split; [done|].
  cbn [desk d_pending view v_reason] in Hx. rewrite Hst in Hx. unfold pending_of in Hx. destruct Hx as [(a & Hpe & Hw)|[Hpe Hw]].
  { destruct (pending_in_run run_id s) as [|b [|]] eqn:E; try discriminate. injection Hpe as <- Hid. by eapply awaits_decision. }
  assert (pending_in_run run_id s = []) as Hnone by (by destruct (pending_in_run run_id s)).
  assert (In (st_state step) [SFailed; SQuarantined] ->
          str_contains (str_or_empty (rs_park_reason st)) resumable_reasons = true -> awaits_human s run_id st step) as Hresume.
  { intros Hin Hwhy. apply awaits_resume; [done|]. intros c actor Hact Hroom. by apply (resume_accepted c run_id actor s st). }
  cbn [card cd_state] in Hw. unfold halted in Hw. destruct (st_state step) eqn:Es; try done.
  - apply awaits_budget; [done..|]. intros c actor. apply (resume_refused c run_id actor s st); try done. by apply short_small.
  - apply Hresume; [cbn; auto | by rewrite Hw].
  - apply Hresume; [cbn; auto | by destruct Hw as [->| ->]].
Qed.

End Theorems.

(** ** Witnesses *)

Import Demo.

(** The state of a run by its log, computed. *)
Definition logged_state (run_id : string) (s : Store) : option RunState :=
  match all_events run_id s with
  | Ok evs => match fold evs with Ok st => Some st | Err _ => None end
  | Err _ => None
  end.

Definition state_check (ok : RunState -> bool) (run_id : string) (s : Store) : bool :=
  match logged_state run_id s with Some st => ok st | None => false end.

Lemma state_checked ok run_id s : state_check ok run_id s = true -> exists st, logged s run_id st /\ ok st = true.
Proof.
  unfold state_check, logged_state. destruct (all_events run_id s) as [evs|] eqn:E; [|discriminate].
  destruct (fold evs) as [st|] eqn:F; [|discriminate]. intros Hok. exists st. split; [by exists evs | done].
Qed.

(** It runs, is not being given up, and there is room to give it up. *)
Definition running_now (st : RunState) : bool :=
  is_status RRunning st && negb (rs_abandoning st) &&
  (Z.of_nat (length (t_events (demo 5))) + (2 * Z.of_nat (length (rs_steps st)) + 2) <? i64_max).

(** The first request for work of the scenario. *)
#[local] Abbreviation first_lease s := (exec demo_kernel (demo_call 4) (OLease demo_lease_request) s).

Lemma requests_follow_turns_witness : exists st',
  logged (first_lease (demo 4)) (demo_id 3 0 "run") st' /\
  ((exists st, logged (demo 4) (demo_id 3 0 "run") st /\
      rtc desk_step (desk (demo_id 3 0 "run") (demo 4) st) (desk (demo_id 3 0 "run") (first_lease (demo 4)) st')) \/
   (~ known (demo 4) (demo_id 3 0 "run") /\ opened (desk (demo_id 3 0 "run") (first_lease (demo 4)) st'))).
Proof.
  assert (short (first_lease (demo 4))) as Hs by (vm_compute; reflexivity).
  destruct (state_checked (fun _ => true) (demo_id 3 0 "run") (first_lease (demo 4))) as (st' & Hlog & _); [vm_compute; reflexivity|].
  exists st'. split; [exact Hlog|].
  exact (requests_follow_turns demo_kernel (demo_call 4) (OLease demo_lease_request) (demo 4) (demo_id 3 0 "run") st'
           (demo_reachable 4) Hs Hlog).
Defined.

