(* ===== verification/Finality.v ===== *)
(** * What is done stays done

    Two consequences of the machine of [Turns]: a card that is done is never touched again, and
    a run is completed exactly when every card is done.  Through the refinement of [NoStuck]
    they hold of every run the kernel leads to that is not being given up. *)

From stdpp Require Import relations.
From S2P Require Import Prelude Text Ids F64 Json Policy Lexer Parser PolicyTools Canonical Time.
From S2P Require Import Errors Keys Remit Payloads PayloadLaws Events Fold RunJson FoldSpec.
From S2P Require Import Template Schema Bundle BundleSpec Store Kernel Scenario Hoare History StoreInv KernelInv.
From S2P Require Import Replay LeaseSpec StepSpec RevokeSpec ActionSpec StartSpec Paging Progress Supply Turns Desks DeskSteps Waking NoStuck.
From Stdlib Require Import Ascii Sorting.Sorted.

Local Open Scope string_scope.
Local Open Scope list_scope.
Local Open Scope Z_scope.

(** ** On the machine *)

Lemma update_keeps id f l (y : Card) : In y l -> cd_id y <> id -> In y (update_first (is_card id) f l).
Proof.
  intros Hy Hn. induction l as [|x l IH]; [done|]. cbn. unfold is_card at 1. destruct (String.eqb_spec (cd_id x) id) as [E|].
  - destruct Hy as [->|Hy]; [done | by right].
  - destruct Hy as [->|Hy]; [by left | right; by apply IH].
Qed.

(** Changing a card that is not done leaves those that are. *)
Lemma done_elsewhere d x y f :
  proper (v_cards (d_view d)) -> In x (v_cards (d_view d)) -> cd_state x <> SCompleted ->
  In y (v_cards (d_view d)) -> cd_state y = SCompleted -> In y (v_cards (set_card (cd_id x) f (d_view d))).
Proof.
  intros [_ Hn _] Hx Hxs Hy Hys. apply update_keeps; [done|]. intros E.
  apply Hxs. by rewrite <- (nodup_inj cd_id _ y x Hn Hy Hx E).
Qed.

(** The card a human is asked about is not done. *)
Lemma asked_card d a id :
  live d -> v_abandoning (d_view d) = false -> In (a, id) (d_pending d) ->
  exists x, In x (v_cards (d_view d)) /\ cd_id x = id /\ cd_state x = SWaitingApproval.
Proof.
  intros Hl Ha Hin. destruct (live_pending d a id Hl Ha Hin) as (Hs & Hp & _). destruct (Hl Ha) as [_ Hb].
  unfold live_by_status in Hb. rewrite Hs, Hp in Hb.
  destruct Hb as (x & (pre & post & El & _) & [(b & [= _ E] & Hw)|[Hf _]]); [|done].
  exists x. split; [|done]. rewrite El, in_app_iff. right. by left.
Qed.

Lemma steps_up d d' : desk_step d d' -> v_abandoning (d_view d') = false -> v_abandoning (d_view d) = false.
Proof. intros Hs Ha. apply not_true_is_false. intros E. by rewrite (step_abandoning _ _ Hs E) in Ha. Qed.

Lemma done_kept d d' y :
  live d -> desk_step d d' -> v_abandoning (d_view d') = false -> In y (v_cards (d_view d)) -> cd_state y = SCompleted ->
  In y (v_cards (d_view d')).
Proof.
  intros Hl Hs Ha' Hy Hd. pose proof (steps_up _ _ Hs Ha') as Ha. destruct (Hl Ha) as [Hp _].
  assert (forall x i, at_work d x i -> cd_state x <> SCompleted) as Hw by (intros x i [_ -> _ _]; done).
  destruct Hs as [d' Hg|x i Hr Hin Hx Ho|x i out v Hx Hv|x i Hx|x i st re Hx Hst Hre|x i a Hx|i Hno|a id Hin Hpk|a id Hin|Hr Hpe Hre|Hpe];
    cbn [d_view v_cards set_status set_parked] in *; try done.
  - congruence.
  - apply done_elsewhere; [done..| by rewrite Hx|done|done].
  - rewrite (proj2 (completes_keeps _ _ Hv)). apply done_elsewhere; [done|by apply Hx|by eapply Hw|done|done].
  - apply done_elsewhere; [done|by apply Hx|by eapply Hw|done|done].
  - apply done_elsewhere; [done|by apply Hx|by eapply Hw|done|done].
  - apply done_elsewhere; [done|by apply Hx|by eapply Hw|done|done].
  - destruct (asked_card d a id Hl Ha Hin) as (x & Hx & <- & Hxs).
    apply (done_elsewhere {| d_view := set_status RRunning (d_view d); d_pending := []; d_held := [] |});
      [done..| by rewrite Hxs|done|done].
  - destruct (asked_card d a id Hl Ha Hin) as (x & Hx & <- & Hxs). apply done_elsewhere; [done..| by rewrite Hxs|done|done].
  - apply in_map_iff. exists y. split; [|done]. unfold wake. by rewrite Hd.
Qed.

Lemma all_steps_up d d' : rtc desk_step d d' -> v_abandoning (d_view d') = false -> v_abandoning (d_view d) = false.
Proof. induction 1 as [|d d1 d2 Hs _ IH]; [done|]. intros Ha. by apply (steps_up _ _ Hs), IH. Qed.

Lemma done_kept_steps d d' y :
  rtc desk_step d d' -> live d -> v_abandoning (d_view d') = false -> In y (v_cards (d_view d)) -> cd_state y = SCompleted ->
  In y (v_cards (d_view d')).
Proof.
  intros Hs Hl Ha Hy Hd. revert Hl Ha Hy. induction Hs as [|d d1 d2 Hs Hr IH]; intros Hl Ha Hy; [done|].
  pose proof (all_steps_up _ _ Hr Ha) as H1. apply IH; [|done|by eapply done_kept].
  eapply live_step; [exact Hl | by apply (steps_up _ _ Hs) | exact Hs].
Qed.

(** The run is completed exactly when every card is done. *)
Definition balanced (d : Desk) : Prop :=
  v_abandoning (d_view d) = false ->
  (v_status (d_view d) = RCompleted <-> Forall (fun x => cd_state x = SCompleted) (v_cards (d_view d))).

Lemma open_balanced d x :
  v_status (d_view d) <> RCompleted -> In x (v_cards (d_view d)) -> cd_state x <> SCompleted -> balanced d.
Proof. intros Hs Hin Hx _. split; [done|]. rewrite List.Forall_forall. intros Hall. by destruct Hx; apply Hall. Qed.

Lemma turn_in l x : turn l x -> In x l /\ cd_state x <> SCompleted.
Proof. intros (pre & post & -> & _ & _ & Hn). split; [rewrite in_app_iff; right; by left | done]. Qed.

(** A live run that runs or is parked has a card that is not done. *)
Lemma moving_balanced d : live d -> v_status (d_view d) = RRunning \/ v_status (d_view d) = RParked -> balanced d.
Proof.
  intros Hl Hs Ha. destruct (Hl Ha) as [_ Hb]. unfold live_by_status in Hb. revert Ha.
  assert (exists x, turn (v_cards (d_view d)) x) as (x & [Hin Hx]%turn_in).
  { destruct Hs as [E|E]; rewrite E in Hb; [destruct Hb as [_ (x & Ht & _)] | destruct Hb as (x & Ht & _)]; by exists x. }
  apply (open_balanced d x); [|done..]. by destruct Hs as [->| ->].
Qed.

Lemma finished_all v : proper (v_cards v) -> finished v = true -> Forall (fun x => cd_state x = SCompleted) (v_cards v).
Proof.
  intros [Hk _ _] Hf. apply List.Forall_forall. intros x Hin. unfold finished in Hf. apply negb_true_iff in Hf.
  rewrite List.Forall_forall in Hk. destruct (decide (cd_state x = SCompleted)) as [|Hn]; [done|]. exfalso.
  apply not_true_iff_false in Hf. apply Hf, any_true. exists x. split; [|unfold card_done; by rewrite bool_decide_false].
  apply filter_In. split; [done|]. unfold card_comp. by destruct (Hk x Hin) as [<-|[<-|[<-|[]]]].
Qed.

Lemma complete_balanced d x i out v :
  live d -> v_abandoning (d_view d) = false -> at_work d x i ->
  completes (set_card (cd_id x) (finish_card out) (d_view d)) v ->
  balanced {| d_view := v; d_pending := d_pending d; d_held := drop_id i (d_held d) |}.
Proof.
  intros Hl Ha Hw Hs. pose proof (complete_live d x i out v Hl Ha Hw Hs) as Hl'.
  destruct (live_at_work d x i Hl Ha Hw) as (Hr & _ & pre & post & _ & _ & Hu). unfold completes in Hs.
  destruct (finished _) eqn:Ef; [|apply moving_balanced; [done|]; cbn; destruct Hs as [->| ->]; cbn; rewrite ?Hr; auto].
  subst v. intros _. split; [intros _ | done]. destruct (Hu (finish_card out) (finish_in_place _)) as [Hp E].
  refine (finished_all (set_card (cd_id x) (finish_card out) (d_view d)) _ Ef). by rewrite E.
Qed.

Lemma balanced_step d d' : live d -> v_abandoning (d_view d) = false -> balanced d -> desk_step d d' -> balanced d'.
Proof.
  intros Hl Ha Hb Hs. pose proof (live_step d d' Hl Ha Hs) as Hl'.
  assert (forall x i, at_work d x i -> v_status (d_view d) = RRunning) as Hw by (intros x i Hx; by apply (live_at_work d x i)).
  destruct Hs as [d' Hg|x i Hr Hin Hx Ho|x i out v Hx Hv|x i Hx|x i st re Hx Hst Hre|x i a Hx|i Hno|a id Hin Hpk|a id Hin|Hr Hpe Hre|Hpe];
    try (apply moving_balanced; [done|]; cbn; eauto; fail).
  - intros Hf. congruence.
  - by eapply complete_balanced.
  - done.
  - destruct (live_pending d a id Hl Ha Hin) as (_ & _ & x & pre & post & _ & _ & Hu). destruct (Hu SFailed None) as [_ E].
    apply (open_balanced _ (put SFailed None x)); [done| |done]. cbn. rewrite E, in_app_iff. right. by left.
Qed.

Lemma balanced_steps d d' :
  rtc desk_step d d' -> live d -> balanced d -> balanced d'.
Proof.
  induction 1 as [|d d1 d2 Hs Hr IH]; [done|]. intros Hl Hb Ha. pose proof (all_steps_up _ _ Hr Ha) as H1.
  pose proof (steps_up _ _ Hs H1) as H0. apply IH; [by eapply live_step | by eapply balanced_step | done].
Qed.

Lemma opened_balanced d : opened d -> balanced d.
Proof.
  intros Ho. apply moving_balanced; [by apply opened_live|]. left. by apply Ho.
Qed.

(** ** On the kernel *)

Section Theorems.
Context `{FloatFormat, Sha256, JsonPrint, Crypto, JsonText, Regex, UnicodeTables, F64Display}.

Lemma reachable_balanced s run_id st : reachable s -> short s -> logged s run_id st -> balanced (desk run_id s st).
Proof.
  intros Hr. revert st. induction Hr as [|k c op s Hr IH]; intros st' Hs Hlog.
  { destruct Hlog as (evs & He & Hf). cbn in He. injection He as <-. discriminate Hf. }
  pose proof (history_short _ _ (exec_history k c op s) Hs) as Hs0.
  destruct (exec_moves k c op s (reachable_INV s Hr) (reachable_unique s Hr) (reachable_refs s Hr) (reachable_live s Hr Hs0) Hs _ _ Hlog)
    as [(st & Hst & Hm)|[_ Ho]]; [|by apply opened_balanced].
  eapply balanced_steps; [exact Hm | by apply reachable_live | by apply IH].
Qed.

Lemma later_reachable s s' : reachable s -> later s s' -> reachable s'.
Proof. intros Hr. induction 1; [done | by constructor]. Qed.

Lemma later_keeps s s' run_id st y :
  reachable s -> later s s' -> short s' -> logged s run_id st -> In y (v_cards (view st)) -> cd_state y = SCompleted ->
  forall st', logged s' run_id st' -> rs_abandoning st' = false -> In y (v_cards (view st')).
Proof.
  intros Hr Hlat. induction Hlat as [|k c op s' Hlat IH]; intros Hs Hlog Hy Hd st' Hlog' Ha.
  { by rewrite (logged_unique _ _ _ _ Hlog' Hlog). }
  pose proof (later_reachable _ _ Hr Hlat) as Hr'. pose proof (history_short _ _ (exec_history k c op s') Hs) as Hs'.
  destruct (exec_moves k c op s' (reachable_INV s' Hr') (reachable_unique s' Hr') (reachable_refs s' Hr') (reachable_live s' Hr' Hs') Hs _ _ Hlog')
    as [(st1 & Hst1 & Hm)|[Hnk _]].
  - pose proof (all_steps_up _ _ Hm Ha) as Ha1. specialize (IH Hs' Hlog Hy Hd st1 Hst1 Ha1).
    exact (done_kept_steps _ _ y Hm (reachable_live s' Hr' Hs' run_id st1 Hst1) Ha IH Hd).
  - exfalso. apply Hnk, (hi_runs _ _ (later_history _ _ Hlat)). eapply logged_known; [|exact Hlog].
    pose proof (history_short _ _ (later_history _ _ Hlat) Hs') as Hs0. apply short_small in Hs0.
    exact (reachable_INV s Hr Hs0).
Qed.

Lemma step_of_card st x : In x (v_cards (view st)) -> state_inv st ->
  exists step, find_step (cd_id x) st = Some step /\ card step = x.
Proof.
  intros (step & <- & Hin)%in_map_iff [[Hn _] _]. exists step. split; [|done]. unfold find_step.
  destruct (find_first _ _) as [y|] eqn:Ef.
  - apply find_first_some in Ef as [Hy Ey%String.eqb_eq]. f_equal. by apply (nodup_inj st_id (rs_steps st)).
  - apply find_first_none in Ef. rewrite List.Forall_forall in Ef. specialize (Ef step Hin). cbn in Ef.
    by rewrite String.eqb_refl in Ef.
Qed.

(** C4: a completed step is final.  Whatever is asked of the kernel after a step of a run was
    completed, as long as the run is not given up, the step is completed with the same output
    (one that is null counts as none) and is never handed out again, at any time and to any
    worker: no retry, lost lease, late report, approval or resumption makes a worker do it
    twice. *)
Theorem completed_step_is_final s s' run_id st st' step :
  reachable s -> later s s' -> short s' -> logged s run_id st -> In step (rs_steps st) -> st_state step = SCompleted ->
  logged s' run_id st' -> rs_abandoning st' = false ->
  exists step', find_step (st_id step) st' = Some step' /\ st_state step' = SCompleted /\
    drop_null (st_output step') = drop_null (st_output step) /\
    (forall kinds now_ms again, st_id again = st_id step -> ~ may_run kinds now_ms st' again).
Proof.
  intros Hr Hlat Hs Hlog Hin Hst Hlog' Ha.
  assert (state_inv st') as Hinv by (destruct Hlog' as (evs & _ & Hf); by eapply fold_inv).
  pose proof (later_keeps s s' run_id st (card step) Hr Hlat Hs Hlog (in_map card _ _ Hin) Hst st' Hlog' Ha) as Hkept.
  destruct (step_of_card st' (card step) Hkept Hinv) as (step' & Hfind & Hc).
  assert (st_state step' = SCompleted) as Hd by (apply (f_equal cd_state) in Hc; by rewrite <- Hst).
  exists step'. split; [done|]. split; [done|]. split; [by apply (f_equal cd_output) in Hc|]. intros kinds now again Hid Hmay.
  apply find_first_some in Hfind as [Hin' Hid'%String.eqb_eq].
  assert (again = step') as -> by (apply (nodup_inj st_id (rs_steps st')); [by apply Hinv | by apply Hmay | done | by rewrite Hid, Hid']).
  destruct Hmay as [_ _ Hsch _ _ _ _]. congruence.
Qed.

(** C5: a run is completed exactly when its work is.  On every store the kernel leads to, a run
    that is not being given up is completed if and only if every one of its steps is. *)
Theorem run_completed_when_done s run_id st :
  reachable s -> short s -> logged s run_id st -> rs_abandoning st = false ->
  (rs_state st = RCompleted <-> forall step, In step (rs_steps st) -> st_state step = SCompleted).
Proof.
  intros Hr Hs Hlog Ha. destruct (reachable_balanced s run_id st Hr Hs Hlog Ha) as [Hdone Hall].
  cbn [desk d_view view v_status v_cards] in Hdone, Hall. rewrite List.Forall_map, List.Forall_forall in Hdone, Hall. by split.
Qed.
End Theorems.

(** ** Witnesses *)

Import Demo.

Lemma play_later ops s : later s (play ops s).
Proof.
  assert (forall s', later s s' -> later s (play ops s')) as Hp; [|apply Hp, later_now].
  induction ops as [|x ops IH]; intros s' Hl; [done|]. cbn. apply IH. by constructor.
Qed.

(** The rest of the first run of the scenario, from the completion of its first step on. *)
#[local] Abbreviation first_done := (demo 6).
#[local] Abbreviation run_done := (play (firstn 6 (skipn 6 demo_ops)) first_done).

Definition completed_first (st : RunState) : bool :=
  match rs_steps st with step :: _ => step_is SCompleted step | [] => false end.
Definition not_given_up (st : RunState) : bool := negb (rs_abandoning st).

Lemma completed_step_is_final_witness : exists st st' step,
  logged first_done (demo_id 3 0 "run") st /\ In step (rs_steps st) /\ logged run_done (demo_id 3 0 "run") st' /\
  exists step', find_step (st_id step) st' = Some step' /\ st_state step' = SCompleted /\
    drop_null (st_output step') = drop_null (st_output step) /\
    (forall kinds now_ms again, st_id again = st_id step -> ~ may_run kinds now_ms st' again).
Proof.
  assert (short run_done) as Hs by (vm_compute; reflexivity).
  destruct (state_checked completed_first (demo_id 3 0 "run") first_done) as (st & Hlog & Hst); [vm_compute; reflexivity|].
  destruct (state_checked not_given_up (demo_id 3 0 "run") run_done) as (st' & Hlog' & Ha); [vm_compute; reflexivity|].
  apply negb_true_iff in Ha. unfold completed_first in Hst. destruct (rs_steps st) as [|step l] eqn:El; [discriminate|].
  apply bool_decide_eq_true in Hst. assert (In step (rs_steps st)) as Hin by (rewrite El; left; reflexivity).
  exists st, st', step. split; [exact Hlog|]. split; [exact Hin|]. split; [exact Hlog'|].
  exact (completed_step_is_final first_done run_done (demo_id 3 0 "run") st st' step (demo_reachable 6)
           (play_later _ first_done) Hs Hlog Hin Hst Hlog' Ha).
Defined.

Definition completed_now (st : RunState) : bool := is_status RCompleted st && negb (rs_abandoning st).

Lemma run_completed_when_done_witness : exists st,
  logged run_done (demo_id 3 0 "run") st /\ rs_steps st <> [] /\
  forall step, In step (rs_steps st) -> st_state step = SCompleted.
Proof.
  assert (short run_done) as Hs by (vm_compute; reflexivity).
  destruct (state_checked (fun st => completed_now st && negb (match rs_steps st with [] => true | _ => false end))
              (demo_id 3 0 "run") run_done) as (st & Hlog & Hok); [vm_compute; reflexivity|].
  apply andb_true_iff in Hok as [Hc Hne]. apply andb_true_iff in Hc as [Hc Ha]. apply bool_decide_eq_true in Hc.
  apply negb_true_iff in Ha. exists st. split; [exact Hlog|]. split; [by intros E; rewrite E in Hne|].
  assert (reachable run_done) as Hr by (apply play_reachable, demo_reachable).
  exact (proj1 (run_completed_when_done run_done (demo_id 3 0 "run") st Hr Hs Hlog Ha) Hc).
Defined.
