(* ===== verification/Unwind.v ===== *)
(** * Unwinds that get stuck

    [no_run_is_stuck] leaves out runs that are being given up.  It has to: there are two ways
    to a run that nothing moves any more.  A run whose unwind failed may be abandoned again;
    and two compensations may be given the same identifier.  A scenario leads to each. *)

From S2P Require Import Prelude Text Ids F64 Json Policy Lexer Parser PolicyTools Canonical Time.
From S2P Require Import Errors Keys Remit RemitToken Payloads Events Fold RunJson FoldSpec.
From S2P Require Import Template Schema Bundle BundleSpec Store Kernel Scenario Hoare History StoreInv KernelInv.
From S2P Require Import Replay LeaseSpec StepSpec NoStuck.
From Stdlib Require Import Ascii.
Import Demo.

Local Open Scope string_scope.
Local Open Scope list_scope.
Local Open Scope Z_scope.

Definition bundle_of (steps : list json) : json :=
  obj [("format", JStr FORMAT); ("name", JStr "finance.undo"); ("version", JStr "1.0.0");
       ("tools", JArr [obj [("id", JStr "http.get")]; obj [("id", JStr "ledger.post"); ("writes", JBool true)]]);
       ("workflows", obj [("intake", obj [("steps", JArr steps)])])].

(** A write that can be undone, and a step that reads. *)
Definition write_step_def (id : string) : json :=
  example_step id "ledger.post"
    [("args", obj [("id", JStr "{{input.id}}")]); ("idempotency_key", JStr (id +:+ ":{{run.id}}"));
     ("compensation", obj [("tool", JStr "ledger.post");
                           ("args", obj [("undo", JStr ("{{steps." +:+ id +:+ ".output.id}}"))])])].
Definition read_step_def (id : string) : json :=
  example_step id "http.get" [("args", obj [("id", JStr "{{input.id}}")])].

Definition undo_bundle : json := bundle_of [write_step_def "post"; read_step_def "fetch"].

Definition refused_error : ErrorInfo := {| ei_code := "ledger_closed"; ei_message := "the month is closed" |}.
Definition operator : json := obj [("id", JStr "u.ops")].

(** The run of request 3 posts (5) and is abandoned (6); the ledger refuses to undo the entry,
    three times (8, 10, 12), and the run fails; it is abandoned again (13). *)
Definition unwind_ops : list (Z * Op) := [
  (0, OApplyPolicy "finance" 1 demo_policy);
  (1, OApplyBundle undo_bundle (sign_bundle undo_bundle example_key));
  (2, OIssueRemit demo_issue);
  (3, OStartRun (demo_start 2));
  (4, OLease demo_lease_request);
  (5, OComplete (demo_id 4 0 "lse") (obj [("id", JStr "p1")]) None);
  (6, OAbandon (demo_id 3 0 "run") "cancelled" operator);
  (7, OLease demo_lease_request);
  (8, OFail (demo_id 7 0 "lse") refused_error true);
  (9, OLease demo_lease_request);
  (10, OFail (demo_id 9 0 "lse") refused_error true);
  (11, OLease demo_lease_request);
  (12, OFail (demo_id 11 0 "lse") refused_error true);
  (13, OAbandon (demo_id 3 0 "run") "once more" operator)].

Definition unwound (n : nat) : Store := play (firstn n unwind_ops) empty_store.

(** A compensation is named after its step, with [comp_].  For [a] that name is taken by a step
    of the workflow, and the next candidate, [comp_a_2], is what [a_2] is given. *)
Definition colliding_bundle : json :=
  bundle_of [write_step_def "a"; write_step_def "a_2"; read_step_def "comp_a"; read_step_def "fetch"].

(** The run completes three steps (5, 7, 9) and is abandoned (10); the one compensation there
    is, of two that were scheduled, is carried out (12). *)
Definition colliding_ops : list (Z * Op) := [
  (0, OApplyPolicy "finance" 1 demo_policy);
  (1, OApplyBundle colliding_bundle (sign_bundle colliding_bundle example_key));
  (2, OIssueRemit demo_issue);
  (3, OStartRun (demo_start 2));
  (4, OLease demo_lease_request);
  (5, OComplete (demo_id 4 0 "lse") (obj [("id", JStr "p1")]) None);
  (6, OLease demo_lease_request);
  (7, OComplete (demo_id 6 0 "lse") (obj [("id", JStr "p2")]) None);
  (8, OLease demo_lease_request);
  (9, OComplete (demo_id 8 0 "lse") (obj [("id", JStr "r")]) None);
  (10, OAbandon (demo_id 3 0 "run") "cancelled" operator);
  (11, OLease demo_lease_request);
  (12, OComplete (demo_id 11 0 "lse") JNull None)].

Definition collided (n : nat) : Store := play (firstn n colliding_ops) empty_store.

(** ** Nothing moves it *)

(** Every scheduled step of the class that is served has an earlier one that is not done. *)
Definition all_blocked (st : RunState) : bool :=
  forallb (fun step =>
    negb (step_is SScheduled step) || negb (Bool.eqb (is_compensation step) (rs_abandoning st))
    || any (fun e => Bool.eqb (is_compensation e) (is_compensation step) && (st_index e <? st_index step)
                     && negb (step_is SCompleted e)) (rs_steps st)) (rs_steps st).

Lemma blocked_never_runs st kinds now step : all_blocked st = true -> ~ may_run kinds now st step.
Proof.
  unfold all_blocked. rewrite forallb_forall. intros Hb [_ Hin Hs _ Hc _ Ho]. specialize (Hb step Hin).
  unfold step_is at 1 in Hb. rewrite Hs, Hc, Bool.eqb_reflx in Hb. cbn in Hb. apply any_true in Hb as (e & He & Hb).
  rewrite !andb_true_iff in Hb. destruct Hb as [[Hk%Bool.eqb_prop Hi%Z.ltb_lt] Hn]. unfold step_is in Hn.
  rewrite Hc in Ho. by rewrite (Ho e He Hk Hi) in Hn.
Qed.

(** The run, by its row, is running and unwinding, with no lease and no approval. *)
Definition row_unwinding (run_id : string) (s : Store) : bool :=
  match require_run run_id s with
  | Ok row => is_status RRunning (row_state row) && unwind_pending (row_state row)
  | Err _ => false
  end.
Definition unattended (run_id : string) (s : Store) : bool :=
  match active_leases_of_run run_id s, pending_in_run run_id s with [], [] => true | _, _ => false end.

Lemma unwinding_refuses run_id s : row_unwinding run_id s = true -> forall c reason actor,
  abandon c run_id reason actor s = (Err (conflict "run_not_abandonable"), s) /\
  resume c run_id actor s = (Err (conflict "run_not_parked"), s).
Proof.
  unfold row_unwinding. destruct (require_run run_id s) as [row|] eqn:E; [|discriminate].
  intros [Hr%bool_decide_eq_true Hu]%andb_true_iff c reason actor.
  unfold abandon, resume, transaction, load_run, kbind, kread, kguard, kret. rewrite E. unfold rt_state, abandonable, is_status.
  cbn [rt_run]. rewrite Hr, Hu. done.
Qed.

Lemma unattended_spec run_id s : unattended run_id s = true -> active_leases_of_run run_id s = [] /\ pending_in_run run_id s = [].
Proof. unfold unattended. destruct (active_leases_of_run run_id s); [|done]. by destruct (pending_in_run run_id s). Qed.

Definition stuck_now (st : RunState) : bool :=
  is_status RRunning st && rs_abandoning st && unwind_pending st && all_blocked st.

(** No request moves the run: no step may be handed out, nobody holds one or is asked about one,
    and it can be neither abandoned nor resumed. *)
Record stuck `{FloatFormat, Sha256, JsonPrint, Crypto, JsonText, Regex, UnicodeTables, F64Display}
    (s : Store) (run_id : string) (st : RunState) : Prop := {
  sk_logged : logged s run_id st;
  sk_running : rs_state st = RRunning;
  sk_unwinding : rs_abandoning st = true /\ unwind_pending st = true;
  sk_blocked : forall kinds now_ms step, ~ may_run kinds now_ms st step;
  sk_leases : active_leases_of_run run_id s = [];
  sk_approvals : pending_in_run run_id s = [];
  sk_abandon : forall c reason actor, abandon c run_id reason actor s = (Err (conflict "run_not_abandonable"), s);
  sk_resume : forall c actor, resume c run_id actor s = (Err (conflict "run_not_parked"), s) }.

Lemma stuck_checked run_id s also :
  state_check (fun st => stuck_now st && also st) run_id s = true -> row_unwinding run_id s = true ->
  unattended run_id s = true -> exists st, stuck s run_id st /\ also st = true.
Proof.
  intros (st & Hlog & [Hst Halso]%andb_true_iff)%state_checked Hrow [Hl Hp]%unattended_spec.
  pose proof (unwinding_refuses _ _ Hrow) as Href.
  unfold stuck_now in Hst. rewrite !andb_true_iff in Hst. destruct Hst as [[[Hr%bool_decide_eq_true Ha] Hu] Hb].
  exists st. split; [|done]. split; try done.
  - intros kinds now step. by apply blocked_never_runs.
  - intros c reason actor. apply Href.
  - intros c actor. apply (Href c "again" actor).
Qed.

(** A completed step that declares a compensation which no compensation step carries out: each
    row of kind compensation is for another step, although the run has the compensation down
    as scheduled. *)
Definition never_undone (s : Store) (run_id id : string) (st : RunState) : bool :=
  match find_step id st with Some step => step_is SCompleted step | None => false end
  && any (fun co => String.eqb (co_for_step co) id && String.eqb (co_state co) "scheduled") (rs_compensations st)
  && forallb (fun r => negb (String.eqb (sr_run_id r) run_id && String.eqb (sr_kind r) "compensation")
                       || negb (String.eqb (str_or_empty (jget_str "for_step" (sr_def r))) id)) (t_steps s).

