(* ===== verification/Reverse.v ===== *)
(** * Unwinding in reverse

    What [abandon] schedules: one compensation for each completed step that declares one, the
    last step first, with its arguments resolved against the outputs of the run.  With the
    order in which steps are handed out ([may_run]) this is the reverse of the order in which
    the work was done. *)

From stdpp Require Import relations.
From S2P Require Import Prelude Text Ids F64 Json Policy Lexer Parser PolicyTools Canonical Time.
From S2P Require Import Errors Keys Remit RemitToken Payloads PayloadLaws Events Fold RunJson FoldSpec.
From S2P Require Import Template Schema Bundle BundleSpec Store Kernel Scenario Hoare History StoreInv KernelInv.
From S2P Require Import Replay LeaseSpec StepSpec RevokeSpec Supply GivingUp NoStuck Unwind.
From Stdlib Require Import Ascii.

Local Open Scope string_scope.
Local Open Scope list_scope.
Local Open Scope Z_scope.

(** ** The plan *)

(** A step to be undone: its identifier and definition, and the tool and arguments that undo it. *)
Record Undo := { un_step : string; un_def : json; un_tool : string; un_args : json }.

(** What is done about a completed step, by its row in the store: nothing, a compensation, or a
    failure because the arguments name something the run does not have. *)
Inductive Plan := Leave | Compensate (u : Undo) | Unresolved (error : TemplateError).

Definition standing (st : RunState) (id : string) : bool :=
  any (fun co => String.eqb (co_for_step co) id && negb (String.eqb (co_state co) "failed")) (rs_compensations st).

Definition plan `{JsonPrint} (s : Store) (st : RunState) (step : StepState) : Plan :=
  if standing st (st_id step) then Leave
  else match get_step (rs_run_id st) (st_id step) s with
       | Ok (Some row) =>
           match declared_compensation (srow_def row) with
           | Some (tool, template) =>
               match resolve template (template_context st) with
               | Ok args => Compensate {| un_step := st_id step; un_def := srow_def row; un_tool := tool; un_args := args |}
               | Err e => Unresolved e
               end
           | None => Leave
           end
       | _ => Leave
       end.

Definition undone `{JsonPrint} (s : Store) (st : RunState) (steps : list StepState) : list Undo :=
  flat_map (fun x => match plan s st x with Compensate u => [u] | _ => [] end) steps.
Definition gives_up `{JsonPrint} (s : Store) (st : RunState) (steps : list StepState) : bool :=
  any (fun x => match plan s st x with Unresolved _ => true | _ => false end) steps.

(** The completed steps of the workflow, last first. *)
Definition to_undo (st : RunState) : list StepState := rev (List.filter (step_is SCompleted) (workflow_steps st)).

(** The compensation steps, in the order in which they are handed out. *)
Fixpoint undo_steps (st : RunState) (index : Z) (l : list Undo) : list StepState :=
  match l with
  | [] => []
  | u :: l =>
      new_step {| ss_step := compensation_step_id st (un_step u); ss_index := index; ss_kind := "compensation" |}
      :: undo_steps st (index + 1) l
  end.

Definition undo_ids (st : RunState) (l : list Undo) : list string := map (fun u => compensation_step_id st (un_step u)) l.

Lemma undo_steps_app st l : forall index u,
  undo_steps st index (l ++ [u]) = undo_steps st index l ++
    [new_step {| ss_step := compensation_step_id st (un_step u); ss_index := index + Z.of_nat (length l);
                 ss_kind := "compensation" |}].
Proof.
  induction l as [|x l IH]; intros index u; cbn [undo_steps app length]; [by rewrite Z.add_0_r|].
  rewrite IH. cbn [app]. by replace (index + 1 + Z.of_nat (length l)) with (index + Z.of_nat (S (length l))) by lia.
Qed.

Lemma undo_steps_ids st l : forall index, map st_id (undo_steps st index l) = undo_ids st l.
Proof. induction l as [|u l IH]; intros index; cbn; [done|]. by rewrite IH. Qed.

Lemma undo_steps_norm st l : forall index, map norm_step (undo_steps st index l) = undo_steps st index l.
Proof. induction l as [|u l IH]; intros index; cbn; [done|]. by rewrite IH. Qed.

(** ** The state of the run on the way *)

(** After some of the steps: [st] is the state when the run was given up. *)
Record unwound_to (st : RunState) (index : Z) (done : list Undo) (gave_up : bool) (u : Unwind) : Prop := {
  ut_steps : rs_steps (rt_state (uw_rt u)) = rs_steps st ++ undo_steps st index done;
  ut_state : rs_state (rt_state (uw_rt u)) = match done with [] => RAbandoned | _ => RRunning end;
  ut_up : rs_abandoning (rt_state (uw_rt u)) = true;
  ut_run : rs_run_id (rt_state (uw_rt u)) = rs_run_id st;
  ut_index : uw_next_index u = index + Z.of_nat (length done);
  ut_count : uw_scheduled u = Z.of_nat (length done);
  ut_failed : gave_up = match uw_failed u with Some _ => true | None => false end;
  ut_defs : forall x, In x done ->
    map_get (compensation_step_id st (un_step x)) (rt_defs (uw_rt u)) =
    Some (compensation_def (rs_run_id st) (compensation_step_id st (un_step x)) (un_tool x) (un_step x) (un_args x) (un_def x)) }.

(** ** The rows *)

(** The row of a step, if there is one, has this definition. *)
Definition defined (run_id id : string) (def : json) (s : Store) : Prop :=
  forall r, find_first (is_step run_id id) (t_steps s) = Some r -> sr_def r = def.

(** Writing the steps of a run gives each new row its definition. *)
Lemma write_steps_def run_id id def (defs : string -> option json) steps : defs id = Some def -> forall s u s',
  kfor steps (fun step => write_step run_id step (defs (st_id step))) s = (Ok u, s') -> defined run_id id def s ->
  defined run_id id def s' /\
  (In id (map st_id steps) \/ find_first (is_step run_id id) (t_steps s) <> None -> find_first (is_step run_id id) (t_steps s') <> None).
Proof.
  intros Hd. induction steps as [|step l IH]; intros s u s' Hf Hdef; cbn [kfor] in Hf.
  { apply kret_ok in Hf as [_ ->]. split; [done|]. by intros [[]|]. }
  apply kbind_ok in Hf as (u1 & s1 & Hw & Hf). apply (write_step_row _ id) in Hw.
  destruct (IH _ _ _ Hf) as [Hdef' Hex].
  - intros r Hr. rewrite Hw in Hr. destruct (find_first _ (t_steps s)) as [r0|] eqn:E0.
    + injection Hr as <-. specialize (Hdef r0 E0). by destruct (is_step _ _ r0).
    + destruct (String.eqb_spec (st_id step) id) as [Es|]; [|done]. rewrite Es, Hd in Hr. by injection Hr as <-.
  - split; [done|]. intros [[Es|Hin]|Hn]; apply Hex; [right | by left | right]; rewrite Hw.
    + destruct (find_first _ (t_steps s)); [done|]. by rewrite Es, String.eqb_refl, Hd.
    + by destruct (find_first _ (t_steps s)).
Qed.

(** A step that is persisted for the first time has the definition the transaction gave it. *)
Lemma persist_defines rt s u s' id def :
  persist rt s = (Ok u, s') -> map_get id (rt_defs rt) = Some def -> In id (map st_id (rs_steps (rt_state rt))) ->
  find_first (is_step (rs_run_id (rt_state rt)) id) (t_steps s) = None ->
  exists row, find_first (is_step (rs_run_id (rt_state rt)) id) (t_steps s') = Some row /\ sr_def row = def.
Proof.
  intros (s1 & Hw & Hf)%persist_split Hdef Hin Hn. assert (t_steps s1 = t_steps s) as Es
    by (unfold write_run, kput in Hw; injection Hw as <-; by destruct (any _ _)).
  destruct (write_steps_def _ id def (fun i => map_get i (rt_defs rt)) _ Hdef _ _ _ Hf) as [Hd Hex].
  - intros r Hr. rewrite Es, Hn in Hr. discriminate.
  - specialize (Hex (or_introl Hin)). destruct (find_first _ (t_steps s')) as [r|] eqn:Er; [|done]. exists r. split; [done|]. by apply Hd.
Qed.

Section Unwinding.
Context `{FloatFormat, Sha256}.

(** Appending a compensation and scheduling its step. *)
Lemma compensation_appended rt p s rt' s' :
  append rt Act.kernel (PCompensationScheduled p) s = (Ok rt', s') -> rs_abandoning (rt_state rt) = true ->
  rs_steps (rt_state rt') = rs_steps (rt_state rt) /\ rs_abandoning (rt_state rt') = true /\
  rs_run_id (rt_state rt') = rs_run_id (rt_state rt) /\
  (rs_state (rt_state rt) = RAbandoned \/ rs_state (rt_state rt) = RRunning -> rs_state (rt_state rt') = RRunning).
Proof.
  intros (e & x & Ha & -> & _)%append_applied Hab; [|done]. cbn [apply_payload] in Ha. injection Ha as <-.
  cbn [rs_abandoning set_compensations set_last_seq]. rewrite Hab. unfold is_status. cbn.
  case_bool_decide as E; cbn; repeat split; try done; intros [|]; done.
Qed.

Lemma scheduled_appended rt p s rt' s' :
  append rt Act.kernel (PStepScheduled p) s = (Ok rt', s') -> u32_ok (ss_index p) ->
  find_step (ss_step p) (rt_state rt) = None -> rs_state (rt_state rt) = RRunning ->
  rs_steps (rt_state rt') = rs_steps (rt_state rt) ++ [new_step p] /\ rs_state (rt_state rt') = RRunning /\
  rs_abandoning (rt_state rt') = rs_abandoning (rt_state rt) /\ rs_run_id (rt_state rt') = rs_run_id (rt_state rt).
Proof.
  intros Ha Hu Hf Hr. apply append_applied in Ha as (e & x & Ha & -> & _); [|done]. cbn [apply_payload] in Ha.
  change (find_step (ss_step p) (set_last_seq (ev_seq e) (rt_state rt))) with (find_step (ss_step p) (rt_state rt)) in Ha.
  rewrite Hf in Ha. unfold is_status in Ha. cbn in Ha. rewrite Hr in Ha. injection Ha as <-. by repeat split.
Qed.

Context `{JsonPrint}.

Lemma undo_ids_app st l u : undo_ids st (l ++ [u]) = undo_ids st l ++ [compensation_step_id st (un_step u)].
Proof. apply map_app. Qed.

(** The identifier of a compensation that is not planned yet is free. *)
Lemma undo_id_free st index done u s :
  rs_steps s = rs_steps st ++ undo_steps st index done -> List.NoDup (undo_ids st (done ++ [u])) ->
  find_step (compensation_step_id st (un_step u)) s = None.
Proof.
  intros E Hn. destruct (find_step _ s) as [x|] eqn:Ef; [|done]. exfalso.
  apply find_first_some in Ef as [Hin Hid%String.eqb_eq]. rewrite E, in_app_iff in Hin. destruct Hin as [Hin|Hin].
  - apply (in_map st_id) in Hin. rewrite Hid, find_step_in in Hin. by rewrite compensation_step_id_fresh in Hin.
  - apply (in_map st_id) in Hin. rewrite Hid, undo_steps_ids in Hin. rewrite undo_ids_app in Hn.
    by apply List.NoDup_remove_2 in Hn; rewrite app_nil_r in Hn.
Qed.

Lemma append_defs rt actor p s rt' s' : append rt actor p s = (Ok rt', s') -> rt_defs rt' = rt_defs rt.
Proof.
  unfold append, append_event. intros Ha. apply kbind_ok in Ha as ([e rt1] & s1 & Ha & Hr). apply kret_ok in Hr as [-> ->].
  by apply append_raw_inv in Ha as (_ & _ & _ & _ & -> & _).
Qed.

(** One step of the unwinding follows the plan. *)
Lemma unwind_step_plan s0 st index done gave u step s u' s' :
  unwind_step (rs_run_id st) st u step s = (Ok u', s') -> t_steps s = t_steps s0 ->
  unwound_to st index done gave u -> 0 <= index -> index + Z.of_nat (length done) + 1 < 2 ^ 32 ->
  List.NoDup (undo_ids st (done ++ undone s0 st [step])) ->
  t_steps s' = t_steps s0 /\ unwound_to st index (done ++ undone s0 st [step]) (gave || gives_up s0 st [step]) u'.
Proof.
  intros Hu Hts Ht Hi0 Hi Hn. unfold undone, gives_up, plan in *. cbn [flat_map existsb any] in *. rewrite orb_false_r.
  unfold unwind_step in Hu. fold (standing st (st_id step)) in Hu.
  destruct (standing st (st_id step)).
  { apply kret_ok in Hu as [-> ->]. rewrite app_nil_r, orb_false_r. done. }
  apply kbind_ok in Hu as (row & s1 & [Hrow ->]%kread_ok & Hu).
  assert (get_step (rs_run_id st) (st_id step) s0 = Ok row) as Hrow0 by (unfold get_step in *; by rewrite <- Hts).
  rewrite Hrow0 in *. destruct row as [row|]; [|apply kret_ok in Hu as [-> ->]; by rewrite app_nil_r, orb_false_r].
  destruct (declared_compensation _) as [[tool template]|]; [|apply kret_ok in Hu as [-> ->]; by rewrite app_nil_r, orb_false_r].
  destruct (resolve _ _) as [args|e].
  - cbn [app] in *. apply kbind_ok in Hu as (rt1 & s2 & Ha1 & Hu). apply kbind_ok in Hu as (rt2 & s3 & Ha2 & Hu).
    apply kret_ok in Hu as [-> ->]. destruct Ht as [Hsteps Hst Hup Hrun Hidx Hcnt Hfail Hdefs].
    set (x := {| un_step := st_id step; un_def := srow_def row; un_tool := tool; un_args := args |}) in *.
    pose proof Ha1 as (ev1 & _ & _ & _ & Es1)%append_state. pose proof Ha2 as (ev2 & _ & _ & _ & Es2)%append_state.
    destruct (compensation_appended _ _ _ _ _ Ha1 Hup) as (Hs1 & Hup1 & Hrun1 & Hr1).
    assert (rs_state (rt_state rt1) = RRunning) as Hrr by (apply Hr1; destruct done; auto).
    destruct (scheduled_appended _ _ _ _ _ Ha2) as (Hs2 & Hr2 & Hup2 & Hrun2); try done.
    { unfold u32_ok, u32_max. cbn. lia. }
    { apply (undo_id_free st index done x); [|done]. etrans; [exact Hs1 | exact Hsteps]. }
    split; [by rewrite Es2, Es1|]. rewrite orb_false_r. cbn [uw_rt uw_next_index uw_scheduled uw_failed].
    split; cbn [uw_rt uw_next_index uw_scheduled uw_failed]; try done.
    + rewrite Hs2, undo_steps_app, app_assoc, <- Hsteps, <- Hs1, Hidx. done.
    + by destruct done.
    + by rewrite Hup2.
    + rewrite Hrun2. by etrans; [exact Hrun1|].
    + rewrite Hidx, length_app. cbn [length]. unfold u32_add. rewrite Z.mod_small; lia.
    + rewrite Hcnt, length_app. cbn [length]. rewrite u64_add_small; unfold u64_max; lia.
    + intros y Hy. rewrite (append_defs _ _ _ _ _ _ Ha2). cbn [rt_defs add_def]. rewrite map_get_insert.
      rewrite (append_defs _ _ _ _ _ _ Ha1). apply in_app_iff in Hy as [Hy|[<-|[]]]; [|by rewrite String.eqb_refl].
      destruct (String.eqb_spec (compensation_step_id st (un_step y)) (compensation_step_id st (st_id step))) as [E|]; [|by apply Hdefs].
      exfalso. rewrite undo_ids_app in Hn. apply List.NoDup_remove_2 in Hn. rewrite app_nil_r in Hn. apply Hn.
      apply (in_map (fun u => compensation_step_id st (un_step u))) in Hy. cbn in Hy. by rewrite E in Hy.
  - apply kbind_ok in Hu as (rt1 & s2 & Ha1 & Hu). apply kret_ok in Hu as [-> ->]. rewrite app_nil_r, orb_true_r.
    destruct Ht as [Hsteps Hst Hup Hrun Hidx Hcnt Hfail Hdefs]. pose proof Ha1 as (ev1 & _ & _ & _ & Es1)%append_state.
    split; [by rewrite Es1|]. pose proof (append_defs _ _ _ _ _ _ Ha1) as Ed.
    apply append_applied in Ha1 as (ev & y & Ha & Ey & _); [|done]. cbn [apply_payload] in Ha. injection Ha as <-.
    split; cbn [uw_rt uw_next_index uw_scheduled uw_failed]; rewrite ?Ey, ?Ed; done.
Qed.

(** The whole unwinding does. *)
Lemma unwind_plan s0 st index l : 0 <= index -> forall done gave u s u' s',
  kfold l u (unwind_step (rs_run_id st) st) s = (Ok u', s') -> t_steps s = t_steps s0 -> unwound_to st index done gave u ->
  index + Z.of_nat (length done) + Z.of_nat (length l) < 2 ^ 32 -> List.NoDup (undo_ids st (done ++ undone s0 st l)) ->
  t_steps s' = t_steps s0 /\ unwound_to st index (done ++ undone s0 st l) (gave || gives_up s0 st l) u'.
Proof.
  intros Hi0. induction l as [|x l IH]; intros done gave u s u' s' Hf Hts Ht Hi Hn; cbn [kfold] in Hf.
  { apply kret_ok in Hf as [-> ->]. by rewrite app_nil_r, orb_false_r. }
  apply kbind_ok in Hf as (u1 & s1 & Hu & Hf).
  assert (undone s0 st (x :: l) = undone s0 st [x] ++ undone s0 st l) as E by (unfold undone; cbn; by rewrite app_nil_r).
  assert (gives_up s0 st (x :: l) = gives_up s0 st [x] || gives_up s0 st l) as Eg by (unfold gives_up; cbn; by rewrite orb_false_r).
  cbn [length] in Hi. rewrite E, app_assoc in Hn |- *. rewrite Eg, orb_assoc.
  destruct (unwind_step_plan s0 st index done gave u x s u1 s1 Hu Hts Ht Hi0) as [Hts1 Ht1].
  - lia.
  - unfold undo_ids in *. rewrite map_app in Hn. by eapply List.NoDup_app_remove_r.
  - apply (IH _ _ u1 s1); try done. rewrite length_app.
    assert (length (undone s0 st [x]) <= 1)%nat by (unfold undone; cbn; rewrite app_nil_r; destruct (plan _ _ _); cbn; lia). lia.
Qed.
End Unwinding.

Section Theorems.
Context `{FloatFormat, Sha256, JsonPrint, Crypto, JsonText, Regex, UnicodeTables, F64Display}.

(** Giving up a run leaves what the plan is made from. *)
Lemma abandoned_appended rt actor p s rt' s' :
  append rt actor (PRunAbandoned p) s = (Ok rt', s') -> unwind_pending (rt_state rt) = false ->
  exists seq, let st := rt_state rt in
    rt_state rt' = set_state RAbandoned (set_pending_approval None (set_park_reason None (set_abandoning true (set_last_seq seq st)))) /\
    rt_defs rt' = rt_defs rt /\ t_steps s' = t_steps s.
Proof.
  intros Ha Hp. pose proof (append_defs _ _ _ _ _ _ Ha) as Hd. apply append_applied in Ha as (e & x & Ha & -> & ->); [|done].
  exists (ev_seq e). cbn [apply_payload] in Ha. cbv zeta in Ha.
  match type of Ha with context [unwind_pending ?s] => change (unwind_pending s) with (unwind_pending (rt_state rt)) in Ha end.
  rewrite Hp in Ha. by injection Ha as <-.
Qed.

(** What the plan is made from. *)
Record same_plans (st st1 : RunState) : Prop := {
  sp_steps : rs_steps st1 = rs_steps st;
  sp_compensations : rs_compensations st1 = rs_compensations st;
  sp_run : rs_run_id st1 = rs_run_id st;
  sp_context : template_context st1 = template_context st }.

Lemma comp_id_same st st1 id : rs_steps st1 = rs_steps st -> compensation_step_id st1 id = compensation_step_id st id.
Proof.
  intros E. unfold compensation_step_id. assert (forall x, find_step x st1 = find_step x st) as Ef by (intros x; unfold find_step; by rewrite E).
  rewrite Ef, E. destruct (find_step _ st); [|done]. generalize 2 as n. induction (length (rs_steps st)) as [|k IH]; intros n; cbn; [done|].
  rewrite Ef. destruct (find_step _ st); [apply IH | done].
Qed.

Lemma same_plans_all st st1 : same_plans st st1 ->
  to_undo st1 = to_undo st /\ (forall s l, undone s st1 l = undone s st l) /\ (forall s l, gives_up s st1 l = gives_up s st l) /\
  (forall l, undo_ids st1 l = undo_ids st l) /\ (forall l index, undo_steps st1 index l = undo_steps st index l).
Proof.
  intros [Es Ec Er Et].
  assert (forall s x, plan s st1 x = plan s st x) as Ep by (intros s x; unfold plan, standing; by rewrite Ec, Er, Et).
  split; [unfold to_undo, workflow_steps; by rewrite Es|].
  split; [intros s l; unfold undone; apply List.flat_map_ext; intros x; by rewrite Ep|].
  split; [intros s l; unfold gives_up, any; induction l as [|x l IH]; cbn; [done|]; by rewrite Ep, IH|].
  split; [intros l; apply map_ext; intros u; by apply comp_id_same|].
  intros l. induction l as [|u l IH]; intros index; cbn; [done|]. by rewrite IH, (comp_id_same st st1).
Qed.

(** The end of an abandonment: the run fails if something could not be undone. *)
Lemma unwinding_ends u s rt s' :
  match uw_failed u with
  | Some error => append (uw_rt u) Act.kernel (PRunFailed {| rf_error := error; rf_needs_human := true |})
  | None => kret (uw_rt u)
  end s = (Ok rt, s') ->
  rs_steps (rt_state rt) = rs_steps (rt_state (uw_rt u)) /\ rt_defs rt = rt_defs (uw_rt u) /\ t_steps s' = t_steps s /\
  rs_state (rt_state rt) = match uw_failed u with Some _ => RFailed | None => rs_state (rt_state (uw_rt u)) end.
Proof.
  destruct (uw_failed u) as [e|]; [|by intros [-> ->]%kret_ok]. intros Ha. pose proof (append_defs _ _ _ _ _ _ Ha) as Hd.
  apply append_applied in Ha as (ev & x & Ha & -> & ->); [|done]. cbn [apply_payload] in Ha. by injection Ha as <-.
Qed.

(** No row of the run has the identifier of a compensation to come. *)
Lemma compensation_row_free s run_id st id :
  reachable s -> small s -> logged s run_id st ->
  find_first (is_step run_id (compensation_step_id (norm_state st) id)) (t_steps s) = None.
Proof.
  intros Hr Hs Hlog. pose proof (reachable_INV s Hr Hs) as Hc.
  destruct (find_first _ _) as [r|] eqn:E; [|done]. exfalso. apply find_first_some in E as [Hin [Hrun Hid]%andb_true_iff].
  pose proof (logged_known _ _ _ Hc Hlog) as (x & <- & Hx)%in_map_iff.
  destruct (run_logged _ _ Hc Hs Hx) as (st' & Hlog' & _ & Hsh & _). rewrite (logged_unique _ _ _ _ Hlog' Hlog) in Hsh.
  assert (In (sr_step_id r) (map st_id (rs_steps st))) as Hst.
  { rewrite (shows_ids _ _ _ Hsh). apply in_map, filter_In. by split. }
  apply String.eqb_eq in Hid. rewrite Hid in Hst. apply find_step_in in Hst. apply Hst.
  pose proof (compensation_step_id_fresh (norm_state st) id) as Hf. rewrite find_step_norm in Hf. by destruct (find_step _ st).
Qed.

End Theorems.

(** ** Witness *)

Import Demo.

(** A run that writes twice (5, 7) and is abandoned before its last step. *)
Definition twice_bundle : json := bundle_of [write_step_def "a"; write_step_def "b"; read_step_def "fetch"].

Definition twice_ops : list (Z * Op) := [
  (0, OApplyPolicy "finance" 1 demo_policy);
  (1, OApplyBundle twice_bundle (sign_bundle twice_bundle example_key));
  (2, OIssueRemit demo_issue);
  (3, OStartRun (demo_start 2));
  (4, OLease demo_lease_request);
  (5, OComplete (demo_id 4 0 "lse") (obj [("id", JStr "p1")]) None);
  (6, OLease demo_lease_request);
  (7, OComplete (demo_id 6 0 "lse") (obj [("id", JStr "p2")]) None)].

Definition twice : Store := play twice_ops empty_store.

#[local] Abbreviation abandon_it := (abandon (demo_call 8) (demo_id 3 0 "run") "cancelled" operator).

(** What the plan comes to: the second write first. *)
Definition plan_fits (s : Store) (st0 : RunState) : bool :=
  let st := norm_state st0 in
  let todo := undone s st (to_undo st) in
  bool_decide (map un_step todo = ["b"; "a"]) && bool_decide (base.NoDup (undo_ids st todo)) &&
  (max_index (rs_steps st) + Z.of_nat (length (rs_steps st)) <? 2 ^ 32) && negb (gives_up s st (to_undo st)).

