(* ===== verification/Metrics.v ===== *)
(** * Metrics ([kernos-core/src/metrics.rs])

    The in-process counters and the latency histogram, and their Prometheus text.  A
    [Mutex] around a field only orders its updates, so each update is a function of the
    record; the maps are [BTreeMap]s, association lists in key order.  The decimal text of a
    float is the class [F64Display]. *)

From stdpp Require Import gmap.
From S2P Require Import Prelude Text F64 Json Store Kernel.
From Stdlib Require Import Ascii.

Local Open Scope string_scope.
Local Open Scope list_scope.
Local Open Scope Z_scope.

Definition LATENCY_BUCKETS : list f64 :=
  [f64_of_ratio 5 2; f64_of_ratio 1 1; f64_of_ratio 25 2; f64_of_ratio 5 1; f64_of_Z 1;
   f64_of_ratio 25 1; f64_of_Z 5; f64_of_Z 10; f64_of_Z 30; f64_of_Z 60; f64_of_Z 120; f64_of_Z 300].

Record Metrics := {
  steps_leased_total : Z; leases_expired_total : Z; events_total : list (string * Z);
  usage_usd_total : list (string * f64); latency_counts : list Z; latency_sum : f64;
  latency_count : Z }.

Definition metrics_new : Metrics :=
  {| steps_leased_total := 0; leases_expired_total := 0; events_total := []; usage_usd_total := [];
     latency_counts := repeat 0 (length LATENCY_BUCKETS + 1); latency_sum := f64_zero; latency_count := 0 |}.

Definition step_leased (m : Metrics) : Metrics :=
  {| steps_leased_total := u64_add (steps_leased_total m) 1; leases_expired_total := leases_expired_total m;
     events_total := events_total m; usage_usd_total := usage_usd_total m;
     latency_counts := latency_counts m; latency_sum := latency_sum m; latency_count := latency_count m |}.

Definition metrics_lease_expired (m : Metrics) : Metrics :=
  {| steps_leased_total := steps_leased_total m; leases_expired_total := u64_add (leases_expired_total m) 1;
     events_total := events_total m; usage_usd_total := usage_usd_total m;
     latency_counts := latency_counts m; latency_sum := latency_sum m; latency_count := latency_count m |}.

(** [*map.entry(k).or_insert(zero) += x] *)
Definition bump {A} (add : A -> A -> A) (zero : A) (k : string) (x : A) (m : list (string * A)) : list (string * A) :=
  map_insert k (add (default zero (map_get k m)) x) m.

Definition metrics_event (kind : string) (m : Metrics) : Metrics :=
  {| steps_leased_total := steps_leased_total m; leases_expired_total := leases_expired_total m;
     events_total := bump u64_add 0 kind 1 (events_total m); usage_usd_total := usage_usd_total m;
     latency_counts := latency_counts m; latency_sum := latency_sum m; latency_count := latency_count m |}.

Definition metrics_usage_usd (department : string) (usd : f64) (m : Metrics) : Metrics :=
  {| steps_leased_total := steps_leased_total m; leases_expired_total := leases_expired_total m;
     events_total := events_total m; usage_usd_total := bump f64_add f64_zero department usd (usage_usd_total m);
     latency_counts := latency_counts m; latency_sum := latency_sum m; latency_count := latency_count m |}.

(** [iter().position(..).unwrap_or(len)] *)
Fixpoint bucket_of (buckets : list f64) (seconds : f64) : nat :=
  match buckets with
  | [] => 0
  | b :: buckets => if f64_leb seconds b then 0 else S (bucket_of buckets seconds)
  end.

Definition step_latency (seconds : f64) (m : Metrics) : Metrics :=
  {| steps_leased_total := steps_leased_total m; leases_expired_total := leases_expired_total m;
     events_total := events_total m; usage_usd_total := usage_usd_total m;
     latency_counts := alter (fun n => u64_add n 1) (bucket_of LATENCY_BUCKETS seconds) (latency_counts m);
     latency_sum := f64_add (latency_sum m) seconds; latency_count := u64_add (latency_count m) 1 |}.

(** ** Rendering *)

(** The running sum of the loop over the buckets: the number printed for each, and for
    [+Inf]. *)
Fixpoint cumulate (cumulative : Z) (counts : list Z) : list Z :=
  match counts with
  | [] => []
  | n :: counts => let cumulative := u64_add cumulative n in cumulative :: cumulate cumulative counts
  end.

Definition NL : string := String "010" "".

(** [name{label="value"} number] *)
Definition labelled (name label value number : string) : string :=
  name +:+ "{" +:+ label +:+ "=" +:+ String "034" (value +:+ String "034" ("} " +:+ number +:+ NL)).

Definition heading (name help type : string) : string :=
  "# HELP " +:+ name +:+ " " +:+ help +:+ NL +:+ "# TYPE " +:+ name +:+ " " +:+ type +:+ NL.

Definition run_states : list string := ["created"; "running"; "parked"; "completed"; "failed"; "abandoned"].

Section Render.
Context `{F64Display}.

Definition render (m : Metrics) (runs_by_state : gmap string Z) (approvals_pending : Z) : string :=
  String.concat "" (
    [heading "kernos_runs" "Runs by state." "gauge"]
    ++ map (fun state => labelled "kernos_runs" "state" state (dec (default 0 (runs_by_state !! state)))) run_states
    ++ [heading "kernos_steps_leased_total" "Leases issued." "counter";
        "kernos_steps_leased_total " +:+ dec (steps_leased_total m) +:+ NL;
        heading "kernos_leases_expired_total" "Leases swept for expiry." "counter";
        "kernos_leases_expired_total " +:+ dec (leases_expired_total m) +:+ NL;
        heading "kernos_approvals_pending" "Approvals awaiting a decision." "gauge";
        "kernos_approvals_pending " +:+ dec approvals_pending +:+ NL;
        heading "kernos_events_total" "Events appended by kind." "counter"]
    ++ map (fun kv => labelled "kernos_events_total" "kind" kv.1 (dec kv.2)) (events_total m)
    ++ [heading "kernos_usage_usd_total" "Spend recorded by department." "counter"]
    ++ map (fun kv => labelled "kernos_usage_usd_total" "department" kv.1 (display_f64 kv.2)) (usage_usd_total m)
    ++ [heading "kernos_step_latency_seconds" "Step attempt duration from lease to outcome." "histogram"]
    ++ zip_with (fun le n => labelled "kernos_step_latency_seconds_bucket" "le" le (dec n))
         (map display_f64 LATENCY_BUCKETS ++ ["+Inf"]) (cumulate 0 (latency_counts m))
    ++ ["kernos_step_latency_seconds_sum " +:+ display_f64 (latency_sum m) +:+ NL;
        "kernos_step_latency_seconds_count " +:+ dec (latency_count m) +:+ NL]).
End Render.

(** ** The histogram is exact *)

Definition observe (seconds : list f64) (m : Metrics) : Metrics := fold_left (fun m x => step_latency x m) seconds m.

(** How many observations are at most [b]. *)
Definition at_most (b : f64) (seconds : list f64) : Z := Z.of_nat (length (List.filter (fun x => f64_leb x b) seconds)).

Definition ascending (buckets : list f64) : Prop := List.ForallOrdPairs (fun a b => f64_leb a b = true) buckets.

(** The counters of a bucket list: the observations above the bucket before, up to this one. *)
Fixpoint buckets_of (buckets : list f64) (seconds : list f64) : list Z :=
  match buckets with
  | [] => [Z.of_nat (length seconds)]
  | b :: buckets => at_most b seconds :: buckets_of buckets (List.filter (fun x => negb (f64_leb x b)) seconds)
  end.

Lemma filter_snoc {A} (p : A -> bool) l x : List.filter p (l ++ [x]) = List.filter p l ++ (if p x then [x] else []).
Proof. rewrite List.filter_app. cbn. by destruct (p x). Qed.

Lemma buckets_snoc buckets seconds x :
  buckets_of buckets (seconds ++ [x]) = alter (fun n => n + 1) (bucket_of buckets x) (buckets_of buckets seconds).
Proof.
  revert seconds. induction buckets as [|b buckets IH]; intros seconds; cbn.
  - rewrite length_app. cbn. f_equal. lia.
  - unfold at_most. rewrite !filter_snoc, length_app. destruct (f64_leb x b); cbn.
    + f_equal; [lia|]. by rewrite app_nil_r.
    + f_equal; [lia|]. by rewrite IH.
Qed.

Lemma alter_ext {A} (f g : A -> A) i (l : list A) :
  (forall x, l !! i = Some x -> f x = g x) -> alter f i l = alter g i l.
Proof.
  revert i. induction l as [|y l IH]; intros [|i] Hx; cbn; [done..| |].
  - by rewrite (Hx y).
  - f_equal. by apply IH.
Qed.

Lemma buckets_bounds buckets seconds i n :
  buckets_of buckets seconds !! i = Some n -> 0 <= n <= Z.of_nat (length seconds).
Proof.
  revert seconds i. induction buckets as [|b buckets IH]; intros seconds [|i]; cbn; intros E; simplify_eq.
  - lia.
  - unfold at_most. pose proof (List.filter_length_le (fun x => f64_leb x b) seconds). lia.
  - apply IH in E. pose proof (List.filter_length_le (fun x => negb (f64_leb x b)) seconds). lia.
Qed.

Lemma buckets_nil buckets : buckets_of buckets [] = repeat 0 (length buckets + 1).
Proof. induction buckets as [|b buckets IH]; cbn; [done|]. by rewrite <- IH. Qed.

Lemma observed seconds :
  Z.of_nat (length seconds) <= u64_max ->
  latency_counts (observe seconds metrics_new) = buckets_of LATENCY_BUCKETS seconds /\
  latency_count (observe seconds metrics_new) = Z.of_nat (length seconds).
Proof.
  unfold u64_max. induction seconds as [|x seconds IH] using rev_ind; intros Hlen; [done|].
  rewrite length_app in Hlen. cbn in Hlen. destruct IH as [Hc Hn]; [lia|].
  unfold observe in *. rewrite fold_left_app. cbn [fold_left step_latency latency_counts latency_count].
  rewrite Hc, Hn, buckets_snoc, length_app. cbn [length]. split.
  - apply alter_ext. intros n Hb%buckets_bounds. unfold u64_add. rewrite Z.mod_small; lia.
  - unfold u64_add. rewrite Z.mod_small; lia.
Qed.

Lemma at_most_split a b seconds :
  f64_leb a b = true ->
  at_most b seconds = at_most a seconds + at_most b (List.filter (fun x => negb (f64_leb x a)) seconds).
Proof.
  intros Hab. unfold at_most. induction seconds as [|x seconds IH]; cbn; [done|].
  destruct (f64_leb x a) eqn:Ea; cbn.
  - rewrite (f64_leb_trans x a b Ea Hab). cbn. lia.
  - destruct (f64_leb x b); cbn; lia.
Qed.

Lemma length_split a (seconds : list f64) :
  Z.of_nat (length seconds) =
  at_most a seconds + Z.of_nat (length (List.filter (fun x => negb (f64_leb x a)) seconds)).
Proof. unfold at_most. induction seconds as [|x seconds IH]; cbn; [done|]. destruct (f64_leb x a); cbn; lia. Qed.

Lemma cumulate_buckets buckets seconds acc :
  ascending buckets -> 0 <= acc -> acc + Z.of_nat (length seconds) <= u64_max ->
  cumulate acc (buckets_of buckets seconds) =
  map (fun b => acc + at_most b seconds) buckets ++ [acc + Z.of_nat (length seconds)].
Proof.
  unfold u64_max. intros Ha. revert seconds acc. induction Ha as [|b buckets Hb Ha IH]; intros seconds acc Hacc Hlen.
  - cbn. unfold u64_add. rewrite Z.mod_small by lia. done.
  - pose proof (length_split b seconds) as Hs. cbn [buckets_of cumulate map app].
    assert (u64_add acc (at_most b seconds) = acc + at_most b seconds) as ->.
    { unfold u64_add. rewrite Z.mod_small; [done|]. unfold at_most in *. lia. }
    f_equal. rewrite IH by (unfold at_most in *; lia). f_equal; [|f_equal; lia].
    apply map_ext_in. intros b' Hin. cbn beta. rewrite List.Forall_forall in Hb. rewrite (at_most_split b b' seconds) by auto. cbn. lia.
Qed.

Lemma latency_buckets_ascending : ascending LATENCY_BUCKETS.
Proof. unfold ascending, LATENCY_BUCKETS. repeat constructor. Qed.

(** The numbers the latency histogram prints are exact: after any sequence of step
    latencies, each bucket shows how many of them were at most its bound, and the last one,
    [+Inf], shows how many there were, which is also the printed count. *)
Theorem histogram_exact seconds :
  Z.of_nat (length seconds) <= u64_max ->
  let m := observe seconds metrics_new in
  cumulate 0 (latency_counts m) =
    map (fun b => at_most b seconds) LATENCY_BUCKETS ++ [Z.of_nat (length seconds)] /\
  latency_count m = Z.of_nat (length seconds).
Proof.
  intros Hlen m. destruct (observed seconds Hlen) as [Hc Hn]. split; [|done]. unfold m. rewrite Hc.
  by rewrite cumulate_buckets by (auto using latency_buckets_ascending || lia).
Qed.

Lemma histogram_exact_witness :
  cumulate 0 (latency_counts (observe [f64_of_Z 2; f64_of_ratio 7 2; f64_of_Z 500] metrics_new)) =
  [0; 1; 1; 1; 1; 2; 2; 2; 2; 2; 2; 2; 3].
Proof.
  destruct (histogram_exact [f64_of_Z 2; f64_of_ratio 7 2; f64_of_Z 500] ltac:(unfold u64_max; cbn; lia)) as [E _].
  rewrite E. vm_compute. reflexivity.
Defined.
