(* ===== verification/KeyFiles.v ===== *)
(** * Key files and trust

    Loading and writing keys ([kernos-core/src/keys.rs]) and the cache of trusted publisher
    keys the kernel keeps over a directory ([kernos-core/src/kernel.rs], [TrustedKeys]).

    A directory is the list of its files in the order [read_dir] gives them, with what [stat]
    says of each and its text, when it can be read; the system calls are what produces such a
    value.  Key bytes, PEM and pretty-printed JSON are external crates: [KeyBytes] and
    [JsonPretty]. *)

From S2P Require Import Prelude Text Ids F64 Json Canonical Errors Keys Remit RemitToken Bundle.
From S2P Require Import Store Kernel Paging.
From Stdlib Require Import Ascii.

Local Open Scope string_scope.
Local Open Scope list_scope.
Local Open Scope Z_scope.

(** [SigningKey::from_bytes] and [to_bytes], [VerifyingKey::from_bytes] and [as_bytes], the
    PEM readers. *)
Class KeyBytes `{Crypto} := {
  signing_of_bytes : string -> SigningKey;
  signing_bytes : SigningKey -> string;
  verifying_of_bytes : string -> option VerifyingKey;
  verifying_bytes : VerifyingKey -> string;
  pem_signing : string -> option SigningKey;
  pem_verifying : string -> option VerifyingKey }.

(** [serde_json::to_vec_pretty]. *)
Class JsonPretty := { json_pretty : json -> string }.

Class KeyBytesOk `{KeyBytes} := {
  signing_round_trip : forall k, signing_of_bytes (signing_bytes k) = k;
  signing_bytes_length : forall k, String.length (signing_bytes k) = 32%nat;
  verifying_round_trip : forall k, verifying_of_bytes (verifying_bytes k) = Some k;
  verifying_bytes_length : forall k, String.length (verifying_bytes k) = 32%nat }.

(** ** Files *)

(** What [read_dir], [stat] and [read_to_string] say of one file. *)
Record File := { f_name : string; f_modified : Z; f_len : Z; f_text : option string }.

(** [None] when the directory cannot be read. *)
Definition Dir : Type := option (list File).

(** [Path::file_stem] and [Path::extension]: the parts around the last dot, when there is
    something before it. *)
Definition split_extension (name : string) : string * option string :=
  if String.eqb name ".." then (name, None)
  else match rsplit_once "." name with
       | Some (b, a) => if is_empty b then (name, None) else (b, Some a)
       | None => (name, None)
       end.

Definition file_stem (name : string) : string := fst (split_extension name).

Definition is_pub (f : File) : bool :=
  match snd (split_extension (f_name f)) with Some e => String.eqb e "pub" | None => false end.

Section Files.
Context `{KeyBytes, JsonText}.

(** [KeyPair::generate]: the seed and the random bytes of the identifier are drawn. *)
Definition generate (now_ms : Z) (seed : string) (random : list Z) : KeyPair :=
  {| kp_key_id := new_id "key" now_ms random; kp_signing := signing_of_bytes seed |}.

Definition public_key_b64 (k : PublicKey) : string := encode_key (verifying_bytes (pk_verifying k)).

Definition public_to_json (k : PublicKey) : json :=
  obj [("key_id", JStr (pk_key_id k)); ("algorithm", JStr "ed25519"); ("public_key", JStr (public_key_b64 k))].

Definition pair_to_json (k : KeyPair) : json :=
  obj [("key_id", JStr (kp_key_id k)); ("algorithm", JStr "ed25519");
       ("public_key", JStr (encode_key (verifying_bytes (verifying_key (kp_signing k)))));
       ("private_key", JStr (encode_key (signing_bytes (kp_signing k))))].

(** [bytes[..32]] *)
Definition signing_from_bytes (bytes : string) : KernelResult SigningKey :=
  let n := String.length bytes in
  if (n =? 32)%nat || (n =? 64)%nat then Ok (signing_of_bytes (String.substring 0 32 bytes))
  else Err (bad_request "key_invalid").

Definition verifying_from_bytes (bytes : string) : KernelResult VerifyingKey :=
  if (String.length bytes =? 32)%nat then ok_or (bad_request "key_invalid") (verifying_of_bytes bytes)
  else Err (bad_request "key_invalid").

Definition load_private (stem text : string) : KernelResult KeyPair :=
  match parse_json text with
  | Some json =>
      let key_id := default stem (jget_str "key_id" json) in
      let? seed_text := ok_or (bad_request "key_invalid") (jget_str "private_key" json) in
      let? seed := decode_key seed_text in
      let? signing := signing_from_bytes seed in
      Ok {| kp_key_id := key_id; kp_signing := signing |}
  | None =>
      if contains_str "-----BEGIN" text then
        let? signing := ok_or (bad_request "key_invalid") (pem_signing text) in
        Ok {| kp_key_id := stem; kp_signing := signing |}
      else
        let? seed := decode_key (trim text) in
        let? signing := signing_from_bytes seed in
        Ok {| kp_key_id := stem; kp_signing := signing |}
  end.

Definition load_public (stem text : string) : KernelResult PublicKey :=
  match parse_json text with
  | Some json =>
      let key_id := default stem (jget_str "key_id" json) in
      let? key_text := ok_or (bad_request "key_invalid") (jget_str "public_key" json) in
      let? bytes := decode_key key_text in
      let? verifying := verifying_from_bytes bytes in
      Ok {| pk_key_id := key_id; pk_verifying := verifying |}
  | None =>
      if contains_str "-----BEGIN" text then
        let? verifying := ok_or (bad_request "key_invalid") (pem_verifying text) in
        Ok {| pk_key_id := stem; pk_verifying := verifying |}
      else
        let? bytes := decode_key (trim text) in
        let? verifying := verifying_from_bytes bytes in
        Ok {| pk_key_id := stem; pk_verifying := verifying |}
  end.

(** A file that cannot be read is an i/o error. *)
Definition load_public_file (f : File) : KernelResult PublicKey :=
  let? text := ok_or Internal (f_text f) in load_public (file_stem (f_name f)) text.

Definition load_dir (dir : Dir) : list PublicKey :=
  match dir with
  | None => []
  | Some files =>
      omap (fun f => match load_public_file f with Ok k => Some k | Err _ => None end)
           (List.filter is_pub (order_by (fun a b => str_leb (f_name a) (f_name b)) files))
  end.

(** ** The cache of trusted keys *)

Definition TrustFingerprint : Type := list (string * Z * Z).

Record TrustedKeys := {
  tk_pinned : list PublicKey; tk_from_dir : list PublicKey; tk_fingerprint : TrustFingerprint;
  tk_loaded : bool }.

(** [TrustedKeys::default()] *)
Definition no_keys : TrustedKeys :=
  {| tk_pinned := []; tk_from_dir := []; tk_fingerprint := []; tk_loaded := false |}.

(** The derived order on [(String, u64, u64)]. *)
Definition stat_leb (a b : string * Z * Z) : bool :=
  let '(n, m, l) := a in let '(n', m', l') := b in
  if String.eqb n n' then (if m =? m' then l <=? l' else m <=? m') else str_leb n n'.

Definition trust_fingerprint (dir : Dir) : TrustFingerprint :=
  match dir with
  | None => []
  | Some files => order_by stat_leb (map (fun f => (f_name f, f_modified f, f_len f)) (List.filter is_pub files))
  end.

Definition fingerprint_eqb (a b : TrustFingerprint) : bool := bool_decide (a = b).

(** [trusted_dir] is [None] for an in-memory kernel. *)
Definition refresh_trusted (trusted_dir : option Dir) (cache : TrustedKeys) : TrustedKeys :=
  match trusted_dir with
  | None => cache
  | Some dir =>
      let fingerprint := trust_fingerprint dir in
      if tk_loaded cache && fingerprint_eqb fingerprint (tk_fingerprint cache) then cache
      else {| tk_pinned := tk_pinned cache; tk_from_dir := load_dir dir; tk_fingerprint := fingerprint;
              tk_loaded := true |}
  end.

Definition trust_key (key : PublicKey) (cache : TrustedKeys) : TrustedKeys :=
  {| tk_pinned := tk_pinned cache ++ [key]; tk_from_dir := tk_from_dir cache;
     tk_fingerprint := tk_fingerprint cache; tk_loaded := tk_loaded cache |}.

(** The keys, and the cache left behind. *)
Definition trusted_keys (trusted_dir : option Dir) (cache : TrustedKeys) : list PublicKey * TrustedKeys :=
  let cache := refresh_trusted trusted_dir cache in
  (tk_pinned cache ++ tk_from_dir cache, cache).
End Files.

(** ** Writing and loading a key *)

Section RoundTrip.
Context `{CryptoOk, !KeyBytes, !KeyBytesOk, !JsonText, !JsonPretty}.

(** What the writer prints of [j], the reader reads. *)
Definition prints_back (j : json) : Prop := parse_json (json_pretty j) = Some j.

Lemma jget_str_obj k l : jget_str k (obj l) = v ← get_last k l; as_str v.
Proof. unfold jget_str, jget, obj. rewrite map_get_mk_map. by destruct (get_last k l). Qed.

Lemma substring_all s n : String.length s = n -> String.substring 0 n s = s.
Proof. revert n. induction s as [|a s IH]; intros [|n]; cbn; intros E; simplify_eq; [done|]. by rewrite IH. Qed.

Lemma signing_loads k : signing_from_bytes (signing_bytes k) = Ok k.
Proof.
  unfold signing_from_bytes. rewrite signing_bytes_length. cbn [Nat.eqb orb].
  by rewrite (substring_all _ _ (signing_bytes_length k)), signing_round_trip.
Qed.

Lemma verifying_loads k : verifying_from_bytes (verifying_bytes k) = Ok k.
Proof. unfold verifying_from_bytes. rewrite verifying_bytes_length. cbn [Nat.eqb]. by rewrite verifying_round_trip. Qed.

Lemma public_loads k stem : prints_back (public_to_json k) ->
  load_public stem (json_pretty (public_to_json k)) = Ok k.
Proof.
  intros E. unfold load_public. rewrite E. unfold public_to_json, public_key_b64. rewrite !jget_str_obj.
  cbn -[encode_key decode_key].
  rewrite decode_encode_key by apply verifying_bytes_length. cbn [rbind]. rewrite verifying_loads. by destruct k.
Qed.

Lemma private_loads k stem : prints_back (pair_to_json k) ->
  load_private stem (json_pretty (pair_to_json k)) = Ok k.
Proof.
  intros E. unfold load_private. rewrite E. unfold pair_to_json. rewrite !jget_str_obj. cbn -[encode_key decode_key].
  rewrite decode_encode_key by apply signing_bytes_length. cbn [rbind]. rewrite signing_loads. by destruct k.
Qed.

(** A key that was written to a file is loaded back as it was, identifier and key, the
    private form and the public one, whatever the file is called; and a signature made with
    the loaded private key verifies under the loaded public key. *)
Theorem key_file_round_trip k stem stem' m :
  prints_back (pair_to_json k) -> prints_back (public_to_json (public k)) ->
  load_private stem (json_pretty (pair_to_json k)) = Ok k /\
  load_public stem' (json_pretty (public_to_json (public k))) = Ok (public k) /\
  verify (public k) m (sign k m) = true.
Proof. intros Hk Hp. by rewrite private_loads, public_loads, verify_sign. Qed.
End RoundTrip.

(** ** The cache is transparent *)

(** What can happen to the cache: a key is pinned, or the keys are asked for while the
    directory is [d]. *)
Inductive TrustStep `{Crypto} := Pin (k : PublicKey) | Look (d : Dir).

Section Cache.
Context `{KeyBytes, JsonText}.

Definition trust_step (cache : TrustedKeys) (x : TrustStep) : TrustedKeys :=
  match x with
  | Pin k => trust_key k cache
  | Look d => refresh_trusted (Some d) cache
  end.

Definition trust_steps (l : list TrustStep) : TrustedKeys := fold_left trust_step l no_keys.

Definition pins (l : list TrustStep) : list PublicKey := omap (fun x => match x with Pin k => Some k | Look _ => None end) l.
Definition looks (l : list TrustStep) : list Dir := omap (fun x => match x with Pin _ => None | Look d => Some d end) l.

(** The names, times and sizes of the files tell their contents, on the directories seen. *)
Definition stat_tells (ds : list Dir) : Prop :=
  forall d1 d2, In d1 ds -> In d2 ds -> trust_fingerprint d1 = trust_fingerprint d2 -> load_dir d1 = load_dir d2.

Lemma refresh_pinned d cache : tk_pinned (refresh_trusted d cache) = tk_pinned cache.
Proof. unfold refresh_trusted. destruct d as [d|]; [|done]. by destruct (_ && _). Qed.

Lemma refresh_dir d cache :
  tk_loaded (refresh_trusted (Some d) cache) = true /\
  tk_fingerprint (refresh_trusted (Some d) cache) = trust_fingerprint d.
Proof.
  unfold refresh_trusted, fingerprint_eqb. destruct (tk_loaded cache) eqn:El; cbn [andb]; [|done].
  case_bool_decide as E; [|done]. by rewrite E.
Qed.

(** What the cache holds was read from a directory seen before, at the fingerprint kept. *)
Lemma cache_provenance l :
  tk_pinned (trust_steps l) = pins l /\
  (tk_loaded (trust_steps l) = true ->
   exists d, In d (looks l) /\ tk_from_dir (trust_steps l) = load_dir d /\
             tk_fingerprint (trust_steps l) = trust_fingerprint d).
Proof.
  induction l as [|x l [Hp Hl]] using rev_ind; [done|].
  unfold trust_steps, pins, looks in *. rewrite fold_left_app, !omap_app. cbn [fold_left trust_step omap list_omap].
  destruct x as [k|d]; cbn -[refresh_trusted].
  - rewrite Hp, app_nil_r. auto.
  - rewrite refresh_pinned, Hp, app_nil_r. split; [done|]. intros _. unfold refresh_trusted.
    destruct (tk_loaded (fold_left trust_step l no_keys) && _) eqn:E.
    + bool_prop. destruct Hl as (d' & Hin & ? & ?); [done|]. exists d'. rewrite in_app_iff. auto.
    + exists d. rewrite in_app_iff. cbn. auto.
Qed.

Lemma trusted_now l d :
  stat_tells (d :: looks l) ->
  fst (trusted_keys (Some d) (trust_steps l)) = pins l ++ load_dir d.
Proof.
  intros Hst. destruct (cache_provenance l) as [Hp Hl]. unfold trusted_keys. cbn [fst].
  rewrite refresh_pinned, Hp. f_equal. unfold refresh_trusted, fingerprint_eqb.
  destruct (tk_loaded (trust_steps l)) eqn:El; cbn [andb]; [|done].
  case_bool_decide as Ef; [|done]. destruct (Hl eq_refl) as (d' & Hin & -> & Ef').
  apply Hst; [by right | by left | congruence].
Qed.

(** The cache of trusted keys never shows.  Whatever keys were pinned and whatever the
    directory held at earlier looks, the keys trusted now are the pinned ones followed by
    those of the directory as it is now, as long as names, times and sizes tell the contents
    of the files.  So a key file is trusted from the moment it is there, and a key whose file
    is gone is no longer trusted. *)
Theorem trust_cache_transparent l d :
  stat_tells (d :: looks l) ->
  fst (trusted_keys (Some d) (trust_steps l)) = pins l ++ load_dir d.
Proof. apply trusted_now. Qed.

(** A readable key file in the directory is among the keys, and every key comes from one. *)
Lemma load_dir_in k files :
  In k (load_dir (Some files)) <-> exists f, In f files /\ is_pub f = true /\ load_public_file f = Ok k.
Proof.
  unfold load_dir. rewrite <- list_elem_of_In, list_elem_of_omap. split.
  - intros (f & Hf & E). rewrite list_elem_of_In, filter_In in Hf. destruct Hf as [Hf Hp].
    exists f. split; [|split; [done|]].
    + eapply Permutation_in; [symmetry; apply order_by_perm|exact Hf].
    + destruct (load_public_file f); congruence.
  - intros (f & Hf & Hp & E). exists f. rewrite E. split; [|done]. rewrite list_elem_of_In, filter_In. split; [|done].
    eapply Permutation_in; [apply order_by_perm|exact Hf].
Qed.

(** The name [keys trust] gives a key file. *)
Lemma pub_name id : is_empty id = false -> split_extension (id +:+ ".pub") = (id, Some "pub").
Proof.
  intros Hne. assert (rsplit_once "." (id +:+ ".pub") = Some (id, "pub")) as E.
  { clear. induction id as [|a id IH]; [done|]. simpl. by rewrite IH. }
  unfold split_extension. rewrite E, Hne. destruct (String.eqb_spec (id +:+ ".pub") "..") as [E'|]; [|done].
  destruct id as [|a [|b [|d id]]]; cbn in E'; congruence.
Qed.
End Cache.

Section Publisher.
Context `{CryptoOk, !KeyBytes, !KeyBytesOk, !JsonText, !JsonPretty, !FloatFormat, !Sha256}.

(** A publisher is accepted from the moment its key file is in the trusted directory.
    Whatever the cache held before, the kernel verifies a bundle the publisher signs, under
    the key of the file [<key_id>.pub], as long as no other key goes by that identifier. *)
Theorem trusted_publisher_accepted l files pair own bundle f :
  stat_tells (Some files :: looks l) -> In f files -> is_empty (kp_key_id pair) = false ->
  f_name f = kp_key_id pair +:+ ".pub" -> f_text f = Some (json_pretty (public_to_json (public pair))) ->
  prints_back (public_to_json (public pair)) ->
  Forall (fun k => pk_key_id k = kp_key_id pair -> k = public pair) (own :: pins l ++ load_dir (Some files)) ->
  verify_bundle_signature bundle (sign_bundle bundle pair)
    (own :: fst (trusted_keys (Some (Some files : Dir)) (trust_steps l))) = Ok (public pair).
Proof.
  intros Hst Hin Hne Hname Htext Hread Hother. rewrite (trusted_now l (Some files) Hst).
  set (keys := own :: _) in *. assert (In (public pair) keys) as Hk.
  { right. apply in_or_app. right. apply load_dir_in. exists f. split; [done|].
    unfold is_pub, load_public_file, file_stem. rewrite Hname, pub_name by done. split; [done|].
    rewrite Htext. cbn [ok_or rbind]. by apply public_loads. }
  unfold verify_bundle_signature, sign_bundle. cbn [bs_algorithm bs_key_id bs_signature negb].
  destruct (find_first (fun k => String.eqb (pk_key_id k) (kp_key_id pair)) keys) as [k|] eqn:Ef.
  - apply find_first_some in Ef as [Hk' He]. apply String.eqb_eq in He. rewrite List.Forall_forall in Hother.
    rewrite (Hother k Hk' He). cbn. by rewrite verify_sign.
  - apply find_first_none in Ef. rewrite List.Forall_forall in Ef. specialize (Ef _ Hk). cbn in Ef.
    by rewrite String.eqb_refl in Ef.
Qed.
End Publisher.

(** ** A concrete instance *)

Module ConcreteKeys.
(** Thirty-two bytes. *)
Definition seed : Type := { s : string | (String.length s =? 32)%nat = true }.

Lemma pad_seed s : (String.length (Concrete.pad_to 32 s) =? 32)%nat = true.
Proof. by rewrite Concrete.pad_to_length. Qed.

Definition seed_of (s : string) : seed := exist _ (Concrete.pad_to 32 s) (pad_seed s).

Definition crypto : Crypto :=
  {| SigningKey := seed; VerifyingKey := seed; verifying_key := id;
     ed25519_sign := fun k m => Concrete.pad_to 64 (`k +:+ m);
     ed25519_verify := fun k m s => String.eqb s (Concrete.pad_to 64 (`k +:+ m));
     base64_encode := Concrete.encode; base64_decode := Concrete.decode;
     base64_standard_decode := Concrete.decode |}.

Lemma key_crypto_ok : @CryptoOk crypto.
Proof.
  constructor; intros.
  - apply String.eqb_refl.
  - exact (Concrete.pad_to_length 64 _).
  - apply Concrete.decode_encode.
  - apply Concrete.encode_alphabet.
  - apply Concrete.encode_length.
Defined.

Definition key_bytes : @KeyBytes crypto :=
  {| signing_of_bytes := (seed_of : string -> @SigningKey crypto); signing_bytes := fun k => `k;
     verifying_of_bytes := fun s => Some (seed_of s : @VerifyingKey crypto); verifying_bytes := fun k => `k;
     pem_signing := fun _ => None; pem_verifying := fun _ => None |}.

Lemma pad_to_id n s : String.length s = n -> Concrete.pad_to n s = s.
Proof. revert s. induction n as [|n IH]; intros [|a s]; cbn; intros E; simplify_eq; [done|]. by rewrite IH. Qed.

Lemma seed_length (k : seed) : String.length (`k) = 32%nat.
Proof. destruct k as [s E]. exact (proj1 (Nat.eqb_eq _ _) E). Qed.

Lemma seed_of_proj (k : seed) : seed_of (`k) = k.
Proof. apply (sig_eq_pi _). exact (pad_to_id 32 _ (seed_length k)). Qed.

Lemma key_bytes_ok : @KeyBytesOk crypto key_bytes.
Proof.
  constructor.
  - exact seed_of_proj.
  - exact seed_length.
  - intros k. exact (f_equal Some (seed_of_proj k)).
  - exact seed_length.
Defined.

Definition pair : @KeyPair crypto := @Build_KeyPair crypto "key_a" (seed_of "seed").

Definition private_json : json := @pair_to_json crypto key_bytes pair.
Definition public_json : json := @public_to_json crypto key_bytes (@public crypto pair).

(** A printer and a reader that know the two documents. *)
Definition pretty : JsonPretty :=
  {| json_pretty := fun j => if json_eqb j private_json then "private" else "public" |}.
Definition text : JsonText :=
  {| parse_json := fun t => if String.eqb t "private" then Some private_json
                            else if String.eqb t "public" then Some public_json else None |}.

(** The control plane's own key, and a digest. *)
Definition own : @PublicKey crypto := @Build_PublicKey crypto "key_own" (seed_of "own").
Definition sha : Sha256 := {| sha256_hex := fun _ => "00" |}.

Definition key_file (name text : string) (modified : Z) : File :=
  {| f_name := name; f_modified := modified; f_len := Z.of_nat (String.length text); f_text := Some text |}.
End ConcreteKeys.

Lemma key_file_round_trip_witness :
  @load_private ConcreteKeys.crypto ConcreteKeys.key_bytes ConcreteKeys.text "control-plane" "private" =
  Ok ConcreteKeys.pair.
Proof.
  destruct (@key_file_round_trip ConcreteKeys.crypto ConcreteKeys.key_crypto_ok ConcreteKeys.key_bytes
    ConcreteKeys.key_bytes_ok ConcreteKeys.text ConcreteKeys.pretty ConcreteKeys.pair "control-plane" "a" "m")
    as [E _]; [vm_compute; reflexivity..|]. exact E.
Defined.

(** Three looks, one pinned key; the key file is there at the second look and gone at the
    third. *)
Lemma trust_cache_transparent_witness :
  let look d l := map (@pk_key_id ConcreteKeys.crypto) (fst (@trusted_keys ConcreteKeys.crypto
                    ConcreteKeys.key_bytes ConcreteKeys.text (Some d)
                    (@trust_steps ConcreteKeys.crypto ConcreteKeys.key_bytes ConcreteKeys.text l))) in
  let pin := @public ConcreteKeys.crypto (@Build_KeyPair ConcreteKeys.crypto "key_p" (ConcreteKeys.seed_of "p")) in
  look (Some [ConcreteKeys.key_file "a.pub" "public" 5]) [Look None; Pin pin] =
    ["key_p"; "key_a"] /\
  look None [Look (Some [ConcreteKeys.key_file "a.pub" "public" 5]); Pin pin] = ["key_p"].
Proof.
  intros look pin. unfold look. split.
  - rewrite (@trust_cache_transparent ConcreteKeys.crypto ConcreteKeys.key_bytes ConcreteKeys.text [Look None; Pin pin]
      (Some [ConcreteKeys.key_file "a.pub" "public" 5])).
    + vm_compute. reflexivity.
    + intros d1 d2 [<-|[<-|[]]] [<-|[<-|[]]] E; [reflexivity| | |reflexivity]; vm_compute in E; congruence.
  - rewrite (@trust_cache_transparent ConcreteKeys.crypto ConcreteKeys.key_bytes ConcreteKeys.text
      [Look (Some [ConcreteKeys.key_file "a.pub" "public" 5]); Pin pin] None).
    + vm_compute. reflexivity.
    + intros d1 d2 [<-|[<-|[]]] [<-|[<-|[]]] E; [reflexivity| | |reflexivity]; vm_compute in E; congruence.
Defined.

(** The key file arrives after a look at an empty directory. *)
Lemma trusted_publisher_accepted_witness :
  @verify_bundle_signature mantissa_format ConcreteKeys.crypto (obj [])
    (@sign_bundle mantissa_format ConcreteKeys.sha ConcreteKeys.crypto (obj []) ConcreteKeys.pair)
    (ConcreteKeys.own :: fst (@trusted_keys ConcreteKeys.crypto ConcreteKeys.key_bytes ConcreteKeys.text
       (Some (Some [ConcreteKeys.key_file "key_a.pub" "public" 5] : Dir))
       (@trust_steps ConcreteKeys.crypto ConcreteKeys.key_bytes ConcreteKeys.text [Look (Some [])]))) =
  Ok (@public ConcreteKeys.crypto ConcreteKeys.pair).
Proof.
  apply (@trusted_publisher_accepted ConcreteKeys.crypto ConcreteKeys.key_crypto_ok ConcreteKeys.key_bytes
    ConcreteKeys.key_bytes_ok ConcreteKeys.text ConcreteKeys.pretty mantissa_format ConcreteKeys.sha [Look (Some [])]
    [ConcreteKeys.key_file "key_a.pub" "public" 5] ConcreteKeys.pair ConcreteKeys.own (obj [])
    (ConcreteKeys.key_file "key_a.pub" "public" 5)).
  - intros d1 d2 [<-|[<-|[]]] [<-|[<-|[]]] E; [reflexivity| | |reflexivity]; vm_compute in E; congruence.
  - by left.
  - reflexivity.
  - reflexivity.
  - vm_compute. reflexivity.
  - vm_compute. reflexivity.
  - constructor; [intros E; vm_compute in E; discriminate E|].
    assert (@load_dir ConcreteKeys.crypto ConcreteKeys.key_bytes ConcreteKeys.text
              (Some [ConcreteKeys.key_file "key_a.pub" "public" 5]) = [@public ConcreteKeys.crypto ConcreteKeys.pair]) as E.
    { assert (@load_public_file ConcreteKeys.crypto ConcreteKeys.key_bytes ConcreteKeys.text
                (ConcreteKeys.key_file "key_a.pub" "public" 5) = Ok (@public ConcreteKeys.crypto ConcreteKeys.pair)) as El.
      { exact (@public_loads ConcreteKeys.crypto ConcreteKeys.key_crypto_ok ConcreteKeys.key_bytes
          ConcreteKeys.key_bytes_ok ConcreteKeys.text ConcreteKeys.pretty (@public ConcreteKeys.crypto ConcreteKeys.pair)
          "key_a" ltac:(vm_compute; reflexivity)). }
      unfold load_dir.
      replace (List.filter is_pub (order_by (fun a b => str_leb (f_name a) (f_name b))
                 [ConcreteKeys.key_file "key_a.pub" "public" 5]))
        with [ConcreteKeys.key_file "key_a.pub" "public" 5] by reflexivity.
      cbn [omap list_omap]. by rewrite El. }
    cbn [pins omap list_omap app]. rewrite E. constructor; [done|constructor].
Defined.
