(* ===== verification/Opening.v ===== *)
(** * Opening a kernel

    [Kernel::open] ([kernos-core/src/kernel.rs]) on a data directory: the control-plane key,
    made on the first start and loaded on every later one, the directory of users, and the
    database with its migrations ([kernos-core/src/store.rs], [migrate]).

    A file of the data directory is absent, unreadable or a text.  The database schema is
    what the migrations have made of it; each statement commits by itself, so a crash can
    fall between any two.  The statements of version 1 count as one: all of them say
    [IF NOT EXISTS], so a part of them changes nothing for the next start. *)

From stdpp Require Import gmap.
From S2P Require Import Prelude Text Ids F64 Json Policy PolicyTools Canonical Errors Keys Remit.
From S2P Require Import RemitSpec RemitToken Bundle Store Kernel KeyFiles.
From Stdlib Require Import Ascii.

Local Open Scope string_scope.
Local Open Scope list_scope.
Local Open Scope Z_scope.

(** ** Migrations *)

(** Whether the tables of version 1 and the column of version 2 are there, and the rows of
    [schema_version]. *)
Record DbSchema := { sch_tables : bool; sch_abandoning : bool; sch_versions : list Z }.

Definition fresh_schema : DbSchema := {| sch_tables := false; sch_abandoning := false; sch_versions := [] |}.

Definition SCHEMA_VERSION : Z := 2.

(** The statements of [MIGRATIONS]: [CREATE .. IF NOT EXISTS] can be run again, [ALTER TABLE
    .. ADD COLUMN] fails on a missing table and on a column that is there. *)
Definition MIGRATIONS : list (DbSchema -> KernelResult DbSchema) :=
  [fun s => Ok {| sch_tables := true; sch_abandoning := sch_abandoning s; sch_versions := sch_versions s |};
   fun s => if negb (sch_tables s) || sch_abandoning s then Err Internal
            else Ok {| sch_tables := true; sch_abandoning := true; sch_versions := sch_versions s |}].

Definition record_version (version : Z) (s : DbSchema) : DbSchema :=
  {| sch_tables := sch_tables s; sch_abandoning := sch_abandoning s; sch_versions := sch_versions s ++ [version] |}.

(** [MAX(version)], 0 when there is none. *)
Definition schema_version (s : DbSchema) : Z :=
  match sch_versions s with [] => 0 | v :: l => fold_left Z.max l v end.

(** The loop of [migrate], which runs at most [budget] statements before a crash; [Ok] tells
    whether it came to its end. *)
Fixpoint migrate_from (budget : nat) (version current : Z) (l : list (DbSchema -> KernelResult DbSchema)) (s : DbSchema)
    : KernelResult bool * DbSchema :=
  match l with
  | [] => (Ok true, s)
  | sql :: l =>
      if current <? version then
        match budget with
        | O => (Ok false, s)
        | S budget =>
            match sql s with
            | Err e => (Err e, s)
            | Ok s =>
                match budget with
                | O => (Ok false, s)
                | S budget => migrate_from budget (version + 1) current l (record_version version s)
                end
            end
        end
      else migrate_from budget (version + 1) current l s
  end.

Definition migrate_crashing (budget : nat) (s : DbSchema) : KernelResult bool * DbSchema :=
  migrate_from budget 1 (schema_version s) MIGRATIONS s.

(** [migrate], uninterrupted: two statements for each migration are enough. *)
Definition migrate (s : DbSchema) : KernelResult bool * DbSchema := migrate_crashing 4 s.

(** ** The data directory *)

(** [None]: absent; [Some None]: there, but not readable as text. *)
Definition DataFile : Type := option (option string).

Record DataDir := { dd_key : DataFile; dd_pub : DataFile; dd_directory : DataFile; dd_schema : DbSchema }.

Definition de_DirectoryUser (j : json) : option DirectoryUser :=
  fs ← struct_fields ["role"; "manager"] j;
  role ← dflt (de_option de_string) "role" None fs;
  manager ← dflt (de_option de_string) "manager" None fs;
  Some {| du_role := role; du_manager := manager |}.

Definition de_users (j : json) : option (gmap string DirectoryUser) :=
  m ← as_object j;
  l ← omapM (fun kv => u ← de_DirectoryUser (snd kv); Some (fst kv, u)) m;
  Some (list_to_map l).

Definition de_Directory (j : json) : option Directory :=
  fs ← struct_fields ["users"] j;
  users ← dflt de_users "users" ∅ fs;
  Some {| users := users |}.

Record Opened `{Crypto} := { op_key : KeyPair; op_directory : Directory }.

Section Open.
Context `{KeyBytes, !JsonText, !JsonPretty}.

(** The key of the directory, or the fresh one, written. *)
Definition open_key (fresh : KeyPair) (dd : DataDir) : KernelResult KeyPair * DataDir :=
  match dd_key dd with
  | Some file => (let? text := ok_or Internal file in load_private "control-plane" text, dd)
  | None => (Ok fresh, {| dd_key := Some (Some (json_pretty (pair_to_json fresh))); dd_pub := dd_pub dd;
                          dd_directory := dd_directory dd; dd_schema := dd_schema dd |})
  end.

Definition open_pub (key : KeyPair) (dd : DataDir) : DataDir :=
  match dd_pub dd with
  | Some _ => dd
  | None => {| dd_key := dd_key dd; dd_pub := Some (Some (json_pretty (public_to_json (public key))));
               dd_directory := dd_directory dd; dd_schema := dd_schema dd |}
  end.

Definition open_directory (dd : DataDir) : KernelResult Directory :=
  match dd_directory dd with
  | None => Ok directory_empty
  | Some file =>
      let? text := ok_or Internal file in
      ok_or (bad_request "directory_invalid") (j ← parse_json text; de_Directory j)
  end.

Definition open_kernel (fresh : KeyPair) (dd : DataDir) : KernelResult Opened * DataDir :=
  match open_key fresh dd with
  | (Err e, dd) => (Err e, dd)
  | (Ok key, dd) =>
      let dd := open_pub key dd in
      match open_directory dd with
      | Err e => (Err e, dd)
      | Ok directory =>
          let (r, schema) := migrate (dd_schema dd) in
          let dd := {| dd_key := dd_key dd; dd_pub := dd_pub dd; dd_directory := dd_directory dd; dd_schema := schema |} in
          match r with
          | Err e => (Err e, dd)
          | Ok _ => (Ok {| op_key := key; op_directory := directory |}, dd)
          end
      end
  end.

(** The kernel that runs on it. *)
Definition kernel_of (o : Opened) (trusted : list PublicKey) (config : KernelConfig) : Kernel :=
  {| k_key := op_key o; k_trusted := trusted; k_directory := op_directory o; k_config := config |}.
End Open.

(** ** Migrations can be repeated, but for one crash *)

Definition current_schema : DbSchema := {| sch_tables := true; sch_abandoning := true; sch_versions := [1; 2] |}.

Lemma migrate_current : migrate current_schema = (Ok true, current_schema).
Proof. reflexivity. Qed.

(** A budget of four statements is never used up on a new database. *)
Lemma migrate_enough n : (4 <= n)%nat -> migrate_crashing n fresh_schema = (Ok true, current_schema).
Proof. do 4 (destruct n as [|n]; [lia|]). reflexivity. Qed.

(** C24: a start that is cut short while it makes the database is made good by the next
    start, with one exception: after a crash between adding the column of version 2 and
    recording that version, every later start fails. *)
Theorem interrupted_migration n :
  let s := snd (migrate_crashing n fresh_schema) in
  (n <> 3%nat -> migrate s = (Ok true, current_schema)) /\
  (n = 3%nat -> migrate s = (Err Internal, s)).
Proof.
  intros s. destruct (Nat.le_gt_cases 4 n) as [Hn|Hn].
  - unfold s. rewrite migrate_enough by done. split; [done|lia].
  - do 4 (destruct n as [|n]; [split; [done|lia || done]|]). lia.
Qed.

(** ** A restart keeps the key *)

Section Restart.
Context `{CryptoOk, !KeyBytes, !KeyBytesOk, !JsonText, !JsonPretty, !FloatFormat}.

Lemma open_pub_key key dd : dd_key (open_pub key dd) = dd_key dd.
Proof. unfold open_pub. by destruct (dd_pub dd). Qed.

(** What a successful start leaves: the key it runs with, in the directory. *)
Lemma opened_key fresh dd o dd' :
  (dd_key dd = None -> prints_back (pair_to_json fresh)) -> open_kernel fresh dd = (Ok o, dd') ->
  exists text, dd_key dd' = Some (Some text) /\ load_private "control-plane" text = Ok (op_key o).
Proof.
  intros Hp. unfold open_kernel, open_key. destruct (dd_key dd) as [file|] eqn:Ek.
  - destruct file as [text|]; cbn [ok_or rbind]; [|done].
    destruct (load_private "control-plane" text) as [key|] eqn:El; [|done].
    destruct (open_directory _); [|done]. destruct (migrate _) as [[b|] sc]; [|done]. intros [= <- <-]. cbn [dd_key op_key].
    rewrite open_pub_key, Ek. eauto.
  - destruct (open_directory _); [|done]. destruct (migrate _) as [[b|] sc]; [|done]. intros [= <- <-]. cbn [dd_key op_key].
    rewrite open_pub_key. cbn [dd_key]. eexists. split; [reflexivity|]. apply private_loads. auto.
Qed.

Lemma reopened_key fresh dd o dd' text key :
  dd_key dd = Some (Some text) -> load_private "control-plane" text = Ok key ->
  open_kernel fresh dd = (Ok o, dd') -> op_key o = key.
Proof.
  intros Ek El. unfold open_kernel, open_key. rewrite Ek. cbn [ok_or rbind]. rewrite El.
  destruct (open_directory _); [|done]. destruct (migrate _) as [[b|] sc]; [|done]. by intros [= <- _].
Qed.

(** C23: a restart changes neither the key nor the standing of what was signed.  A kernel
    opened again on a data directory runs with the key it had, whatever key it would have
    made, and a remit token issued before the restart verifies after it, within its window. *)
Theorem restart_keeps_remits fresh1 fresh2 dd o1 dd1 o2 dd2 trusted config c p :
  (dd_key dd = None -> prints_back (pair_to_json fresh1)) ->
  open_kernel fresh1 dd = (Ok o1, dd1) -> open_kernel fresh2 dd1 = (Ok o2, dd2) ->
  op_key o2 = op_key o1 /\
  (payload_ok p -> reads_back p -> key_id_ok (kp_key_id (op_key o1)) ->
   verify_remit_token (kernel_of o2 trusted config) c (encode_token p (op_key o1)) =
   if seconds (c_now c) <? nbf p then Err NotYetValid
   else if exp p <=? seconds (c_now c) then Err Expired else Ok p).
Proof.
  intros Hp Ho1 Ho2. destruct (opened_key fresh1 dd o1 dd1 Hp Ho1) as (text & Ek & El).
  pose proof (reopened_key fresh2 dd1 o2 dd2 text (op_key o1) Ek El Ho2) as E. split; [done|].
  intros Hok Hr Hid. unfold verify_remit_token. apply verify_encoded; [done..|].
  unfold resolve_key, kernel_of. cbn [k_key]. by rewrite E, String.eqb_refl.
Qed.
End Restart.

(** ** Witness *)

Module ConcreteOpening.
(** A reader that also knows a remit. *)
Definition text : JsonText :=
  {| parse_json := fun t =>
       if String.eqb t (@canonical_bytes mantissa_format (ser_payload example_remit))
       then Some (ser_payload example_remit) else @parse_json ConcreteKeys.text t |}.

Definition data_dir : DataDir :=
  {| dd_key := None; dd_pub := None; dd_directory := None; dd_schema := fresh_schema |}.

Definition open (fresh : @KeyPair ConcreteKeys.crypto) (dd : DataDir) : KernelResult (@Opened ConcreteKeys.crypto) * DataDir :=
  @open_kernel ConcreteKeys.crypto ConcreteKeys.key_bytes text ConcreteKeys.pretty fresh dd.

Definition opened : @Opened ConcreteKeys.crypto :=
  @Build_Opened ConcreteKeys.crypto ConcreteKeys.pair directory_empty.

(** The directory after the first start. *)
Definition used_dir : DataDir :=
  {| dd_key := Some (Some "private"); dd_pub := Some (Some "public"); dd_directory := None; dd_schema := current_schema |}.

Lemma first_start : open ConcreteKeys.pair data_dir = (Ok opened, used_dir).
Proof. reflexivity. Qed.

(** A later start, which would have made another key. *)
Definition other_pair : @KeyPair ConcreteKeys.crypto := @Build_KeyPair ConcreteKeys.crypto "key_b" (ConcreteKeys.seed_of "other").

Definition call (now : Z) : Call := {| c_now := now; c_later := now; c_random := fun _ => []; c_jitter := 0 |}.
End ConcreteOpening.

Lemma restart_keeps_remits_witness : exists o2 dd2,
  ConcreteOpening.open ConcreteOpening.other_pair ConcreteOpening.used_dir = (Ok o2, dd2) /\
  @verify_remit_token ConcreteKeys.crypto ConcreteOpening.text
    (@kernel_of ConcreteKeys.crypto o2 [] default_config) (ConcreteOpening.call 5000000)
    (@encode_token mantissa_format ConcreteKeys.crypto example_remit ConcreteKeys.pair) = Ok example_remit.
Proof.
  exists ConcreteOpening.opened, ConcreteOpening.used_dir.
  assert (ConcreteOpening.open ConcreteOpening.other_pair ConcreteOpening.used_dir =
          (Ok ConcreteOpening.opened, ConcreteOpening.used_dir)) as E2.
  { unfold ConcreteOpening.open, open_kernel, open_key. cbn [dd_key ConcreteOpening.used_dir ok_or rbind].
    change "private" with (@json_pretty ConcreteKeys.pretty (@pair_to_json ConcreteKeys.crypto ConcreteKeys.key_bytes ConcreteKeys.pair)) at 1.
    rewrite (@private_loads ConcreteKeys.crypto ConcreteKeys.key_crypto_ok ConcreteKeys.key_bytes ConcreteKeys.key_bytes_ok
      ConcreteOpening.text ConcreteKeys.pretty) by (vm_compute; reflexivity). reflexivity. }
  split; [exact E2|].
  destruct (@restart_keeps_remits ConcreteKeys.crypto ConcreteKeys.key_crypto_ok ConcreteKeys.key_bytes ConcreteKeys.key_bytes_ok
    ConcreteOpening.text ConcreteKeys.pretty mantissa_format ConcreteKeys.pair ConcreteOpening.other_pair
    ConcreteOpening.data_dir ConcreteOpening.opened ConcreteOpening.used_dir ConcreteOpening.opened ConcreteOpening.used_dir
    [] default_config (ConcreteOpening.call 5000000) example_remit) as [_ Hv].
  - intros _. vm_compute. reflexivity.
  - exact ConcreteOpening.first_start.
  - exact E2.
  - exact (Hv example_remit_ok ltac:(vm_compute; reflexivity)
      ltac:(split; [discriminate | reflexivity | reflexivity])).
Defined.
