(* ===== verification/Config.v ===== *)
(** * Configuration ([kernos/src/config.rs])

    The settings of the server: defaults, the configuration file over them, the [KERNOS_*]
    variables over the file, and the flags of [kernos serve] over the variables.  The
    environment is a function from names to values; a file is its text, when it can be read. *)

From S2P Require Import Prelude Text F64 Json Errors Keys Remit Kernel.
From Stdlib Require Import Ascii.

Local Open Scope string_scope.
Local Open Scope list_scope.
Local Open Scope Z_scope.

(** ** [str::parse] for numbers *)

Definition parse_u32 (s : string) : option Z :=
  z ← parse_u64 s; if z <=? u32_max then Some z else None.

Definition lower (a : ascii) : ascii :=
  if is_ascii_uppercase a then ascii_of_N (Z.to_N (byte_of a + 32)) else a.

Fixpoint to_lower (s : string) : string :=
  match s with EmptyString => EmptyString | String a s => String (lower a) (to_lower s) end.

(** The sign in front of a number, true for minus. *)
Definition split_sign (s : string) : bool * string :=
  match s with
  | String "-" r => (true, r)
  | String "+" r => (false, r)
  | _ => (false, s)
  end.

Definition parse_exponent (s : string) : option Z :=
  let '(negative, body) := split_sign s in
  n ← digits_value body;
  Some (if negative then - n else n).

(** The float nearest to [m * 10 ^ e]. *)
Definition f64_of_decimal (m e : Z) : f64 :=
  if 0 <=? e then f64_of_ratio (m * 10 ^ e) 0 else f64_of_ratio m (- e).

(** Digits with at most one dot, at least one digit. *)
Definition parse_mantissa (s : string) : option (Z * Z) :=
  match split_on "." s with
  | [i] => m ← digits_value i; Some (m, 0)
  | [i; f] => m ← digits_value (i +:+ f); Some (m, - Z.of_nat (String.length f))
  | _ => None
  end.

Definition parse_f64 (s : string) : option f64 :=
  let '(negative, body) := split_sign s in
  let signed (f : f64) := if negative then f64_neg f else f in
  let word := to_lower body in
  if String.eqb word "inf" || String.eqb word "infinity" then Some (signed (SpecFloat.S754_infinity false))
  else if String.eqb word "nan" then Some SpecFloat.S754_nan
  else
    let '(mantissa, exponent) := match split_once "e" word with
                                 | Some (m, e) => (m, Some e) | None => (word, None) end in
    '(m, k) ← parse_mantissa mantissa;
    e ← match exponent with Some e => parse_exponent e | None => Some 0 end;
    Some (signed (f64_of_decimal m (k + e))).

(** ** Settings *)

Record Config := {
  cf_listen : string; cf_data_dir : string; cf_token : option string; cf_lease_ttl_default : Z;
  cf_lease_ttl_min : Z; cf_lease_ttl_max : Z; cf_lease_sweep_interval_ms : Z;
  cf_approval_sweep_interval_ms : Z; cf_budget_soft_ratio : f64; cf_max_attempts_nondeterministic : Z;
  cf_max_attempts_deterministic : Z; cf_log_format : string }.

Definition config_default : Config :=
  {| cf_listen := "127.0.0.1:7401"; cf_data_dir := "./kernos-data"; cf_token := None;
     cf_lease_ttl_default := 30; cf_lease_ttl_min := 1; cf_lease_ttl_max := 300;
     cf_lease_sweep_interval_ms := 1000; cf_approval_sweep_interval_ms := 5000;
     cf_budget_soft_ratio := f64_of_ratio 8 1; cf_max_attempts_nondeterministic := 5;
     cf_max_attempts_deterministic := 3; cf_log_format := "text" |}.

Inductive ConfigError :=
| ConfigRead
| ConfigParse
| ConfigEnv (name value : string).

(** [#[serde(default)]] on the struct: an absent field keeps its default. *)
Definition de_Config (j : json) : option Config :=
  let d := config_default in
  fs ← struct_fields ["listen"; "data_dir"; "token"; "lease_ttl_default"; "lease_ttl_min"; "lease_ttl_max";
                      "lease_sweep_interval_ms"; "approval_sweep_interval_ms"; "budget_soft_ratio";
                      "max_attempts_nondeterministic"; "max_attempts_deterministic"; "log_format"] j;
  listen ← dflt de_string "listen" (cf_listen d) fs;
  data_dir ← dflt de_string "data_dir" (cf_data_dir d) fs;
  token ← dflt (de_option de_string) "token" (cf_token d) fs;
  lease_ttl_default ← dflt de_u64 "lease_ttl_default" (cf_lease_ttl_default d) fs;
  lease_ttl_min ← dflt de_u64 "lease_ttl_min" (cf_lease_ttl_min d) fs;
  lease_ttl_max ← dflt de_u64 "lease_ttl_max" (cf_lease_ttl_max d) fs;
  lease_sweep ← dflt de_u64 "lease_sweep_interval_ms" (cf_lease_sweep_interval_ms d) fs;
  approval_sweep ← dflt de_u64 "approval_sweep_interval_ms" (cf_approval_sweep_interval_ms d) fs;
  ratio ← dflt de_f64 "budget_soft_ratio" (cf_budget_soft_ratio d) fs;
  nondeterministic ← dflt de_u32 "max_attempts_nondeterministic" (cf_max_attempts_nondeterministic d) fs;
  deterministic ← dflt de_u32 "max_attempts_deterministic" (cf_max_attempts_deterministic d) fs;
  log_format ← dflt de_string "log_format" (cf_log_format d) fs;
  Some {| cf_listen := listen; cf_data_dir := data_dir; cf_token := token;
          cf_lease_ttl_default := lease_ttl_default; cf_lease_ttl_min := lease_ttl_min;
          cf_lease_ttl_max := lease_ttl_max; cf_lease_sweep_interval_ms := lease_sweep;
          cf_approval_sweep_interval_ms := approval_sweep; cf_budget_soft_ratio := ratio;
          cf_max_attempts_nondeterministic := nondeterministic; cf_max_attempts_deterministic := deterministic;
          cf_log_format := log_format |}.

(** [var]: a variable that is set and not empty. *)
Definition env_var (env : string -> option string) (name : string) : option string :=
  v ← env name; if is_empty v then None else Some v.

(** [if let Some(v) = parse(name)? { field = v }]: the new value of the field. *)
Definition env_parse {A} (env : string -> option string) (name : string) (parse : string -> option A) (old : A)
    : result ConfigError A :=
  match env_var env name with
  | None => Ok old
  | Some value => match parse value with Some a => Ok a | None => Err (ConfigEnv name value) end
  end.

Definition apply_env (env : string -> option string) (c : Config) : result ConfigError Config :=
  let listen := default (cf_listen c) (env_var env "KERNOS_LISTEN") in
  let data_dir := default (cf_data_dir c) (env_var env "KERNOS_DATA") in
  let token := match env_var env "KERNOS_TOKEN" with Some t => Some t | None => cf_token c end in
  let? lease_ttl_default := env_parse env "KERNOS_LEASE_TTL" parse_u64 (cf_lease_ttl_default c) in
  let? lease_ttl_min := env_parse env "KERNOS_LEASE_TTL_MIN" parse_u64 (cf_lease_ttl_min c) in
  let? lease_ttl_max := env_parse env "KERNOS_LEASE_TTL_MAX" parse_u64 (cf_lease_ttl_max c) in
  let? lease_sweep := env_parse env "KERNOS_SWEEP_MS" parse_u64 (cf_lease_sweep_interval_ms c) in
  let? approval_sweep := env_parse env "KERNOS_APPROVAL_SWEEP_MS" parse_u64 (cf_approval_sweep_interval_ms c) in
  let? ratio := env_parse env "KERNOS_BUDGET_SOFT_RATIO" parse_f64 (cf_budget_soft_ratio c) in
  let? nondeterministic := env_parse env "KERNOS_MAX_ATTEMPTS" parse_u32 (cf_max_attempts_nondeterministic c) in
  let? deterministic := env_parse env "KERNOS_MAX_DET_ATTEMPTS" parse_u32 (cf_max_attempts_deterministic c) in
  let log_format := default (cf_log_format c) (env_var env "KERNOS_LOG") in
  Ok {| cf_listen := listen; cf_data_dir := data_dir; cf_token := token;
        cf_lease_ttl_default := lease_ttl_default; cf_lease_ttl_min := lease_ttl_min;
        cf_lease_ttl_max := lease_ttl_max; cf_lease_sweep_interval_ms := lease_sweep;
        cf_approval_sweep_interval_ms := approval_sweep; cf_budget_soft_ratio := ratio;
        cf_max_attempts_nondeterministic := nondeterministic; cf_max_attempts_deterministic := deterministic;
        cf_log_format := log_format |}.

(** [file] is [None] when no file is given, and [Some None] when it cannot be read. *)
Definition load_config `{JsonText} (file : option (option string)) (env : string -> option string)
    : result ConfigError Config :=
  let? config := match file with
                 | None => Ok config_default
                 | Some text =>
                     let? text := ok_or ConfigRead text in
                     ok_or ConfigParse (j ← parse_json text; de_Config j)
                 end in
  apply_env env config.

Definition kernel_config (c : Config) : KernelConfig :=
  {| lease_ttl_default := cf_lease_ttl_default c; lease_ttl_min := cf_lease_ttl_min c;
     lease_ttl_max := cf_lease_ttl_max c; budget_soft_ratio := cf_budget_soft_ratio c;
     max_attempts_nondeterministic := cf_max_attempts_nondeterministic c;
     max_attempts_deterministic := cf_max_attempts_deterministic c;
     retry_base_ms := retry_base_ms default_config; retry_cap_ms := retry_cap_ms default_config |}.

Record ServeArgs := { sa_listen : option string; sa_data : option string }.

(** The configuration [kernos serve] runs with. *)
Definition serve_config `{JsonText} (file : option (option string)) (env : string -> option string)
    (args : ServeArgs) (token : option string) : result ConfigError Config :=
  let? c := load_config file env in
  Ok {| cf_listen := default (cf_listen c) (sa_listen args); cf_data_dir := default (cf_data_dir c) (sa_data args);
        cf_token := match token with Some t => Some t | None => cf_token c end;
        cf_lease_ttl_default := cf_lease_ttl_default c; cf_lease_ttl_min := cf_lease_ttl_min c;
        cf_lease_ttl_max := cf_lease_ttl_max c; cf_lease_sweep_interval_ms := cf_lease_sweep_interval_ms c;
        cf_approval_sweep_interval_ms := cf_approval_sweep_interval_ms c;
        cf_budget_soft_ratio := cf_budget_soft_ratio c;
        cf_max_attempts_nondeterministic := cf_max_attempts_nondeterministic c;
        cf_max_attempts_deterministic := cf_max_attempts_deterministic c; cf_log_format := cf_log_format c |}.

(** The periods of the two sweepers [start] spawns. *)
Definition sweep_periods (c : Config) : Z * Z :=
  (Z.max (cf_lease_sweep_interval_ms c) 10, Z.max (cf_approval_sweep_interval_ms c) 10).

Example parse_f64_ex :
  map parse_f64 ["0.8"; "-2.5e1"; ".5"; "1."; "1e400"; "Infinity"; "e5"; "0x1"; "1.2.3"] =
  [Some (f64_of_ratio 8 1); Some (f64_neg (f64_of_Z 25)); Some (f64_of_ratio 5 1); Some (f64_of_Z 1);
   Some (SpecFloat.S754_infinity false); Some (SpecFloat.S754_infinity false); None; None; None].
Proof. vm_compute. reflexivity. Qed.

(** ** What the environment does *)

(** The value a setting takes: that of its variable, when it is set and not empty, and
    otherwise the one it had. *)
Definition takes {A} (env : string -> option string) (name : string) (parse : string -> option A) (old new : A) : Prop :=
  match env_var env name with Some v => parse v = Some new | None => new = old end.

Record env_applied (env : string -> option string) (c c' : Config) : Prop := {
  ea_listen : takes env "KERNOS_LISTEN" Some (cf_listen c) (cf_listen c');
  ea_data : takes env "KERNOS_DATA" Some (cf_data_dir c) (cf_data_dir c');
  ea_token : takes env "KERNOS_TOKEN" (fun v => Some (Some v)) (cf_token c) (cf_token c');
  ea_ttl : takes env "KERNOS_LEASE_TTL" parse_u64 (cf_lease_ttl_default c) (cf_lease_ttl_default c');
  ea_min : takes env "KERNOS_LEASE_TTL_MIN" parse_u64 (cf_lease_ttl_min c) (cf_lease_ttl_min c');
  ea_max : takes env "KERNOS_LEASE_TTL_MAX" parse_u64 (cf_lease_ttl_max c) (cf_lease_ttl_max c');
  ea_sweep : takes env "KERNOS_SWEEP_MS" parse_u64 (cf_lease_sweep_interval_ms c) (cf_lease_sweep_interval_ms c');
  ea_approval : takes env "KERNOS_APPROVAL_SWEEP_MS" parse_u64 (cf_approval_sweep_interval_ms c)
                  (cf_approval_sweep_interval_ms c');
  ea_ratio : takes env "KERNOS_BUDGET_SOFT_RATIO" parse_f64 (cf_budget_soft_ratio c) (cf_budget_soft_ratio c');
  ea_attempts : takes env "KERNOS_MAX_ATTEMPTS" parse_u32 (cf_max_attempts_nondeterministic c)
                  (cf_max_attempts_nondeterministic c');
  ea_det : takes env "KERNOS_MAX_DET_ATTEMPTS" parse_u32 (cf_max_attempts_deterministic c)
             (cf_max_attempts_deterministic c');
  ea_log : takes env "KERNOS_LOG" Some (cf_log_format c) (cf_log_format c') }.

Section Env.
Context (env : string -> option string).

Lemma env_parse_ok {A} name (parse : string -> option A) old new :
  env_parse env name parse old = Ok new <-> takes env name parse old new.
Proof.
  unfold env_parse, takes. destruct (env_var env name) as [v|].
  - destruct (parse v); split; congruence.
  - split; congruence.
Qed.

Lemma env_parse_err {A} name (parse : string -> option A) old e :
  env_parse env name parse old = Err e -> exists v, e = ConfigEnv name v /\ env_var env name = Some v /\ parse v = None.
Proof.
  unfold env_parse. destruct (env_var env name) as [v|]; [|done]. destruct (parse v) eqn:E; [done|].
  intros [= <-]. eauto.
Qed.

Lemma takes_text name old : takes env name Some old (default old (env_var env name)).
Proof. unfold takes. by destruct (env_var env name). Qed.

Lemma takes_text_eq name old new : takes env name Some old new -> default old (env_var env name) = new.
Proof. unfold takes. destruct (env_var env name); cbn; congruence. Qed.

Lemma takes_token old : takes env "KERNOS_TOKEN" (fun v => Some (Some v)) old
  (match env_var env "KERNOS_TOKEN" with Some t => Some t | None => old end).
Proof. unfold takes. by destruct (env_var env _). Qed.

Lemma takes_token_eq old new : takes env "KERNOS_TOKEN" (fun v => Some (Some v)) old new ->
  match env_var env "KERNOS_TOKEN" with Some t => Some t | None => old end = new.
Proof. unfold takes. destruct (env_var env _); congruence. Qed.
End Env.

(** Step through the [?] of a chain: each value is the one its variable gives. *)
Ltac env_steps E :=
  repeat (let a := fresh "a" in let Ha := fresh "Ha" in
          apply rbind_ok in E as (a & Ha & E); apply env_parse_ok in Ha).

Lemma apply_env_ok env c c' : apply_env env c = Ok c' <-> env_applied env c c'.
Proof.
  unfold apply_env. split.
  - intros E. env_steps E. injection E as <-. constructor; cbn; auto using takes_text, takes_token.
  - intros []. rewrite (takes_text_eq _ _ _ _ ea_listen0), (takes_text_eq _ _ _ _ ea_data0),
      (takes_token_eq _ _ _ ea_token0), (takes_text_eq _ _ _ _ ea_log0).
    do 8 (eapply rbind_intro; [by apply env_parse_ok|]). by destruct c'.
Qed.

Lemma apply_env_err env c e : apply_env env c = Err e ->
  exists name v, e = ConfigEnv name v /\ env_var env name = Some v /\ forall c', ~ env_applied env c c'.
Proof.
  intros E. assert (exists name v, e = ConfigEnv name v /\ env_var env name = Some v) as (name & v & He & Hv).
  { unfold apply_env in E.
    repeat match type of E with
    | rbind _ (env_parse ?en ?n ?p ?o) = _ =>
        let H := fresh in destruct (env_parse en n p o) as [?|?] eqn:H; cbn [rbind] in E;
        [|injection E as <-; apply env_parse_err in H as (v & -> & Hv & _); eauto]
    end. done. }
  exists name, v. split; [done|]. split; [done|]. intros c' Hc'%apply_env_ok. congruence.
Qed.

(** The environment overrides exactly what it sets.  Loading a configuration succeeds
    exactly when every variable that is set holds a value of its setting, and then each
    setting is the value of its variable, or what it was where the variable is unset or
    empty; a failure names a variable that is set.  The defaults of the server are the
    defaults of the kernel. *)
Theorem env_overrides_exact env c :
  (forall c', apply_env env c = Ok c' <-> env_applied env c c') /\
  (forall e, apply_env env c = Err e ->
     exists name v, e = ConfigEnv name v /\ env_var env name = Some v /\ forall c', ~ env_applied env c c') /\
  kernel_config config_default = default_config.
Proof. split; [by apply apply_env_ok|]. split; [by apply apply_env_err | reflexivity]. Qed.
