(* ===== verification/Server.v ===== *)
(** * The HTTP server ([kernos/src/server.rs])

    Bearer authentication, the route table, and one handler for each endpoint: it reads path,
    query, headers and body, runs one operation of the kernel and turns its result into a
    status and a body.

    The framework is external: the class [Http] matches a path against the registered
    patterns, splits a query string into its decoded pairs and reads a JSON body (content
    type, size limit and syntax).  Error bodies keep their code and details; the human
    sentence is left out, and so are log lines. *)

From stdpp Require Import gmap.
From S2P Require Import Prelude Text Ids F64 Json Policy Lexer Parser PolicyTools Canonical Time.
From S2P Require Import Errors Keys Remit Payloads Events Fold RunJson Template Schema Bundle Store.
From S2P Require Import Kernel Reads Replay Metrics KeyFiles.
From Stdlib Require Import Ascii.

Local Open Scope string_scope.
Local Open Scope list_scope.
Local Open Scope Z_scope.

(** ** Requests and responses *)

Inductive Method := GET | HEAD | POST | OtherMethod (name : string).

#[global] Instance Method_eq_dec : EqDecision Method.
Proof. solve_decision. Defined.

(** [rq_header] is the first header of a lowercase name, when its value is text. *)
Record Request := {
  rq_method : Method; rq_path : string; rq_query : string; rq_header : string -> option string;
  rq_body : string }.

(** [BPlain] stands for the plain text an extractor of the framework rejects with. *)
Inductive Body :=
| BJson (value : json)
| BError (code : string) (details : json)
| BReplay (report : ReplayReport)
| BText (text : string)
| BPlain
| BEmpty.

Record Response := { res_status : Z; res_body : Body }.

Class Http := {
  match_path : list string -> string -> option (string * list string);
  query_pairs : string -> option (list (string * string));
  json_body : Request -> option json }.

(** [StatusCode::from_u16] takes 100 to 999. *)
Definition error_response (e : KernelError) : Response :=
  {| res_status := if (100 <=? error_status e) && (error_status e <=? 999) then error_status e else 500;
     res_body := BError (error_code e) (error_details e) |}.

Definition reply (status : Z) (value : json) : Response := {| res_status := status; res_body := BJson value |}.

Definition Handler : Type := Store -> Response * Store.

Definition respond (r : Response) : Handler := fun s => (r, s).

(** [blocking(..).await?] followed by the reply. *)
Definition blocking {A} (op : M A) (k : A -> Response) : Handler := fun s =>
  match op s with
  | (Ok a, s') => (k a, s')
  | (Err e, s') => (error_response e, s')
  end.

(** ** Bodies *)

Record BundleBody := { bb_bundle : json; bb_signature : BundleSignature }.
Record PolicyBody := { pb_name : string; pb_version : Z; pb_source : string }.
Record PolicyTestBody := { pt_policy_a : json; pt_policy_b : json; pt_corpus : list json }.
Record ExternalEventBody := { xb_kind : string; xb_payload : json; xb_actor : json }.
Record AbandonBody := { ab_reason : string; ab_actor : json }.
Record ResumeBody := { rb_actor : json }.
Record CompleteBody := { cb_output : json; cb_usage : option Usage }.
Record FailBody := { fb_error : ErrorInfo; fb_deterministic : bool }.
Record ActionBody := { acb_action : json }.
Record DecideBody := { db_decision : string; db_actor : DecisionActor; db_reason : string }.

Definition de_BundleSignature (j : json) : option BundleSignature :=
  fs ← struct_fields ["key_id"; "algorithm"; "signature"; "sha256"] j;
  key_id ← req de_string "key_id" fs;
  algorithm ← dflt de_string "algorithm" "ed25519" fs;
  signature ← req de_string "signature" fs;
  sha256 ← dflt (de_option de_string) "sha256" None fs;
  Some {| bs_key_id := key_id; bs_algorithm := algorithm; bs_signature := signature; bs_sha256 := sha256 |}.

Definition de_BundleBody (j : json) : option BundleBody :=
  fs ← struct_fields ["bundle"; "signature"] j;
  bundle ← req de_value "bundle" fs;
  signature ← req de_BundleSignature "signature" fs;
  Some {| bb_bundle := bundle; bb_signature := signature |}.

Definition de_PolicyBody (j : json) : option PolicyBody :=
  fs ← struct_fields ["name"; "version"; "source"] j;
  name ← req de_string "name" fs;
  version ← req de_u64 "version" fs;
  source ← req de_string "source" fs;
  Some {| pb_name := name; pb_version := version; pb_source := source |}.

Definition de_PolicyTestBody (j : json) : option PolicyTestBody :=
  fs ← struct_fields ["policy_a"; "policy_b"; "corpus"] j;
  policy_a ← req de_value "policy_a" fs;
  policy_b ← req de_value "policy_b" fs;
  corpus ← dflt (de_list de_value) "corpus" [] fs;
  Some {| pt_policy_a := policy_a; pt_policy_b := policy_b; pt_corpus := corpus |}.

Definition de_IssueRequest (j : json) : option IssueRequest :=
  fs ← struct_fields ["tools"; "scopes"; "grants"; "spend"; "autonomy"; "ttl_seconds"; "policy_set"; "requested_by"] j;
  tools ← req (de_list de_string) "tools" fs;
  scopes ← dflt (de_list de_string) "scopes" [] fs;
  grants ← dflt (de_list de_string) "grants" [] fs;
  spend ← dflt de_spend "spend" {| sp_tokens := None; sp_usd := None |} fs;
  autonomy ← dflt (de_option de_autonomy) "autonomy" None fs;
  ttl_seconds ← dflt (de_option de_u64) "ttl_seconds" None fs;
  policy_set ← dflt (de_list de_string) "policy_set" [] fs;
  requested_by ← dflt (de_option de_value) "requested_by" None fs;
  Some {| iq_tools := tools; iq_scopes := scopes; iq_grants := grants; iq_spend := spend; iq_autonomy := autonomy;
          iq_ttl_seconds := ttl_seconds; iq_policy_set := policy_set; iq_requested_by := requested_by |}.

Definition de_DeriveRequest (j : json) : option DeriveRequest :=
  fs ← struct_fields ["tools"; "scopes"; "grants"; "spend"; "autonomy"; "ttl_seconds"; "policy_set"] j;
  tools ← dflt (de_option (de_list de_string)) "tools" None fs;
  scopes ← dflt (de_option (de_list de_string)) "scopes" None fs;
  grants ← dflt (de_option (de_list de_string)) "grants" None fs;
  spend ← dflt (de_option de_spend) "spend" None fs;
  autonomy ← dflt (de_option de_autonomy) "autonomy" None fs;
  ttl_seconds ← dflt (de_option de_u64) "ttl_seconds" None fs;
  policy_set ← dflt (de_option (de_list de_string)) "policy_set" None fs;
  Some {| dq_tools := tools; dq_scopes := scopes; dq_grants := grants; dq_spend := spend; dq_autonomy := autonomy;
          dq_ttl_seconds := ttl_seconds; dq_policy_set := policy_set |}.

Definition de_StartRunRequest (j : json) : option StartRunRequest :=
  fs ← struct_fields ["bundle_id"; "workflow"; "input"; "remit_id"; "requested_by"] j;
  bundle_id ← req de_string "bundle_id" fs;
  workflow ← req de_string "workflow" fs;
  input ← dflt de_value "input" JNull fs;
  remit_id ← req de_string "remit_id" fs;
  requested_by ← dflt (de_option de_value) "requested_by" None fs;
  Some {| sq_bundle_id := bundle_id; sq_workflow := workflow; sq_input := input; sq_remit_id := remit_id;
          sq_requested_by := requested_by |}.

Definition de_LeaseRequest (j : json) : option LeaseRequest :=
  fs ← struct_fields ["worker_id"; "kinds"; "ttl_seconds"] j;
  worker_id ← req de_string "worker_id" fs;
  kinds ← dflt (de_list de_string) "kinds" [] fs;
  ttl_seconds ← dflt (de_option de_u64) "ttl_seconds" None fs;
  Some {| lq_worker_id := worker_id; lq_kinds := kinds; lq_ttl_seconds := ttl_seconds |}.

Definition de_Usage (j : json) : option Usage :=
  fs ← struct_fields ["tokens"; "usd"] j;
  tokens ← dflt de_u64 "tokens" 0 fs;
  usd ← dflt de_f64 "usd" f64_zero fs;
  Some {| us_tokens := tokens; us_usd := usd |}.

Definition de_ExternalEventBody (j : json) : option ExternalEventBody :=
  fs ← struct_fields ["kind"; "payload"; "actor"] j;
  kind ← req de_string "kind" fs;
  payload ← dflt de_value "payload" JNull fs;
  actor ← req de_value "actor" fs;
  Some {| xb_kind := kind; xb_payload := payload; xb_actor := actor |}.

Definition de_AbandonBody (j : json) : option AbandonBody :=
  fs ← struct_fields ["reason"; "actor"] j;
  reason ← req de_string "reason" fs;
  actor ← dflt de_value "actor" JNull fs;
  Some {| ab_reason := reason; ab_actor := actor |}.

Definition de_ResumeBody (j : json) : option ResumeBody :=
  fs ← struct_fields ["actor"] j;
  actor ← dflt de_value "actor" JNull fs;
  Some {| rb_actor := actor |}.

Definition de_CompleteBody (j : json) : option CompleteBody :=
  fs ← struct_fields ["output"; "usage"] j;
  output ← dflt de_value "output" JNull fs;
  usage ← dflt (de_option de_Usage) "usage" None fs;
  Some {| cb_output := output; cb_usage := usage |}.

Definition de_FailBody (j : json) : option FailBody :=
  fs ← struct_fields ["error"; "deterministic"] j;
  error ← req de_ErrorInfo "error" fs;
  deterministic ← dflt de_bool "deterministic" false fs;
  Some {| fb_error := error; fb_deterministic := deterministic |}.

Definition de_ActionBody (j : json) : option ActionBody :=
  fs ← struct_fields ["action"] j;
  action ← req de_value "action" fs;
  Some {| acb_action := action |}.

Definition de_DecideBody (j : json) : option DecideBody :=
  fs ← struct_fields ["decision"; "actor"; "reason"] j;
  decision ← req de_string "decision" fs;
  actor ← req de_DecisionActor "actor" fs;
  reason ← dflt de_string "reason" "" fs;
  Some {| db_decision := decision; db_actor := actor; db_reason := reason |}.

(** ** Replies *)

Definition ser_HealthReport (h : HealthReport) : json :=
  obj [("ok", JBool (h_ok h)); ("version", JStr (h_version h)); ("uptime_s", json_u64 (h_uptime_s h));
       ("runs", obj [("running", json_u64 (hr_running (h_runs h))); ("parked", json_u64 (hr_parked (h_runs h)))])].

Definition ser_BundleApplied (b : BundleApplied) : json :=
  obj [("bundle_id", JStr (ba_bundle_id b)); ("name", JStr (ba_name b)); ("version", JStr (ba_version b))].

Definition ser_PolicyApplied (p : PolicyApplied) : json :=
  obj [("policy_id", JStr (pa_policy_id p)); ("name", JStr (pa_name p)); ("version", json_u64 (pa_version p))].

Definition ser_RemitIssued (r : RemitIssued) : json :=
  obj ([("remit_id", JStr (ri_remit_id r))] ++ skip_none "parent_id" JStr (ri_parent_id r)
       ++ [("token", JStr (ri_token r)); ("expires_at", JStr (ri_expires_at r))]).

Definition ser_RunStarted (r : RunStarted) : json :=
  obj [("run_id", JStr (started_run_id r)); ("state", ser_RunStatus (started_state r))].

Definition ser_RunPage (p : RunPage) : json :=
  obj [("runs", JArr (map ser_RunState (rp_runs p))); ("next", ser_option JStr (rp_next p))].

Definition ser_EventPage (p : EventPage) : json :=
  obj [("events", JArr (map ser_event (page_events p))); ("next_seq", ser_option json_u64 (page_next_seq p))].

Definition ser_Appended (a : Appended) : json := obj [("seq", json_u64 (app_seq a)); ("hash", JStr (app_hash a))].

Definition ser_LeaseGrant (g : LeaseGrant) : json :=
  obj [("lease_id", JStr (lg_lease_id g)); ("run_id", JStr (lg_run_id g)); ("step", JStr (lg_step g));
       ("attempt", json_u64 (lg_attempt g)); ("expires_at", JStr (lg_expires_at g));
       ("heartbeat_seconds", json_u64 (lg_heartbeat_seconds g)); ("step_def", lg_step_def g);
       ("context", lg_context g)].

Definition ser_CompleteResult (r : CompleteResult) : json :=
  obj [("run_state", ser_RunStatus (cr_run_state r)); ("next_step", ser_option JStr (cr_next_step r))].

Definition ser_FailResult (r : FailResult) : json :=
  obj ([("outcome", JStr (fr_outcome r))] ++ skip_none "delay_ms" json_u64 (fr_delay_ms r)).

Definition ser_ActionOutcome (o : ActionOutcome) : json :=
  obj ([("action_id", JStr (ao_action_id o)); ("decision", JStr (decision_as_str (ao_decision o)));
        ("rule", JStr (ao_rule o))] ++ skip_none "approval_id" JStr (ao_approval_id o)).

Definition ser_ApprovalOutcome (o : ApprovalOutcome) : json :=
  obj [("run_id", JStr (out_run_id o)); ("run_state", ser_RunStatus (out_run_state o))].

(** ** Queries and path parameters *)

Record RunsQuery := {
  qr_state : option string; qr_department : option string; qr_limit : option Z; qr_after : option string }.
Record EventsQuery := { qe_from_seq : option Z; qe_limit : option Z }.
Record ActionsQuery := { qa_since : option string }.
Record ApprovalsQuery := { qp_state : option string; qp_approver : option string }.

(** An [Option] field of a query struct: absent, present once, or repeated, an error. *)
Definition query_field {A} (parse : string -> option A) (name : string) (pairs : list (string * string))
    : option (option A) :=
  match List.filter (fun kv => String.eqb (fst kv) name) pairs with
  | [] => Some None
  | [(_, v)] => a ← parse v; Some (Some a)
  | _ => None
  end.

Definition de_RunsQuery (q : list (string * string)) : option RunsQuery :=
  state ← query_field Some "state" q;
  department ← query_field Some "department" q;
  limit ← query_field parse_u64 "limit" q;
  after ← query_field Some "after" q;
  Some {| qr_state := state; qr_department := department; qr_limit := limit; qr_after := after |}.

Definition de_EventsQuery (q : list (string * string)) : option EventsQuery :=
  from_seq ← query_field parse_u64 "from_seq" q;
  limit ← query_field parse_u64 "limit" q;
  Some {| qe_from_seq := from_seq; qe_limit := limit |}.

Definition de_ActionsQuery (q : list (string * string)) : option ActionsQuery :=
  since ← query_field Some "since" q;
  Some {| qa_since := since |}.

Definition de_ApprovalsQuery (q : list (string * string)) : option ApprovalsQuery :=
  state ← query_field Some "state" q;
  approver ← query_field Some "approver" q;
  Some {| qp_state := state; qp_approver := approver |}.

(** ** Endpoints *)

Inductive Endpoint :=
| EHealth | EKeys | EMetrics
| EApplyBundle | EListBundles | EGetBundle
| EApplyPolicy | EListPolicies | ETestPolicies | EPolicyVersions | EPolicySource
| EIssueRemit | EGetRemit | EDeriveRemit
| EStartRun | EListRuns | EGetRun | ERunEvents | EPostEvent | EReplay | EAbandon | EResume
| EExportActions
| ELease | EHeartbeat | EComplete | EFail | EProposeAction
| EListApprovals | EGetApproval | EDecide.

(** The table [router] builds. *)
Definition routes : list (string * list (Method * Endpoint)) := [
  ("/v1/health", [(GET, EHealth)]);
  ("/v1/keys", [(GET, EKeys)]);
  ("/v1/metrics", [(GET, EMetrics)]);
  ("/v1/bundles", [(POST, EApplyBundle); (GET, EListBundles)]);
  ("/v1/bundles/{id}", [(GET, EGetBundle)]);
  ("/v1/policies", [(POST, EApplyPolicy); (GET, EListPolicies)]);
  ("/v1/policies/test", [(POST, ETestPolicies)]);
  ("/v1/policies/{name}", [(GET, EPolicyVersions)]);
  ("/v1/policies/{name}/{version}", [(GET, EPolicySource)]);
  ("/v1/remits", [(POST, EIssueRemit)]);
  ("/v1/remits/{id}", [(GET, EGetRemit)]);
  ("/v1/remits/{id}/derive", [(POST, EDeriveRemit)]);
  ("/v1/runs", [(POST, EStartRun); (GET, EListRuns)]);
  ("/v1/runs/{id}", [(GET, EGetRun)]);
  ("/v1/runs/{id}/events", [(GET, ERunEvents); (POST, EPostEvent)]);
  ("/v1/runs/{id}/replay", [(POST, EReplay)]);
  ("/v1/runs/{id}/abandon", [(POST, EAbandon)]);
  ("/v1/runs/{id}/resume", [(POST, EResume)]);
  ("/v1/actions", [(GET, EExportActions)]);
  ("/v1/leases", [(POST, ELease)]);
  ("/v1/leases/{id}/heartbeat", [(POST, EHeartbeat)]);
  ("/v1/leases/{id}/complete", [(POST, EComplete)]);
  ("/v1/leases/{id}/fail", [(POST, EFail)]);
  ("/v1/leases/{id}/actions", [(POST, EProposeAction)]);
  ("/v1/approvals", [(GET, EListApprovals)]);
  ("/v1/approvals/{id}", [(GET, EGetApproval); (POST, EDecide)])].

(** A [GET] handler also serves [HEAD]. *)
Definition find_method (m : Method) (methods : list (Method * Endpoint)) : option Endpoint :=
  let m := match m with HEAD => GET | m => m end in
  snd <$> find_first (fun x => bool_decide (fst x = m)) methods.

Section Server.
Context `{FloatFormat, Sha256, JsonPrint, Crypto, JsonText, Regex, UnicodeTables, F64Display, Http}.
Context `{!KeyBytes}.

(** The kernel, the token, and what the process keeps beside the store. *)
Record AppState := {
  as_kernel : Kernel; as_token : option string; as_version : string; as_started_at_ms : Z;
  as_metrics : Metrics }.

(** ** Extractors *)

Definition with_json {A} (de : json -> option A) (rq : Request) (k : A -> Handler) : Handler :=
  match (j ← json_body rq; de j) with
  | Some a => k a
  | None => respond (error_response (bad_request "invalid_json"))
  end.

Definition plain_rejection : Response := {| res_status := 400; res_body := BPlain |}.

Definition with_query {A} (de : list (string * string) -> option A) (rq : Request) (k : A -> Handler) : Handler :=
  match (q ← query_pairs (rq_query rq); de q) with
  | Some a => k a
  | None => respond plain_rejection
  end.

(** ** Handlers *)

Definition public_key_info (k : Kernel) : json :=
  obj [("key_id", JStr (kp_key_id (k_key k))); ("algorithm", JStr "ed25519");
       ("public_key", JStr (public_key_b64 (public (k_key k))))].

Definition metrics_text (st : AppState) (s : Store) : string :=
  render (as_metrics st) (runs_by_state s) (count_pending_approvals s).

Definition selector (value : json) (field : string) : KernelResult PolicySelector :=
  match jget_str "source" value with
  | Some source => Ok (SelInline source)
  | None =>
      match jget_str "name" value, (v ← jget "version" value; as_u64 v) with
      | Some name, Some version => Ok (SelStored name version)
      | _, _ => Err (with_details (unprocessable "invalid_request") (obj [("field", JStr field)]))
      end
  end.

Definition run_filter (q : RunsQuery) : RunFilter :=
  {| rf_state := qr_state q; rf_department := qr_department q;
     rf_limit := clamp (default 50 (qr_limit q)) 1 500; rf_after := qr_after q |}.

Definition external_auth (rq : Request) : ExternalAuth :=
  match trim <$> rq_header rq "x-kernos-lease", trim <$> rq_header rq "x-kernos-remit" with
  | Some lease, _ => AuthLease lease
  | None, Some token => AuthRemit token
  | None, None => AuthNone
  end.

Definition since_ms (now : Z) (since : option string) : KernelResult Z :=
  match since with
  | None => Ok 0
  | Some text =>
      match parse_rfc3339 text with
      | Some ms => Ok ms
      | None =>
          match parse_duration text with
          | Some seconds => Ok (i64_wrap (now - i64_wrap (u64_as_i64 seconds * 1000)))
          | None => Err (with_details (unprocessable "invalid_request") (obj [("field", JStr "since")]))
          end
      end
  end.

Definition action_reply (o : ActionOutcome) : Response :=
  match ao_decision o with
  | DDeny => error_response (with_details (forbidden "action_denied")
               (obj [("action_id", JStr (ao_action_id o)); ("decision", JStr "deny"); ("rule", JStr (ao_rule o))]))
  | _ => reply 200 (ser_ActionOutcome o)
  end.

Definition created_status (created : bool) : Z := if created then 201 else 200.

Definition h_health (st : AppState) (c : Call) : Handler :=
  blocking (kread (fun s => Ok (health (as_version st) (as_started_at_ms st) (c_now c) s)))
    (fun h => reply 200 (ser_HealthReport h)).

Definition h_keys (st : AppState) : Handler :=
  respond (reply 200 (public_key_info (as_kernel st))).

Definition h_metrics (st : AppState) : Handler :=
  blocking (kread (fun s => Ok (metrics_text st s)))
    (fun text => {| res_status := 200; res_body := BText text |}).

Definition h_apply_bundle (st : AppState) (c : Call) (rq : Request) : Handler :=
  with_json de_BundleBody rq (fun b =>
    blocking (apply_bundle (as_kernel st) c (bb_bundle b) (bb_signature b))
      (fun r => reply (created_status (ba_created r)) (ser_BundleApplied r))).

Definition h_list_bundles : Handler :=
  blocking (kread (fun s => Ok (Read.list_bundles s))) (fun l => reply 200 (JArr l)).

Definition h_get_bundle (id : string) : Handler :=
  blocking (kread (Read.get_bundle id)) (reply 200).

Definition h_apply_policy (c : Call) (rq : Request) : Handler :=
  with_json de_PolicyBody rq (fun b =>
    blocking (apply_policy c (pb_name b) (pb_version b) (pb_source b))
      (fun r => reply (created_status (pa_created r)) (ser_PolicyApplied r))).

Definition h_list_policies : Handler :=
  blocking (kread (fun s => Ok (Read.list_policies s))) (fun l => reply 200 (JArr l)).

Definition h_test_policies (rq : Request) : Handler :=
  with_json de_PolicyTestBody rq (fun body =>
    match selector (pt_policy_a body) "policy_a", selector (pt_policy_b body) "policy_b" with
    | Err e, _ => respond (error_response e)
    | _, Err e => respond (error_response e)
    | Ok a, Ok b => blocking (kread (Read.test_policies a b (pt_corpus body))) (reply 200)
    end).

Definition h_policy_versions (id : string) : Handler :=
  blocking (kread (Read.policy_versions id)) (fun l => reply 200 (JArr l)).

Definition h_policy_source (name version : string) : Handler :=
  match parse_u64 version with
  | Some version => blocking (kread (Read.policy_source name version)) (reply 200)
  | None => respond plain_rejection
  end.

Definition h_issue_remit (st : AppState) (c : Call) (rq : Request) : Handler :=
  with_json de_IssueRequest rq (fun b =>
    blocking (issue_remit (as_kernel st) c b) (fun r => reply 201 (ser_RemitIssued r))).

Definition h_get_remit (id : string) : Handler :=
  blocking (kread (Read.get_remit id)) (reply 200).

Definition h_derive_remit (st : AppState) (c : Call) (id : string) (rq : Request) : Handler :=
  with_json de_DeriveRequest rq (fun b =>
    blocking (derive_remit (as_kernel st) c id b) (fun r => reply 201 (ser_RemitIssued r))).

Definition h_start_run (st : AppState) (c : Call) (rq : Request) : Handler :=
  with_json de_StartRunRequest rq (fun b =>
    blocking (start_run (as_kernel st) c b) (fun r => reply 201 (ser_RunStarted r))).

Definition h_list_runs (rq : Request) : Handler :=
  with_query de_RunsQuery rq (fun q =>
    blocking (kread (Read.list_runs (run_filter q))) (fun p => reply 200 (ser_RunPage p))).

Definition h_get_run (id : string) : Handler :=
  blocking (kread (Read.get_run id)) (fun r => reply 200 (ser_RunState r)).

Definition h_run_events (id : string) (rq : Request) : Handler :=
  with_query de_EventsQuery rq (fun q =>
    blocking (run_events id (default 1 (qe_from_seq q)) (default 500 (qe_limit q)))
      (fun p => reply 200 (ser_EventPage p))).

Definition h_post_event (st : AppState) (c : Call) (id : string) (rq : Request) : Handler :=
  with_json de_ExternalEventBody rq (fun b =>
    blocking (post_external_event (as_kernel st) c id (xb_kind b) (xb_payload b) (xb_actor b) (external_auth rq))
      (fun a => reply 201 (ser_Appended a))).

Definition h_replay (id : string) : Handler :=
  blocking (kread (replay id)) (fun r => {| res_status := 200; res_body := BReplay r |}).

Definition h_abandon (c : Call) (id : string) (rq : Request) : Handler :=
  with_json de_AbandonBody rq (fun b =>
    blocking (abandon c id (ab_reason b) (ab_actor b))
      (fun n => reply 202 (obj [("compensations_scheduled", json_u64 n)]))).

Definition h_resume (c : Call) (id : string) (rq : Request) : Handler :=
  with_json de_ResumeBody rq (fun b =>
    blocking (resume c id (rb_actor b))
      (fun r => reply 200 (obj [("run_id", JStr id); ("run_state", ser_RunStatus r)]))).

Definition h_export_actions (c : Call) (rq : Request) : Handler :=
  with_query de_ActionsQuery rq (fun q =>
    match since_ms (c_now c) (qa_since q) with
    | Ok ms => blocking (kread (fun s => Ok (Read.export_actions ms s))) (fun l => reply 200 (JArr l))
    | Err e => respond (error_response e)
    end).

Definition h_lease (st : AppState) (c : Call) (rq : Request) : Handler :=
  with_json de_LeaseRequest rq (fun b =>
    blocking (lease (as_kernel st) c b) (fun g =>
      match g with
      | Some g => reply 200 (ser_LeaseGrant g)
      | None => {| res_status := 204; res_body := BEmpty |}
      end)).

Definition h_heartbeat (c : Call) (id : string) : Handler :=
  blocking (heartbeat c id) (fun t => reply 200 (obj [("expires_at", JStr t)])).

Definition h_complete (c : Call) (id : string) (rq : Request) : Handler :=
  with_json de_CompleteBody rq (fun b =>
    blocking (complete c id (cb_output b) (cb_usage b)) (fun r => reply 200 (ser_CompleteResult r))).

Definition h_fail (st : AppState) (c : Call) (id : string) (rq : Request) : Handler :=
  with_json de_FailBody rq (fun b =>
    blocking (fail (as_kernel st) c id (fb_error b) (fb_deterministic b)) (fun r => reply 200 (ser_FailResult r))).

Definition h_propose_action (c : Call) (id : string) (rq : Request) : Handler :=
  with_json de_ActionBody rq (fun b =>
    blocking (propose_action c id (acb_action b)) action_reply).

Definition h_list_approvals (rq : Request) : Handler :=
  with_query de_ApprovalsQuery rq (fun q =>
    blocking (kread (fun s => Ok (Read.list_approvals (qp_state q) (qp_approver q) s))) (fun l => reply 200 (JArr l))).

Definition h_get_approval (id : string) : Handler :=
  blocking (kread (Read.get_approval id)) (reply 200).

Definition h_decide (c : Call) (id : string) (rq : Request) : Handler :=
  with_json de_DecideBody rq (fun b =>
    blocking (decide_approval c id (db_decision b) (db_actor b) (db_reason b))
      (fun o => reply 200 (ser_ApprovalOutcome o))).

(** The handler of an endpoint; [args] are the path parameters. *)
Definition handle (st : AppState) (c : Call) (e : Endpoint) (args : list string) (rq : Request) : Handler :=
  let id := nth 0 args "" in
  match e with
  | EHealth => h_health st c
  | EKeys => h_keys st
  | EMetrics => h_metrics st
  | EApplyBundle => h_apply_bundle st c rq
  | EListBundles => h_list_bundles
  | EGetBundle => h_get_bundle id
  | EApplyPolicy => h_apply_policy c rq
  | EListPolicies => h_list_policies
  | ETestPolicies => h_test_policies rq
  | EPolicyVersions => h_policy_versions id
  | EPolicySource => h_policy_source id (nth 1 args "")
  | EIssueRemit => h_issue_remit st c rq
  | EGetRemit => h_get_remit id
  | EDeriveRemit => h_derive_remit st c id rq
  | EStartRun => h_start_run st c rq
  | EListRuns => h_list_runs rq
  | EGetRun => h_get_run id
  | ERunEvents => h_run_events id rq
  | EPostEvent => h_post_event st c id rq
  | EReplay => h_replay id
  | EAbandon => h_abandon c id rq
  | EResume => h_resume c id rq
  | EExportActions => h_export_actions c rq
  | ELease => h_lease st c rq
  | EHeartbeat => h_heartbeat c id
  | EComplete => h_complete c id rq
  | EFail => h_fail st c id rq
  | EProposeAction => h_propose_action c id rq
  | EListApprovals => h_list_approvals rq
  | EGetApproval => h_get_approval id
  | EDecide => h_decide c id rq
  end.

(** ** Routing and authentication *)

Definition not_found_response : Response := error_response (not_found "not_found").

(** What the framework sends for a known path and another method. *)
Definition method_not_allowed : Response := {| res_status := 405; res_body := BEmpty |}.

(** The answer to [HEAD] has no body. *)
Definition without_body (m : Method) (r : Response) : Response :=
  match m with HEAD => {| res_status := res_status r; res_body := BEmpty |} | _ => r end.

Definition dispatch (st : AppState) (c : Call) (rq : Request) : Handler := fun s =>
  match match_path (map fst routes) (rq_path rq) with
  | None => (not_found_response, s)
  | Some (pattern, args) =>
      match map_get pattern routes with
      | None => (not_found_response, s)
      | Some methods =>
          match find_method (rq_method rq) methods with
          | None => (method_not_allowed, s)
          | Some e => handle st c e args rq s
          end
      end
  end.

Definition presented (rq : Request) : option string :=
  v ← rq_header rq "authorization";
  w ← strip_prefix "Bearer " v;
  Some (trim w).

Definition authorised (st : AppState) (rq : Request) : bool :=
  match as_token st with
  | Some token => bool_decide (presented rq = Some token)
  | None => true
  end.

Definition unauthorized : Response := error_response (api 401 "unauthorized").

(** The router under its [auth] layer. *)
Definition serve (st : AppState) (c : Call) (rq : Request) : Handler := fun s =>
  let (r, s') := if authorised st rq then dispatch st c rq s else (unauthorized, s) in
  (without_body (rq_method rq) r, s').
End Server.
