(* ===== verification/ServerSpec.v ===== *)
(** * What the server promises

    A request runs at most one operation of the kernel, the one its route and body name, and
    only for the bearer of the token; reading never writes; and an answer that reports a
    failure leaves the store as it was, apart from the two failures the log has to record. *)

From stdpp Require Import gmap.
From S2P Require Import Prelude Text Ids F64 Json Policy Lexer Parser PolicyTools Canonical Time.
From S2P Require Import Errors Keys Remit Payloads Events Fold RunJson Template Schema Bundle Store.
From S2P Require Import Kernel Reads Scenario Hoare History StoreInv KernelInv Replay LeaseSpec.
From S2P Require Import Paging Progress Metrics KeyFiles Server.
From Stdlib Require Import Ascii.

Local Open Scope string_scope.
Local Open Scope list_scope.
Local Open Scope Z_scope.

(** Open the handler of an endpoint. *)
Ltac open_handler :=
  unfold h_health, h_keys, h_metrics, h_apply_bundle, h_list_bundles, h_get_bundle, h_apply_policy,
    h_list_policies, h_test_policies, h_policy_versions, h_policy_source, h_issue_remit,
    h_get_remit, h_derive_remit, h_start_run, h_list_runs, h_get_run, h_run_events, h_post_event,
    h_replay, h_abandon, h_resume, h_export_actions, h_lease, h_heartbeat, h_complete, h_fail,
    h_propose_action, h_list_approvals, h_get_approval, h_decide.

(** ** The operation a request asks for *)

Section Requested.
Context `{FloatFormat, Sha256, JsonPrint, Crypto, JsonText, Regex, UnicodeTables, F64Display, Http}.
Context `{!KeyBytes}.

Definition body_of {A} (de : json -> option A) (rq : Request) : option A := j ← json_body rq; de j.

(** The specification of the handlers: the writing operation an endpoint stands for, from
    the path parameters and the body; none for the endpoints that read. *)
Definition operation (e : Endpoint) (args : list string) (rq : Request) : option Op :=
  let id := nth 0 args "" in
  match e with
  | EApplyBundle => b ← body_of de_BundleBody rq; Some (OApplyBundle (bb_bundle b) (bb_signature b))
  | EApplyPolicy => b ← body_of de_PolicyBody rq; Some (OApplyPolicy (pb_name b) (pb_version b) (pb_source b))
  | EIssueRemit => b ← body_of de_IssueRequest rq; Some (OIssueRemit b)
  | EDeriveRemit => b ← body_of de_DeriveRequest rq; Some (ODeriveRemit id b)
  | EStartRun => b ← body_of de_StartRunRequest rq; Some (OStartRun b)
  | EPostEvent => b ← body_of de_ExternalEventBody rq;
                  Some (OPostEvent id (xb_kind b) (xb_payload b) (xb_actor b) (external_auth rq))
  | EAbandon => b ← body_of de_AbandonBody rq; Some (OAbandon id (ab_reason b) (ab_actor b))
  | EResume => b ← body_of de_ResumeBody rq; Some (OResume id (rb_actor b))
  | ELease => b ← body_of de_LeaseRequest rq; Some (OLease b)
  | EHeartbeat => Some (OHeartbeat id)
  | EComplete => b ← body_of de_CompleteBody rq; Some (OComplete id (cb_output b) (cb_usage b))
  | EFail => b ← body_of de_FailBody rq; Some (OFail id (fb_error b) (fb_deterministic b))
  | EProposeAction => b ← body_of de_ActionBody rq; Some (OPropose id (acb_action b))
  | EDecide => b ← body_of de_DecideBody rq; Some (ODecide id (db_decision b) (db_actor b) (db_reason b))
  | _ => None
  end.

(** The endpoint a path and a method lead to. *)
Definition routed (rq : Request) : option (Endpoint * list string) :=
  '(pattern, args) ← match_path (map fst routes) (rq_path rq);
  methods ← map_get pattern routes;
  e ← find_method (rq_method rq) methods;
  Some (e, args).

Definition requested (st : AppState) (rq : Request) : option Op :=
  if authorised st rq then '(e, args) ← routed rq; operation e args rq else None.

(** The store after the operation, if there is one. *)
Definition run_op (k : Kernel) (c : Call) (o : option Op) (s : Store) : Store :=
  match o with Some op => exec k c op s | None => s end.

Lemma blocking_store {A} (op : M A) f s : snd (blocking op f s) = after op s.
Proof. unfold blocking, after. by destruct (op s) as [[a|e] s']. Qed.

Lemma with_json_store {A} (de : json -> option A) rq f s s' :
  (forall a, body_of de rq = Some a -> snd (f a s) = s' a) ->
  snd (with_json de rq f s) = match body_of de rq with Some a => s' a | None => s end.
Proof. unfold with_json, body_of. intros Hf. destruct (j ← json_body rq; de j) as [a|]; [by apply Hf | done]. Qed.

Lemma with_query_store {A} (de : list (string * string) -> option A) rq f s :
  (forall a, snd (f a s) = s) -> snd (with_query de rq f s) = s.
Proof. unfold with_query. intros Hf. destruct (q ← query_pairs (rq_query rq); de q); auto. Qed.

Lemma run_events_store id from limit s : after (run_events id from limit) s = s.
Proof.
  unfold after, run_events, kbind, kread. destruct (require_run id s); [|done]. by destruct (events_from _ _ _ s).
Qed.

Lemma handle_store st c e args rq s :
  snd (handle st c e args rq s) = run_op (as_kernel st) c (operation e args rq) s.
Proof.
  destruct e; cbn [handle operation run_op]; open_handler;
    try (by rewrite blocking_store); try done;
    try (by rewrite (with_query_store _ _ _ s) by (intros; by rewrite blocking_store));
    try (erewrite with_json_store by (intros; apply blocking_store);
         match goal with |- context [body_of ?d ?r] => by destruct (body_of d r) end).
  - unfold with_json. destruct (j ← json_body rq; de_PolicyTestBody j) as [b|]; [|done]. cbn beta.
    repeat case_match; by rewrite ?blocking_store.
  - by destruct (parse_u64 _); rewrite ?blocking_store.
  - apply with_query_store. intros q. by rewrite blocking_store, run_events_store.
  - apply with_query_store. intros q. destruct (since_ms _ _); by rewrite ?blocking_store.
Qed.

Lemma dispatch_handle st c rq e args s : routed rq = Some (e, args) -> dispatch st c rq s = handle st c e args rq s.
Proof.
  unfold dispatch, routed. destruct (match_path _ _) as [[pattern args']|]; [|done]. cbn [mbind option_bind].
  destruct (map_get pattern routes) as [methods|]; [|done]. cbn [mbind option_bind].
  destruct (find_method _ _) as [e'|]; [|done]. cbn [mbind option_bind]. by intros [= -> ->].
Qed.

Lemma dispatch_store st c rq s :
  snd (dispatch st c rq s) = run_op (as_kernel st) c ('(e, args) ← routed rq; operation e args rq) s.
Proof.
  unfold dispatch, routed. destruct (match_path _ _) as [[pattern args]|]; [|done]. cbn [mbind option_bind].
  destruct (map_get pattern routes) as [methods|]; [|reflexivity]. cbn [mbind option_bind].
  destruct (find_method _ _) as [e|]; [|done]. apply handle_store.
Qed.

Lemma serve_store st c rq s : snd (serve st c rq s) = run_op (as_kernel st) c (requested st rq) s.
Proof.
  unfold serve, requested. destruct (authorised st rq); [|done].
  rewrite <- dispatch_store. by destruct (dispatch st c rq s).
Qed.

(** Only [POST] leads to an operation. *)
Lemma find_method_in m methods e : find_method m methods = Some e ->
  In (match m with HEAD => GET | m => m end, e) methods.
Proof.
  unfold find_method. intros ([m' e'] & Hf & He)%fmap_Some. apply find_first_some in Hf as [Hin Hb].
  apply bool_decide_eq_true in Hb. cbn in Hb, He. by subst.
Qed.

Definition writes (e : Endpoint) : bool :=
  match e with
  | EApplyBundle | EApplyPolicy | EIssueRemit | EDeriveRemit | EStartRun | EPostEvent | EAbandon | EResume
  | ELease | EHeartbeat | EComplete | EFail | EProposeAction | EDecide => true
  | _ => false
  end.

Lemma routes_write : Forall (fun r => Forall (fun me => writes (snd me) = true -> fst me = POST) (snd r)) routes.
Proof. unfold routes. repeat constructor; by cbn. Qed.

Lemma map_get_in {A} k (m : list (string * A)) v : map_get k m = Some v -> exists k', In (k', v) m.
Proof.
  induction m as [|[k' w] m IH]; cbn; [done|]. destruct (String.eqb k k'); [intros [= ->]; eauto|].
  intros (k2 & Hin)%IH. eauto.
Qed.

Lemma routed_writes rq e args op : routed rq = Some (e, args) -> operation e args rq = Some op -> rq_method rq = POST.
Proof.
  unfold routed. intros Hr Hop. destruct (match_path _ _) as [[pattern args']|]; [|done]. cbn [mbind option_bind] in Hr.
  destruct (map_get pattern routes) as [methods|] eqn:Em; [|done]. cbn [mbind option_bind] in Hr.
  destruct (find_method _ _) as [e'|] eqn:Ef; [|done]. cbn in Hr. injection Hr as -> ->.
  apply map_get_in in Em as (p & Hin). apply find_method_in in Ef.
  pose proof routes_write as Hw. rewrite List.Forall_forall in Hw. specialize (Hw _ Hin).
  rewrite List.Forall_forall in Hw. specialize (Hw _ Ef). cbn in Hw.
  assert (writes e = true) as Hwr by (by destruct e).
  specialize (Hw Hwr). by destruct (rq_method rq).
Qed.

(** C20: the server refines the kernel.  The store after a request is the store after the one
    operation the request asks for, if it asks for one, and otherwise the store as it was;
    it asks for one only with the bearer token, when a token is set, and only by [POST].  So
    whatever is sent to the server, in any order, keeps the store reachable. *)
Theorem server_refines_kernel st c rq s :
  snd (serve st c rq s) = run_op (as_kernel st) c (requested st rq) s /\
  (requested st rq <> None ->
   rq_method rq = POST /\ forall token, as_token st = Some token -> presented rq = Some token) /\
  (reachable s -> reachable (snd (serve st c rq s))).
Proof.
  rewrite serve_store. split; [done|]. split.
  - unfold requested. destruct (authorised st rq) eqn:Ea; [|done].
    destruct (routed rq) as [[e args]|] eqn:Er; [|done]. cbn. intros Hop.
    destruct (operation e args rq) as [op|] eqn:Eo; [|done]. split; [by eapply routed_writes|].
    intros token Ht. unfold authorised in Ea. rewrite Ht in Ea. by apply bool_decide_eq_true in Ea.
  - destruct (requested st rq); cbn; [by constructor | done].
Qed.
End Requested.

(** ** Failures roll back *)

(** An operation whose failure leaves no trace, and one that never writes. *)
Class Atomic {A} (m : M A) : Prop := atomic : forall s e s', m s = (Err e, s') -> s' = s.
Class Quiet {A} (m : M A) : Prop := quiet : forall s, snd (m s) = s.

Section Atomicity.
Context {A B : Type}.

#[export] Instance quiet_ret (a : A) : Quiet (kret a).
Proof. done. Qed.
#[export] Instance quiet_get : Quiet kget.
Proof. done. Qed.
#[export] Instance quiet_read (f : Store -> KernelResult A) : Quiet (kread f).
Proof. done. Qed.
#[export] Instance quiet_lift (r : KernelResult A) : Quiet (klift r).
Proof. done. Qed.
#[export] Instance quiet_guard b e : Quiet (kguard b e).
Proof. by destruct b. Qed.
#[export] Instance quiet_some (o : option A) e : Quiet (ksome o e).
Proof. by destruct o. Qed.
#[export] Instance quiet_fail e : Quiet (kfail (A:=A) e).
Proof. done. Qed.

#[export] Instance quiet_atomic (m : M A) : Quiet m -> Atomic m | 10.
Proof. intros Hm s e s' E. specialize (Hm s). by rewrite E in Hm. Qed.

#[export] Instance atomic_bind (m : M A) (k : A -> M B) : Quiet m -> (forall a, Atomic (k a)) -> Atomic (kbind m k).
Proof.
  intros Hm Hk s e s' E. unfold kbind in E. specialize (Hm s). destruct (m s) as [[a|e'] s1] eqn:Em.
  - cbn in Hm. subst s1. by eapply Hk.
  - cbn in Hm. congruence.
Qed.

#[export] Instance atomic_then (m : M A) (f : A -> B) : Atomic m -> Atomic (kbind m (fun a => kret (f a))).
Proof.
  intros Hm s e s' E. unfold kbind in E. destruct (m s) as [[a|e'] s1] eqn:Em; [done|].
  injection E as -> <-. by eapply Hm.
Qed.

#[export] Instance atomic_transaction (m : M A) : Atomic (transaction m).
Proof. intros s e s'. unfold transaction. destruct (m s) as [[a|e'] s1]; congruence. Qed.

#[export] Instance atomic_if (b : bool) (m1 m2 : M A) : Atomic m1 -> Atomic m2 -> Atomic (if b then m1 else m2).
Proof. by destruct b. Qed.
End Atomicity.

#[export] Instance atomic_insert_bundle r : Atomic (insert_bundle r).
Proof. intros s e s'. unfold insert_bundle. destruct (_ || _); intros [=]; done. Qed.
#[export] Instance atomic_insert_policy r : Atomic (insert_policy r).
Proof. intros s e s'. unfold insert_policy. destruct (_ || _); intros [=]; done. Qed.
#[export] Instance atomic_insert_remit r : Atomic (insert_remit r).
Proof. intros s e s'. unfold insert_remit. destruct (any _ _); intros [=]; done. Qed.

Section Rollback.
Context `{FloatFormat, Sha256, JsonPrint, Crypto, JsonText, Regex, UnicodeTables, F64Display, Http}.
Context `{!KeyBytes}.

#[local] Instance atomic_apply_bundle k c b sg : Atomic (apply_bundle k c b sg).
Proof. unfold apply_bundle. repeat (apply atomic_bind; [apply _|intros]). destruct (find_bundle _ _ _); apply _. Qed.
#[local] Instance atomic_apply_policy c n v src : Atomic (apply_policy c n v src).
Proof. unfold apply_policy. repeat (apply atomic_bind; [apply _|intros]). destruct (get_policy _ _ _); apply _. Qed.
#[local] Instance atomic_store_remit k c p r : Atomic (store_remit k c p r).
Proof. unfold store_remit. apply _. Qed.
#[local] Instance atomic_issue_remit k c r : Atomic (issue_remit k c r).
Proof. unfold issue_remit. apply _. Qed.
#[local] Instance atomic_derive_remit k c id r : Atomic (derive_remit k c id r).
Proof. unfold derive_remit. apply _. Qed.
#[local] Instance atomic_start_run k c r : Atomic (start_run k c r).
Proof. unfold start_run. apply _. Qed.
#[local] Instance atomic_post k c id kind p a auth : Atomic (post_external_event k c id kind p a auth).
Proof. unfold post_external_event. apply _. Qed.
#[local] Instance atomic_abandon c id r a : Atomic (abandon c id r a).
Proof. unfold abandon. apply _. Qed.
#[local] Instance atomic_resume c id a : Atomic (resume c id a).
Proof. unfold resume. apply _. Qed.
#[local] Instance atomic_lease k c r : Atomic (lease k c r).
Proof. unfold lease. apply _. Qed.
#[local] Instance atomic_decide c id d a r : Atomic (decide_approval c id d a r).
Proof. unfold decide_approval. apply _. Qed.

(** The one failure that is kept: the lease has run out, and the log says so. *)
Definition fails_clean {A} (m : M A) (s : Store) : Prop :=
  forall e s', m s = (Err e, s') -> s' = s \/ e = lease_expired.

Lemma atomic_clean {A} (m : M A) s : Atomic m -> fails_clean m s.
Proof. intros Hm e s' E. left. by eapply Hm. Qed.

Lemma clean_bind {A B} (m : M A) (k : A -> M B) s :
  Quiet m -> (forall a, fails_clean (k a) s) -> fails_clean (kbind m k) s.
Proof.
  intros Hm Hk e s' E. unfold kbind in E. specialize (Hm s). destruct (m s) as [[a|e'] s1] eqn:Em; cbn in Hm; subst s1.
  - by apply (Hk a).
  - left. congruence.
Qed.

Lemma live_lease_clean now id s :
  settled 1 s -> refs_known s ->
  fails_clean (live_lease now id) s /\ forall l s', live_lease now id s = (Ok l, s') -> s' = s.
Proof.
  intros Hs [Hk _]. unfold fails_clean, live_lease, kbind, kget, ksome, klift, kguard, kret, kfail.
  destruct (get_lease id s) as [l|] eqn:El; cbn [ok_or]; [|split; intros; simplify_eq; auto].
  destruct (String.eqb (le_state l) "active") eqn:Ea; cbn [andb]; [|split; intros; simplify_eq; auto].
  destruct (le_expires_at_ms l <=? now); [|split; intros; simplify_eq; auto].
  assert (In l (t_leases s)) as Hin by (by apply find_first_some in El as [? _]).
  rewrite List.Forall_forall in Hk. destruct (Hk l Hin) as [Hkn _].
  destruct (total_expire_lease 0 now l ltac:(lia) s (conj Hs Hkn)) as (u & s1 & E & _). rewrite E.
  split; intros; simplify_eq; auto.
Qed.

Lemma leased_run_clean now id s : settled 1 s -> refs_known s -> fails_clean (leased_run now id) s.
Proof.
  intros Hs Hk e s' E. destruct (live_lease_clean now id s Hs Hk) as [Hf Ho].
  unfold leased_run, kbind in E. destruct (live_lease now id s) as [[l|e1] s1] eqn:El.
  - rewrite (Ho l s1 eq_refl) in E. destruct (load_run now (le_run_id l) s) as [[rt|e2] s2] eqn:Er.
    + destruct (step_held _ l); [done|]. right. unfold end_lease, kfail, kput in E. by injection E.
    + left. unfold load_run, kbind, kread in Er. destruct (require_run _ _); [done|]. congruence.
  - injection E as -> <-. by apply Hf.
Qed.

Lemma commit_clean {A B} (first : M A) (rest : A -> M B) s :
  fails_clean first s -> fails_clean (commit_failure first rest) s.
Proof.
  intros Hf e s'. unfold commit_failure. destruct (first s) as [[a|e1] s1] eqn:E1.
  - destruct (rest a s1) as [[b|e2] s2]; intros [= <- <-]. by left.
  - intros [= <- <-]. by apply Hf.
Qed.

(** A failed answer that is kept in the log: a lease that ran out, or an action the policies
    deny. *)
Definition kept_in_log (r : Response) : Prop :=
  exists code details, res_body r = BError code details /\ (code = "lease_expired" \/ code = "action_denied").

Definition answers_clean (h : Handler) (s : Store) : Prop :=
  forall r s', h s = (r, s') -> 400 <= res_status r -> s' = s \/ kept_in_log r.

Lemma blocking_clean {A} (op : M A) f s :
  fails_clean op s -> (forall a, res_status (f a) < 400 \/ kept_in_log (f a)) -> answers_clean (blocking op f) s.
Proof.
  intros Hop Hf r s'. unfold blocking. destruct (op s) as [[a|e] s1] eqn:E; intros [= <- <-] Hr.
  - right. destruct (Hf a); [lia|done].
  - destruct (Hop e s1 E) as [->| ->]; [by left|]. right. exists "lease_expired", (obj []). by split; [|left].
Qed.

Lemma with_json_clean {A} (de : json -> option A) rq f s :
  (forall a, answers_clean (f a) s) -> answers_clean (with_json de rq f) s.
Proof.
  intros Hf. unfold with_json. destruct (j ← json_body rq; de j); [apply Hf|].
  intros r s' [= <- <-] _. by left.
Qed.

Lemma action_reply_clean o : res_status (action_reply o) < 400 \/ kept_in_log (action_reply o).
Proof.
  unfold action_reply. destruct (ao_decision o); [left; cbn; lia..|].
  right. do 2 eexists. split; [reflexivity|]. by right.
Qed.

Lemma handle_clean st c e args rq s :
  settled 1 s -> refs_known s -> operation e args rq <> None -> answers_clean (handle st c e args rq) s.
Proof.
  intros Hs Hk Hop. destruct e; try (by destruct Hop); cbn [handle]; open_handler;
    repeat (apply with_json_clean; intros);
    (apply blocking_clean;
     [|first [apply action_reply_clean
             | intros x; left; unfold created_status; repeat case_match; cbn [res_status reply]; lia]]);
    first [ apply atomic_clean; apply _
          | unfold complete, fail, heartbeat, propose_action; repeat (apply clean_bind; [apply _|intros]);
            apply commit_clean; first [by apply leased_run_clean | by apply live_lease_clean] ].
Qed.

End Rollback.

(** ** Routing *)

(** The documented matching of a pattern: segment by segment, a [{name}] takes any segment
    that is not empty. *)
Definition is_capture (segment : string) : bool := starts_with segment "{".

Fixpoint fits (pattern path : list string) : option (list string) :=
  match pattern, path with
  | [], [] => Some []
  | p :: pattern, x :: path =>
      if is_capture p then (if is_empty x then None else args ← fits pattern path; Some (x :: args))
      else if String.eqb p x then fits pattern path else None
  | _, _ => None
  end.

Definition segments (path : string) : list string := split_on "/" path.

(** Letters, digits, [-], [_], [.], [~]: text that is the same with and without percent
    encoding. *)
Definition unreserved (a : ascii) : bool :=
  is_ascii_digit a || is_ascii_lowercase a || is_ascii_uppercase a
  || Ascii.eqb a "-" || Ascii.eqb a "_" || Ascii.eqb a "." || Ascii.eqb a "~".

Definition plain_path (path : string) : bool := string_forall (fun a => unreserved a || Ascii.eqb a "/") path.

(** What the framework documents: a pattern that fits, when no other does, is the route, and
    a static route goes before captures; a query of plain pairs reads as those pairs. *)
Class HttpOk `{Http} : Prop := {
  match_only : forall patterns path p args,
    plain_path path = true -> In p patterns -> fits (segments p) (segments path) = Some args ->
    (forall q, In q patterns -> q <> p -> fits (segments q) (segments path) = None) ->
    match_path patterns path = Some (p, args);
  match_static : forall patterns path,
    plain_path path = true -> In path patterns -> match_path patterns path = Some (path, []);
  query_plain : forall pairs,
    pairs <> [] -> Forall (fun kv => string_forall unreserved (fst kv) = true /\ string_forall unreserved (snd kv) = true) pairs ->
    query_pairs (join "&" (map (fun kv => fst kv +:+ "=" +:+ snd kv) pairs)) = Some pairs }.

(** Whether some path fits both patterns. *)
Fixpoint overlap (p q : list string) : bool :=
  match p, q with
  | [], [] => true
  | x :: p, y :: q => (is_capture x || is_capture y || String.eqb x y) && overlap p q
  | _, _ => false
  end.

Lemma fits_overlap p q xs a b : fits p xs = Some a -> fits q xs = Some b -> overlap p q = true.
Proof.
  revert q xs a b. induction p as [|x p IH]; intros [|y q] [|z xs] a b; cbn; try done. intros Hp Hq.
  apply andb_true_iff. destruct (is_capture x) eqn:Ex, (is_capture y) eqn:Ey; cbn [orb].
  - destruct (is_empty z); [done|]. destruct (fits p xs) eqn:E1, (fits q xs) eqn:E2; try done. eauto.
  - destruct (is_empty z); [done|]. destruct (fits p xs) eqn:E1; [|done]. destruct (String.eqb y z); [|done]. eauto.
  - destruct (is_empty z); [done|]. destruct (fits q xs) eqn:E1; [|done]. destruct (String.eqb x z); [|done]. eauto.
  - destruct (String.eqb_spec x z); [|done]. destruct (String.eqb_spec y z); [|done]. subst. rewrite String.eqb_refl. eauto.
Qed.

(** Two routes of the table fit the same path only for [/v1/policies/test]. *)
Lemma routes_overlap :
  forallb (fun p => forallb (fun q =>
    negb (overlap (segments p) (segments q)) || String.eqb p q
    || (String.eqb p "/v1/policies/{name}" && String.eqb q "/v1/policies/test")
    || (String.eqb p "/v1/policies/test" && String.eqb q "/v1/policies/{name}"))
    (map fst routes)) (map fst routes) = true.
Proof. vm_compute. reflexivity. Qed.

Lemma fits_static p xs a : forallb (fun x => negb (is_capture x)) p = true -> fits p xs = Some a -> xs = p.
Proof.
  revert xs a. induction p as [|x p IH]; intros [|z xs] a; cbn; try done. intros [Hx Hp]%andb_true_iff.
  apply negb_true_iff in Hx. rewrite Hx. destruct (String.eqb_spec x z) as [->|]; [|done]. intros E. f_equal. eauto.
Qed.

Lemma fits_test path args : fits (segments "/v1/policies/test") (segments path) = Some args -> path = "/v1/policies/test".
Proof.
  intros E%fits_static; [|reflexivity]. rewrite <- (join_split "/" path). unfold segments in E. by rewrite E.
Qed.

Section Routing.
Context `{HttpOk}.

Lemma methods_found pattern methods m e rm :
  In (pattern, methods) routes -> In (m, e) methods -> rm = m \/ rm = HEAD /\ m = GET ->
  map_get pattern routes = Some methods /\ find_method rm methods = Some e.
Proof.
  intros Hin Hm Hrm. cbn in Hin. 
  repeat (destruct Hin as [[= <- <-]|Hin]; [cbn in Hm; repeat (destruct Hm as [[= <- <-]|Hm]; [
    split; [vm_compute; reflexivity|]; destruct Hrm as [->|[-> Hg]]; [vm_compute; reflexivity|]; by try (vm_compute; reflexivity)|]); done|]).
  done.
Qed.

Lemma route_found pattern methods m e args rq :
  In (pattern, methods) routes -> In (m, e) methods ->
  rq_method rq = m \/ rq_method rq = HEAD /\ m = GET ->
  plain_path (rq_path rq) = true -> fits (segments pattern) (segments (rq_path rq)) = Some args ->
  (rq_path rq = "/v1/policies/test" -> pattern = "/v1/policies/test") ->
  routed rq = Some (e, args).
Proof.
  intros Hin Hm Hrm Hplain Hfit Htest. destruct (methods_found _ _ _ _ _ Hin Hm Hrm) as [Hget Hfind].
  assert (In pattern (map fst routes)) as Hp by (by apply (in_map fst) in Hin).
  unfold routed. enough (match_path (map fst routes) (rq_path rq) = Some (pattern, args)) as ->.
  { cbn [mbind option_bind]. rewrite Hget. cbn [mbind option_bind]. by rewrite Hfind. }
  destruct (String.eqb_spec (rq_path rq) "/v1/policies/test") as [Et|Hnt].
  { rewrite (Htest Et), Et in *. rewrite match_static by done. f_equal. f_equal. vm_compute in Hfit. congruence. }
  apply match_only; [done..|]. intros q Hq Hne. destruct (fits (segments q) (segments (rq_path rq))) as [b|] eqn:Eq; [|done].
  exfalso. pose proof routes_overlap as Ho. rewrite forallb_forall in Ho. specialize (Ho pattern Hp).
  rewrite forallb_forall in Ho. specialize (Ho q Hq). rewrite (fits_overlap _ _ _ _ _ Hfit Eq) in Ho. cbn [negb orb] in Ho.
  destruct (String.eqb_spec pattern q); [congruence|]. cbn [orb] in Ho.
  apply orb_true_iff in Ho as [Ho|Ho]; apply andb_true_iff in Ho as [Hx Hy]; apply String.eqb_eq in Hx, Hy; subst.
  - by apply fits_test in Eq.
  - by apply fits_test in Hfit.
Qed.

(** Every route is reached.  A request whose path fits a pattern of the table and whose
    method the pattern has (or [HEAD] for [GET]) is handled by the endpoint of that entry,
    with the path segments the pattern captures.  The one exception is a policy called
    [test]: its path belongs to the policy test, whatever the method. *)
Theorem routes_reached pattern methods m e args rq :
  In (pattern, methods) routes -> In (m, e) methods ->
  rq_method rq = m \/ rq_method rq = HEAD /\ m = GET ->
  plain_path (rq_path rq) = true -> fits (segments pattern) (segments (rq_path rq)) = Some args ->
  (rq_path rq = "/v1/policies/test" -> pattern = "/v1/policies/test") ->
  routed rq = Some (e, args).
Proof. apply route_found. Qed.
End Routing.

(** ** Witnesses *)

(** A framework that tries static routes first, then the others in order, decodes nothing and
    reads two bodies. *)
Module ConcreteHttp.
Definition route (patterns : list string) (path : string) : option (string * list string) :=
  if any (String.eqb path) patterns then Some (path, [])
  else p ← find_first (fun p => match fits (segments p) (segments path) with Some _ => true | None => false end) patterns;
       args ← fits (segments p) (segments path);
       Some (p, args).

Definition pair_of (text : string) : string * string :=
  match split_once "=" text with Some kv => kv | None => (text, "") end.

Definition http : Http :=
  {| match_path := route;
     query_pairs := fun q => Some (if is_empty q then [] else map pair_of (split_on "&" q));
     json_body := fun rq => if String.eqb (rq_body rq) "{}" then Some (obj [])
                            else if String.eqb (rq_body rq) "worker" then Some (obj [("worker_id", JStr "w1")])
                            else None |}.

Lemma fits_refl_static p : forallb (fun x => negb (is_capture x)) p = true -> fits p p = Some [].
Proof.
  induction p as [|x p IH]; cbn; [done|]. intros [Hx Hp]%andb_true_iff. apply negb_true_iff in Hx.
  rewrite Hx, String.eqb_refl. auto.
Qed.

Lemma split_forall (q : ascii -> bool) c x : string_forall q x = true -> Forall (fun y => string_forall q y = true) (split_on c x).
Proof.
  induction x as [|a x IH]; cbn; [by repeat constructor|]. intros [Ha Hx]%andb_true_iff. specialize (IH Hx).
  destruct (Ascii.eqb a c); [by constructor|]. destruct IH as [|y l Hy Hl]; constructor; cbn; rewrite ?Ha; auto.
Qed.

Lemma plain_static path : plain_path path = true -> forallb (fun x => negb (is_capture x)) (segments path) = true.
Proof.
  intros Hs%(split_forall _ "/"). apply forallb_forall. intros x Hin. unfold segments in Hin.
  rewrite List.Forall_forall in Hs. specialize (Hs x Hin). destruct x as [|a x]; [done|]. cbn in Hs.
  apply andb_true_iff in Hs as [Ha _]. unfold is_capture, starts_with. cbn [strip_prefix].
  destruct (Ascii.eqb_spec "{" a) as [<-|]; [done | by destruct x].
Qed.

Lemma unreserved_no c x : unreserved c = false -> string_forall unreserved x = true -> contains_byte c x = false.
Proof.
  intros Hc. unfold contains_byte. induction x as [|a x IH]; cbn; [done|]. intros [Ha Hx]%andb_true_iff.
  rewrite IH by done. destruct (Ascii.eqb_spec c a) as [->|]; [congruence|done].
Qed.

Lemma pair_reads k v : string_forall unreserved k = true -> pair_of (k +:+ "=" +:+ v) = (k, v).
Proof.
  intros Hk. unfold pair_of. change (k +:+ "=" +:+ v) with (k +:+ String "=" v).
  rewrite split_once_app; [done|]. by apply unreserved_no.
Qed.

Lemma query_reads pairs :
  pairs <> [] -> Forall (fun kv => string_forall unreserved (fst kv) = true /\ string_forall unreserved (snd kv) = true) pairs ->
  let q := join "&" (map (fun kv => fst kv +:+ "=" +:+ snd kv) pairs) in
  Some (if is_empty q then [] else map pair_of (split_on "&" q)) = Some pairs.
Proof.
  intros Hne Hf q. assert (split_on "&" q = map (fun kv => fst kv +:+ "=" +:+ snd kv) pairs) as Hs.
  { apply split_join; [by destruct pairs|]. apply Forall_map. eapply List.Forall_impl; [|exact Hf]. intros [k v] [Hk Hv]. cbn in *.
    unfold contains_byte in *. rewrite !string_exists_app. cbn [string_exists Ascii.eqb].
    change (contains_byte "&" k || (false || contains_byte "&" v) = false). by rewrite !unreserved_no. }
  assert (is_empty q = false) as ->.
  { destruct pairs as [|[k v] l]; [done|]. unfold q. cbn. destruct l, k; done. }
  f_equal. rewrite Hs, map_map. clear Hs Hne q. induction Hf as [|[k v] l [Hk _] _ IH]; [done|]. cbn [map].
  f_equal; [by apply pair_reads | done].
Qed.

Lemma http_ok : @HttpOk http.
Proof.
  constructor; cbn; unfold route.
  - intros patterns path p args Hplain Hin Hfit Honly. pose proof (fits_refl_static _ (plain_static path Hplain)) as Hself.
    destruct (any (String.eqb path) patterns) eqn:Ea.
    + apply any_true in Ea as (q & Hq & Eq). apply String.eqb_eq in Eq. subst q.
      destruct (String.eqb_spec path p) as [->|Hne]; [congruence|]. rewrite (Honly path Hq Hne) in Hself. done.
    + destruct (find_first _ patterns) as [q|] eqn:Ef.
      * apply find_first_some in Ef as [Hq Eq]. destruct (String.eqb_spec q p) as [->|Hne]; [by cbn; rewrite Hfit|].
        by rewrite (Honly q Hq Hne) in Eq.
      * apply find_first_none in Ef. rewrite List.Forall_forall in Ef. specialize (Ef p Hin). by rewrite Hfit in Ef.
  - intros patterns path Hplain Hin. assert (any (String.eqb path) patterns = true) as ->; [|done].
    apply any_true. exists path. split; [done|]. apply String.eqb_refl.
  - exact query_reads.
Defined.
End ConcreteHttp.

(** The scenario's kernel behind the concrete framework, with a token. *)
Module DemoServer.
Export Demo.
#[export] Instance demo_http : Http := ConcreteHttp.http.
#[export] Instance demo_key_bytes : KeyBytes :=
  {| signing_of_bytes := (id : string -> @SigningKey demo_crypto); signing_bytes := id;
     verifying_of_bytes := fun s => Some (s : @VerifyingKey demo_crypto); verifying_bytes := id;
     pem_signing := fun _ => None; pem_verifying := fun _ => None |}.

Definition app : AppState :=
  {| as_kernel := demo_kernel; as_token := Some "t0k3n"; as_version := "0.1.0"; as_started_at_ms := 0;
     as_metrics := metrics_new |}.

Definition headers (authorization : string) (name : string) : option string :=
  if String.eqb name "authorization" then Some authorization else None.

Definition post (path body : string) : Request :=
  {| rq_method := POST; rq_path := path; rq_query := ""; rq_header := headers "Bearer t0k3n "; rq_body := body |}.
End DemoServer.

Import DemoServer.

Lemma routes_reached_witness :
  routed (post "/v1/leases/lse_7/complete" "{}") = Some (EComplete, ["lse_7"]).
Proof.
  apply (@routes_reached demo_http ConcreteHttp.http_ok "/v1/leases/{id}/complete" [(POST, EComplete)] POST EComplete
    ["lse_7"] (post "/v1/leases/lse_7/complete" "{}")); [cbn; tauto | cbn; tauto | by left | reflexivity | reflexivity | done].
Defined.

(** A lease request is the operation [OLease] of the kernel. *)
Lemma server_refines_kernel_witness :
  snd (serve app (demo_call 4) (post "/v1/leases" "worker") (demo 4)) =
  exec demo_kernel (demo_call 4) (OLease demo_lease_request) (demo 4).
Proof.
  destruct (server_refines_kernel app (demo_call 4) (post "/v1/leases" "worker") (demo 4)) as [E _].
  etransitivity; [exact E|]. assert (requested app (post "/v1/leases" "worker") = Some (OLease demo_lease_request)) as Hr
    by (vm_compute; reflexivity). rewrite Hr. reflexivity.
Defined.

