(* ===== verification/Cli.v ===== *)
(** * The command line and its client ([kernos/src/client.rs], [kernos/src/cli.rs])

    The commands that talk to a kernel: the request each one sends, and what it makes of the
    answer, and the commands that work on key and bundle files.  A command runs against a
    [World] it only reaches through [send] and [write_file]; files it reads come from
    [read_file] and [exists_file].  A JSON text is the value it spells, so an answer is empty,
    a value, or a text that is not JSON.  Parsing the arguments is clap's; printing
    the output is in [Render], and [serve] is in [Process]. *)

From S2P Require Import Prelude Text F64 Json Policy Lexer Parser Canonical Errors Keys Template.
From S2P Require Import Schema Remit Payloads Events Bundle Kernel KeyFiles Server.
From Stdlib Require Import Ascii.

Local Open Scope string_scope.
Local Open Scope list_scope.
Local Open Scope Z_scope.

(** ** The client *)

Inductive Payload := PEmpty | PValue (value : json) | PText (text : string).

Inductive ClientError :=
| ApiFailed (status : Z) (code message : string) (details : json)
| Transport.

Definition client_error_to_json (message : string) (e : ClientError) : json :=
  match e with
  | ApiFailed status code message details =>
      obj [("error", obj [("code", JStr code); ("message", JStr message); ("details", details);
                          ("status", json_u64 status)])]
  | Transport => obj [("error", obj [("code", JStr "transport"); ("message", JStr message); ("details", obj [])])]
  end.

(** [value[key]]: null when there is no such member. *)
Definition member (key : string) (v : json) : json := default JNull (jget key v).

Section Answers.
Context `{JsonPrint}.

Definition payload_text (p : Payload) : string :=
  match p with PEmpty => "" | PValue v => json_text v | PText t => t end.

Definition api_error (status : Z) (p : Payload) : ClientError :=
  let parsed := match p with PValue v => v | _ => JNull end in
  let error := member "error" parsed in
  ApiFailed status (default "http_error" (jget_str "code" error))
    (default ("HTTP " +:+ dec status +:+ ": " +:+ payload_text p) (jget_str "message" error))
    (member "details" error).

Definition success (status : Z) : bool := (200 <=? status) && (status <? 300).

Definition finish (status : Z) (p : Payload) : result ClientError json :=
  if success status then
    match p with
    | PEmpty => Ok JNull
    | PValue v => Ok v
    | PText t => if is_empty (trim t) then Ok JNull else Err Transport
    end
  else Err (api_error status p).

Definition finish_text (status : Z) (p : Payload) : result ClientError string :=
  if success status then Ok (payload_text p) else Err (api_error status p).
End Answers.

(** What the client sends: the target is path and query, as one text. *)
Record Sent := { sn_method : Method; sn_target : string; sn_token : option string; sn_body : option json }.

Record Client := { cl_base : string; cl_token : option string }.

(** [base.trim_end_matches('/')] *)
Definition client_new (base : string) (token : option string) : Client :=
  {| cl_base := trim_end_char "/" base; cl_token := token |}.

Definition client_url (c : Client) (path : string) : string := cl_base c +:+ path.

Definition get_request (c : Client) (path : string) : Sent :=
  {| sn_method := GET; sn_target := client_url c path; sn_token := cl_token c; sn_body := None |}.

Definition post_request (c : Client) (path : string) (body : json) : Sent :=
  {| sn_method := POST; sn_target := client_url c path; sn_token := cl_token c; sn_body := Some body |}.

(** ** Commands *)

Inductive KeysCommand :=
| KeysGenerate (out : string)
| KeysTrust (file : string) (data : option string).

Inductive BundleCommand :=
| BundleSign (file key : string) (out : option string)
| BundleValidate (file : string)
| BundleApply (file : string) (sig : option string)
| BundleList
| BundleShow (id : string).

Inductive PolicyCommand :=
| PolicyApply (file name : string) (version : Z)
| PolicyCheck (file : string)
| PolicyTest (a b corpus : string)
| PolicyList
| PolicyShow (spec : string).

Record RemitIssueArgs := {
  ra_tools : list string; ra_scopes : list string; ra_grants : list string; ra_tokens : option Z;
  ra_usd : option f64; ra_autonomy : string; ra_ttl : string; ra_policy_set : list string;
  ra_requested_by : option string; ra_role : option string; ra_manager : option string }.

Inductive RemitCommand :=
| RemitIssue (args : RemitIssueArgs)
| RemitDerive (id body : string)
| RemitShow (id : string).

Inductive RunCommand :=
| RunStart (bundle workflow input remit : string) (requested_by role manager : option string)
| RunShow (id : string)
| RunList (state department : option string) (limit : Z)
| RunEvents (id : string) (from_seq : Z)
| RunReplay (id : string)
| RunAbandon (id reason actor : string)
| RunResume (id actor : string)
| RunActions (since : option string).

Inductive ApprovalsCommand :=
| ApprovalsList (state : string) (approver : option string)
| ApprovalsDecide (id : string) (approve reject : bool) (actor role reason : string).

Inductive Command :=
| CmdHealth
| CmdKeys (c : KeysCommand)
| CmdBundle (c : BundleCommand)
| CmdPolicy (c : PolicyCommand)
| CmdRemit (c : RemitCommand)
| CmdRun (c : RunCommand)
| CmdApprovals (c : ApprovalsCommand).

Inductive Output := OutValue (v : json) | OutLines (l : list string).

(** The message texts are left out; [OutOfFuel] is not an error of the program. *)
Inductive CommandError :=
| UsageError
| Failure
| ClientFailed (e : ClientError)
| BundleInvalid (path : string)
| PolicyInvalid (line column : Z)
| OutOfFuel.

Definition EXIT_ERROR : Z := 1.
Definition EXIT_USAGE : Z := 2.

(** The exit code of the process. *)
Definition exit_code (r : result CommandError Output) : Z :=
  match r with
  | Ok _ => 0
  | Err UsageError => EXIT_USAGE
  | Err _ => EXIT_ERROR
  end.

(** The directory part and the file name of a path that ends in a file name. *)
Definition split_path (path : string) : string * string :=
  match rsplit_once "/" path with
  | Some (dir, name) => (dir +:+ "/", name)
  | None => ("", path)
  end.

(** [Path::join] with a relative path. *)
Definition path_join (dir name : string) : string :=
  match rsplit_once "/" dir with
  | Some (_, EmptyString) => dir +:+ name
  | _ => if is_empty dir then name else dir +:+ "/" +:+ name
  end.

(** [with_extension] of the source: the extension is added, not replaced. *)
Definition with_extension (base ext : string) : string := base +:+ "." +:+ ext.

(** The signature file beside a bundle file. *)
Definition sig_path (file : string) : string :=
  let '(parent, name) := split_path file in
  let stem := match rsplit_once "." name with
              | Some (b, ext) => if String.eqb ext "json" then b else name | None => name end in
  parent +:+ stem +:+ ".sig.json".

(** [name@version] *)
Definition parse_spec (spec : string) : result CommandError (string * Z) :=
  match rsplit_once "@" spec with
  | Some (name, version) =>
      match parse_u64 version with
      | Some v => Ok (name, v)
      | None => Err UsageError
      end
  | None => Err UsageError
  end.

Definition cli_requested_by (id role manager : option string) : option json :=
  id ← id;
  Some (obj ([("id", JStr id)] ++ skip_none "role" JStr role ++ skip_none "manager" JStr manager)).

(** [str::trim_start] *)
Definition trim_start (s : string) : string := String.concat "" (drop_while is_whitespace (chars s)).

(** [str::lines]: a line ends at a line feed, a carriage return before it goes too, and there
    is no line after the last line feed. *)
Definition lines (s : string) : list string :=
  let parts := split_on "010" s in
  let parts := if match rev parts with last :: _ => is_empty last | [] => false end then removelast parts else parts in
  map (fun l => match strip_suffix_char "013" l with Some l' => l' | None => l end) parts.

Section Commands.
Context `{FloatFormat, Sha256, Crypto, JsonPrint, JsonText, Regex, UnicodeTables}.
Context `{!KeyBytes, !JsonPretty}.
Context {World : Type} (send : Sent -> World -> option (Z * Payload) * World).
(** [write_file] tells whether it could write, the directory made first; [generated] is the
    key pair [keys generate] draws. *)
Context (read_file : string -> option string) (exists_file : string -> bool).
Context (write_file : string -> string -> World -> bool * World) (generated : KeyPair).
Context (client : Client).

Definition Cmd (A : Type) : Type := World -> result CommandError A * World.

(** A request and its answer; no answer is a transport error. *)
Definition request (sent : Sent) : Cmd json := fun w =>
  match send sent w with
  | (Some (status, p), w') => (match finish status p with Ok v => Ok v | Err e => Err (ClientFailed e) end, w')
  | (None, w') => (Err (ClientFailed Transport), w')
  end.

Definition cget (path : string) : Cmd json := request (get_request client path).
Definition cpost (path : string) (body : json) : Cmd json := request (post_request client path body).

Definition cbind {A B} (m : Cmd A) (k : A -> Cmd B) : Cmd B := fun w =>
  match m w with
  | (Ok a, w') => k a w'
  | (Err e, w') => (Err e, w')
  end.

Definition cret {A} (a : A) : Cmd A := fun w => (Ok a, w).
Definition cerr {A} (e : CommandError) : Cmd A := fun w => (Err e, w).
Definition clift {A} (r : result CommandError A) : Cmd A := fun w => (r, w).

(** [Ok(Output::Value(request?))] *)
Definition shown (m : Cmd json) : Cmd Output := cbind m (fun v => cret (OutValue v)).

Definition read_text_file (path : string) : result CommandError string := ok_or UsageError (read_file path).

Definition read_json_file (path : string) : result CommandError json :=
  let? text := read_text_file path in ok_or UsageError (parse_json text).

Definition cwrite (path text : string) : Cmd unit := fun w =>
  let (ok, w') := write_file path text w in (if ok then Ok tt else Err Failure, w').

(** A key file by its path; a file that cannot be read or does not hold a key is a failure. *)
Definition load_key_at {A} (load : string -> string -> KernelResult A) (path : string) : result CommandError A :=
  let? text := ok_or Failure (read_file path) in
  match load (file_stem (snd (split_path path))) text with Ok k => Ok k | Err _ => Err Failure end.

Definition keys_cmd (command : KeysCommand) : Cmd Output :=
  match command with
  | KeysGenerate out =>
      let private := with_extension out "key" in
      let public_file := with_extension out "pub" in
      cbind (cwrite private (json_pretty (pair_to_json generated))) (fun _ =>
        cbind (cwrite public_file (json_pretty (public_to_json (public generated)))) (fun _ =>
          cret (OutValue (obj [("key_id", JStr (kp_key_id generated)); ("private_key_file", JStr private);
            ("public_key_file", JStr public_file); ("public_key", JStr (public_key_b64 (public generated)))]))))
  | KeysTrust file data =>
      cbind (clift (load_key_at load_public file)) (fun key =>
        let dir := path_join (path_join (default "./kernos-data" data) "keys") "trusted" in
        let target := path_join dir (pk_key_id key +:+ ".pub") in
        cbind (cwrite target (json_pretty (public_to_json key))) (fun _ =>
          cret (OutValue (obj [("key_id", JStr (pk_key_id key)); ("trusted_file", JStr target)]))))
  end.

(** [shown["file"] = ..] on the serialised signature. *)
Definition with_file (file : string) (v : json) : json :=
  match v with JObj m => JObj (map_insert "file" (JStr file) m) | other => other end.

Definition health_cmd : Cmd Output :=
  cbind (cget "/v1/health") (fun report =>
    match (v ← jget "ok" report; as_bool v) with
    | Some true => cret (OutValue report)
    | _ => cerr Failure
    end).

Definition bundle_cmd (command : BundleCommand) : Cmd Output :=
  match command with
  | BundleSign file key out =>
      cbind (clift (read_json_file file)) (fun bundle =>
        cbind (clift (load_key_at load_private key)) (fun pair =>
          let value := ser_BundleSignature (sign_bundle bundle pair) in
          let out := default (sig_path file) out in
          cbind (cwrite out (json_pretty value)) (fun _ => cret (OutValue (with_file out value)))))
  | BundleValidate file =>
      cbind (clift (read_json_file file)) (fun value =>
        match bundle_new value with
        | Err e => cerr (BundleInvalid (be_path e))
        | Ok parsed =>
            let workflows := workflow_names parsed in
            cret (OutValue (obj [("ok", JBool true); ("name", JStr (bundle_name parsed));
              ("version", JStr (bundle_version parsed)); ("department", ser_option JStr (bundle_department parsed));
              ("workflows", json_u64 (Z.of_nat (length workflows)));
              ("steps", json_u64 (Z.of_nat (list_sum (map (fun w => length (bundle_steps w parsed)) workflows))))]))
        end)
  | BundleApply file sig =>
      cbind (clift (read_json_file file)) (fun bundle =>
        let sig_file := default (sig_path file) sig in
        if negb (exists_file sig_file) then cerr UsageError
        else cbind (clift (read_json_file sig_file)) (fun signature =>
          shown (cpost "/v1/bundles" (obj [("bundle", bundle); ("signature", signature)]))))
  | BundleList => shown (cget "/v1/bundles")
  | BundleShow id => shown (cget ("/v1/bundles/" +:+ id))
  end.

(** A corpus file: a JSON array, or one document a line. *)
Definition read_corpus (text : string) : result CommandError (list json) :=
  if starts_with (trim_start text) "[" then
    match (j ← parse_json text; as_array j) with Some rows => Ok rows | None => Err UsageError end
  else
    rmapM (fun l => ok_or UsageError (parse_json l)) (List.filter (fun l => negb (is_empty (trim l))) (lines text)).

Definition selected (name : string) (version : Z) : json := obj [("name", JStr name); ("version", json_u64 version)].

Definition policy_cmd (command : PolicyCommand) : Cmd Output :=
  match command with
  | PolicyApply file name version =>
      cbind (clift (read_text_file file)) (fun source =>
        shown (cpost "/v1/policies" (obj [("name", JStr name); ("version", json_u64 version); ("source", JStr source)])))
  | PolicyCheck file =>
      cbind (clift (read_text_file file)) (fun source =>
        match parse source with
        | Err e => cerr (PolicyInvalid (pe_line e) (pe_column e))
        | Ok parsed =>
            cret (OutValue (obj [("ok", JBool true); ("name", ser_option JStr (policy_name parsed));
                                 ("rules", json_u64 (Z.of_nat (length (policy_rules parsed))))]))
        end)
  | PolicyTest a b corpus =>
      cbind (clift (parse_spec a)) (fun '(name, version) =>
        let policy_a := selected name version in
        cbind (clift (if exists_file b then rmap (fun source => obj [("source", JStr source)]) (read_text_file b)
                      else rmap (fun '(name, version) => selected name version) (parse_spec b))) (fun policy_b =>
          cbind (clift (let? text := read_text_file corpus in read_corpus text)) (fun rows =>
            shown (cpost "/v1/policies/test"
                     (obj [("policy_a", policy_a); ("policy_b", policy_b); ("corpus", JArr rows)])))))
  | PolicyList => shown (cget "/v1/policies")
  | PolicyShow spec =>
      cbind (clift (parse_spec spec)) (fun '(name, version) =>
        shown (cget ("/v1/policies/" +:+ name +:+ "/" +:+ dec version)))
  end.

Definition issue_body (args : RemitIssueArgs) (ttl : Z) : json :=
  obj ([("tools", ser_strings (ra_tools args)); ("scopes", ser_strings (ra_scopes args));
        ("grants", ser_strings (ra_grants args));
        ("spend", obj (skip_none "tokens" json_u64 (ra_tokens args) ++ skip_none "usd" json_f64 (ra_usd args)));
        ("autonomy", JStr (ra_autonomy args)); ("ttl_seconds", json_u64 ttl);
        ("policy_set", ser_strings (ra_policy_set args))]
       ++ skip_none "requested_by" id (cli_requested_by (ra_requested_by args) (ra_role args) (ra_manager args))).

Definition remit_cmd (command : RemitCommand) : Cmd Output :=
  match command with
  | RemitIssue args =>
      match (match parse_duration (ra_ttl args) with Some t => Some t | None => parse_u64 (ra_ttl args) end) with
      | Some ttl => shown (cpost "/v1/remits" (issue_body args ttl))
      | None => cerr UsageError
      end
  | RemitDerive id body =>
      cbind (clift (ok_or UsageError (parse_json body))) (fun body =>
        shown (cpost ("/v1/remits/" +:+ id +:+ "/derive") body))
  | RemitShow id => shown (cget ("/v1/remits/" +:+ id))
  end.

Definition text_is (text : string) (v : json) : bool :=
  match as_str v with Some s => String.eqb s text | None => false end.

(** The identifier of an applied bundle, from the list the server has. *)
Definition bundle_id_in (bundles : json) (name version : string) : option string :=
  list ← as_array bundles;
  b ← find_first (fun b => text_is name (member "name" b) && text_is version (member "version" b)) list;
  as_str (member "bundle_id" b).

Definition find_bundle_id (bundle : string) : Cmd string :=
  if starts_with bundle "bnd_" then cret bundle
  else match rsplit_once "@" bundle with
       | None => cerr UsageError
       | Some (name, version) =>
           cbind (cget "/v1/bundles") (fun bundles => clift (ok_or Failure (bundle_id_in bundles name version)))
       end.

Definition read_input (input : string) : result CommandError json :=
  if starts_with (trim_start input) "{" then ok_or UsageError (parse_json input) else read_json_file input.

(** The loop over the pages of events, [fuel] pages at most. *)
Fixpoint events_loop (fuel : nat) (id : string) (from : Z) (all : list json) : Cmd Output :=
  match fuel with
  | O => cerr OutOfFuel
  | S fuel =>
      cbind (cget ("/v1/runs/" +:+ id +:+ "/events?from_seq=" +:+ dec from +:+ "&limit=500")) (fun page =>
        let all := match as_array (member "events" page) with Some events => all ++ events | None => all end in
        match as_u64 (member "next_seq" page) with
        | Some next => events_loop fuel id next all
        | None => cret (OutValue (JArr all))
        end)
  end.

Definition action_lines (rows : json) : list string :=
  match as_array rows with
  | Some items => map (fun r => json_text (obj [("action", member "action" r); ("run", member "run" r)])) items
  | None => []
  end.

Definition run_query (state department : option string) (limit : Z) : string :=
  join "&" (["limit=" +:+ dec limit]
            ++ match state with Some s => ["state=" +:+ s] | None => [] end
            ++ match department with Some d => ["department=" +:+ d] | None => [] end).

Definition run_cmd (fuel : nat) (command : RunCommand) : Cmd Output :=
  match command with
  | RunStart bundle workflow input remit rb role manager =>
      cbind (find_bundle_id bundle) (fun bundle_id =>
        cbind (clift (read_input input)) (fun value =>
          shown (cpost "/v1/runs"
            (obj ([("bundle_id", JStr bundle_id); ("workflow", JStr workflow); ("input", value); ("remit_id", JStr remit)]
                  ++ skip_none "requested_by" id (cli_requested_by rb role manager))))))
  | RunShow id => shown (cget ("/v1/runs/" +:+ id))
  | RunList state department limit => shown (cget ("/v1/runs?" +:+ run_query state department limit))
  | RunEvents id from_seq => events_loop fuel id from_seq []
  | RunReplay id => shown (cpost ("/v1/runs/" +:+ id +:+ "/replay") (obj []))
  | RunAbandon id reason actor =>
      shown (cpost ("/v1/runs/" +:+ id +:+ "/abandon")
               (obj [("reason", JStr reason); ("actor", obj [("id", JStr actor)])]))
  | RunResume id actor =>
      shown (cpost ("/v1/runs/" +:+ id +:+ "/resume") (obj [("actor", obj [("id", JStr actor)])]))
  | RunActions since =>
      let path := match since with Some s => "/v1/actions?since=" +:+ s | None => "/v1/actions" end in
      cbind (cget path) (fun rows => cret (OutLines (action_lines rows)))
  end.

Definition approvals_cmd (command : ApprovalsCommand) : Cmd Output :=
  match command with
  | ApprovalsList state approver =>
      shown (cget ("/v1/approvals?state=" +:+ state +:+ match approver with Some a => "&approver=" +:+ a | None => "" end))
  | ApprovalsDecide id approve reject actor role reason =>
      if Bool.eqb approve reject then cerr UsageError
      else shown (cpost ("/v1/approvals/" +:+ id)
             (obj [("decision", JStr (if approve then "approved" else "rejected"));
                   ("actor", obj [("id", JStr actor); ("role", JStr role)]); ("reason", JStr reason)]))
  end.

Definition execute (fuel : nat) (command : Command) : Cmd Output :=
  match command with
  | CmdHealth => health_cmd
  | CmdKeys c => keys_cmd c
  | CmdBundle c => bundle_cmd c
  | CmdPolicy c => policy_cmd c
  | CmdRemit c => remit_cmd c
  | CmdRun c => run_cmd fuel c
  | CmdApprovals c => approvals_cmd c
  end.
End Commands.
