(* ===== verification/EndToEnd.v ===== *)
(** * From the command line to the log

    The command line talking to the server: the client's request becomes a request of the
    server and the answer comes back.  [kernos run events] prints the whole log of a run,
    through paging, routing, authentication and both codecs. *)

From stdpp Require Import gmap.
From S2P Require Import Prelude Text Ids F64 Json Policy Lexer Parser PolicyTools Canonical Time.
From S2P Require Import Errors Keys Remit Payloads Events Fold RunJson Template Schema Bundle Store.
From S2P Require Import Kernel Reads Scenario Hoare History StoreInv KernelInv Replay LeaseSpec.
From S2P Require Import Paging Progress Metrics KeyFiles Server ServerSpec Cli.
From Stdlib Require Import Ascii.

Local Open Scope string_scope.
Local Open Scope list_scope.
Local Open Scope Z_scope.

(** ** The wire *)

(** The bodies the model of the server leaves abstract, as they go over the wire: the sentence
    of an error and the text of a rejection. *)
Class Wire := { sentence : string -> string; rejection : string }.

Section Wire.
Context `{FloatFormat, Sha256, JsonPrint, Crypto, JsonText, Regex, UnicodeTables, F64Display, Http}.
Context `{!KeyBytes, !Wire, !Sentences}.

Definition payload_of (b : Body) : Payload :=
  match b with
  | BJson v => PValue v
  | BError code details =>
      PValue (obj [("error", obj [("code", JStr code); ("message", JStr (sentence code)); ("details", details)])])
  | BReplay r => PValue (ser_ReplayReport r)
  | BText t => PText t
  | BPlain => PText rejection
  | BEmpty => PEmpty
  end.

(** Path and query of a target. *)
Definition split_target (target : string) : string * string :=
  match split_once "?" target with Some pq => pq | None => (target, "") end.

Definition sent_headers (sn : Sent) (name : string) : option string :=
  if String.eqb name "authorization" then t ← sn_token sn; Some ("Bearer " +:+ t)
  else if String.eqb name "content-type" then _ ← sn_body sn; Some "application/json"
  else None.

Definition to_request (sn : Sent) (target : string) : Request :=
  {| rq_method := sn_method sn; rq_path := fst (split_target target); rq_query := snd (split_target target);
     rq_header := sent_headers sn;
     rq_body := match sn_body sn with Some b => json_text b | None => "" end |}.

(** The server behind a base address; nobody answers elsewhere. *)
Definition served_at (base : string) (st : AppState) (c : Call) (sn : Sent) : Store -> option (Z * Payload) * Store :=
  fun s =>
    match strip_prefix base (sn_target sn) with
    | None => (None, s)
    | Some target =>
        let (r, s') := serve st c (to_request sn target) s in
        (Some (res_status r, payload_of (res_body r)), s')
    end.

(** ** Reading the events of a run *)

Definition plain_id (id : string) : bool := negb (is_empty id) && string_forall unreserved id.

(** The client holds the token of the server, and the token has no white space around it. *)
Definition knows_token (cl : Client) (st : AppState) : Prop :=
  match as_token st with Some t => cl_token cl = Some t /\ trim t = t | None => True end.

Lemma knows_authorised cl st sn target :
  knows_token cl st -> sn_token sn = cl_token cl -> authorised st (to_request sn target) = true.
Proof.
  unfold knows_token, authorised. destruct (as_token st) as [t|]; [|done]. intros [Ht Htrim] Hsn.
  apply bool_decide_eq_true.
  assert (rq_header (to_request sn target) "authorization" = Some ("Bearer " +:+ t)) as E
    by (cbn; by rewrite Hsn, Ht).
  unfold presented. rewrite E. cbn [mbind option_bind]. rewrite strip_prefix_app. cbn [mbind option_bind].
  by rewrite Htrim.
Qed.

Definition events_target (id : string) (from : Z) : string :=
  "/v1/runs/" +:+ id +:+ "/events?from_seq=" +:+ dec from +:+ "&limit=500".

Definition events_path (id : string) : string := "/v1/runs/" +:+ id +:+ "/events".
Definition events_query (from : Z) : string := "from_seq=" +:+ dec from +:+ "&limit=500".

Lemma no_byte_of c id : unreserved c = false -> plain_id id = true -> contains_byte c id = false.
Proof. intros Hc [_ Hid]%andb_true_iff. by apply ConcreteHttp.unreserved_no. Qed.

Lemma split_events_target id from : plain_id id = true ->
  split_target (events_target id from) = (events_path id, events_query from).
Proof.
  intros Hid. unfold split_target, events_target.
  replace ("/v1/runs/" +:+ id +:+ "/events?from_seq=" +:+ dec from +:+ "&limit=500")
    with (events_path id +:+ String "?" (events_query from)).
  - rewrite split_once_app; [done|]. unfold contains_byte, events_path. rewrite !string_exists_app.
    pose proof (no_byte_of "?" id eq_refl Hid) as E. unfold contains_byte in E. by rewrite E.
  - unfold events_path. rewrite (string_app_assoc "/v1/runs/" (id +:+ "/events")), (string_app_assoc id "/events"). done.
Qed.

Lemma events_path_segments id : plain_id id = true -> segments (events_path id) = [""; "v1"; "runs"; id; "events"].
Proof.
  intros Hid. unfold segments, events_path. change ("/v1/runs/" +:+ id +:+ "/events")
    with (String "/" (("v1" +:+ String "/" ("runs" +:+ String "/" (id +:+ String "/" "events"))))).
  cbn [split_on Ascii.eqb]. rewrite (split_on_app "/" "v1") by done. rewrite (split_on_app "/" "runs") by done.
  rewrite split_on_app by (by apply no_byte_of). done.
Qed.

Context `{!HttpOk}.

Lemma dec_unreserved z : 0 <= z -> string_forall unreserved (dec z) = true.
Proof.
  intros Hz. eapply string_forall_impl; [|by apply dec_digits]. intros a Ha. unfold unreserved. by rewrite Ha.
Qed.

Lemma events_routed sn id from : plain_id id = true -> sn_method sn = GET ->
  routed (to_request sn (events_target id from)) = Some (ERunEvents, [id]).
Proof.
  intros Hid Hm. apply (route_found "/v1/runs/{id}/events" [(GET, ERunEvents); (POST, EPostEvent)] GET).
  - cbn. tauto.
  - by left.
  - by left.
  - cbn [to_request rq_path]. rewrite split_events_target by done. cbn [fst]. unfold plain_path, events_path.
    rewrite !string_forall_app. apply andb_true_iff in Hid as [_ Hid].
    rewrite (string_forall_impl unreserved _ id) by first [exact Hid | intros a Ha; by rewrite Ha]. done.
  - cbn [to_request rq_path]. rewrite split_events_target by done. cbn [fst]. rewrite events_path_segments by done.
    apply andb_true_iff in Hid as [Hid _]. apply negb_true_iff in Hid. cbn. by rewrite Hid.
  - cbn [to_request rq_path]. rewrite split_events_target by done. cbn [fst]. intros E.
    apply (f_equal segments) in E. rewrite events_path_segments in E by done. discriminate E.
Qed.

Lemma events_query_read from : 0 <= from ->
  query_pairs (events_query from) = Some [("from_seq", dec from); ("limit", "500")].
Proof.
  intros Hf. apply (query_plain [("from_seq", dec from); ("limit", "500")]); [done|].
  repeat constructor; by apply dec_unreserved.
Qed.

(** One page, from the command line. *)
Lemma page_fetched st c cl id from page s :
  knows_token cl st -> plain_id id = true -> 0 <= from <= u64_max -> fst (run_events id from 500 s) = Ok page ->
  cget (served_at (cl_base cl) st c) cl (events_target id from) s = (Ok (ser_EventPage page), s).
Proof.
  intros Hk Hid Hf Hp. unfold cget, request, served_at, get_request, client_url. cbn [sn_target].
  rewrite strip_prefix_app. set (sn := {| sn_method := GET |}).
  unfold serve. rewrite (knows_authorised cl) by done.
  rewrite (dispatch_handle _ _ _ _ _ _ (events_routed sn id from Hid eq_refl)). cbn [handle nth].
  unfold h_run_events, with_query. cbn [to_request rq_query]. rewrite split_events_target by done. cbn [snd].
  rewrite events_query_read by lia.
  assert (de_EventsQuery [("from_seq", dec from); ("limit", "500")] =
          Some {| qe_from_seq := Some from; qe_limit := Some 500 |}) as Hq.
  { unfold de_EventsQuery, query_field. cbn -[parse_u64]. by rewrite parse_u64_dec. }
  cbn [mbind option_bind]. rewrite Hq. unfold blocking. cbn [default qe_from_seq qe_limit from_option].
  change (Datatypes.id from) with from. change (Datatypes.id 500) with 500.
  pose proof (run_events_store id from 500 s) as Hs. unfold after in Hs.
  destruct (run_events id from 500 s) as [res s1]. cbn [fst snd] in *. subst. reflexivity.
Qed.

Lemma page_events_member p : as_array (member "events" (ser_EventPage p)) = Some (map ser_event (page_events p)).
Proof. done. Qed.

Lemma page_next_member p : as_u64 (member "next_seq" (ser_EventPage p)) = page_next_seq p.
Proof. unfold member, ser_EventPage, jget, obj. rewrite map_get_mk_map. cbn. by destruct (page_next_seq p). Qed.

Lemma page_next_range id from limit s page next :
  fst (run_events id from limit s) = Ok page -> page_next_seq page = Some next -> 0 <= next <= u64_max.
Proof.
  unfold run_events, kbind, kread, kret. destruct (require_run id s); [|done]. destruct (events_from _ _ _ s) as [evs|]; [|done].
  cbn. intros [= <-]. cbn. destruct (head (rev evs)) as [e|]; [|done]. destruct (_ <? _); [|done]. intros [= <-].
  apply u64_add_range.
Qed.

(** The loop of the command line against the loop over the kernel. *)
Lemma events_loop_follows st c cl id s : knows_token cl st -> plain_id id = true ->
  forall fuel from all l, 0 <= from <= u64_max -> follow_events fuel id from 500 s = Ok l ->
  events_loop (served_at (cl_base cl) st c) cl fuel id from all s = (Ok (OutValue (JArr (all ++ map ser_event l))), s).
Proof.
  intros Hk Hid. induction fuel as [|fuel IH]; intros from all l Hf; cbn [follow_events events_loop]; [done|].
  destruct (fst (run_events id from 500 s)) as [page|] eqn:Ep; [|done]. cbn [rbind].
  unfold cbind at 1. fold (events_target id from). rewrite (page_fetched st c cl id from page s) by done.
  rewrite page_events_member, page_next_member. destruct (page_next_seq page) as [next|] eqn:En.
  - destruct (follow_events fuel id next 500 s) as [rest|] eqn:Ef; [|done]. cbn [rbind]. intros [= <-].
    rewrite (IH next _ rest) by (eauto using page_next_range). by rewrite map_app, app_assoc.
  - by intros [= <-].
Qed.

End Wire.

(** ** Witness *)

Import DemoServer.

#[local] Instance demo_wire : Wire :=
  {| sentence := fun _ => "refused"; rejection := "bad" |}.

#[local] Instance demo_sentences : Sentences :=
  {| fold_sentence := fun _ => "unreadable log"; error_sentence := fun _ => "refused" |}.

Definition demo_client : Client := client_new "http://localhost:7401/" (Some "t0k3n").

