(* ===== verification/Process.v ===== *)
(** * The server process

    [kernos serve] as a machine: [start], the listener, the two sweepers and [shutdown] of
    [kernos/src/server.rs], over the data directory and the database, which outlive the
    process.  A step is one thing one task does; any interleaving is a run of the machine, a
    crash may fall between any two steps, and a restart opens the same directory.

    The database commits or rolls back a transaction as a whole, so a crash during an
    operation is one before or after it.  The HTTP library is a parameter: it accepts while it
    has not been told to stop, serves what it accepted, and its serve loop may give up. *)

From stdpp Require Import gmap relations.
From S2P Require Import Cli Prelude Text Ids F64 Json Policy Lexer Parser PolicyTools Canonical Time.
From S2P Require Import Errors Keys Remit RemitToken Payloads Events Fold RunJson Template Schema Bundle BundleSpec Store.
From S2P Require Import Kernel Reads Scenario Hoare History StoreInv KernelInv Replay LeaseSpec StepSpec RevokeSpec.
From S2P Require Import Paging Progress NoStuck Metrics KeyFiles Opening Config Server ServerSpec.
From Stdlib Require Import Ascii.

Local Open Scope string_scope.
Local Open Scope list_scope.
Local Open Scope Z_scope.

(** ** The tasks *)

(** The watch channel as its receivers see it: nothing yet, [send(true)], or the sender gone. *)
Inductive Signal := Quiet | Told | Dropped.

Inductive Sweeper := Looping | Stopped.

(** The listener and the requests it has accepted. *)
Inductive Listener := Accepting (inflight : list Request) | Draining (inflight : list Request) | Closed.

Inductive ServerError := ServerKernel (e : KernelError) | ServerBind (listen : string).

(** One pass of the loop of [spawn_sweeper]: the branch [select!] takes, which is the change of
    the channel only when there is one.  A sweep that fails or panics is logged. *)
Inductive Branch := Tick (c : Call) | TickLost | StopChanged.

Definition sweeper_pass (sweep : Call -> Store -> Store) (b : Branch) (signal : Signal) (s : Store) : option (Sweeper * Store) :=
  match b with
  | Tick c => Some (Looping, sweep c s)
  | TickLost => Some (Looping, s)
  | StopChanged => match signal with Quiet => None | Told | Dropped => Some (Stopped, s) end
  end.

Section Process.
Context `{FloatFormat, Sha256, JsonPrint, Crypto, JsonText, Regex, UnicodeTables, F64Display, Http}.
Context `{!KeyBytes, !JsonPretty}.

(** [RunningServer] and its tasks; the kernel is what was opened with the configuration. *)
Record Process := {
  pc_opened : Opened; pc_config : Config; pc_started_at_ms : Z; pc_signal : Signal;
  pc_http : Listener; pc_lease_sweeper : Sweeper; pc_approval_sweeper : Sweeper }.

(** [start]: [bound] says whether the address could be bound. *)
Definition start (config : Config) (fresh : KeyPair) (now_ms : Z) (bound : bool) (dd : DataDir)
    : result ServerError Process * DataDir :=
  match open_kernel fresh dd with
  | (Err e, dd) => (Err (ServerKernel e), dd)
  | (Ok opened, dd) =>
      if bound then
        (Ok {| pc_opened := opened; pc_config := config; pc_started_at_ms := now_ms; pc_signal := Quiet;
               pc_http := Accepting []; pc_lease_sweeper := Looping; pc_approval_sweeper := Looping |}, dd)
      else (Err (ServerBind (cf_listen config)), dd)
  end.

(** [serve_until_interrupted] up to the interrupt: [runtime] says whether the runtime of the
    tasks could be made. *)
Definition serve_until_interrupted (config : Config) (fresh : KeyPair) (now_ms : Z) (runtime bound : bool) (dd : DataDir)
    : result ServerError Process * DataDir :=
  if runtime then start config fresh now_ms bound dd else (Err (ServerBind (cf_listen config)), dd).

(** [kernos serve]: a configuration that cannot be read is a usage error. *)
Definition serve_cmd (file : option (option string)) (env : string -> option string) (args : ServeArgs)
    (token : option string) (fresh : KeyPair) (now_ms : Z) (runtime bound : bool) (dd : DataDir)
    : result Cli.CommandError Process * DataDir :=
  match serve_config file env args token with
  | Err _ => (Err Cli.UsageError, dd)
  | Ok config =>
      match serve_until_interrupted config fresh now_ms runtime bound dd with
      | (Ok p, dd) => (Ok p, dd)
      | (Err _, dd) => (Err Cli.Failure, dd)
      end
  end.

(** The kernel of the process, with the trusted keys a request finds. *)
Definition kernel_now (p : Process) (trusted : list PublicKey) : Kernel :=
  kernel_of (pc_opened p) trusted (kernel_config (pc_config p)).

Definition app_now (p : Process) (trusted : list PublicKey) (version : string) (m : Metrics) : AppState :=
  {| as_kernel := kernel_now p trusted; as_token := cf_token (pc_config p); as_version := version;
     as_started_at_ms := pc_started_at_ms p; as_metrics := m |}.

Definition set_signal (x : Signal) (p : Process) : Process :=
  {| pc_opened := pc_opened p; pc_config := pc_config p; pc_started_at_ms := pc_started_at_ms p; pc_signal := x;
     pc_http := pc_http p; pc_lease_sweeper := pc_lease_sweeper p; pc_approval_sweeper := pc_approval_sweeper p |}.
Definition set_http (x : Listener) (p : Process) : Process :=
  {| pc_opened := pc_opened p; pc_config := pc_config p; pc_started_at_ms := pc_started_at_ms p; pc_signal := pc_signal p;
     pc_http := x; pc_lease_sweeper := pc_lease_sweeper p; pc_approval_sweeper := pc_approval_sweeper p |}.
Definition set_lease_sweeper (x : Sweeper) (p : Process) : Process :=
  {| pc_opened := pc_opened p; pc_config := pc_config p; pc_started_at_ms := pc_started_at_ms p; pc_signal := pc_signal p;
     pc_http := pc_http p; pc_lease_sweeper := x; pc_approval_sweeper := pc_approval_sweeper p |}.
Definition set_approval_sweeper (x : Sweeper) (p : Process) : Process :=
  {| pc_opened := pc_opened p; pc_config := pc_config p; pc_started_at_ms := pc_started_at_ms p; pc_signal := pc_signal p;
     pc_http := pc_http p; pc_lease_sweeper := pc_lease_sweeper p; pc_approval_sweeper := x |}.

(** The sweeps the two tasks run. *)
Definition lease_sweep (c : Call) : Store -> Store := after (sweep_leases c).
Definition approval_sweep (p : Process) (trusted : list PublicKey) (c : Call) : Store -> Store :=
  after (sweep_approvals (kernel_now p trusted) c).

(** ** The machine *)

Record Machine := { mc_dir : DataDir; mc_store : Store; mc_process : option Process }.

Definition running (dd : DataDir) (s : Store) (p : Process) : Machine :=
  {| mc_dir := dd; mc_store := s; mc_process := Some p |}.
Definition down (dd : DataDir) (s : Store) : Machine := {| mc_dir := dd; mc_store := s; mc_process := None |}.

Inductive machine_step : Machine -> Machine -> Prop :=
| ms_start file env args token fresh now runtime bound dd dd' p s :
    serve_cmd file env args token fresh now runtime bound dd = (Ok p, dd') -> machine_step (down dd s) (running dd' s p)
| ms_start_fails file env args token fresh now runtime bound dd dd' e s :
    serve_cmd file env args token fresh now runtime bound dd = (Err e, dd') -> machine_step (down dd s) (down dd' s)
| ms_accept rq l p dd s :
    pc_http p = Accepting l -> machine_step (running dd s p) (running dd s (set_http (Accepting (l ++ [rq])) p))
| ms_serve rq l1 l2 trusted version m c p dd s :
    pc_http p = Accepting (l1 ++ rq :: l2) ->
    machine_step (running dd s p)
      (running dd (snd (serve (app_now p trusted version m) c rq s)) (set_http (Accepting (l1 ++ l2)) p))
| ms_serve_draining rq l1 l2 trusted version m c p dd s :
    pc_http p = Draining (l1 ++ rq :: l2) ->
    machine_step (running dd s p)
      (running dd (snd (serve (app_now p trusted version m) c rq s)) (set_http (Draining (l1 ++ l2)) p))
| ms_drain l p dd s :
    pc_http p = Accepting l -> pc_signal p <> Quiet -> machine_step (running dd s p) (running dd s (set_http (Draining l) p))
| ms_drained p dd s :
    pc_http p = Draining [] -> machine_step (running dd s p) (running dd s (set_http Closed p))
| ms_http_stops p dd s : machine_step (running dd s p) (running dd s (set_http Closed p))
| ms_lease_sweeper b x p dd s s' :
    pc_lease_sweeper p = Looping -> sweeper_pass lease_sweep b (pc_signal p) s = Some (x, s') ->
    machine_step (running dd s p) (running dd s' (set_lease_sweeper x p))
| ms_approval_sweeper b x trusted p dd s s' :
    pc_approval_sweeper p = Looping -> sweeper_pass (approval_sweep p trusted) b (pc_signal p) s = Some (x, s') ->
    machine_step (running dd s p) (running dd s' (set_approval_sweeper x p))
| ms_shutdown p dd s : pc_signal p = Quiet -> machine_step (running dd s p) (running dd s (set_signal Told p))
| ms_dropped p dd s : machine_step (running dd s p) (running dd s (set_signal Dropped p))
| ms_exit p dd s :
    pc_http p = Closed -> pc_lease_sweeper p = Stopped -> pc_approval_sweeper p = Stopped ->
    machine_step (running dd s p) (down dd s)
| ms_crash p dd s : machine_step (running dd s p) (down dd s).

(** ** What the machine keeps *)

(** A pass of a sweeper runs its sweep or leaves the store; it ends only when told. *)
Lemma pass_inv sweep b signal s x s' : sweeper_pass sweep b signal s = Some (x, s') ->
  (x = Looping /\ ((exists c, s' = sweep c s) \/ s' = s)) \/ (x = Stopped /\ signal <> Quiet /\ s' = s).
Proof.
  destruct b as [c| |]; cbn; [intros [= <- <-]; eauto | intros [= <- <-]; auto|].
  destruct signal; [discriminate|..]; intros [= <- <-]; by right.
Qed.

Lemma served_reachable st c rq s : reachable s -> reachable (snd (serve st c rq s)).
Proof. intros Hr. rewrite serve_store. unfold run_op. destruct (requested st rq); [by constructor | done]. Qed.

Lemma step_store m m' : machine_step m m' -> reachable (mc_store m) -> reachable (mc_store m').
Proof.
  intros Hs Hr. destruct Hs as [file env args token fresh now runtime bound dd dd' p s Hst|file env args token fresh now runtime bound dd dd' e s Hst|rq l p dd s Hh
    |rq l1 l2 trusted version mt c p dd s Hh|rq l1 l2 trusted version mt c p dd s Hh|l p dd s Hh Hsg|p dd s Hh|p dd s
    |b x p dd s s' Hl Hpass|b x trusted p dd s s' Hl Hpass|p dd s Hsg|p dd s|p dd s Hc Hl Ha|p dd s]; cbn in *; try done;
    try by apply served_reachable.
  - apply pass_inv in Hpass as [[_ [[c ->]| ->]]|(_ & _ & ->)]; try done. by apply (reach_exec (kernel_now p []) c OSweepLeases).
  - apply pass_inv in Hpass as [[_ [[c ->]| ->]]|(_ & _ & ->)]; try done. by apply (reach_exec (kernel_now p trusted) c OSweepApprovals).
Qed.

(** While nobody has told the process to stop, both sweepers loop. *)
Definition sweeping (m : Machine) : Prop :=
  forall p, mc_process m = Some p -> pc_signal p = Quiet -> pc_lease_sweeper p = Looping /\ pc_approval_sweeper p = Looping.

Lemma started file env args token fresh now runtime bound dd p dd' :
  serve_cmd file env args token fresh now runtime bound dd = (Ok p, dd') ->
  pc_signal p = Quiet /\ pc_http p = Accepting [] /\ pc_lease_sweeper p = Looping /\ pc_approval_sweeper p = Looping.
Proof.
  unfold serve_cmd, serve_until_interrupted, start. destruct (serve_config file env args token) as [config|e]; [|discriminate].
  destruct runtime; [|discriminate]. destruct (open_kernel fresh dd) as [[o|e] dd1]; [|discriminate].
  destruct bound; [|discriminate]. by intros [= <- _].
Qed.

Lemma step_sweeping m m' : machine_step m m' -> sweeping m -> sweeping m'.
Proof.
  intros Hs Hw q Hq Hsig. destruct Hs as [file env args token fresh now runtime bound dd dd' p s Hst|file env args token fresh now runtime bound dd dd' e s Hst|rq l p dd s Hh
    |rq l1 l2 trusted version mt c p dd s Hh|rq l1 l2 trusted version mt c p dd s Hh|l p dd s Hh Hsg|p dd s Hh|p dd s
    |b x p dd s s' Hl Hpass|b x trusted p dd s s' Hl Hpass|p dd s Hsg|p dd s|p dd s Hc Hl Ha|p dd s];
    cbn in Hq; try discriminate Hq; injection Hq as <-; cbn in Hsig |- *; try (by apply (Hw p)); try discriminate Hsig.
  - by apply started in Hst as (_ & _ & Hl).
  - destruct (Hw p eq_refl Hsig). by apply pass_inv in Hpass as [[-> _]|(_ & Hn & _)].
  - destruct (Hw p eq_refl Hsig). by apply pass_inv in Hpass as [[-> _]|(_ & Hn & _)].
Qed.

(** A machine that was brought up on a store the kernel wrote. *)
Record brought_up (m : Machine) : Prop := {
  bu_store : reachable (mc_store m);
  bu_sweeping : sweeping m }.

Lemma runs_brought_up m m' : rtc machine_step m m' -> brought_up m -> brought_up m'.
Proof.
  induction 1 as [|m m1 m2 Hs _ IH]; [done|]. intros [Hr Hw]. apply IH. split; [by eapply step_store | by eapply step_sweeping].
Qed.

Lemma down_brought_up dd s : reachable s -> brought_up (down dd s).
Proof. intros Hr. by split. Qed.

(** A machine that is down changes nothing until it is started. *)
Lemma down_keeps m m' : machine_step m m' -> mc_process m = None -> mc_store m' = mc_store m.
Proof. by intros []. Qed.

(** ** Lost workers *)

(** The step may be handed out now, once its delay is over, or a worker holds it and its lease
    has not expired. *)
Definition moving (now_ms : Z) (s : Store) (st : RunState) (step : StepState) : Prop :=
  ((forall t, (x ← st_not_before step; parse_rfc3339 x) = Some t -> t <= now_ms) -> may_run all_kinds now_ms st step) \/
  exists l, holder now_ms s l st step.

Lemma swept_moving (k : Kernel) c s n s' run_id st :
  reachable s -> sweep_leases c s = (Ok n, s') -> short s' -> logged s' run_id st -> rs_abandoning st = false ->
  rs_state st = RRunning -> exists step, in_turn st step /\ moving (c_now c) s' st step.
Proof.
  intros Hr Hsw Hs Hlog Ha Hst.
  assert (reachable s') as Hr' by (pose proof (reach_exec k c OSweepLeases s Hr) as Hx; cbn in Hx; unfold after in Hx; by rewrite Hsw in Hx).
  destruct (running_has_work s' run_id st Hr' Hs Hlog Ha Hst) as (step & Ht & Hw). exists step. split; [done|].
  destruct Hw as [Hw|(l & Hl & Hw)]; [left; by apply Hw|]. right. exists l. apply Hw.
  apply (sweep_leaves_no_expired c s n s' Hsw l Hl). by destruct (Hw (le_expires_at_ms l - 1) ltac:(lia)) as (_ & Hact & _).
Qed.

Lemma same_lease_sweeper p : pc_lease_sweeper p = Looping -> set_lease_sweeper Looping p = p.
Proof. destruct p. cbn. by intros ->. Qed.


(** ** Shutting down *)

(** Serving what was accepted, in order. *)
Fixpoint serve_all (app : AppState) (cs : list Call) (l : list Request) (s : Store) : Store :=
  match l, cs with
  | rq :: l, c :: cs => serve_all app cs l (snd (serve app c rq s))
  | _, _ => s
  end.

Lemma drains app_trusted version mt p dd cs l : forall s, length cs = length l ->
  rtc machine_step (running dd s (set_http (Draining l) p))
    (running dd (serve_all (app_now p app_trusted version mt) cs l s) (set_http Closed p)).
Proof.
  revert cs. induction l as [|rq l IH]; intros [|c cs] s Hlen; try discriminate.
  - apply rtc_once. by apply (ms_drained (set_http (Draining []) p)).
  - eapply rtc_l; [by apply (ms_serve_draining rq [] l app_trusted version mt c (set_http (Draining (rq :: l)) p))|].
    cbn [app]. apply (IH cs). by injection Hlen.
Qed.

(** A shutdown can always finish: the requests that were accepted are served, in order, the
    sweepers stop without another sweep, and the process exits. *)
Lemma shutdown_finishes trusted version mt p dd s cs l :
  pc_signal p = Told -> pc_http p = Accepting l -> length cs = length l -> pc_lease_sweeper p = Looping ->
  pc_approval_sweeper p = Looping ->
  rtc machine_step (running dd s p) (down dd (serve_all (app_now p trusted version mt) cs l s)).
Proof.
  intros Hsig Hh Hlen Hl Ha. eapply rtc_l; [by apply (ms_drain l); [|rewrite Hsig]|].
  etrans; [by apply (drains trusted version mt p dd cs l s)|].
  set (s1 := serve_all _ _ _ _). eapply rtc_l; [apply (ms_lease_sweeper StopChanged Stopped); [done|]; cbn; by rewrite Hsig|].
  eapply rtc_l; [apply (ms_approval_sweeper StopChanged Stopped []); [done|]; cbn; by rewrite Hsig|].
  apply rtc_once. by apply ms_exit.
Qed.
End Process.

(** ** Witness *)

Import DemoServer.

#[local] Instance demo_pretty : JsonPretty := {| json_pretty := json_text |}.

Definition empty_dir : DataDir :=
  {| dd_key := None; dd_pub := None; dd_directory := None; dd_schema := fresh_schema |}.

Definition no_args : ServeArgs := {| sa_listen := None; sa_data := None |}.

Definition demo_process : Process :=
  {| pc_opened := {| op_key := example_key; op_directory := directory_empty |}; pc_config := config_default;
     pc_started_at_ms := 0; pc_signal := Quiet; pc_http := Accepting []; pc_lease_sweeper := Looping;
     pc_approval_sweeper := Looping |}.

