(* ===== verification/Render.v ===== *)
(** * What the command line prints ([kernos/src/cli.rs], [emit])

    A value for the terminal: JSON under [--json], otherwise a list of keys and values for an
    object and a table for a list of objects.  Column widths are counted in bytes and cells
    are padded and cut by characters; the table comes out aligned all the same. *)

From S2P Require Import Prelude Text F64 Json Canonical Events KeyFiles.
From Stdlib Require Import Ascii.

Local Open Scope string_scope.
Local Open Scope list_scope.
Local Open Scope nat_scope.

Section Render.
Context `{JsonPrint, !JsonPretty}.

Definition NEWLINE : string := String "010" "".

Fixpoint spaces (n : nat) : string :=
  match n with O => "" | S n => String " " (spaces n) end.

(** [{:<width$}] *)
Definition left_align (width : nat) (s : string) : string := s +:+ spaces (width - length (chars s)).

Definition compact (v : json) : string :=
  match v with
  | JStr s => s
  | JNull => "-"
  | other => json_text other
  end.

(** [width.saturating_sub(1)] is the subtraction of [nat]. *)
Definition truncate (text : string) (width : nat) : string :=
  if length (chars text) <=? width then text
  else String.concat "" (firstn (width - 1) (chars text)) +:+ "~".

Definition is_object (v : json) : bool := match v with JObj _ => true | _ => false end.

(** [item[column]], null when it is not there. *)
Definition at_key (k : string) (v : json) : json := default JNull (jget k v).

Definition max_of (l : list nat) : nat := fold_left Nat.max l 0.

(** The first eight keys of the first item that do not hold an object. *)
Definition table_columns (items : list json) : list string :=
  match items with
  | JObj m as first :: _ => firstn 8 (List.filter (fun k => negb (is_object (at_key k first))) (map fst m))
  | _ => []
  end.

Definition table_row (columns : list string) (item : json) : list string :=
  map (fun c => compact (at_key c item)) columns.

(** The width of a column: its longest text in bytes, 48 at most. *)
Definition column_width (items : list json) (c : string) : nat :=
  Nat.min (Nat.max (max_of (map (fun item => String.length (compact (at_key c item))) items)) (String.length c)) 48.

Definition table_cell (width : nat) (cell : string) : string := left_align width (truncate cell width).

Definition table_line (widths : list nat) (cells : list string) : string :=
  join "  " (zip_with table_cell widths cells).

Definition table_lines (items : list json) : list string :=
  let columns := table_columns items in
  let widths := map (column_width items) columns in
  table_line widths columns :: map (fun item => table_line widths (table_row columns item)) items.

Definition render_value (v : json) : string :=
  match v with
  | JObj m =>
      let width := max_of (map (fun kv => String.length (fst kv)) m) in
      join NEWLINE (map (fun kv => left_align width (fst kv) +:+ "  " +:+ compact (snd kv)) m)
  | JArr [] => "(none)"
  | JArr items => if forallb is_object items then join NEWLINE (table_lines items) else json_pretty v
  | other => json_pretty other
  end.

(** [emit]: what it prints, with the newline of [println!]. *)
Definition emit (as_json : bool) (v : json) : string :=
  (if as_json then json_pretty v else render_value v) +:+ NEWLINE.
End Render.

(** ** Characters of a text *)

(** How many bytes of its last character a text still owes, when it starts with [pending] of
    them due; a Rust [str] owes none. *)
Fixpoint owed (pending : nat) (s : string) : nat :=
  match s with
  | EmptyString => pending
  | String a s => match pending with O => owed (utf8_extra a) s | S p => owed p s end
  end.

Definition whole (s : string) : Prop := owed 0 s = 0.

#[global] Instance whole_dec s : Decision (whole s).
Proof. unfold whole. apply _. Defined.

Lemma owed_app a b p : owed p (a +:+ b) = owed (owed p a) b.
Proof. revert p. induction a as [|c a IH]; intros p; simpl; [done|]. by destruct p. Qed.

(** The reader in the middle of a character, of which it has [cur]. *)
Definition reading (cur : string) (pending : nat) : Prop :=
  owed 0 cur = pending /\ forall x, chars (cur +:+ x) = chars_from cur pending x.

Lemma chars_from_app a : forall cur p b,
  (p = 0 -> cur = "") -> owed p a = 0 -> chars_from cur p (a +:+ b) = chars_from cur p a ++ chars b.
Proof.
  induction a as [|c a IH]; intros cur p b Hc Ho; simpl in Ho.
  - subst p. by rewrite (Hc eq_refl).
  - cbn [String.append chars_from]. destruct p as [|[|p]].
    + destruct (utf8_extra c); rewrite IH by done; done.
    + by rewrite IH.
    + by rewrite IH.
Qed.

Lemma chars_app a b : whole a -> chars (a +:+ b) = chars a ++ chars b.
Proof. intros Ha. by apply chars_from_app. Qed.

Lemma whole_app a b : whole a -> whole b -> whole (a +:+ b).
Proof. unfold whole. rewrite owed_app. by intros ->. Qed.

(** Each character is a text of its own. *)
Definition single_char (c : string) : Prop := whole c /\ chars c = [c].

Lemma chars_from_ones s : forall cur p,
  reading cur p -> (p = 0 -> cur = "") -> owed p s = 0 -> Forall single_char (chars_from cur p s).
Proof.
  induction s as [|c s IH]; intros cur p [Ho Hr] Hc Hs; simpl in Hs.
  - subst p. rewrite (Hc Hs). constructor.
  - cbn [chars_from]. destruct p as [|[|p]].
    + destruct (utf8_extra c) as [|k] eqn:E.
      * constructor; [|by apply IH]. split; [unfold whole; simpl; by rewrite E|].
        unfold chars. simpl. by rewrite E.
      * apply IH; [|done..]. split; [simpl; by rewrite E|]. intros x. unfold chars. simpl. by rewrite E.
    + constructor; [|by apply IH]. split; [unfold whole; by rewrite owed_app, Ho|]. by rewrite Hr.
    + apply IH; [|done..]. split; [by rewrite owed_app, Ho|]. intros x. rewrite string_app_assoc. by rewrite Hr.
Qed.

Lemma chars_ones s : whole s -> Forall single_char (chars s).
Proof. intros Hs. by apply chars_from_ones. Qed.

Lemma concat_nil_cons (c : string) l : String.concat "" (c :: l) = c +:+ String.concat "" l.
Proof. destruct l; simpl; [by rewrite string_app_nil_r|done]. Qed.

Lemma concat_ones l : Forall single_char l -> whole (String.concat "" l) /\ chars (String.concat "" l) = l.
Proof.
  induction 1 as [|c l [Hw Hc] _ [IHw IHc]]; [done|]. rewrite concat_nil_cons.
  split; [by apply whole_app|]. by rewrite chars_app, Hc, IHc.
Qed.

Lemma spaces_chars n : whole (spaces n) /\ length (chars (spaces n)) = n.
Proof.
  induction n as [|n [IHw IHc]]; [done|]. split; [exact IHw|].
  change (spaces (S n)) with (" " +:+ spaces n). rewrite chars_app by done. simpl. by f_equal.
Qed.

(** No text has more characters than bytes. *)
Lemma chars_from_le s : forall cur p, length (chars_from cur p s) <= String.length s + (if is_empty cur then 0 else 1).
Proof.
  induction s as [|c s IH]; intros cur p; cbn [chars_from String.length].
  - destruct (is_empty cur); simpl; lia.
  - destruct p as [|[|p]].
    + destruct (utf8_extra c) as [|k].
      * cbn [length]. specialize (IH "" 0). simpl in IH. lia.
      * specialize (IH (String c "") (S k)). simpl in IH. lia.
    + cbn [length]. specialize (IH "" 0). simpl in IH. lia.
    + specialize (IH (cur +:+ String c "") (S p)). destruct (is_empty (cur +:+ String c "")), (is_empty cur) eqn:E; try lia.
Qed.

Lemma chars_le s : length (chars s) <= String.length s.
Proof. unfold chars. pose proof (chars_from_le s "" 0) as L. simpl in L. lia. Qed.

(** ** Tables are aligned *)

Lemma pad_width w s : whole s -> length (chars s) <= w -> whole (left_align w s) /\ length (chars (left_align w s)) = w.
Proof.
  intros Hs Hl. destruct (spaces_chars (w - length (chars s))) as [Hw Hn].
  split; [by apply whole_app|]. unfold left_align. rewrite chars_app, length_app, Hn by done. lia.
Qed.

Lemma truncate_width w s : whole s -> (w = 0 -> s = "") ->
  whole (truncate s w) /\ length (chars (truncate s w)) <= w.
Proof.
  intros Hs H0. unfold truncate. destruct (Nat.leb_spec (length (chars s)) w) as [Hl|Hl]; [done|].
  destruct (concat_ones (firstn (w - 1) (chars s))) as [Hw Hc]; [by apply Forall_take, chars_ones|].
  split; [by apply whole_app|]. rewrite chars_app, Hc, length_app, length_firstn by done. simpl.
  destruct w; [|lia]. rewrite H0 in Hl by done. simpl in Hl. lia.
Qed.

Lemma truncate_short w s : String.length s <= w -> truncate s w = s.
Proof.
  intros Hl. unfold truncate. pose proof (chars_le s). destruct (Nat.leb_spec (length (chars s)) w); [done|lia].
Qed.

Lemma table_cell_width w s : whole s -> (w = 0 -> s = "") ->
  whole (table_cell w s) /\ length (chars (table_cell w s)) = w.
Proof. intros Hs H0. destruct (truncate_width w s Hs H0). by apply pad_width. Qed.

(** A cell that can stand in a column of a width. *)
Definition fits (w : nat) (s : string) : Prop := whole s /\ (w = 0 -> s = "").

(** The cells side by side, two spaces between them. *)
Definition line_width (widths : list nat) : nat := list_sum widths + 2 * (length widths - 1).

Lemma table_line_width widths cells : Forall2 fits widths cells ->
  whole (table_line widths cells) /\ length (chars (table_line widths cells)) = line_width widths.
Proof.
  unfold table_line, line_width, join. induction 1 as [|w s widths cells [Hs H0] Hf [IHw IHc]]; [done|].
  destruct (table_cell_width w s Hs H0) as [Hw Hc]. cbn [zip_with list_sum fold_right length].
  destruct Hf as [|w' s' widths cells Hf Hr]; [simpl; split; [done|lia]|].
  cbn [zip_with String.concat] in IHw, IHc |- *.
  assert (whole "  ") as Hsp by done. split; [apply whole_app; [done|]; by apply whole_app|].
  rewrite !chars_app, !length_app, Hc by done. cbn [list_sum fold_right length] in IHc. simpl (length (chars "  ")).
  unfold list_sum in *. simpl in *. lia.
Qed.

Lemma max_of_ge l n : In n l -> n <= max_of l.
Proof.
  unfold max_of. assert (forall l m, m <= fold_left Nat.max l m) as Hm.
  { clear. induction l as [|x l IH]; simpl; [lia|]. intros m. specialize (IH (Nat.max m x)). lia. }
  generalize 0. induction l as [|x l IH]; simpl; [done|]. intros m [->|Hn]; [|by apply IH].
  specialize (Hm l (Nat.max m n)). lia.
Qed.

Section Aligned.
Context `{JsonPrint}.

Lemma width_of_cell items item c : In item items ->
  Nat.min (String.length (compact (at_key c item))) 48 <= column_width items c.
Proof.
  intros Hi. unfold column_width.
  pose proof (max_of_ge (map (fun item => String.length (compact (at_key c item))) items) _
    (in_map (fun item => String.length (compact (at_key c item))) _ _ Hi)) as Hm. simpl in Hm. lia.
Qed.

Lemma width_of_name items c : Nat.min (String.length c) 48 <= column_width items c.
Proof. unfold column_width. lia. Qed.

Lemma fits_width w s : whole s -> Nat.min (String.length s) 48 <= w -> fits w s.
Proof. intros Hs Hw. split; [done|]. intros ->. destruct s; simpl in Hw; [done|lia]. Qed.

(** The characters of a value's texts are whole, as they are in every Rust string. *)
Definition texts_whole (items : list json) : Prop :=
  Forall (fun c => whole c /\ Forall (fun item => whole (compact (at_key c item))) items) (table_columns items).

(** A table of objects is aligned: it has a heading and a line for each item, all of the same
    number of characters although widths are measured in bytes; and no text of up to 48
    bytes is cut. *)
Theorem table_aligned items : texts_whole items ->
  length (table_lines items) = S (length items) /\
  Forall (fun line => length (chars line) = line_width (map (column_width items) (table_columns items))) (table_lines items) /\
  Forall (fun c => Forall (fun item => String.length (compact (at_key c item)) <= 48 ->
    truncate (compact (at_key c item)) (column_width items c) = compact (at_key c item)) items) (table_columns items).
Proof.
  intros Hw. unfold table_lines. split; [simpl; by rewrite length_map|]. split.
  - constructor; [|apply Forall_map, Forall_forall; intros item Hi; unfold compose]; apply table_line_width.
    + apply Forall2_fmap_l, Forall_Forall2_diag. revert Hw. apply Forall_impl.
      intros c [Hc _]. apply fits_width, width_of_name. done.
    + unfold table_row. apply Forall2_fmap, Forall_Forall2_diag. revert Hw. apply Forall_impl.
      intros c [_ Hc]. rewrite Forall_forall in Hc. apply fits_width; [auto|]. by apply width_of_cell.
  - apply Forall_forall. intros c _. apply Forall_forall. intros item Hi Hl. apply truncate_short.
    pose proof (width_of_cell items item c Hi). lia.
Qed.
End Aligned.

(** ** Witness *)

(** A heading, a text with a character of two bytes and a missing entry. *)
Lemma table_aligned_witness :
  let print := {| json_text := fun _ => "..." |} in
  let items := [obj [("id", JStr "run_1"); ("label", JStr (String "195" (String "169" "t")))]; obj [("id", JStr "run_22")]] in
  Forall (fun line => length (chars line) = 13) (@table_lines print items).
Proof.
  intros print items. exact (proj1 (proj2 (@table_aligned print items
    ltac:(unfold texts_whole, print, items; simpl; repeat constructor)))).
Defined.
